(** * Reversible masking of Ukrainian administrative text

    A shallow embedding of [data_masking.py] and [unmask_data.py]:
    the mapping store with its instance counters, the per-category value
    generators, the span detector, the line parser and the reverse engine,
    followed by the properties proved about them.

    Conventions.
    - A Python [str] is a list of Unicode code points ([N]); [py "..."]
      decodes a UTF-8 literal of this file into such a list.
    - A Python [dict] is an association list in insertion order, because
      [unmask_data.py] iterates over the mapping artifact.
    - The interpreter's Unicode tables, [hashlib], the global [random]
      generator and the [Faker] instance are interfaces ([Unicode],
      [Externals]); the tables of [rank_data.py] are a record ([RankData]).
    - A function that can raise returns a [result]. *)

From Stdlib Require Import String Ascii.
From Stdlib Require Import List NArith ZArith Bool Lia Arith Permutation Sorted.
Import ListNotations.
Open Scope N_scope.

(* ================================================================== *)
(** ** Python strings *)
(* ================================================================== *)

Definition str := list N.

Fixpoint str_eqb (a b : str) : bool :=
  match a, b with
  | [], [] => true
  | x :: a', y :: b' => (x =? y) && str_eqb a' b'
  | _, _ => false
  end.

(** UTF-8 decoding of the bytes of a literal (well-formed input only). *)
Fixpoint utf8_decode (bs : list N) : str :=
  match bs with
  | [] => []
  | b :: r =>
    if b <? 128 then b :: utf8_decode r
    else if b <? 224 then
      match r with
      | b2 :: r2 => ((b mod 32) * 64 + b2 mod 64) :: utf8_decode r2
      | _ => []
      end
    else if b <? 240 then
      match r with
      | b2 :: b3 :: r3 =>
        ((b mod 16) * 4096 + (b2 mod 64) * 64 + b3 mod 64) :: utf8_decode r3
      | _ => []
      end
    else
      match r with
      | b2 :: b3 :: b4 :: r4 =>
        ((b mod 8) * 262144 + (b2 mod 64) * 4096 + (b3 mod 64) * 64 + b4 mod 64)
          :: utf8_decode r4
      | _ => []
      end
  end.

Fixpoint bytes_of_string (s : string) : list N :=
  match s with
  | EmptyString => []
  | String a s' => N_of_ascii a :: bytes_of_string s'
  end.

Definition py (s : string) : str := utf8_decode (bytes_of_string s).
Arguments py s%_string.

(** [s.encode('utf-8')]: a lone surrogate raises [UnicodeEncodeError]
    ([None] here). *)
Definition utf8_encode_char (c : N) : option (list N) :=
  if c <? 128 then Some [c]
  else if c <? 2048 then Some [192 + c / 64; 128 + c mod 64]
  else if (55296 <=? c) && (c <=? 57343) then None
  else if c <? 65536 then
    Some [224 + c / 4096; 128 + (c / 64) mod 64; 128 + c mod 64]
  else if c <? 1114112 then
    Some [240 + c / 262144; 128 + (c / 4096) mod 64;
          128 + (c / 64) mod 64; 128 + c mod 64]
  else None.

Fixpoint utf8_encode (s : str) : option (list N) :=
  match s with
  | [] => Some []
  | c :: s' =>
    match utf8_encode_char c, utf8_encode s' with
    | Some b, Some r => Some (b ++ r)
    | _, _ => None
    end
  end.

(** Slices. *)
Definition slice (s : str) (a b : nat) : str := firstn (b - a) (skipn a s). (* s[a:b] *)
Definition str_head (s : str) (n : nat) : str := firstn n s.               (* s[:n] *)
Definition str_from (s : str) (n : nat) : str := skipn n s.                (* s[n:] *)
Definition str_tail (s : str) (n : nat) : str := skipn (length s - n) s.   (* s[-n:], n > 0 *)
Definition str_drop_last (s : str) (n : nat) : str := firstn (length s - n) s. (* s[:-n], n > 0 *)

Fixpoint starts_with (s p : str) : bool :=
  match p, s with
  | [], _ => true
  | x :: p', y :: s' => (x =? y) && starts_with s' p'
  | _ :: _, [] => false
  end.

Definition ends_with (s p : str) : bool := starts_with (rev s) (rev p).

(** [s.find(p)]: index of the first occurrence. *)
Fixpoint str_find_from (s p : str) (i : nat) : option nat :=
  if starts_with s p then Some i
  else match s with
       | [] => None
       | _ :: s' => str_find_from s' p (S i)
       end.
Definition str_find (s p : str) : option nat := str_find_from s p 0.
Definition str_contains (s p : str) : bool :=
  match str_find s p with Some _ => true | None => false end.

(** [s.replace(old, new, 1)]. *)
Definition replace_first (s old new : str) : str :=
  match str_find s old with
  | Some i => firstn i s ++ new ++ skipn (i + length old) s
  | None => s
  end.

(** [s.replace(old, new)] for a one-character [old]. *)
Definition replace_char (s : str) (old : N) (new : str) : str :=
  flat_map (fun c => if c =? old then new else [c]) s.

(** [s.count(c)] for a one-character argument. *)
Definition count_char (s : str) (c : N) : nat :=
  length (filter (fun x => x =? c) s).

Fixpoint join (sep : str) (parts : list str) : str :=
  match parts with
  | [] => []
  | [p] => p
  | p :: ps => p ++ sep ++ join sep ps
  end.

(** [s.split(c)] on a one-character separator. *)
Fixpoint split_on (c : N) (s : str) : list str :=
  match s with
  | [] => [[]]
  | x :: s' =>
    match split_on c s' with
    | [] => [[]]
    | p :: ps => if x =? c then [] :: p :: ps else (x :: p) :: ps
    end
  end.

Definition mem_str (x : str) (l : list str) : bool := existsb (str_eqb x) l.

(** [str(n)] for a non-negative integer. *)
Fixpoint digits_fuel (fuel : nat) (n : N) (acc : str) : str :=
  match fuel with
  | O => acc
  | S f => let acc' := (48 + n mod 10) :: acc in
           if n <? 10 then acc' else digits_fuel f (n / 10) acc'
  end.
Definition str_of_N (n : N) : str := digits_fuel (S (N.to_nat (N.log2 n))) n [].

(** [n]-digit rendering with leading zeros ([%02d], [%04d]). *)
Definition zfill (w : nat) (s : str) : str := repeat 48 (w - length s) ++ s.

(* ================================================================== *)
(** ** The interpreter's Unicode tables *)
(* ================================================================== *)

Class Unicode := {
  ch_isupper : N -> bool;      (* Py_UNICODE_ISUPPER *)
  ch_islower : N -> bool;      (* Py_UNICODE_ISLOWER *)
  ch_istitle : N -> bool;      (* Py_UNICODE_ISTITLE *)
  ch_iscased : N -> bool;      (* _PyUnicode_IsCased *)
  ch_isdigit : N -> bool;      (* str.isdigit, per character *)
  ch_isdecimal : N -> bool;    (* \d of the re module *)
  ch_decimal_value : N -> N;   (* int() of a decimal digit *)
  ch_isalnum : N -> bool;      (* str.isalnum, per character *)
  ch_isspace : N -> bool;      (* str.isspace and \s *)
  ch_lower : N -> str;         (* full lower-case mapping *)
  ch_upper : N -> str;         (* full upper-case mapping *)
  ch_title : N -> str;         (* full title-case mapping *)
  re_fold : N -> N             (* class representative under re.IGNORECASE *)
}.

Section Strings.
Context {U : Unicode}.

(** [\w]: alphanumeric or underscore. *)
Definition ch_isword (c : N) : bool := ch_isalnum c || (c =? 95).

(** [str.lower], [str.upper]. The only context rule of CPython's [lower]
    (Greek final sigma) is part of [ch_lower]'s caller in CPython and is
    not modelled. *)
Definition lower (s : str) : str := flat_map ch_lower s.
Definition upper (s : str) : str := flat_map ch_upper s.

(** [str.capitalize]: title-case the first character, lower-case the rest. *)
Definition capitalize (s : str) : str :=
  match s with
  | [] => []
  | c :: r => ch_title c ++ lower r
  end.

(** [str.title]. *)
Fixpoint title_from (prev_cased : bool) (s : str) : str :=
  match s with
  | [] => []
  | c :: r => (if prev_cased then ch_lower c else ch_title c)
                ++ title_from (ch_iscased c) r
  end.
Definition title (s : str) : str := title_from false s.

(** [str.isupper]: no lower- or title-case character and at least one
    upper-case one. *)
Definition isupper (s : str) : bool :=
  forallb (fun c => negb (ch_islower c || ch_istitle c)) s && existsb ch_isupper s.

(** [str.islower]. *)
Definition islower (s : str) : bool :=
  forallb (fun c => negb (ch_isupper c || ch_istitle c)) s && existsb ch_islower s.

(** [str.istitle]. *)
Fixpoint istitle_from (prev_cased seen : bool) (s : str) : bool :=
  match s with
  | [] => seen
  | c :: r =>
    if ch_isupper c || ch_istitle c then
      if prev_cased then false else istitle_from true true r
    else if ch_islower c then
      if prev_cased then istitle_from true seen r else false
    else istitle_from false seen r
  end.
Definition istitle (s : str) : bool := istitle_from false false s.

(** [str.isdigit]. *)
Definition isdigit (s : str) : bool :=
  match s with [] => false | _ => forallb ch_isdigit s end.

(** [str.strip()] and [str.strip(chars)]. *)
Fixpoint lstrip_by (f : N -> bool) (s : str) : str :=
  match s with
  | c :: r => if f c then lstrip_by f r else s
  | [] => []
  end.
Definition rstrip_by (f : N -> bool) (s : str) : str := rev (lstrip_by f (rev s)).
Definition strip_by (f : N -> bool) (s : str) : str := rstrip_by f (lstrip_by f s).
Definition strip (s : str) : str := strip_by ch_isspace s.
Definition in_chars (chars : str) (c : N) : bool := existsb (N.eqb c) chars.

(** [str.split()]: maximal runs of non-space characters. *)
Fixpoint split_ws_acc (s : str) (cur : str) : list str :=
  match s with
  | [] => match cur with [] => [] | _ => [rev cur] end
  | c :: r =>
    if ch_isspace c then
      match cur with
      | [] => split_ws_acc r []
      | _ => rev cur :: split_ws_acc r []
      end
    else split_ws_acc r (c :: cur)
  end.
Definition split_ws (s : str) : list str := split_ws_acc s [].

(** [int(s)] on a run of decimal digits. *)
Definition int_of (s : str) : N :=
  fold_left (fun acc c => acc * 10 + ch_decimal_value c) s 0.

End Strings.

(* ================================================================== *)
(** ** Exceptions *)
(* ================================================================== *)

Inductive exn := KeyError | IndexError | ValueError | UnicodeEncodeError.

Inductive result (A : Type) :=
| Ok (a : A)
| Raise (e : exn).
Arguments Ok {A} a.
Arguments Raise {A} e.

(* ================================================================== *)
(** ** Dictionaries in insertion order *)
(* ================================================================== *)

Definition pydict (V : Type) := list (str * V).

Fixpoint dict_get {V} (d : pydict V) (k : str) : option V :=
  match d with
  | [] => None
  | (k', v) :: d' => if str_eqb k k' then Some v else dict_get d' k
  end.

(** [d[k] = v]: an existing key keeps its place, a new one goes last. *)
Fixpoint dict_set {V} (d : pydict V) (k : str) (v : V) : pydict V :=
  match d with
  | [] => [(k, v)]
  | (k', v') :: d' =>
    if str_eqb k k' then (k', v) :: d' else (k', v') :: dict_set d' k v
  end.

Definition dict_mem {V} (d : pydict V) (k : str) : bool :=
  match dict_get d k with Some _ => true | None => false end.

Definition from_option {A} (d : A) (o : option A) : A :=
  match o with Some a => a | None => d end.

(* ================================================================== *)
(** ** The mapping store and its instance counters *)
(* ================================================================== *)

(** One record of the store: [{"masked_as": ..., "instances": [...]}]. *)
Record mask_info := MaskInfo { masked_as : str; instances : list N }.

(** [masking_dict]: ["mappings"] (category, then original) and
    ["statistics"] (per-category count of distinct originals). *)
Record masking_dict := MaskingDict {
  mappings : pydict (pydict mask_info);
  statistics : pydict N
}.

(** [instance_counters]: masked value to running count. *)
Definition counters := pydict N.

Definition counter_of (ic : counters) (m : str) : N := from_option 0 (dict_get ic m).

Definition get_record (md : masking_dict) (category original : str) : option mask_info :=
  match dict_get (mappings md) category with
  | Some cat => dict_get cat original
  | None => None
  end.

Definition stat_of (md : masking_dict) (category : str) : N :=
  from_option 0 (dict_get (statistics md) category).

(** [get_next_instance]. *)
Definition get_next_instance (masked_value : str) (instance_counters : counters)
  : N * counters :=
  (* instance_counters.setdefault(masked_value, 0) *)
  let ic1 := if dict_mem instance_counters masked_value then instance_counters
             else dict_set instance_counters masked_value 0 in
  (* instance_counters[masked_value] += 1 *)
  let n := counter_of ic1 masked_value + 1 in
  (n, dict_set ic1 masked_value n).

(** [add_to_mapping]. A category absent from ["mappings"] is a [KeyError]. *)
Definition add_to_mapping (md : masking_dict) (ic : counters)
    (category original masked : str) : result (str * masking_dict * counters) :=
  match dict_get (mappings md) category with
  | None => Raise KeyError
  | Some cat =>
    let '(cat1, stats1, masked1) :=
      match dict_get cat original with
      | None =>
        (dict_set cat original (MaskInfo masked []),
         dict_set (statistics md) category (stat_of md category + 1),
         masked)
      | Some info => (cat, statistics md, masked_as info)
      end in
    let '(instance_num, ic') := get_next_instance masked1 ic in
    match dict_get cat1 original with
    | None => Raise KeyError
    | Some info =>
      let info' := MaskInfo (masked_as info) (instances info ++ [instance_num]) in
      Ok (masked1,
          MaskingDict (dict_set (mappings md) category (dict_set cat1 original info')) stats1,
          ic')
    end
  end.

(** A run of the store's single mutation entry point: a sequence of
    [add_to_mapping] calls on the same store and counters. *)
Inductive call := Call (category original masked : str).

Fixpoint run_calls (cs : list call) (md : masking_dict) (ic : counters)
  : result (masking_dict * counters) :=
  match cs with
  | [] => Ok (md, ic)
  | Call category original masked :: cs' =>
    match add_to_mapping md ic category original masked with
    | Ok (_, md', ic') => run_calls cs' md' ic'
    | Raise e => Raise e
    end
  end.

Definition empty_counters : counters := [].

(** The store [main] creates: every category present and empty. *)
Definition store_categories : list str :=
  [py "ipn"; py "passport_id"; py "military_id"; py "surname"; py "name";
   py "military_unit"; py "order_number"; py "order_number_with_letters";
   py "br_number"; py "br_number_slash"; py "br_number_complex"; py "rank";
   py "brigade_number"; py "date"; py "patronymic"].

Definition fresh_masking_dict : masking_dict :=
  MaskingDict (map (fun k => (k, [])) store_categories) [].

(* ================================================================== *)
(** ** Regular expressions of the [re] module *)
(* ================================================================== *)

(** Character sets. *)
Inductive cset :=
| CChar (c : N)
| CRange (lo hi : N)
| CDigit                       (* \d *)
| CWord                        (* \w *)
| CSpace                       (* \s *)
| CAny                         (* . *)
| CNot (s : cset)
| COr (a b : cset).

(** Patterns: the constructs the two scripts use. Quantifiers are greedy. *)
Inductive regex :=
| REps
| RSet (s : cset)
| RSeq (a b : regex)
| RAlt (a b : regex)
| RRep (lo : nat) (hi : option nat) (r : regex)   (* r{lo,hi} *)
| RGroup (i : nat) (r : regex)                    (* i-th capturing group *)
| RWordB                                          (* \b *)
| RBol                                            (* ^ *)
| REol                                            (* $ *)
| RNotBehind (w : nat) (r : regex)                (* (?<!r), r of width w *)
| RNotAhead (r : regex)                           (* (?!r) *)
| RBackref (i : nat).                             (* \i *)

Definition star (r : regex) : regex := RRep 0 None r.
Definition plus (r : regex) : regex := RRep 1 None r.
Definition opt (r : regex) : regex := RRep 0 (Some 1%nat) r.
Definition times (n : nat) (r : regex) : regex := RRep n (Some n) r.

Fixpoint seqs (l : list regex) : regex :=
  match l with
  | [] => REps
  | [r] => r
  | r :: l' => RSeq r (seqs l')
  end.

Fixpoint alts (l : list regex) : regex :=
  match l with
  | [] => RSet (CNot CAny)
  | [r] => r
  | r :: l' => RAlt r (alts l')
  end.

(** A literal string, and a set given by its characters. *)
Definition lit (s : str) : regex := seqs (map (fun c => RSet (CChar c)) s).

Fixpoint chars (s : str) : cset :=
  match s with
  | [] => CNot (COr CAny (CChar 10))
  | [c] => CChar c
  | c :: s' => COr (CChar c) (chars s')
  end.

Fixpoint csets (l : list cset) : cset :=
  match l with
  | [] => CNot (COr CAny (CChar 10))
  | [c] => c
  | c :: l' => COr c (csets l')
  end.

(** The range [a-b] given by two one-character literals. *)
Definition range (a b : str) : cset := CRange (hd 0 a) (hd 0 b).

Definition digit := RSet CDigit.
Definition space := RSet CSpace.

(** A position in the subject: the text before it (reversed), the text
    after it, and its index. *)
Record cursor := Cursor { c_pre : str; c_post : str; c_pos : nat }.

(** Group number to the span it last matched. *)
Definition captures := list (nat * (nat * nat)).

Fixpoint cap_get (caps : captures) (i : nat) : option (nat * nat) :=
  match caps with
  | [] => None
  | (j, sp) :: caps' => if Nat.eqb i j then Some sp else cap_get caps' i
  end.

Definition N_range (lo hi : N) : list N :=
  map N.of_nat (seq (N.to_nat lo) (N.to_nat hi + 1 - N.to_nat lo)).

Section Regex.
Context {U : Unicode}.

(** Membership, with or without [re.IGNORECASE]. Under IGNORECASE the
    compiled set holds the folded members and the subject character is
    folded before the test. *)
Fixpoint cset_mem (ic : bool) (s : cset) (c : N) : bool :=
  match s with
  | CChar x => if ic then re_fold c =? re_fold x else c =? x
  | CRange lo hi =>
    if ic then existsb (fun y => re_fold y =? re_fold c) (N_range lo hi)
    else (lo <=? c) && (c <=? hi)
  | CDigit => ch_isdecimal c
  | CWord => ch_isword c
  | CSpace => ch_isspace c
  | CAny => negb (c =? 10)
  | CNot s' => negb (cset_mem ic s' c)
  | COr a b => cset_mem ic a c || cset_mem ic b c
  end.

Definition advance (cur : cursor) : option (N * cursor) :=
  match c_post cur with
  | [] => None
  | c :: rest => Some (c, Cursor (c :: c_pre cur) rest (S (c_pos cur)))
  end.

Definition at_word_boundary (cur : cursor) : bool :=
  let before := match c_pre cur with c :: _ => ch_isword c | [] => false end in
  let after := match c_post cur with c :: _ => ch_isword c | [] => false end in
  xorb before after.

(** The cursor [w] characters back, when there are that many. *)
Definition step_back (w : nat) (cur : cursor) : option cursor :=
  if (w <=? length (c_pre cur))%nat then
    Some (Cursor (skipn w (c_pre cur))
                 (rev (firstn w (c_pre cur)) ++ c_post cur)
                 (c_pos cur - w))
  else None.

Definition whole_text (cur : cursor) : str := rev (c_pre cur) ++ c_post cur.

Fixpoint match_folded (ic : bool) (p : str) (cur : cursor) : option cursor :=
  match p with
  | [] => Some cur
  | x :: p' =>
    match advance cur with
    | Some (c, cur') =>
      if cset_mem ic (CChar x) c then match_folded ic p' cur' else None
    | None => None
    end
  end.

(** Backtracking matcher in continuation-passing style: [k] is what remains
    to be matched after [r]. Alternatives are tried left to right and
    repetitions take as many iterations as they can before giving back. *)
Fixpoint rmatch (ic : bool) (r : regex) (cur : cursor) (caps : captures)
    (k : cursor -> captures -> option (cursor * captures)) {struct r}
  : option (cursor * captures) :=
  match r with
  | REps => k cur caps
  | RSet s =>
    match advance cur with
    | Some (c, cur') => if cset_mem ic s c then k cur' caps else None
    | None => None
    end
  | RSeq a b => rmatch ic a cur caps (fun cur' caps' => rmatch ic b cur' caps' k)
  | RAlt a b =>
    match rmatch ic a cur caps k with
    | Some x => Some x
    | None => rmatch ic b cur caps k
    end
  | RRep lo hi r' =>
    (fix rep (fuel n : nat) (cur : cursor) (caps : captures) {struct fuel} :=
       match fuel with
       | O => None
       | S fuel' =>
         let more :=
           if match hi with Some h => (n <? h)%nat | None => true end then
             rmatch ic r' cur caps
               (fun cur' caps' =>
                  if (lo <=? n)%nat && Nat.eqb (c_pos cur') (c_pos cur) then None
                  else rep fuel' (S n) cur' caps')
           else None in
         match more with
         | Some x => Some x
         | None => if (lo <=? n)%nat then k cur caps else None
         end
       end) (S (lo + length (c_post cur))) 0%nat cur caps
  | RGroup i r' =>
    rmatch ic r' cur caps
      (fun cur' caps' => k cur' ((i, (c_pos cur, c_pos cur')) :: caps'))
  | RWordB => if at_word_boundary cur then k cur caps else None
  | RBol => if Nat.eqb (c_pos cur) 0 then k cur caps else None
  | REol =>
    match c_post cur with
    | [] => k cur caps
    | [c] => if c =? 10 then k cur caps else None
    | _ => None
    end
  | RNotBehind w r' =>
    match step_back w cur with
    | None => k cur caps
    | Some back =>
      match rmatch ic r' back caps
              (fun cur' caps' =>
                 if Nat.eqb (c_pos cur') (c_pos cur) then Some (cur', caps')
                 else None) with
      | Some _ => None
      | None => k cur caps
      end
    end
  | RNotAhead r' =>
    match rmatch ic r' cur caps (fun cur' caps' => Some (cur', caps')) with
    | Some _ => None
    | None => k cur caps
    end
  | RBackref i =>
    match cap_get caps i with
    | None => None
    | Some (s, e) =>
      match match_folded ic (slice (whole_text cur) s e) cur with
      | Some cur' => k cur' caps
      | None => None
      end
    end
  end.

(** A match object: the span of group 0 and the groups' spans. *)
Record rematch := ReMatch { m_start : nat; m_end : nat; m_caps : captures }.

Definition accept (must_advance : bool) (start : nat)
  : cursor -> captures -> option (cursor * captures) :=
  fun cur caps =>
    if must_advance && Nat.eqb (c_pos cur) start then None else Some (cur, caps).

(** First match starting at or after the cursor. *)
Fixpoint search_at (ic : bool) (r : regex) (pre post : str) (pos : nat)
    (must_advance : bool) {struct post} : option (rematch * cursor) :=
  match rmatch ic r (Cursor pre post pos) [] (accept must_advance pos) with
  | Some (cur', caps) => Some (ReMatch pos (c_pos cur') caps, cur')
  | None =>
    match post with
    | [] => None
    | c :: rest => search_at ic r (c :: pre) rest (S pos) false
    end
  end.

(** [re.finditer]: after an empty match the next one must advance. *)
Fixpoint finditer_from (fuel : nat) (ic : bool) (r : regex) (cur : cursor)
    (must_advance : bool) : list rematch :=
  match fuel with
  | O => []
  | S fuel' =>
    match search_at ic r (c_pre cur) (c_post cur) (c_pos cur) must_advance with
    | None => []
    | Some (m, cur') =>
      m :: finditer_from fuel' ic r cur' (Nat.eqb (m_start m) (m_end m))
    end
  end.

Definition finditer (ic : bool) (r : regex) (text : str) : list rematch :=
  finditer_from (2 * length text + 2) ic r (Cursor [] text 0) false.

(** [re.search] and [re.match]. *)
Definition re_search (ic : bool) (r : regex) (text : str) : option rematch :=
  match search_at ic r [] text 0 false with
  | Some (m, _) => Some m
  | None => None
  end.

Definition re_match (ic : bool) (r : regex) (text : str) : option rematch :=
  match rmatch ic r (Cursor [] text 0) [] (fun cur caps => Some (cur, caps)) with
  | Some (cur', caps) => Some (ReMatch 0 (c_pos cur') caps)
  | None => None
  end.

Definition found (o : option rematch) : bool :=
  match o with Some _ => true | None => false end.

(** [m.group(0)], [m.group(i)] (the empty string stands for [None]),
    [m.start(i)]. *)
Definition group0 (text : str) (m : rematch) : str := slice text (m_start m) (m_end m).

Definition group_opt (text : str) (m : rematch) (i : nat) : option str :=
  match cap_get (m_caps m) i with
  | Some (s, e) => Some (slice text s e)
  | None => None
  end.

Definition group (text : str) (m : rematch) (i : nat) : str :=
  from_option [] (group_opt text m i).

Definition group_start (m : rematch) (i : nat) : nat :=
  match cap_get (m_caps m) i with Some (s, _) => s | None => 0%nat end.

(** [re.sub(pattern, repl, text)] with [repl] a function of the matched text. *)
Fixpoint sub_matches (text : str) (ms : list rematch) (from : nat)
    (repl : str -> str) : str :=
  match ms with
  | [] => skipn from text
  | m :: ms' =>
    slice text from (m_start m) ++ repl (group0 text m)
      ++ sub_matches text ms' (m_end m) repl
  end.

Definition re_sub (ic : bool) (r : regex) (repl : str -> str) (text : str) : str :=
  sub_matches text (finditer ic r text) 0 repl.

End Regex.

(* ================================================================== *)
(** ** Configuration and external collaborators *)
(* ================================================================== *)

(** The module-level switches of [data_masking.py]. *)
Record config := Config {
  MASK_NAMES : bool;
  MASK_IPN : bool;
  MASK_PASSPORT : bool;
  MASK_MILITARY_ID : bool;
  MASK_RANKS : bool;
  MASK_BRIGADES : bool;
  MASK_UNITS : bool;
  MASK_ORDERS : bool;
  MASK_BR_NUMBERS : bool;
  MASK_DATES : bool;
  PRESERVE_CASE : bool;
  HASH_ALGORITHM : str
}.

(** The values the script ships with. *)
Definition default_config : config :=
  Config true true true true true true true true true true true (py "blake2b").

Inductive hash_alg := MD5 | SHA1 | SHA256 | BLAKE2B | SHA512.

Definition hash_alg_of (name : str) : option hash_alg :=
  if str_eqb name (py "md5") then Some MD5
  else if str_eqb name (py "sha1") then Some SHA1
  else if str_eqb name (py "sha256") then Some SHA256
  else if str_eqb name (py "blake2b") then Some BLAKE2B
  else if str_eqb name (py "sha512") then Some SHA512
  else None.

(** [hashlib], the global generator of the [random] module and the
    [Faker('uk_UA')] instance [fake_uk]. The generator and the Faker
    instance each carry a state of their own: [Faker.seed_instance] gives
    the instance a private generator. *)
Class Externals := {
  (* int(hasher.hexdigest(), 16) of the given bytes *)
  digest : hash_alg -> list N -> N;
  rng_state : Type;
  (* random.seed(n) *)
  rng_seed : N -> rng_state;
  (* the number behind random._randbelow(n), before reduction to [0, n) *)
  rng_draw : rng_state -> N -> N * rng_state;
  fk_state : Type;
  (* fake_uk.seed_instance(n) *)
  fk_seed_instance : N -> fk_state;
  fk_last_name : fk_state -> str * fk_state;
  fk_first_name_male : fk_state -> str * fk_state;
  fk_first_name_female : fk_state -> str * fk_state;
  fk_middle_name_male : fk_state -> str * fk_state;
  fk_middle_name_female : fk_state -> str * fk_state
}.

Section World.
Context {U : Unicode} {E : Externals}.

(** Everything a masking call can read or change: the store and counters
    it is handed, and the two generators. *)
Record world := World {
  w_md : masking_dict;
  w_ic : counters;
  w_rng : rng_state;
  w_fk : fk_state
}.

(** Computations that may raise and that thread the world. An exception
    propagates to the caller; the only handler in the scripts
    ([mask_date]) guards code that raises before it changes anything. *)
Definition M (A : Type) : Type := world -> result (A * world).

Definition ret {A} (a : A) : M A := fun w => Ok (a, w).

Definition bind {A B} (m : M A) (f : A -> M B) : M B :=
  fun w => match m w with
           | Ok (a, w') => f a w'
           | Raise e => Raise e
           end.

Definition raise {A} (e : exn) : M A := fun _ => Raise e.

Definition lift_result {A} (r : result A) : M A :=
  fun w => match r with Ok a => Ok (a, w) | Raise e => Raise e end.

(** [try: m except Exception: h]. *)
Definition try_except {A} (m : M A) (h : M A) : M A :=
  fun w => match m w with
           | Ok x => Ok x
           | Raise _ => h w
           end.

End World.

Declare Scope monad_scope.
Delimit Scope monad_scope with monad.
Notation "x <- m ;; k" := (bind m (fun x => k))
  (at level 61, m at next level, right associativity) : monad_scope.
Notation "m ;;; k" := (bind m (fun _ => k))
  (at level 61, right associativity) : monad_scope.
Open Scope monad_scope.

Section Generators.
Context {U : Unicode} {E : Externals}.
Variable cfg : config.

(** [random.seed(seed)]. *)
Definition random_seed (seed : N) : M unit :=
  fun w => Ok (tt, World (w_md w) (w_ic w) (rng_seed seed) (w_fk w)).

(** [random._randbelow(n)] for [n > 0]. *)
Definition randbelow (n : N) : M N :=
  fun w => let '(x, g) := rng_draw (w_rng w) n in
           Ok (x mod n, World (w_md w) (w_ic w) g (w_fk w)).

(** [random.randint(a, b)] for [a <= b]. *)
Definition randint (a b : N) : M N :=
  x <- randbelow (b + 1 - a) ;; ret (a + x).

(** [random.choice(seq)]; an empty sequence is an [IndexError]. *)
Definition choice {A} (seq : list A) : M A :=
  match seq with
  | [] => raise IndexError
  | d :: _ => i <- randbelow (N.of_nat (length seq)) ;; ret (nth (N.to_nat i) seq d)
  end.

(** [''.join([str(random.randint(0, 9)) for _ in range(n)])]. *)
Fixpoint random_digits (n : nat) : M str :=
  match n with
  | O => ret []
  | S n' => d <- randint 0 9 ;; r <- random_digits n' ;; ret (str_of_N d ++ r)
  end.

(** [fake_uk.seed_instance(seed)] and the providers. *)
Definition faker_seed (seed : N) : M unit :=
  fun w => Ok (tt, World (w_md w) (w_ic w) (w_rng w) (fk_seed_instance seed)).

Definition faker_call (f : fk_state -> str * fk_state) : M str :=
  fun w => let '(s, fk) := f (w_fk w) in
           Ok (s, World (w_md w) (w_ic w) (w_rng w) fk).

(** [get_deterministic_seed]. *)
Definition get_deterministic_seed (original : str) : result N :=
  match hash_alg_of (HASH_ALGORITHM cfg) with
  | None => Raise ValueError
  | Some alg =>
    match utf8_encode original with
    | None => Raise UnicodeEncodeError
    | Some bytes => Ok (digest alg bytes mod 2 ^ 32)
    end
  end.

(** [masking_dict["mappings"][category]]. *)
Definition store_category (category : str) : M (pydict mask_info) :=
  fun w => match dict_get (mappings (w_md w)) category with
           | Some cat => Ok (cat, w)
           | None => Raise KeyError
           end.

(** [add_to_mapping(masking_dict, instance_counters, category, original, masked)]
    on the world's store and counters. *)
Definition record_mapping (category original masked : str) : M str :=
  fun w => match add_to_mapping (w_md w) (w_ic w) category original masked with
           | Ok (r, md, ic) => Ok (r, World md ic (w_rng w) (w_fk w))
           | Raise e => Raise e
           end.

(** [mask_ipn]. *)
Definition mask_ipn (original : str) : M str :=
  cat <- store_category (py "ipn") ;;
  match dict_get cat original with
  | Some info => record_mapping (py "ipn") original (masked_as info)
  | None =>
    if negb (Nat.eqb (length original) 10) || negb (isdigit original) then ret original
    else
      seed <- lift_result (get_deterministic_seed original) ;;
      random_seed seed ;;;
      middle <- random_digits 6 ;;
      record_mapping (py "ipn") original
        (str_head original 3 ++ middle ++ str_tail original 1)
  end.

(** [mask_passport_id]. *)
Definition mask_passport_id (original : str) : M str :=
  cat <- store_category (py "passport_id") ;;
  match dict_get cat original with
  | Some info => record_mapping (py "passport_id") original (masked_as info)
  | None =>
    if negb (Nat.eqb (length original) 9) || negb (isdigit original) then ret original
    else
      seed <- lift_result (get_deterministic_seed original) ;;
      random_seed seed ;;;
      middle <- random_digits 5 ;;
      record_mapping (py "passport_id") original
        (str_head original 3 ++ middle ++ str_tail original 1)
  end.

End Generators.

(* ================================================================== *)
(** ** Concrete tables for examples *)
(* ================================================================== *)

(** The rows of the Unicode Character Database for Basic Latin, the
    superscript digits of Latin-1 and Cyrillic U+0400..U+045F, U+0490,
    U+0491, with the white-space characters of [str.isspace]. A code point
    outside these rows is left unclassified. Examples are evaluated with
    this table; theorems quantify over every [Unicode]. *)
Definition in_range (lo hi c : N) : bool := (lo <=? c) && (c <=? hi).

Definition ucd_isupper (c : N) : bool :=
  in_range 65 90 c || in_range 1024 1071 c || (c =? 1168).

Definition ucd_islower (c : N) : bool :=
  in_range 97 122 c || in_range 1072 1119 c || (c =? 1169).

Definition ucd_isdecimal (c : N) : bool := in_range 48 57 c.

Definition ucd_isdigit (c : N) : bool :=
  in_range 48 57 c || (c =? 178) || (c =? 179) || (c =? 185).

Definition ucd_isspace (c : N) : bool :=
  in_range 9 13 c || in_range 28 32 c || (c =? 133) || (c =? 160)
  || (c =? 5760) || in_range 8192 8202 c || (c =? 8232) || (c =? 8233)
  || (c =? 8239) || (c =? 8287) || (c =? 12288).

Definition ucd_lower (c : N) : N :=
  if in_range 65 90 c then c + 32
  else if in_range 1040 1071 c then c + 32
  else if in_range 1024 1039 c then c + 80
  else if c =? 1168 then 1169
  else c.

Definition ucd_upper (c : N) : N :=
  if in_range 97 122 c then c - 32
  else if in_range 1072 1103 c then c - 32
  else if in_range 1104 1119 c then c - 80
  else if c =? 1169 then 1168
  else c.

#[export] Instance ucd : Unicode := {
  ch_isupper := ucd_isupper;
  ch_islower := ucd_islower;
  ch_istitle := fun _ => false;
  ch_iscased := fun c => ucd_isupper c || ucd_islower c;
  ch_isdigit := ucd_isdigit;
  ch_isdecimal := ucd_isdecimal;
  ch_decimal_value := fun c => c - 48;
  ch_isalnum := fun c => ucd_isupper c || ucd_islower c || ucd_isdigit c;
  ch_isspace := ucd_isspace;
  ch_lower := fun c => [ucd_lower c];
  ch_upper := fun c => [ucd_upper c];
  ch_title := fun c => [ucd_upper c];
  re_fold := ucd_lower
}.

(** Stand-ins for the external collaborators, for examples only: a
    checksum for the hash, a linear congruential generator, and a Faker
    that walks through short lists of names. *)
Definition demo_digest (alg : hash_alg) (bytes : list N) : N :=
  fold_left (fun acc b => (acc * 257 + b + 1) mod 4294967311) bytes
            (match alg with MD5 => 1 | SHA1 => 2 | SHA256 => 3 | BLAKE2B => 4 | SHA512 => 5 end).

Definition demo_draw (g : N) (n : N) : N * N :=
  let g' := (g * 1103515245 + 12345) mod 2147483648 in (g' / 65536, g').

Definition demo_pick (names : list str) (g : N) : str * N :=
  (nth (N.to_nat (g mod N.of_nat (length names))) names [], g + 1).

Definition demo_last_names : list str :=
  [py "Шевченко"; py "Мельник"; py "Бойко"; py "Ткаченко"; py "Гук"].
Definition demo_first_names_male : list str :=
  [py "Назар"; py "Нестор"; py "Григорій"; py "Наум"; py "Захар"].
Definition demo_first_names_female : list str :=
  [py "Зоя"; py "Ніна"; py "Лідія"; py "Христина"].
Definition demo_middle_names_male : list str :=
  [py "Іванович"; py "Петрович"; py "Андрійович"; py "Олегович"].
Definition demo_middle_names_female : list str :=
  [py "Іванівна"; py "Петрівна"; py "Андріївна"; py "Олегівна"].

#[export] Instance demo_externals : Externals := {
  digest := demo_digest;
  rng_state := N;
  rng_seed := fun n => n;
  rng_draw := demo_draw;
  fk_state := N;
  fk_seed_instance := fun n => n;
  fk_last_name := demo_pick demo_last_names;
  fk_first_name_male := demo_pick demo_first_names_male;
  fk_first_name_female := demo_pick demo_first_names_female;
  fk_middle_name_male := demo_pick demo_middle_names_male;
  fk_middle_name_female := demo_pick demo_middle_names_female
}.

(** A stand-in for the external collaborators whose generator always draws
    the least value and whose Faker always draws the first name of the
    lists above. *)
Definition first_pick (names : list str) (s : unit) : str * unit := (nth 0 names [], s).

Definition least_externals : Externals := {|
  digest := demo_digest;
  rng_state := unit;
  rng_seed := fun _ => tt;
  rng_draw := fun g _ => (0, g);
  fk_state := unit;
  fk_seed_instance := fun _ => tt;
  fk_last_name := first_pick demo_last_names;
  fk_first_name_male := first_pick demo_first_names_male;
  fk_first_name_female := first_pick demo_first_names_female;
  fk_middle_name_male := first_pick demo_middle_names_male;
  fk_middle_name_female := first_pick demo_middle_names_female
|}.

(** A world with the fresh store, empty counters and arbitrary generator
    states. *)
Definition fresh_world {E : Externals} (g : rng_state) (fk : fk_state) : world :=
  World fresh_masking_dict empty_counters g fk.

Definition demo_world : world := fresh_world (E := demo_externals) 0 0.

(** The value a call returned, and the store it left. *)
Definition answer {A W} (r : result (A * W)) : option A :=
  match r with Ok (a, _) => Some a | Raise _ => None end.

Definition store_after {E : Externals} {A} (r : result (A * world)) : option masking_dict :=
  match r with Ok (_, w) => Some (w_md w) | Raise _ => None end.

(** Facts about the interpreter's tables that the properties below rely
    on: the ASCII digits are digits, and a digit is a Unicode scalar value
    (so it can be encoded). *)
Class UnicodeLaws (U : Unicode) : Prop := {
  ascii_digit_isdigit : forall c, 48 <= c <= 57 -> ch_isdigit c = true;
  isdigit_encodable : forall c, ch_isdigit c = true -> utf8_encode_char c <> None
}.

(** The shape [mask_ipn] tests for, and what it promises of a mask: the
    shape again, the original's first three characters and its last one,
    and six ASCII digits between them. *)
Definition ipn_shape {U : Unicode} (s : str) : Prop :=
  length s = 10%nat /\ isdigit s = true.

Definition ipn_masked_from {U : Unicode} (original masked : str) : Prop :=
  ipn_shape masked
  /\ str_head masked 3 = str_head original 3
  /\ str_tail masked 1 = str_tail original 1
  /\ Forall (fun c => 48 <= c <= 57) (slice masked 3 9).

(** Decimal digits, the characters [\d] and [str.isdecimal] accept, are
    among those [str.isdigit] accepts, and the ASCII digits are decimal. *)
Class DecimalLaws (U : Unicode) : Prop := {
  decimal_isdigit : forall c, ch_isdecimal c = true -> ch_isdigit c = true;
  ascii_digit_isdecimal : forall c, 48 <= c <= 57 -> ch_isdecimal c = true
}.

(** Every record of the ["ipn"] category is one [mask_ipn] wrote. *)
Definition ipn_store_ok {U : Unicode} (md : masking_dict) : Prop :=
  forall o info, get_record md (py "ipn") o = Some info ->
                 ipn_masked_from o (masked_as info).

(* ================================================================== *)
(** ** Constant lists of [data_masking.py] *)
(* ================================================================== *)

Definition ABBREVIATION_WHITELIST : list str :=
  [py "зсу"; py "моу"; py "всу"; py "дпсу"; py "нгу"; py "дснс"; py "сбу";
   py "гур"; py "тцк"; py "сп"; py "кму"; py "отцксп"].

Definition GOOD_UKRAINIAN_NAMES_MALE : list str :=
  [py "андрій"; py "богдан"; py "віктор"; py "володимир"; py "дмитро";
   py "ігор"; py "іван"; py "максим"; py "олег"; py "олексій";
   py "петро"; py "сергій"; py "тарас"; py "юрій"; py "михайло";
   py "василь"; py "роман"; py "артем"; py "денис"; py "євген";
   py "костянтин"; py "павло"; py "станіслав"; py "ярослав"].

Definition GOOD_UKRAINIAN_NAMES_FEMALE : list str :=
  [py "анна"; py "вікторія"; py "галина"; py "дарія"; py "ірина";
   py "катерина"; py "марія"; py "наталія"; py "олена"; py "оксана";
   py "світлана"; py "тетяна"; py "юлія"; py "людмила"; py "надія";
   py "валентина"; py "лариса"; py "ольга"; py "софія"; py "діана";
   py "алла"; py "ганна"; py "любов"].

Definition PROBLEMATIC_NAMES : list str :=
  [py "макаліім"; py "серубаій"; py "аарон"; py "іїлія";
   py "аадам"; py "іісус"; py "ааріон"; py "єєва";
   py "мелхіор"; py "валтасар"; py "йосип"; py "євстахій";
   py "еммануїл"; py "рафаїл"; py "самуїл"; py "ієремія"].

(** The alternatives of [RANK_PATTERNS], in the order they are written. *)
Definition army_pattern_ranks : list str :=
  [py "рекрут"; py "рядовий"; py "солдат"; py "старший солдат"; py "ефрейтор";
   py "молодший сержант"; py "сержант"; py "старший сержант";
   py "головний сержант"; py "штабс-сержант"; py "майстер-сержант";
   py "старший майстер-сержант"; py "головний майстер-сержант";
   py "прапорщик"; py "старший прапорщик"; py "молодший лейтенант";
   py "лейтенант"; py "старший лейтенант"; py "капітан"; py "майор";
   py "підполковник"; py "полковник"; py "бригадний генерал";
   py "генерал-майор"; py "генерал-лейтенант"; py "генерал"].

Definition legal_pattern_ranks : list str :=
  [py "молодший сержант юстиції"; py "сержант юстиції";
   py "старший сержант юстиції"; py "головний сержант юстиції";
   py "штабс-сержант юстиції"; py "молодший лейтенант юстиції";
   py "лейтенант юстиції"; py "старший лейтенант юстиції";
   py "капітан юстиції"; py "майор юстиції"; py "підполковник юстиції";
   py "полковник юстиції"; py "генерал-майор юстиції";
   py "генерал-лейтенант юстиції"].

Definition medical_pattern_ranks : list str :=
  [py "молодший сержант медичної служби"; py "сержант медичної служби";
   py "старший сержант медичної служби"; py "головний сержант медичної служби";
   py "штабс-сержант медичної служби"; py "молодший лейтенант медичної служби";
   py "лейтенант медичної служби"; py "старший лейтенант медичної служби";
   py "капітан медичної служби"; py "майор медичної служби";
   py "підполковник медичної служби"; py "полковник медичної служби";
   py "генерал-майор медичної служби"; py "генерал-лейтенант медичної служби"].

(** [\b(a|b|...)\b]. *)
Definition word_alternatives (l : list regex) : regex :=
  seqs [RWordB; RGroup 1 (alts l); RWordB].

Definition RANK_PATTERN_army : regex :=
  word_alternatives (map lit army_pattern_ranks).

Definition RANK_PATTERN_naval : regex :=
  word_alternatives
    [lit (py "матрос"); lit (py "моряк"); lit (py "старший матрос");
     lit (py "старший моряк"); lit (py "молодший сержант"); lit (py "сержант");
     lit (py "старший сержант"); lit (py "головний сержант");
     lit (py "штабс-сержант"); lit (py "майстер-сержант");
     lit (py "старший майстер-сержант"); lit (py "головний майстер-сержант");
     lit (py "молодший лейтенант"); lit (py "лейтенант");
     lit (py "старший лейтенант"); lit (py "капітан-лейтенант");
     seqs [lit (py "капітан "); plus digit; lit (py "-го рангу")];
     lit (py "контр-адмірал"); lit (py "віце-адмірал"); lit (py "адмірал")].

Definition RANK_PATTERN_legal : regex :=
  word_alternatives (map lit legal_pattern_ranks).

Definition RANK_PATTERN_medical : regex :=
  word_alternatives (map lit medical_pattern_ranks).

(** [RANK_PATTERNS.items()], in insertion order. *)
Definition RANK_PATTERNS : list (str * regex) :=
  [(py "army", RANK_PATTERN_army); (py "naval", RANK_PATTERN_naval);
   (py "legal", RANK_PATTERN_legal); (py "medical", RANK_PATTERN_medical)].

(* ================================================================== *)
(** ** The tables of [rank_data.py] *)
(* ================================================================== *)

(** [rank_data.py] is imported by both scripts; the scripts only read it. *)
Class RankData := {
  RANK_DECLENSIONS : pydict (pydict str);        (* base -> case -> form *)
  RANK_FEMININE_MAP : pydict str;                (* male base -> female base *)
  RANK_DECLENSIONS_FEMALE : pydict (pydict str); (* female base -> case -> form *)
  RANK_TO_NOMINATIVE : pydict (str * str * str); (* form -> (base, case, gender) *)
  ALL_RANK_FORMS : list str;
  ARMY_RANKS : list str;
  NAVAL_RANKS : list str;
  LEGAL_RANKS : list str;
  MEDICAL_RANKS : list str;
  RANKS_LIST : list str
}.

(* ================================================================== *)
(** ** Casing and name grammar *)
(* ================================================================== *)

Section Grammar.
Context {U : Unicode}.

Definition is_empty (s : str) : bool := match s with [] => true | _ => false end.
Definition is_empty_list {A} (l : list A) : bool := match l with [] => true | _ => false end.

Definition ends_with_any (s : str) (l : list str) : bool := existsb (ends_with s) l.

(** [s[0].isupper()] and [s[1:].islower()] on a non-empty [s]. *)
Definition first_isupper (s : str) : bool := isupper (str_head s 1).
Definition rest_islower (s : str) : bool := islower (str_from s 1).

(** [_apply_original_case] (the same in both scripts). *)
Definition _apply_original_case (original masked : str) : str :=
  if is_empty original || is_empty masked then masked
  else if isupper original then upper masked
  else if (1 <? length original)%nat && first_isupper original && rest_islower original
       then capitalize masked
  else lower masked.

Definition strip_punct (s : str) : str := strip_by (in_chars (py ".,!?;")) s.

(** [detect_gender_by_patronymic]. *)
Definition detect_gender_by_patronymic (patronymic : str) : str :=
  if is_empty patronymic then py "unknown"
  else
    let patron_lower := strip_punct (lower patronymic) in
    let male_endings :=
      [py "ович"; py "євич"; py "ійович"; py "йович"; py "овича"; py "євича";
       py "ійовича"; py "йовича"; py "овичу"; py "євичу"; py "ійовичу";
       py "йовичу"; py "овичем"; py "євичем"; py "ійовичем"; py "йовичем"] in
    let female_endings :=
      [py "івна"; py "ївна"; py "івни"; py "ївни"; py "івні"; py "ївні";
       py "івною"; py "ївною"] in
    if ends_with_any patron_lower male_endings then py "male"
    else if ends_with_any patron_lower female_endings then py "female"
    else py "unknown".

(** [detect_name_case_and_gender]. *)
Definition detect_name_case_and_gender (name : str) : str * str :=
  if is_empty name then (py "nominative", py "male")
  else
    let name_lower := strip_punct (lower name) in
    if ends_with_any name_lower [py "ом"; py "ем"; py "єм"; py "ім"; py "їм"]
    then (py "instrumental", py "male")
    else if ends_with_any name_lower [py "у"; py "ю"]
            && negb (ends_with_any name_lower [py "ою"; py "єю"; py "ією"])
    then (py "dative", py "male")
    else if ends_with_any name_lower [py "а"; py "я"] && (4 <? length name)%nat
            && negb (ends_with_any name_lower
                       [py "ія"; py "ла"; py "на"; py "ра"; py "та"; py "ка";
                        py "га"; py "ва"; py "ня"; py "ся"; py "ша"])
    then (py "genitive", py "male")
    else if ends_with_any name_lower [py "ією"; py "ою"; py "єю"]
    then (py "instrumental", py "female")
    else if ends_with_any name_lower [py "і"; py "ї"] && (3 <? length name)%nat
    then (py "dative", py "female")
    else if ends_with_any name_lower [py "ія"; py "а"; py "я"] && (2 <? length name)%nat
    then (py "nominative", py "female")
    else (py "nominative", py "male").

(** [re.search(r'([аеєиіїоуюя])\1', name_lower)]. *)
Definition doubled_vowel : regex :=
  RSeq (RGroup 1 (RSet (chars (py "аеєиіїоуюя")))) (RBackref 1).

(** [is_easy_to_decline]. *)
Definition is_easy_to_decline (name gender : str) : bool :=
  if is_empty name then false
  else
    let name_lower := lower name in
    if mem_str name_lower PROBLEMATIC_NAMES then false
    else if found (re_search false doubled_vowel name_lower) then false
    else if (length name <? 4)%nat || (9 <? length name)%nat then false
    else if str_eqb gender (py "male") then
      if ends_with_any name_lower
           [py "о"; py "а"; py "й"; py "ій"; py "р"; py "н"; py "л"; py "к";
            py "м"; py "в"; py "т"]
      then negb (mem_str name_lower
                   [py "ілля"; py "савва"; py "лука"; py "кузьма"; py "фома"])
      else false
    else if str_eqb gender (py "female") then
      ends_with_any name_lower [py "а"; py "я"; py "ія"]
    else false.

(** [apply_case_to_name]. *)
Definition apply_case_to_name (name0 case gender : str) : str :=
  if is_empty name0 then name0
  else
    let name := strip name0 in
    if str_eqb case (py "nominative") then name
    else if str_eqb gender (py "male") then
      let ends_o := ends_with name (py "о") in
      let ends_a := ends_with name (py "а") in
      let ends_ij := ends_with name (py "ій") in
      let ends_j := ends_with name (py "й") in
      let stem :=
        if ends_o || ends_a then str_drop_last name 1
        else if ends_ij then str_drop_last name 2 ++ py "і"
        else if ends_j then str_drop_last name 1
        else name in
      if str_eqb case (py "genitive") then
        if ends_o || ends_a then stem ++ (if ends_o then py "а" else py "и")
        else if ends_ij || ends_j then stem ++ py "я"
        else stem ++ py "а"
      else if str_eqb case (py "dative") then
        if ends_o then stem ++ py "у"
        else if ends_a then stem ++ py "і"
        else if ends_ij || ends_j then stem ++ py "ю"
        else stem ++ py "у"
      else if str_eqb case (py "instrumental") then
        if ends_o then stem ++ py "ом"
        else if ends_a then stem ++ py "ою"
        else if ends_ij || ends_j then stem ++ py "єм"
        else stem ++ py "ом"
      else name
    else if str_eqb gender (py "female") then
      let ends_ija := ends_with name (py "ія") in
      let stem :=
        if ends_ija then str_drop_last name 2
        else if ends_with_any name [py "а"; py "я"] then str_drop_last name 1
        else name in
      if str_eqb case (py "genitive") || str_eqb case (py "dative") then
        if ends_ija then stem ++ py "ії" else stem ++ py "і"
      else if str_eqb case (py "instrumental") then
        if ends_ija then stem ++ py "ією" else stem ++ py "ою"
      else name
    else name.

End Grammar.

(* ================================================================== *)
(** ** Masking of names *)
(* ================================================================== *)

Section Names.
Context {U : Unicode} {E : Externals}.
Variable cfg : config.

(** The value [mask_surname] generates for an original it has not seen:
    short surnames are replaced by a prefix of the drawn surname, longer
    ones keep three characters in front and two behind a drawn middle.
    [original[0]] of an empty original is an [IndexError]. *)
Definition generate_surname (original : str) : M str :=
  let is_upper := isupper original in
  if is_empty original then raise IndexError
  else
    let is_capitalize := first_isupper original && rest_islower original in
    seed <- lift_result (get_deterministic_seed cfg original) ;;
    random_seed seed ;;;
    faker_seed seed ;;;
    fake_surname <- faker_call fk_last_name ;;
    masked <-
      (if (length original <? 5)%nat then
         target_length <- randint (N.max 3 (N.of_nat (length original) - 1))
                                  (N.min 6 (N.of_nat (length original) + 2)) ;;
         ret (if (N.to_nat target_length <? length fake_surname)%nat
              then str_head fake_surname (N.to_nat target_length)
              else fake_surname)
       else
         r <- randint 2 7 ;;
         (* min(r, len(fake_surname) - 2); used only when len(fake_surname) > 4 *)
         let middle_len := Nat.min (N.to_nat r) (length fake_surname - 2) in
         let middle := if (4 <? length fake_surname)%nat
                       then slice fake_surname 1 (1 + middle_len)
                       else slice fake_surname 1 (length fake_surname - 1) in
         ret (str_head original 3 ++ middle ++ str_tail original 2)) ;;
    ret (if is_upper then upper masked
         else if is_capitalize then capitalize masked
         else masked).

(** The middle [mask_surname] cuts out of the surname Faker drew, for the
    number [r] drawn by [random.randint(2, 7)]. *)
Definition surname_middle (fake_surname : str) (r : N) : str :=
  let middle_len := Nat.min (N.to_nat r) (length fake_surname - 2) in
  if (4 <? length fake_surname)%nat
  then slice fake_surname 1 (1 + middle_len)
  else slice fake_surname 1 (length fake_surname - 1).

(** [mask_surname]. *)
Definition mask_surname (original : str) : M str :=
  if mem_str (lower original) ABBREVIATION_WHITELIST then ret original
  else
    cat <- store_category (py "surname") ;;
    match dict_get cat original with
    | Some info => record_mapping (py "surname") original (masked_as info)
    | None =>
      masked <- generate_surname original ;;
      record_mapping (py "surname") original masked
    end.

(** [if "patronymic" not in masking_dict["mappings"]: ... = {}]. *)
Definition ensure_category (category : str) : M unit :=
  fun w =>
    let md := w_md w in
    if dict_mem (mappings md) category then Ok (tt, w)
    else Ok (tt, World (MaskingDict (dict_set (mappings md) category []) (statistics md))
                       (w_ic w) (w_rng w) (w_fk w)).

(** The repeat branch of [mask_patronymic]: count the occurrence without
    going through [add_to_mapping]. *)
Definition count_patronymic (patronymic_lower : str) (info : mask_info) : M unit :=
  fun w =>
    let '(instance_num, ic') := get_next_instance (masked_as info) (w_ic w) in
    let md := w_md w in
    match dict_get (mappings md) (py "patronymic") with
    | None => Raise KeyError
    | Some cat =>
      let info' := MaskInfo (masked_as info) (instances info ++ [instance_num]) in
      Ok (tt, World (MaskingDict
                       (dict_set (mappings md) (py "patronymic")
                                 (dict_set cat patronymic_lower info'))
                       (statistics md))
                    ic' (w_rng w) (w_fk w))
    end.

(** [mask_patronymic]. *)
Definition mask_patronymic (patronymic gender : str) : M str :=
  if negb (MASK_NAMES cfg) || is_empty patronymic then ret patronymic
  else
    let is_upper := isupper patronymic in
    let is_capitalize :=
      if (1 <? length patronymic)%nat
      then first_isupper patronymic && rest_islower patronymic else false in
    let patronymic_lower := lower patronymic in
    ensure_category (py "patronymic") ;;;
    cat <- store_category (py "patronymic") ;;
    match dict_get cat patronymic_lower with
    | Some info =>
      let masked_with_case := _apply_original_case patronymic (masked_as info) in
      count_patronymic patronymic_lower info ;;;
      ret masked_with_case
    | None =>
      seed <- lift_result (get_deterministic_seed cfg patronymic_lower) ;;
      random_seed seed ;;;
      faker_seed seed ;;;
      fake_patronymic <-
        faker_call (if str_eqb gender (py "male")
                    then fk_middle_name_male else fk_middle_name_female) ;;
      let cased := if is_upper then upper fake_patronymic
                   else if is_capitalize then capitalize fake_patronymic
                   else lower fake_patronymic in
      record_mapping (py "patronymic") patronymic_lower cased
    end.

(** The Faker loop of [generate_easy_name]: up to [max_attempts] draws from
    [fake_uk], which is not re-seeded here. [None] when every draw was
    rejected. *)
Fixpoint faker_name_loop (max_attempts : nat) (gender first_letter : str)
  : M (option str) :=
  match max_attempts with
  | O => ret None
  | S n =>
    name <- faker_call (if str_eqb gender (py "female")
                        then fk_first_name_female else fk_first_name_male) ;;
    if is_empty name then raise IndexError
    else if negb (str_eqb (lower (str_head name 1)) first_letter)
    then faker_name_loop n gender first_letter
    else if is_easy_to_decline name gender then ret (Some name)
    else faker_name_loop n gender first_letter
  end.

(** [generate_easy_name]. The two whitelists are non-empty constants, so
    the statement after [if whitelist: return ...] is never reached. *)
Definition generate_easy_name (gender first_letter : str) (seed : N)
    (max_attempts : nat) : M str :=
  random_seed seed ;;;
  let whitelist := if str_eqb gender (py "male")
                   then GOOD_UKRAINIAN_NAMES_MALE
                   else GOOD_UKRAINIAN_NAMES_FEMALE in
  let available :=
    filter (fun n => str_eqb (lower (str_head n 1)) (lower first_letter)) whitelist in
  if negb (is_empty_list available) then
    n <- choice available ;; ret (capitalize n)
  else
    found_name <- faker_name_loop max_attempts gender first_letter ;;
    match found_name with
    | Some name => ret name
    | None => n <- choice whitelist ;; ret (capitalize n)
    end.

(** One generation attempt of [mask_name], for the seed text [seed_text]. *)
Definition name_attempt (seed_text gender first_letter case : str) : M str :=
  seed <- lift_result (get_deterministic_seed cfg seed_text) ;;
  new_name <- generate_easy_name gender first_letter seed 50 ;;
  ret (apply_case_to_name new_name case gender).

(** The [while masked.lower() == original.lower() and attempts < 10] loop;
    [budget] is the number of attempts still allowed. Returns the value the
    loop ends with and the number of retries made. *)
Fixpoint name_retry_loop (budget : nat) (original gender first_letter case : str)
    (masked : str) (attempts : N) : M (str * N) :=
  match budget with
  | O => ret (masked, attempts)
  | S budget' =>
    if str_eqb (lower masked) (lower original) then
      masked' <- name_attempt (original ++ str_of_N attempts) gender first_letter case ;;
      name_retry_loop budget' original gender first_letter case masked' (attempts + 1)
    else ret (masked, attempts)
  end.

(** The generation branch of [mask_name]: the value before the original's
    casing is applied, with the number of retries. *)
Definition generate_name (original : str) (gender_hint patronymic_hint : option str)
  : M (str * N) :=
  let '(case, gender_from_name) := detect_name_case_and_gender original in
  let truthy o := match o with Some s => negb (is_empty s) | None => false end in
  let gender0 :=
    if truthy gender_hint then from_option [] gender_hint
    else if truthy patronymic_hint then
      let g := detect_gender_by_patronymic (from_option [] patronymic_hint) in
      if str_eqb g (py "unknown") then gender_from_name else g
    else gender_from_name in
  let gender := if str_eqb gender0 (py "unknown") then py "male" else gender0 in
  let first_letter := lower (str_head original 1) in
  masked <- name_attempt original gender first_letter case ;;
  name_retry_loop 10 original gender first_letter case masked 0.

(** The casing [mask_name] applies before it records: [is_upper],
    [is_capitalize], [is_lower] are taken from the original. *)
Definition name_casing (original masked : str) : str :=
  let is_upper := isupper original in
  let is_capitalize :=
    first_isupper original && (Nat.eqb (length original) 1 || rest_islower original) in
  let is_lower := islower original in
  if is_upper then upper masked
  else if is_capitalize then capitalize masked
  else if is_lower then lower masked
  else masked.

(** [mask_name]. [original[0]] is evaluated first, so an empty original is
    an [IndexError]. *)
Definition mask_name (original : str) (gender_hint patronymic_hint : option str)
  : M str :=
  if is_empty original then raise IndexError
  else
    cat <- store_category (py "name") ;;
    masked <-
      match dict_get cat original with
      | Some info => ret (masked_as info)
      | None => r <- generate_name original gender_hint patronymic_hint ;; ret (fst r)
      end ;;
    record_mapping (py "name") original (name_casing original masked).

End Names.

(* ================================================================== *)
(** ** Masking of ranks *)
(* ================================================================== *)

Section Ranks.
Context {U : Unicode} {E : Externals} {RD : RankData}.
Variable cfg : config.

(** [get_rank_info] (the same in both scripts): [None] stands for the
    triple [(None, None, None)]. *)
Definition get_rank_info (rank_form : str) : option (str * str * str) :=
  dict_get RANK_TO_NOMINATIVE (lower rank_form).

(** [get_rank_in_case]. *)
Definition get_rank_in_case (nominative_rank target_case : str) : str :=
  match dict_get RANK_DECLENSIONS nominative_rank with
  | None => nominative_rank
  | Some forms => from_option nominative_rank (dict_get forms target_case)
  end.

(** [get_rank_category_and_match]: the first pattern, in the order of
    [RANK_PATTERNS], that matches anywhere in the lower-cased text. *)
Fixpoint first_rank_pattern (patterns : list (str * regex)) (text_lower : str)
  : option (str * str) :=
  match patterns with
  | [] => None
  | (category, pattern) :: rest =>
    match re_search true pattern text_lower with
    | Some m => Some (category, group0 text_lower m)
    | None => first_rank_pattern rest text_lower
    end
  end.

Definition get_rank_category_and_match (text : str) : option (str * str) :=
  first_rank_pattern RANK_PATTERNS (lower text).

(** The hierarchy [mask_rank] selects for a category name. *)
Definition hierarchy_of (category_name : str) : option (list str) :=
  if str_eqb category_name (py "army") then Some ARMY_RANKS
  else if str_eqb category_name (py "naval") then Some NAVAL_RANKS
  else if str_eqb category_name (py "legal") then Some LEGAL_RANKS
  else if str_eqb category_name (py "medical") then Some MEDICAL_RANKS
  else None.

(** [list.index]. *)
Fixpoint index_of (x : str) (l : list str) : option nat :=
  match l with
  | [] => None
  | y :: l' => if str_eqb x y then Some 0%nat
               else match index_of x l' with Some i => Some (S i) | None => None end
  end.

(** [max(0, min(len(hierarchy) - 1, idx + shift))]. *)
Definition clamp_index (hierarchy : list str) (idx : nat) (shift : Z) : nat :=
  Z.to_nat (Z.max 0 (Z.min (Z.of_nat (length hierarchy) - 1) (Z.of_nat idx + shift))).

Definition rank_shifts : list Z := [-2; -1; 1; 2]%Z.

(** One draw: [shift = random.choice([-2, -1, 1, 2])] and the rank at the
    clamped index. *)
Definition draw_rank (hierarchy : list str) (idx : nat) : M (str * Z) :=
  shift <- choice rank_shifts ;;
  ret (nth (clamp_index hierarchy idx shift) hierarchy [], shift).

(** The [while masked.lower() == original_key and attempts < 10] loop. *)
Fixpoint rank_retry_loop (budget : nat) (hierarchy : list str) (idx : nat)
    (original_key : str) (masked : str) (shift : Z) (attempts : N)
  : M (str * Z * N) :=
  match budget with
  | O => ret (masked, shift, attempts)
  | S budget' =>
    if str_eqb (lower masked) original_key then
      d <- draw_rank hierarchy idx ;;
      rank_retry_loop budget' hierarchy idx original_key (fst d) (snd d) (attempts + 1)
    else ret (masked, shift, attempts)
  end.

(** The generation step of [mask_rank]: the base form the loop ends with,
    the shift that produced it and the number of retries. *)
Definition generate_rank (hierarchy : list str) (idx : nat) (original_key : str)
  : M (str * Z * N) :=
  seed <- lift_result (get_deterministic_seed cfg original_key) ;;
  random_seed seed ;;;
  d <- draw_rank hierarchy idx ;;
  rank_retry_loop 10 hierarchy idx original_key (fst d) (snd d) 0.

(** [any(other["masked_as"].lower() == original_key and other_original !=
    original_key)] over the rank records. *)
Definition is_someone_else_mask (ranks : pydict mask_info) (original_key : str) : bool :=
  existsb (fun kv => str_eqb (lower (masked_as (snd kv))) original_key
                     && negb (str_eqb (fst kv) original_key)) ranks.

(** The casing [mask_rank] applies to what it returns. *)
Definition rank_result_case (original final_masked : str) : str :=
  if PRESERVE_CASE cfg then
    if in_chars original 45 && istitle original then title final_masked
    else
      let words := split_ws original in
      if (1 <? length words)%nat && forallb first_isupper words then title final_masked
      else _apply_original_case original final_masked
  else final_masked.

(** [if detected_case and detected_case != "nominative":
    masked = get_rank_in_case(masked, detected_case)]. *)
Definition rank_inflected (detected : option (str * str * str)) (masked : str) : str :=
  match detected with
  | Some (_, detected_case, _) =>
    if negb (is_empty detected_case) && negb (str_eqb detected_case (py "nominative"))
    then get_rank_in_case masked detected_case else masked
  | None => masked
  end.

(** The rank forms whose case ending [mask_rank] does not re-apply: no
    case was detected, or the nominative. *)
Definition keeps_base_form (detected : option (str * str * str)) : bool :=
  match detected with
  | Some (_, detected_case, _) =>
    is_empty detected_case || str_eqb detected_case (py "nominative")
  | None => true
  end.

(** [mask_rank]. *)
Definition mask_rank (original : str) : M str :=
  let original_key := lower original in
  let detected := get_rank_info original_key in
  ranks <- store_category (py "rank") ;;
  let generate :=
    match get_rank_category_and_match original_key with
    | None => ret original
    | Some (category_name, matched) =>
      match hierarchy_of category_name with
      | None => ret original
      | Some hierarchy =>
        match index_of (lower matched) (map lower hierarchy) with
        | None => ret original
        | Some idx =>
          g <- generate_rank hierarchy idx original_key ;;
          let masked := rank_inflected detected (fst (fst g)) in
          final_masked <- record_mapping (py "rank") original_key masked ;;
          ret (rank_result_case original final_masked)
        end
      end
    end in
  match dict_get ranks original_key with
  | Some info =>
    if is_someone_else_mask ranks original_key then generate
    else
      final_masked <- record_mapping (py "rank") original_key (masked_as info) ;;
      ret (if PRESERVE_CASE cfg then _apply_original_case original final_masked
           else final_masked)
  | None => generate
  end.

(** First phrase of the list that occurs in the text, with its index. *)
Fixpoint first_phrase (phrases : list str) (text_lower : str) : option (str * nat) :=
  match phrases with
  | [] => None
  | p :: rest =>
    match str_find text_lower p with
    | Some i => Some (p, i)
    | None => first_phrase rest text_lower
    end
  end.

(** [extract_base_rank] (the same in both scripts). *)
Definition extract_base_rank (full_rank_text : str) : str * str :=
  if is_empty full_rank_text then (full_rank_text, [])
  else
    let service_type_phrases := [py "медичної служби"; py "юстиції"] in
    let status_phrases :=
      [py "у відставці"; py "в запасі"; py "у запасі"; py "на пенсії";
       py "в резерві"; py "у резерві"] in
    let '(base_rank, parts, text, text_lower) :=
      match first_phrase service_type_phrases (lower full_rank_text) with
      | Some (phrase, i) =>
        let remaining := strip (str_from full_rank_text (i + length phrase)) in
        (strip (str_head full_rank_text i),
         [slice full_rank_text i (i + length phrase)],
         remaining, lower remaining)
      | None => (full_rank_text, [], full_rank_text, lower full_rank_text)
      end in
    let '(base_rank, parts) :=
      match first_phrase status_phrases text_lower with
      | Some (phrase, _) =>
        let j := from_option 0%nat (str_find (lower text) phrase) in
        (if is_empty_list parts then strip (str_head text j) else base_rank,
         parts ++ [slice text j (j + length phrase)])
      | None => (base_rank, parts)
      end in
    (base_rank, join (py " ") parts).

(** [f"{result} {additional_words}" if additional_words else result]. *)
Definition with_additional (result additional_words : str) : str :=
  if is_empty additional_words then result
  else result ++ py " " ++ additional_words.

(** [mask_rank_preserve_case]. *)
Definition mask_rank_preserve_case (original_text : str) : M str :=
  let '(base_rank_text, additional_words) := extract_base_rank original_text in
  match get_rank_info base_rank_text with
  | None =>
    masked_result <- mask_rank base_rank_text ;;
    ret (with_additional masked_result additional_words)
  | Some (base_male_form, detected_case, gender) =>
    if is_empty base_male_form then
      masked_result <- mask_rank base_rank_text ;;
      ret (with_additional masked_result additional_words)
    else
      masked_base_male <- mask_rank base_male_form ;;
      let declined (table : pydict (pydict str)) (key fallback : str) : str :=
        match dict_get table key with
        | Some forms =>
          if negb (is_empty detected_case)
          then from_option fallback (dict_get forms detected_case) else fallback
        | None => fallback
        end in
      let final_rank :=
        if str_eqb gender (py "female") then
          match dict_get RANK_FEMININE_MAP (lower masked_base_male) with
          | Some masked_base_female =>
            declined RANK_DECLENSIONS_FEMALE masked_base_female masked_base_female
          | None => declined RANK_DECLENSIONS (lower masked_base_male) masked_base_male
          end
        else declined RANK_DECLENSIONS (lower masked_base_male) masked_base_male in
      let final_rank :=
        if PRESERVE_CASE cfg && negb (is_empty final_rank)
        then _apply_original_case base_rank_text final_rank else final_rank in
      let result := if is_empty final_rank then masked_base_male else final_rank in
      ret (with_additional result additional_words)
  end.

End Ranks.

(* ================================================================== *)
(** ** A rank table for examples *)
(* ================================================================== *)

Definition cases4 (nom gen dat ins : str) : pydict str :=
  [(py "nominative", nom); (py "genitive", gen); (py "dative", dat);
   (py "instrumental", ins)].

Definition demo_declensions : pydict (pydict str) :=
  [(py "солдат", cases4 (py "солдат") (py "солдата") (py "солдату") (py "солдатом"));
   (py "старший солдат",
    cases4 (py "старший солдат") (py "старшого солдата") (py "старшому солдату")
           (py "старшим солдатом"));
   (py "сержант", cases4 (py "сержант") (py "сержанта") (py "сержанту") (py "сержантом"));
   (py "молодший сержант",
    cases4 (py "молодший сержант") (py "молодшого сержанта")
           (py "молодшому сержанту") (py "молодшим сержантом"));
   (py "лейтенант",
    cases4 (py "лейтенант") (py "лейтенанта") (py "лейтенанту") (py "лейтенантом"));
   (py "старший лейтенант",
    cases4 (py "старший лейтенант") (py "старшого лейтенанта")
           (py "старшому лейтенанту") (py "старшим лейтенантом"));
   (py "капітан", cases4 (py "капітан") (py "капітана") (py "капітану") (py "капітаном"));
   (py "майор", cases4 (py "майор") (py "майора") (py "майору") (py "майором"));
   (py "підполковник",
    cases4 (py "підполковник") (py "підполковника") (py "підполковнику")
           (py "підполковником"));
   (py "генерал", cases4 (py "генерал") (py "генерала") (py "генералу") (py "генералом"));
   (py "матрос", cases4 (py "матрос") (py "матроса") (py "матросу") (py "матросом"));
   (py "капітан медичної служби",
    cases4 (py "капітан медичної служби") (py "капітана медичної служби")
           (py "капітану медичної служби") (py "капітаном медичної служби"))].

Definition demo_feminine_map : pydict str :=
  [(py "солдат", py "солдатка"); (py "сержант", py "сержантка");
   (py "капітан", py "капітанка"); (py "майор", py "майорка");
   (py "старший солдат", py "старша солдатка");
   (py "молодший сержант", py "молодша сержантка")].

Definition demo_declensions_female : pydict (pydict str) :=
  [(py "солдатка", cases4 (py "солдатка") (py "солдатки") (py "солдатці") (py "солдаткою"));
   (py "сержантка",
    cases4 (py "сержантка") (py "сержантки") (py "сержантці") (py "сержанткою"));
   (py "капітанка",
    cases4 (py "капітанка") (py "капітанки") (py "капітанці") (py "капітанкою"));
   (py "майорка", cases4 (py "майорка") (py "майорки") (py "майорці") (py "майоркою"));
   (py "старша солдатка",
    cases4 (py "старша солдатка") (py "старшої солдатки") (py "старшій солдатці")
           (py "старшою солдаткою"));
   (py "молодша сержантка",
    cases4 (py "молодша сержантка") (py "молодшої сержантки")
           (py "молодшій сержантці") (py "молодшою сержанткою"))].

(** The reverse index: every form of every base, male forms first. *)
Definition index_forms (gender : str) (base_of : str -> str)
    (table : pydict (pydict str)) : pydict (str * str * str) :=
  flat_map (fun entry =>
              map (fun cf => (snd cf, (base_of (fst entry), fst cf, gender)))
                  (snd entry)) table.

Definition male_base_of (female : str) : str :=
  match find (fun kv => str_eqb (snd kv) female) demo_feminine_map with
  | Some kv => fst kv
  | None => female
  end.

Definition demo_rank_to_nominative : pydict (str * str * str) :=
  fold_left (fun d kv => if dict_mem d (fst kv) then d else dict_set d (fst kv) (snd kv))
            (index_forms (py "male") (fun b => b) demo_declensions
             ++ index_forms (py "female") male_base_of demo_declensions_female)
            [].

(** Stable sort by decreasing length. *)
Fixpoint insert_by_length (x : str) (l : list str) : list str :=
  match l with
  | [] => [x]
  | y :: l' => if (length y <? length x)%nat then x :: l
               else y :: insert_by_length x l'
  end.

Definition sort_by_length (l : list str) : list str :=
  fold_left (fun acc x => insert_by_length x acc) l [].

(** Modelled from the spec: [rank_data.py], the module both scripts import
    their rank tables from, is not among the sources. This excerpt takes the
    army, legal and medical hierarchies in the order their base forms are
    written in [RANK_PATTERNS], the naval one likewise with the three
    captain grades spelled out, and the declensions and feminine forms that
    [tests/test_rank_data.py] and [tests/test_unmask.py] assert, completed
    by the regular forms of a few more ranks. It is used in examples only. *)
#[export] Instance demo_ranks : RankData := {
  RANK_DECLENSIONS := demo_declensions;
  RANK_FEMININE_MAP := demo_feminine_map;
  RANK_DECLENSIONS_FEMALE := demo_declensions_female;
  RANK_TO_NOMINATIVE := demo_rank_to_nominative;
  ALL_RANK_FORMS := sort_by_length (map fst demo_rank_to_nominative);
  ARMY_RANKS := army_pattern_ranks;
  NAVAL_RANKS :=
    [py "матрос"; py "моряк"; py "старший матрос"; py "старший моряк";
     py "молодший сержант"; py "сержант"; py "старший сержант";
     py "головний сержант"; py "штабс-сержант"; py "майстер-сержант";
     py "старший майстер-сержант"; py "головний майстер-сержант";
     py "молодший лейтенант"; py "лейтенант"; py "старший лейтенант";
     py "капітан-лейтенант"; py "капітан 3-го рангу"; py "капітан 2-го рангу";
     py "капітан 1-го рангу"; py "контр-адмірал"; py "віце-адмірал"; py "адмірал"];
  LEGAL_RANKS := legal_pattern_ranks;
  MEDICAL_RANKS := medical_pattern_ranks;
  RANKS_LIST := sort_by_length (map fst demo_rank_to_nominative)
}.

(* ================================================================== *)
(** ** The reverse engine ([unmask_data.py]) *)
(* ================================================================== *)

(** Dictionaries keyed by an instance number. *)
Definition idict (V : Type) := list (N * V).

Fixpoint idict_get {V} (d : idict V) (k : N) : option V :=
  match d with
  | [] => None
  | (k', v) :: d' => if k =? k' then Some v else idict_get d' k
  end.

Fixpoint idict_set {V} (d : idict V) (k : N) (v : V) : idict V :=
  match d with
  | [] => [(k, v)]
  | (k', v') :: d' => if k =? k' then (k', v) :: d' else (k', v') :: idict_set d' k v
  end.

(** Stable insertion sort: [x] goes after every [y] with [le y x]. *)
Fixpoint insert_sorted {A} (le : A -> A -> bool) (x : A) (l : list A) : list A :=
  match l with
  | [] => [x]
  | y :: l' => if le y x then y :: insert_sorted le x l' else x :: l
  end.

Definition stable_sort {A} (le : A -> A -> bool) (l : list A) : list A :=
  fold_left (fun acc x => insert_sorted le x acc) l [].

(** [l.sort(key=start)] and [l.sort(key=start, reverse=True)]; both keep
    the order of elements with equal keys. *)
Definition sort_ascending {A} (key : A -> nat) : list A -> list A :=
  stable_sort (fun y x => (key y <=? key x)%nat).
Definition sort_descending {A} (key : A -> nat) : list A -> list A :=
  stable_sort (fun y x => (key x <=? key y)%nat).

(** [text[:start] + replacement + text[end:]]. *)
Definition splice (text : str) (start stop : nat) (replacement : str) : str :=
  firstn start text ++ replacement ++ skipn stop text.

Section Unmask.
Context {U : Unicode} {RD : RankData}.

(** [find_all_occurrences]: [(?<!\w)] + the escaped pattern + [(?!\w)],
    case-insensitively. *)
Definition occurrence_pattern (pattern : str) : regex :=
  seqs [RNotBehind 1 (RSet CWord); lit pattern; RNotAhead (RSet CWord)].

Definition find_all_occurrences (text pattern : str) : list (nat * nat) :=
  map (fun m => (m_start m, m_end m)) (finditer true (occurrence_pattern pattern) text).

(** [build_instance_map] on the ["mappings"] part of an artifact. *)
Definition add_instances (instance_map : pydict (idict str))
    (original : str) (mask_info : mask_info) : pydict (idict str) :=
  let masked_value := masked_as mask_info in
  let instance_map :=
    if dict_mem instance_map masked_value then instance_map
    else dict_set instance_map masked_value [] in
  fold_left (fun im instance_num =>
               dict_set im masked_value
                        (idict_set (from_option [] (dict_get im masked_value))
                                   instance_num original))
            (instances mask_info) instance_map.

Definition build_instance_map (mappings_data : pydict (pydict mask_info))
  : pydict (idict str) :=
  fold_left (fun im category =>
               fold_left (fun im entry => add_instances im (fst entry) (snd entry))
                         (snd category) im)
            mappings_data [].

(** The statistics both passes return: restored and skipped counts. *)
Record unmask_stats := Stats { restored_count : N; skipped_count : N }.

(** A scheduled replacement of the generic pass. *)
Record replacement := Replacement {
  r_start : nat; r_end : nat; r_original : str; r_masked : str
}.

(** The scheduling loop of [unmask_other_data] for one masked value: the
    occurrences are numbered from 1, left to right. *)
Fixpoint schedule_occurrences (occurrences : list (nat * nat)) (instance_num : N)
    (instance_to_original : idict str) (masked_value : str)
    (acc : list replacement * unmask_stats) : list replacement * unmask_stats :=
  match occurrences with
  | [] => acc
  | (start_pos, end_pos) :: rest =>
    let '(todo, stats) := acc in
    schedule_occurrences rest (instance_num + 1) instance_to_original masked_value
      match idict_get instance_to_original instance_num with
      | Some original_value =>
        (todo ++ [Replacement start_pos end_pos original_value masked_value],
         Stats (restored_count stats + 1) (skipped_count stats))
      | None => (todo, Stats (restored_count stats) (skipped_count stats + 1))
      end
  end.

Definition schedule_all (text : str) (instance_map : pydict (idict str))
  : list replacement * unmask_stats :=
  fold_left (fun acc entry =>
               schedule_occurrences (find_all_occurrences text (fst entry)) 1
                                    (snd entry) (fst entry) acc)
            instance_map ([], Stats 0 0).

(** One replacement, applied if the mask is still in its place. *)
Definition apply_replacement (restored_text : str) (r : replacement) : str :=
  let masked_segment := slice restored_text (r_start r) (r_end r) in
  if str_eqb (lower masked_segment) (lower (r_masked r)) then
    splice restored_text (r_start r) (r_end r)
           (_apply_original_case masked_segment (r_original r))
  else restored_text.

(** [del mappings_copy["rank"]]. *)
Definition without_rank (m : pydict (pydict mask_info)) : pydict (pydict mask_info) :=
  filter (fun kv => negb (str_eqb (fst kv) (py "rank"))) m.

(** [unmask_other_data]. *)
Definition unmask_other_data (masked_text : str) (masking_map : masking_dict)
  : str * unmask_stats :=
  let instance_map := build_instance_map (without_rank (mappings masking_map)) in
  let '(replacements_to_do, stats) := schedule_all masked_text instance_map in
  (fold_left apply_replacement (sort_descending r_start replacements_to_do) masked_text,
   stats).

End Unmask.


(* ================================================================== *)
(** ** Span detection of [mask_text_context_aware] *)
(* ================================================================== *)

(** An entry of [items_to_mask] and an entry of [items_to_skip] (without
    its ['context'] key, which nothing reads). *)
Record item := Item {
  i_type : str;
  full_text : str;
  number_part : str;
  i_start : nat;
  i_end : nat
}.

Record skip_item := SkipItem {
  s_start : nat;
  s_end : nat;
  s_text : str;
  s_reason : str;
  s_type : str
}.

(** [[А-Яа-яA-Za-z]], [[-\s]], [[/-]] and [\d+(?:[/-]\d+)*]. *)
Definition letter_set : cset :=
  csets [range (py "А") (py "Я"); range (py "а") (py "я");
         range (py "A") (py "Z"); range (py "a") (py "z")].
Definition dash_or_space : cset := COr (CChar 45) CSpace.
Definition slash_or_dash : cset := chars (py "/-").
Definition number_run : regex :=
  seqs [plus digit; star (seqs [RSet slash_or_dash; plus digit])].

(** [UKRAINIAN_DATE_PATTERN]. *)
Definition UKRAINIAN_DATE_PATTERN : regex :=
  seqs [RWordB; RRep 1 (Some 2%nat) digit; RSet (chars (py ".-"));
        RRep 1 (Some 2%nat) digit; RSet (chars (py ".-"));
        RRep 2 (Some 4%nat) digit; RWordB].

(** [legal_patterns]: a term, white space and, as group 2, a run of
    numerals separated by commas. *)
Definition legal_pattern (term : regex) : regex :=
  seqs [RGroup 1 term; plus space;
        RGroup 2 (seqs [plus digit;
                        star (seqs [star space; lit (py ","); star space; plus digit])])].

Definition legal_patterns : list regex :=
  [legal_pattern (alts [seqs [lit (py "стате"); RSet (chars (py "йї"))];
                        seqs [lit (py "стать"); RSet (chars (py "іеюя"))]]);
   legal_pattern (seqs [lit (py "пункт"); RSet (chars (py "уаиіеє"))]);
   legal_pattern (seqs [lit (py "частин"); RSet (chars (py "аиюіеє"))]);
   legal_pattern (seqs [lit (py "розділ"); RSet (chars (py "уаіеє"))])].

(** The patterns of [analyze_number_sign_context] and [analyze_br_keyword]. *)
Definition br_intro : regex := seqs [star space; lit (py "БР")].
Definition br_after_number_sign : regex :=
  seqs [star space; lit (py "БР"); opt (RSet dash_or_space);
        RGroup 1 (seqs [number_run;
                        star (seqs [RSet slash_or_dash; plus (RSet letter_set)])])].
Definition number_after_sign : regex :=
  seqs [star space;
        RGroup 1 (seqs [number_run;
                        opt (alts [seqs [RSet slash_or_dash; plus (RSet letter_set)];
                                   plus (RSet letter_set)])])].
Definition br_suffix : regex := alts [lit (py "дск"); lit (py "п"); lit (py "к")].
Definition br_suffix_at_end : regex := seqs [RGroup 1 br_suffix; REol].
Definition number_after_br : regex :=
  seqs [opt (RSet dash_or_space); RGroup 1 (seqs [number_run; opt br_suffix])].

(** The patterns of the identifier, brigade and date passes. *)
Definition upper_letter_pair : cset := COr (range (py "A") (py "Z")) (range (py "А") (py "Я")).
Definition ipn_pattern : regex := seqs [RWordB; times 10 digit; RWordB].
Definition passport_pattern : regex := seqs [RWordB; times 9 digit; RWordB].
Definition military_id_pattern : regex :=
  seqs [RWordB; times 2 (RSet upper_letter_pair); opt (RSet (COr CSpace (CChar 45)));
        times 6 digit; RWordB].
Definition military_unit_pattern : regex :=
  seqs [RWordB; RSet (COr (range (py "А") (py "Я")) (range (py "A") (py "Z")));
        times 4 digit; RWordB].
Definition brigade_names : list str :=
  [py "окремої механізованої бригади"; py "омбр"; py "ошп"; py "ошбр"; py "бригади";
   py "окремої штурмової бригади"; py "десантно-штурмової бригади"; py "дшб";
   py "танкової бригади"; py "тбр"].
Definition brigade_number_pattern : regex :=
  seqs [RWordB; RGroup 1 (plus digit); plus space;
        RGroup 2 (alts (map lit brigade_names)); RWordB].
Definition date_pattern : regex :=
  seqs [RWordB; RGroup 1 (times 2 digit); lit (py "."); RGroup 2 (times 2 digit);
        lit (py "."); RGroup 3 (times 4 digit); RWordB].

(** The proleptic Gregorian calendar of [datetime]: [_is_leap],
    [_DAYS_IN_MONTH], [_DAYS_BEFORE_MONTH], [_days_in_month],
    [_days_before_month]. *)
Definition is_leap (year : N) : bool :=
  (year mod 4 =? 0) && (negb (year mod 100 =? 0) || (year mod 400 =? 0)).

Definition DAYS_IN_MONTH (month : N) : N :=
  if month =? 2 then 28
  else if (month =? 4) || (month =? 6) || (month =? 9) || (month =? 11) then 30
  else 31.

Definition DAYS_BEFORE_MONTH (month : N) : N :=
  fold_left (fun acc m => acc + DAYS_IN_MONTH m) (N_range 1 (month - 1)) 0.

Definition days_in_month (year month : N) : N :=
  if (month =? 2) && is_leap year then 29 else DAYS_IN_MONTH month.

Definition days_before_month (year month : N) : N :=
  DAYS_BEFORE_MONTH month + (if (2 <? month) && is_leap year then 1 else 0).

(** [datetime(year, month, day)] is a [ValueError] outside these bounds. *)
Definition valid_ymd (year month day : N) : bool :=
  (1 <=? year) && (year <=? 9999) && (1 <=? month) && (month <=? 12)
  && (1 <=? day) && (day <=? days_in_month year month).

(** [is_valid_date]. *)
Definition is_valid_date (day month year : N) : bool :=
  if (year <? 2015) || (2035 <? year) then false else valid_ymd year month day.

Section Spans.
Context {U : Unicode}.
Variable cfg : config.

(** [analyze_number_sign_context]. *)
Definition analyze_number_sign_context (text : str) (m : rematch) : option item :=
  let pos := m_end m in
  let after_text := slice text pos (pos + 100) in
  let br_item :=
    if found (re_match true br_intro after_text) then
      match re_match true br_after_number_sign after_text with
      | Some br_match =>
        Some (Item (py "br_complex")
                   (slice text (m_start m) (m_end m + m_end br_match))
                   (group after_text br_match 1)
                   (m_start m) (m_end m + m_end br_match))
      | None => None
      end
    else None in
  match br_item with
  | Some it => Some it
  | None =>
    match re_match false number_after_sign after_text with
    | None => None
    | Some number_match =>
      let number_text := group after_text number_match 1 in
      let stop := (m_end m + m_end number_match)%nat in
      let full := slice text (m_start m) stop in
      let type :=
        if found (re_search true br_suffix_at_end number_text) then
          if (2 <=? count_char number_text 47)%nat then py "br_with_slashes"
          else py "br_with_suffix"
        else if found (re_search false (RSet letter_set) number_text)
             then py "order_with_letters"
        else py "order_simple" in
      Some (Item type full number_text (m_start m) stop)
    end
  end.

(** [analyze_br_keyword]. *)
Definition analyze_br_keyword (text : str) (m : rematch) : option item :=
  let pos := m_end m in
  let after_text := slice text pos (pos + 100) in
  match re_match true number_after_br after_text with
  | Some br_match =>
    Some (Item (py "br_standalone")
               (group0 text m ++ group0 after_text br_match)
               (group after_text br_match 1)
               (m_start m) (m_end m + m_end br_match))
  | None => None
  end.

(** The two tests of the passes, on a candidate range [a, b):
    [a < item['end'] and b > item['start']] and
    [a >= item['start'] and b <= item['end']]. *)
Definition overlaps (a b start stop : nat) : bool := (a <? stop)%nat && (start <? b)%nat.
Definition inside (a b start stop : nat) : bool := (start <=? a)%nat && (b <=? stop)%nat.

Definition overlaps_skip (a b : nat) (sk : skip_item) : bool :=
  overlaps a b (s_start sk) (s_end sk).
Definition inside_skip (a b : nat) (sk : skip_item) : bool :=
  inside a b (s_start sk) (s_end sk).
Definition overlaps_item (a b : nat) (it : item) : bool :=
  overlaps a b (i_start it) (i_end it).

(** The three lines every pass after the [№] pass repeats:
    [skip = any(...skip spans...)], [skip = skip or any(...items...)],
    [if not skip: items_to_mask.append(candidate)]. The passes differ in
    the test against the skip spans. *)
Definition register (skip_test : nat -> nat -> skip_item -> bool)
    (items_to_skip : list skip_item) (items_to_mask : list item) (candidate : item)
  : list item :=
  let skip := existsb (skip_test (i_start candidate) (i_end candidate)) items_to_skip in
  let skip := skip || existsb (overlaps_item (i_start candidate) (i_end candidate))
                              items_to_mask in
  if skip then items_to_mask else items_to_mask ++ [candidate].

(** The skip spans: full dates when dates are not masked, then the
    numerals of legal citations. *)
Definition full_date_skips (text : str) : list skip_item :=
  map (fun m => SkipItem (m_start m) (m_end m) (group0 text m)
                         (py "full_date") (py "date"))
      (finditer false UKRAINIAN_DATE_PATTERN text).

Definition legal_skips (text : str) (pattern : regex) : list skip_item :=
  flat_map
    (fun m =>
       let numbers_text := group text m 2 in
       let base_pos := group_start m 2 in
       map (fun num_match =>
              SkipItem (base_pos + m_start num_match) (base_pos + m_end num_match)
                       (group0 numbers_text num_match)
                       (py "legal") (py "legal_number"))
           (finditer false (plus digit) numbers_text))
    (finditer true pattern text).

Definition detect_skips (text : str) : list skip_item :=
  (if MASK_DATES cfg then [] else full_date_skips text)
  ++ flat_map (legal_skips text) legal_patterns.

(** The passes over the candidates, in the order of the source. *)
Definition number_sign_candidates (text : str) : list item :=
  flat_map (fun m => match analyze_number_sign_context text m with
                     | Some result => [result]
                     | None => []
                     end)
           (finditer false (lit (py "№")) text).

Definition number_sign_pass (text : str) (items_to_mask : list item) : list item :=
  if MASK_ORDERS cfg || MASK_BR_NUMBERS cfg
  then items_to_mask ++ number_sign_candidates text
  else items_to_mask.

Definition br_keyword_candidates (text : str) : list item :=
  flat_map (fun m => match analyze_br_keyword text m with
                     | Some result => [result]
                     | None => []
                     end)
           (finditer true (seqs [RWordB; lit (py "БР"); RWordB]) text).

Definition br_keyword_pass (text : str) (items_to_skip : list skip_item)
    (items_to_mask : list item) : list item :=
  if MASK_BR_NUMBERS cfg
  then fold_left (register overlaps_skip items_to_skip)
                 (br_keyword_candidates text) items_to_mask
  else items_to_mask.

Definition whole_match_item (item_type text : str) (m : rematch) : item :=
  Item item_type (group0 text m) (group0 text m) (m_start m) (m_end m).

(** The identifier kinds with their flag, pattern and IGNORECASE. *)
Definition identifier_kinds : list (str * bool * regex * bool) :=
  [(py "ipn", MASK_IPN cfg, ipn_pattern, false);
   (py "passport_id", MASK_PASSPORT cfg, passport_pattern, false);
   (py "military_id", MASK_MILITARY_ID cfg, military_id_pattern, true);
   (py "military_unit", MASK_UNITS cfg, military_unit_pattern, false)].

Definition identifier_candidates (text : str) (kind : str * bool * regex * bool)
  : list item :=
  let '(item_type, flag, pattern, ignorecase) := kind in
  if flag then map (whole_match_item item_type text) (finditer ignorecase pattern text)
  else [].

Definition identifier_pass (text : str) (items_to_skip : list skip_item)
    (items_to_mask : list item) : list item :=
  fold_left (fun items kind =>
               fold_left (register inside_skip items_to_skip)
                         (identifier_candidates text kind) items)
            identifier_kinds items_to_mask.

Definition brigade_candidates (text : str) : list item :=
  map (fun m => Item (py "brigade_number") (group0 text m) (group text m 1)
                     (m_start m) (m_end m))
      (finditer true brigade_number_pattern text).

Definition brigade_pass (text : str) (items_to_skip : list skip_item)
    (items_to_mask : list item) : list item :=
  if MASK_BRIGADES cfg
  then fold_left (register inside_skip items_to_skip)
                 (brigade_candidates text) items_to_mask
  else items_to_mask.

Definition date_candidates (text : str) : list item :=
  map (whole_match_item (py "date") text)
      (filter (fun m => is_valid_date (int_of (group text m 1)) (int_of (group text m 2))
                                      (int_of (group text m 3)))
              (finditer true date_pattern text)).

Definition date_pass (text : str) (items_to_skip : list skip_item)
    (items_to_mask : list item) : list item :=
  if MASK_DATES cfg
  then fold_left (register inside_skip items_to_skip)
                 (date_candidates text) items_to_mask
  else items_to_mask.

(** [items_to_mask] as it stands before it is sorted: the candidates
    that were registered, in the order of their registration. *)
Definition detect_items (text : str) : list item :=
  let items_to_skip := detect_skips text in
  date_pass text items_to_skip
    (brigade_pass text items_to_skip
       (identifier_pass text items_to_skip
          (br_keyword_pass text items_to_skip
             (number_sign_pass text [])))).

(** The candidates each group of passes considers, in the order in
    which it considers them: the [№] pass, the [БР] pass, and the
    identifier, brigade and date passes. *)
Definition number_sign_registered (text : str) : list item :=
  if MASK_ORDERS cfg || MASK_BR_NUMBERS cfg then number_sign_candidates text else [].

Definition br_pass_candidates (text : str) : list item :=
  if MASK_BR_NUMBERS cfg then br_keyword_candidates text else [].

Definition later_pass_candidates (text : str) : list item :=
  flat_map (identifier_candidates text) identifier_kinds
  ++ (if MASK_BRIGADES cfg then brigade_candidates text else [])
  ++ (if MASK_DATES cfg then date_candidates text else []).

(** A candidate range conflicts with a skip span, under the test of the
    [БР] pass and under the test of the later passes, and with an item. *)
Definition overlaps_a_skip (items_to_skip : list skip_item) (c : item) : bool :=
  existsb (overlaps_skip (i_start c) (i_end c)) items_to_skip.
Definition inside_a_skip (items_to_skip : list skip_item) (c : item) : bool :=
  existsb (inside_skip (i_start c) (i_end c)) items_to_skip.
Definition overlaps_an_item (items : list item) (c : item) : bool :=
  existsb (overlaps_item (i_start c) (i_end c)) items.

End Spans.

(* ================================================================== *)
(** ** Masking of the detected spans *)
(* ================================================================== *)

(** [datetime] as a day count ([toordinal]) and back, after the
    library's [_ymd2ord] and [_ord2ymd]. *)
Definition days_before_year (year : N) : N :=
  let y := year - 1 in y * 365 + y / 4 - y / 100 + y / 400.

Definition ymd2ord (year month day : N) : N :=
  days_before_year year + days_before_month year month + day.

Definition ord2ymd (ordinal : N) : N * N * N :=
  let n := ordinal - 1 in
  let n400 := n / 146097 in
  let n := n mod 146097 in
  let n100 := n / 36524 in
  let n := n mod 36524 in
  let n4 := n / 1461 in
  let n := n mod 1461 in
  let n1 := n / 365 in
  let n := n mod 365 in
  let year := n400 * 400 + 1 + n100 * 100 + n4 * 4 + n1 in
  if (n1 =? 4) || (n100 =? 4) then (year - 1, 12, 31)
  else
    let leapyear := (n1 =? 3) && (negb (n4 =? 24) || (n100 =? 3)) in
    let month := (n + 50) / 32 in
    let preceding :=
      DAYS_BEFORE_MONTH month + (if (2 <? month) && leapyear then 1 else 0) in
    let '(month, preceding) :=
      if n <? preceding
      then (month - 1,
            preceding - (DAYS_IN_MONTH (month - 1)
                         + (if (month - 1 =? 2) && leapyear then 1 else 0)))
      else (month, preceding) in
    (year, month, n - preceding + 1).

(** [d.strftime("%d.%m.%Y")]. *)
Definition strftime_dmy (d : N * N * N) : str :=
  let '(year, month, day) := d in
  zfill 2 (str_of_N day) ++ py "." ++ zfill 2 (str_of_N month) ++ py "."
    ++ zfill 4 (str_of_N year).

(** [normalize_identifier]. *)
Definition identifier_noise : cset := csets [CSpace; CChar 45; CChar 46].

Section SpanMasking.
Context {U : Unicode} {E : Externals}.
Variable cfg : config.

Definition normalize_identifier (identifier : str) : str :=
  if is_empty identifier then []
  else strip (re_sub false (RSet identifier_noise) (fun _ => []) (upper identifier)).

(** [random.randint(a, b)] with [a] below zero: the result is
    [a + _randbelow(b - a + 1)], returned with its sign. *)
Definition randint_signed (below : N) (b : N) : M (bool * N) :=
  x <- randbelow (b + below + 1) ;;
  ret (if x <? below then (true, below - x) else (false, x - below)).

(** [re.sub(pattern, lambda _: str(random.randint(0, 9)), text)]: one
    draw for each match, from left to right. *)
Fixpoint sub_matches_random (text : str) (ms : list rematch) (from : nat) : M str :=
  match ms with
  | [] => ret (skipn from text)
  | m :: ms' =>
    d <- randint 0 9 ;;
    rest <- sub_matches_random text ms' (m_end m) ;;
    ret (slice text from (m_start m) ++ str_of_N d ++ rest)
  end.

Definition mask_digits (text : str) : M str :=
  sub_matches_random text (finditer false digit text) 0.

(** [mask_military_id]. *)
Definition mask_military_id (original : str) : M str :=
  cat <- store_category (py "military_id") ;;
  match dict_get cat original with
  | Some info => record_mapping (py "military_id") original (masked_as info)
  | None =>
    let normalized := normalize_identifier original in
    match re_match false
            (seqs [RBol; opt (RGroup 1 (times 2 (RSet upper_letter_pair)));
                   RGroup 2 (times 6 digit); REol]) normalized with
    | None => ret original
    | Some prefix_match =>
      let prefix := group normalized prefix_match 1 in
      let digits := group normalized prefix_match 2 in
      seed <- lift_result (get_deterministic_seed cfg original) ;;
      random_seed seed ;;;
      middle <- random_digits 2 ;;
      let masked_digits := str_head digits 2 ++ middle ++ str_tail digits 2 in
      let masked :=
        if str_contains original (py " ") then
          if is_empty prefix then masked_digits else prefix ++ py " " ++ masked_digits
        else if str_contains original (py "-") then
          if is_empty prefix then masked_digits else prefix ++ py "-" ++ masked_digits
        else prefix ++ masked_digits in
      record_mapping (py "military_id") original masked
    end
  end.

(** [mask_military_unit]. *)
Definition mask_military_unit (original : str) : M str :=
  cat <- store_category (py "military_unit") ;;
  match dict_get cat original with
  | Some info => record_mapping (py "military_unit") original (masked_as info)
  | None =>
    match re_match false
            (seqs [RBol;
                   RGroup 1 (RSet (COr (range (py "А") (py "Я")) (range (py "A") (py "Z"))));
                   RGroup 2 (times 4 digit); REol]) original with
    | None => ret original
    | Some m =>
      let letter := group original m 1 in
      seed <- lift_result (get_deterministic_seed cfg original) ;;
      random_seed seed ;;;
      digits <- random_digits 4 ;;
      record_mapping (py "military_unit") original (letter ++ digits)
    end
  end.

(** [mask_order_number] and [mask_order_number_with_letters]. *)
Definition mask_order_number_in (category original : str) : M str :=
  cat <- store_category category ;;
  match dict_get cat original with
  | Some info => record_mapping category original (masked_as info)
  | None =>
    seed <- lift_result (get_deterministic_seed cfg original) ;;
    random_seed seed ;;;
    masked <- mask_digits original ;;
    record_mapping category original masked
  end.

Definition mask_order_number : str -> M str :=
  mask_order_number_in (py "order_number").
Definition mask_order_number_with_letters : str -> M str :=
  mask_order_number_in (py "order_number_with_letters").

(** [re.split(r'(/)', s)]: the pieces between slashes with the slashes
    kept as pieces of their own. *)
Fixpoint with_separators (sep : str) (pieces : list str) : list str :=
  match pieces with
  | [] => []
  | [p] => [p]
  | p :: ps => p :: sep :: with_separators sep ps
  end.

Definition split_keeping_slashes (s : str) : list str :=
  with_separators (py "/") (split_on 47 s).

(** The loop of [mask_br_number] over the pieces. *)
Definition mask_br_part (part : str) : M str :=
  if str_eqb part (py "/") then ret part
  else if negb (is_empty part) && found (re_match false (seqs [RBol; digit]) part) then
    match re_match false (seqs [RGroup 1 (plus digit); RGroup 2 (star (RSet CAny))]) part with
    | Some digit_match =>
      let digits := group part digit_match 1 in
      let rest := group part digit_match 2 in
      masked_digits <- random_digits (length digits) ;;
      ret (masked_digits ++ rest)
    | None => ret part
    end
  else ret part.

Fixpoint mask_br_parts (parts : list str) : M (list str) :=
  match parts with
  | [] => ret []
  | part :: parts' =>
    p <- mask_br_part part ;;
    ps <- mask_br_parts parts' ;;
    ret (p :: ps)
  end.

(** [mask_br_number]. *)
Definition mask_br_number (original : str) : M str :=
  cat <- store_category (py "br_number") ;;
  match dict_get cat original with
  | Some info => record_mapping (py "br_number") original (masked_as info)
  | None =>
    seed <- lift_result (get_deterministic_seed cfg original) ;;
    random_seed seed ;;;
    let suffix :=
      match re_search false br_suffix_at_end original with
      | Some suffix_match => group original suffix_match 1
      | None => []
      end in
    let '(prefix, number_part) :=
      if starts_with original (py "№") then
        match re_match false (RGroup 1 (seqs [lit (py "№"); star space])) original with
        | Some m => (group original m 1, str_from original (length (group original m 1)))
        | None => ([], original)
        end
      else ([], original) in
    let number_part :=
      if is_empty suffix then number_part
      else str_drop_last number_part (length suffix) in
    masked_parts <- mask_br_parts (split_keeping_slashes number_part) ;;
    record_mapping (py "br_number") original
      (prefix ++ concat masked_parts ++ suffix)
  end.

(** [mask_brigade_number]. *)
Definition mask_brigade_number (original : str) : M str :=
  cat <- store_category (py "brigade_number") ;;
  match dict_get cat original with
  | Some info => record_mapping (py "brigade_number") original (masked_as info)
  | None =>
    match re_match false
            (seqs [RGroup 1 (plus digit); plus space; RGroup 2 (plus (RSet CAny))])
            original with
    | None => ret original
    | Some m =>
      let brigade_name := group original m 2 in
      seed <- lift_result (get_deterministic_seed cfg original) ;;
      random_seed seed ;;;
      n <- randint 1 160 ;;
      record_mapping (py "brigade_number") original
        (str_of_N n ++ py " " ++ brigade_name)
    end
  end.

(** The body of the [try] of [mask_date]: the new date as a day count. *)
Definition shifted_date (year month day : N) : M (N * N * N) :=
  let date_obj := ymd2ord year month day in
  shift <- randint_signed 30 30 ;;
  let new_date :=
    let '(negative, days) := shift in
    if negative then date_obj - days else date_obj + days in
  let '(new_year, _, _) := ord2ymd new_date in
  if new_year <? 2015 then
    days <- randint 0 365 ;; ret (ord2ymd (ymd2ord 2015 1 1 + days))
  else if 2035 <? new_year then
    days <- randint 0 365 ;; ret (ord2ymd (ymd2ord 2035 12 31 - days))
  else ret (ord2ymd new_date).

(** [mask_date]. What its [try] guards raises, if at all, before the
    generator is touched. *)
Definition mask_date (original : str) : M str :=
  cat <- store_category (py "date") ;;
  match dict_get cat original with
  | Some info => record_mapping (py "date") original (masked_as info)
  | None =>
    match re_match false
            (seqs [RGroup 1 (times 2 digit); lit (py "."); RGroup 2 (times 2 digit);
                   lit (py "."); RGroup 3 (times 4 digit)]) original with
    | None => ret original
    | Some m =>
      let day := int_of (group original m 1) in
      let month := int_of (group original m 2) in
      let year := int_of (group original m 3) in
      if negb (is_valid_date day month year) then ret original
      else
        match get_deterministic_seed cfg original with
        | Raise _ => ret original
        | Ok seed =>
          random_seed seed ;;;
          new_date <- shifted_date year month day ;;
          record_mapping (py "date") original (strftime_dmy new_date)
        end
    end
  end.

(** One round of the substitution loop: the branch of the item's type. *)
Definition replace_span (text : str) (it : item) (replacement : str) : str :=
  splice text (i_start it) (i_end it) replacement.

Definition is_type (it : item) (name : string) : bool := str_eqb (i_type it) (py name).

Definition mask_item (text : str) (it : item) : M str :=
  if negb (str_eqb (slice text (i_start it) (i_end it)) (full_text it)) then ret text
  else
    let whole (mask : str -> M str) : M str :=
      masked <- mask (full_text it) ;; ret (replace_span text it masked) in
    let number (mask : str -> M str) : M str :=
      masked <- mask (number_part it) ;;
      ret (replace_span text it (replace_first (full_text it) (number_part it) masked)) in
    let identifier (mask : str -> M str) : M str :=
      masked <- mask (number_part it) ;;
      ret (if is_empty masked then text else replace_span text it masked) in
    if is_type it "ipn" then identifier (mask_ipn cfg)
    else if is_type it "passport_id" then identifier (mask_passport_id cfg)
    else if is_type it "military_id" then identifier mask_military_id
    else if is_type it "military_unit" then identifier mask_military_unit
    else if is_type it "brigade_number" then whole mask_brigade_number
    else if is_type it "date" then whole mask_date
    else if is_type it "order_simple" then number mask_order_number
    else if is_type it "order_with_letters" then number mask_order_number_with_letters
    else if is_type it "br_complex" || is_type it "br_with_slashes"
            || is_type it "br_with_suffix" || is_type it "br_standalone"
         then whole mask_br_number
    else ret text.

Fixpoint mask_items (text : str) (items : list item) : M str :=
  match items with
  | [] => ret text
  | it :: items' => text' <- mask_item text it ;; mask_items text' items'
  end.

(** Detection, [items_to_mask.sort(key=start, reverse=True)] and the
    substitution loop. *)
Definition mask_spans (text : str) : M str :=
  mask_items text (sort_descending i_start (detect_items cfg text)).

End SpanMasking.

(* ================================================================== *)
(** ** Lines that carry a rank and a full name *)
(* ================================================================== *)

Definition EXCLUDE_WORDS : list str :=
  [py "Дійсним"; py "дійсним"; py "Відповідно"; py "відповідно"; py "Згідно";
   py "згідно"; py "Відповідальний"; py "відповідальний"; py "Командир"; py "командир";
   py "командира"; py "Начальник"; py "начальник"; py "Заступник"; py "заступник";
   py "Виконуючий"; py "виконуючий"; py "обов'язки"; py "обав'язки"; py "доповідаю";
   py "прошу"; py "наказую"; py "призначити"; py "звільнити"; py "проявив";
   py "виконав"; py "оголосити"; py "оголосити"; py "про"; py "по"; py "від"; py "до";
   py "за"; py "суті"; py "мною"; py "Вас"; py "вас"; py "зв'язку"; py "порушення";
   py "вимог"; py "Збройних"; py "збройних"; py "України"; py "україни"; py "служби";
   py "Служби"; py "військової"; py "Військової"; py "частини"; py "Частини";
   py "взводу"; py "Взводу"; py "батальйону"; py "Батальйону"; py "роти"; py "Роти";
   py "Статуту"; py "статуту"; py "Указу"; py "указу"; py "Закону"; py "закону";
   py "Кодексу"; py "кодексу"; py "Положення"; py "положення"; py "Інструкції";
   py "інструкції"; py "наказу"; py "Наказу"; py "наказом"; py "Наказом"; py "рапорту";
   py "Рапорту"; py "статей"; py "Статей"; py "пункту"; py "Пункту"; py "неналежііе";
   py "инутрішньої"; py "радіовіzUділення"; py "с~гатуту"; py "року"; py "Року";
   py "числа"; py "місяця"; py "один"; py "два"; py "три"; py "чотири"; py "п'ять"].

(** Python's truth value of an optional string. *)
Definition truthy (o : option str) : bool :=
  match o with Some s => negb (is_empty s) | None => false end.

(** [l[a:b]] on a list. *)
Definition sublist {A} (l : list A) (a b : nat) : list A := firstn (b - a) (skipn a l).

(** [word.startswith("___") and word.endswith("___")]. *)
Definition is_placeholder (word : str) : bool :=
  starts_with word (py "___") && ends_with word (py "___").

Definition id_shape : regex :=
  alts [seqs [RWordB; times 10 digit; RWordB];
        seqs [RWordB; times 9 digit; RWordB];
        seqs [times 2 (RSet (COr (range (py "А") (py "Я")) (range (py "A") (py "Z"))));
              star space; opt (lit (py "-")); star space; times 6 digit; RWordB]].

Section Lines.
Context {U : Unicode} {RD : RankData}.

(** [normalize_string]. Its first [replace] maps the apostrophe to itself. *)
Definition normalize_string (s : str) : str :=
  if is_empty s then []
  else
    let s_str := lower s in
    let s_str := replace_char s_str 39 (py "'") in
    let s_str := replace_char s_str 160 (py " ") in
    let s_str := replace_char s_str 46 (py " ") in
    let s_str := replace_char s_str 59 (py " ") in
    strip (re_sub false (plus space) (fun _ => py " ") s_str).

Definition lowered (l : list str) : list str := map lower l.

(** [is_pib_anchor]. *)
Definition is_pib_anchor (word : str) : bool :=
  if is_placeholder word then false
  else if is_empty word || (length word <=? 2)%nat then false
  else
    let word_lower := lower word in
    if mem_str word_lower (lowered EXCLUDE_WORDS) then false
    else if mem_str word_lower (lowered RANKS_LIST) then false
    else first_isupper word.

(** [is_likely_surname_by_case]. *)
Definition is_likely_surname_by_case (word : str) : bool :=
  if is_placeholder word then false
  else if is_empty word || (length word <? 3)%nat then false
  else
    let letters_only := re_sub false (RSet (chars (py "-'"))) (fun _ => []) word in
    isupper letters_only && (3 <=? length letters_only)%nat.

Definition declension_endings : list str :=
  [py "ом"; py "ем"; py "єм"; py "ім"; py "ою"; py "єю"; py "ою"; py "у"; py "ю";
   py "а"; py "я"; py "і"; py "ї"].

(** [looks_like_name]. *)
Definition looks_like_name (word : str) : bool :=
  if is_placeholder word then false
  else
    let clean_word := rstrip_by (in_chars (py ",.!?;:")) word in
    if (length clean_word <? 3)%nat then false
    else if mem_str clean_word EXCLUDE_WORDS
            || mem_str (lower clean_word) (lowered EXCLUDE_WORDS) then false
    else if found (re_search false digit clean_word) then false
    else if mem_str (lower clean_word) RANKS_LIST then false
    else if mem_str (lower clean_word)
              [py "по"; py "про"; py "від"; py "до"; py "за"; py "на"; py "у"; py "в";
               py "з"; py "із"] then false
    else if first_isupper clean_word && rest_islower clean_word then true
    else if isupper clean_word then true
    else
      existsb (fun ending =>
                 (length ending + 2 <? length clean_word)%nat
                 && (let stem := str_drop_last clean_word (length ending) in
                     let suffix := str_tail clean_word (length ending) in
                     isupper stem && islower suffix && str_eqb suffix ending))
              declension_endings.

(** [clean_line_before_parsing]. *)
Definition clean_line_before_parsing (line : str) : str :=
  let line :=
    re_sub false
      (seqs [RRep 1 (Some 2%nat) digit; RSet (chars (py ".!")); RRep 1 (Some 2%nat) digit;
             lit (py "."); times 4 digit])
      (fun _ => []) line in
  let line :=
    re_sub true (seqs [plus space; lit (py "року"); plus space]) (fun _ => py " ") line in
  let line := re_sub false (plus space) (fun _ => py " ") line in
  strip line.

(** [extract_identifier_from_line]. *)
Definition identifier_word : regex :=
  seqs [RBol;
        star (RSet (csets [range (py "A") (py "Z"); range (py "a") (py "z");
                           range (py "А") (py "Я"); range (py "а") (py "я");
                           chars (py "ІіЇїЄєΐё")]));
        plus digit; star (RSet (COr CWord (CChar 45))); REol].

Definition extract_identifier_from_line (line : str) : option str :=
  match rev (split_ws (strip line)) with
  | [] => None
  | last_word :: _ =>
    if found (re_match false identifier_word last_word)
    then Some (normalize_identifier last_word)
    else None
  end.

(** The longest run of consecutive words that look like capitalised
    names, as the loop of [looks_like_pib_line] computes it. *)
Fixpoint max_name_sequence (words : list str) (capitalize_sequence max_sequence : nat)
  : nat :=
  match words with
  | [] => max_sequence
  | word :: words' =>
    let clean_word := strip_by (in_chars (py ",.!?;:")) word in
    if negb (is_empty clean_word) && (2 <? length clean_word)%nat
       && first_isupper clean_word && looks_like_name clean_word
    then max_name_sequence words' (S capitalize_sequence)
                           (Nat.max max_sequence (S capitalize_sequence))
    else max_name_sequence words' 0 max_sequence
  end.

(** [looks_like_pib_line]. *)
Definition looks_like_pib_line (line : str) : bool :=
  if is_empty line || (length (strip line) <? 10)%nat then false
  else
    let line_clean := strip line in
    let line_lower := lower line_clean in
    if starts_with line_clean (py "===") || starts_with line_clean (py "---")
       || found (re_match false
                   (seqs [RBol;
                          plus (RSet (csets [range (py "А") (py "Я"); chars (py "ҐЄІЇ");
                                             range (py "A") (py "Z"); CSpace]));
                          lit (py ":"); star space; REol]) line_clean)
    then false
    else
      let normalized := normalize_string line_clean in
      let has_rank := existsb (str_contains normalized) RANKS_LIST in
      if negb has_rank && isupper line_clean
         && (3 <=? length (split_ws line_clean))%nat
         && negb (found (re_search false id_shape line_clean))
      then false
      else if existsb (starts_with line_lower)
                [py "відповідно"; py "згідно"; py "на підставі"] then false
      else if (length line_clean <? 100)%nat
              && existsb (str_contains line_lower)
                   [py "статуту"; py "кодексу"; py "закону"; py "указу"] then false
      else if has_rank then true
      else if (2 <=? max_name_sequence (split_ws line_clean) 0 0)%nat then true
      else found (re_search false id_shape line_clean).

(** One entry of [rank_matches] in [parse_hybrid_line]:
    [(rank_index, rank_form, len(words_before_rank), words of the rank)]. *)
Definition rank_match_of (normalized_line rank_form : str)
  : option (nat * str * nat * nat) :=
  let rank_pattern := rank_form ++ py " " in
  match str_find normalized_line rank_pattern with
  | None => None
  | Some rank_index =>
    let words_before_rank := split_ws (str_head normalized_line rank_index) in
    let rank_word_count := length (split_ws rank_form) in
    let words_after :=
      split_ws (str_from normalized_line (rank_index + length rank_pattern)) in
    let '(additional_words, words_after) :=
      if (2 <=? length words_after)%nat
         && str_eqb (join (py " ") (firstn 2 words_after)) (py "медичної служби")
      then (2, skipn 2 words_after)%nat else (0%nat, words_after) in
    let '(additional_words, words_after) :=
      match words_after with
      | w :: rest =>
        if str_eqb w (py "юстиції") then (S additional_words, rest)
        else (additional_words, words_after)
      | [] => (additional_words, words_after)
      end in
    let additional_words :=
      match words_after with
      | w :: w' :: _ =>
        if mem_str w [py "у"; py "в"; py "на"]
           && mem_str w' [py "відставці"; py "запасі"; py "пенсії"; py "резерві"]
        then (additional_words + 2)%nat else additional_words
      | _ => additional_words
      end in
    Some (rank_index, rank_form, length words_before_rank,
          (rank_word_count + additional_words)%nat)
  end.

Definition rank_matches_of (normalized_line : str) : list (nat * str * nat * nat) :=
  flat_map (fun rank_form => match rank_match_of normalized_line rank_form with
                             | Some x => [x]
                             | None => []
                             end)
           ALL_RANK_FORMS.

(** Index of the first word [is_pib_anchor] accepts. *)
Fixpoint first_anchor (parts : list str) (i : nat) : option nat :=
  match parts with
  | [] => None
  | part :: parts' => if is_pib_anchor part then Some i else first_anchor parts' (S i)
  end.

Fixpoint take_names (words : list str) : list str :=
  match words with
  | [] => []
  | word :: words' => if looks_like_name word then word :: take_names words' else []
  end.

Definition bad_pib_words : list str :=
  [py "статут"; py "наказ"; py "вимог"; py "порушення"; py "служби"; py "закон";
   py "указ"; py "кодекс"; py "положення"].

(** [parse_hybrid_line]: the rank, the full name and the identifier. *)
Definition parse_hybrid_line (line : str) : option str * option str * option str :=
  let line := strip line in
  if is_empty line then (None, None, None)
  else
    let line := clean_line_before_parsing line in
    let identifier := extract_identifier_from_line line in
    let line :=
      if truthy identifier
      then join (py " ") (removelast (split_ws line))
      else line in
    let parts := split_ws (strip line) in
    if is_empty_list parts then (None, None, identifier)
    else
      let parts :=
        match parts with
        | p :: rest => if isdigit p then rest else parts
        | [] => parts
        end in
      if is_empty_list parts then (None, None, identifier)
      else
        let normalized_line := normalize_string line in
        let rank_matches :=
          sort_ascending (fun x => fst (fst (fst x))) (rank_matches_of normalized_line) in
        let '(found_rank, found_rank_original_case, rank_position, pib_start_index) :=
          match rank_matches with
          | (_, found_rank, rank_position, rank_word_count) :: _ =>
            let rank_words :=
              sublist (split_ws line) rank_position (rank_position + rank_word_count) in
            (Some found_rank,
             Some (if is_empty_list rank_words then found_rank
                   else join (py " ") rank_words),
             Some rank_position,
             Some (rank_position + rank_word_count)%nat)
          | [] => (None, None, None, first_anchor parts 0)
          end in
        match pib_start_index with
        | None => (None, None, identifier)
        | Some pib_start_index =>
          let rank :=
            if truthy found_rank then
              if truthy found_rank_original_case
              then from_option [] found_rank_original_case
              else from_option [] found_rank
            else
              match rank_position with
              | Some rank_position =>
                if (rank_position <? pib_start_index)%nat
                then join (py " ") (sublist parts rank_position pib_start_index)
                else []
              | None => []
              end in
          let pib_words := take_names (sublist parts pib_start_index (pib_start_index + 3)) in
          let pib := if is_empty_list pib_words then None
                     else Some (join (py " ") pib_words) in
          if negb (is_empty rank) && (60 <? length rank)%nat then (None, None, identifier)
          else if negb (is_empty rank)
                  && found (re_search false (RRep 2 None digit)
                              (re_sub false (seqs [RBol; plus digit; lit (py "."); star space])
                                      (fun _ => []) rank))
               then (None, None, identifier)
          else if truthy pib
                  && (length (split_ws (from_option [] pib)) <? 2)%nat
               then (None, None, identifier)
          else if truthy pib
                  && existsb (str_contains (lower (from_option [] pib))) bad_pib_words
               then (None, None, identifier)
          else if negb (is_empty rank) && negb (truthy pib) && negb (truthy identifier)
               then (None, None, None)
          else (Some rank, pib, identifier)
        end.

(** [normalize_broken_ranks]: every multi-word rank form, with any white
    space between its words, has that white space replaced by one space. *)
Definition broken_rank_pattern (rank_form : str) : regex :=
  seqs (map (fun c => if c =? 32 then plus space else RSet (CChar c)) rank_form).

Definition normalize_broken_ranks (text : str) : str :=
  let multi_word_ranks := filter (fun r => str_contains r (py " ")) ALL_RANK_FORMS in
  if is_empty_list multi_word_ranks then text
  else
    re_sub true
      (seqs [RWordB; RGroup 1 (alts (map broken_rank_pattern multi_word_ranks)); RWordB])
      (re_sub false (plus space) (fun _ => py " "))
      text.

End Lines.

(* ================================================================== *)
(** ** [mask_text_context_aware] *)
(* ================================================================== *)

Section Pipeline.
Context {U : Unicode} {E : Externals} {RD : RankData}.
Variable cfg : config.

(** The masking of a full name of at least two words: surname and name
    in the order the case of the second word suggests, then the
    patronymic when there is a third word. *)
Definition mask_pib (pib : str) : M (option str) :=
  match split_ws pib with
  | p0 :: p1 :: rest =>
    let name_first := is_likely_surname_by_case p1 in
    let name := if name_first then p0 else p1 in
    let surname := if name_first then p1 else p0 in
    let patronymic := match rest with p2 :: _ => p2 | [] => [] end in
    masked_surname <- mask_surname cfg surname ;;
    masked_name <-
      mask_name cfg name
        (if is_empty patronymic then None
         else Some (detect_gender_by_patronymic patronymic))
        (Some patronymic) ;;
    let masked_pib_str :=
      if name_first then masked_name ++ py " " ++ masked_surname
      else masked_surname ++ py " " ++ masked_name in
    if is_empty patronymic then ret (Some masked_pib_str)
    else
      masked_patronymic <-
        mask_patronymic cfg patronymic (detect_gender_by_patronymic patronymic) ;;
      ret (Some (masked_pib_str ++ py " " ++ masked_patronymic))
  | _ => ret None
  end.

(** The [while iteration < 10] loop over one line. Its branch for a rank
    without a full name cannot be reached: the loop has left by then. *)
Fixpoint mask_line_loop (budget : nat) (current_line_for_parsing final_line : str)
  : M str :=
  match budget with
  | O => ret final_line
  | S budget' =>
    let '(rank, pib, _) := parse_hybrid_line current_line_for_parsing in
    if negb (truthy pib) then ret final_line
    else
      let pib := from_option [] pib in
      lines <-
        (if truthy rank && MASK_RANKS cfg then
           let rank := from_option [] rank in
           masked_rank_val <- mask_rank_preserve_case cfg rank ;;
           ret (replace_first final_line rank masked_rank_val,
                replace_first current_line_for_parsing rank (py "___RANK_MASKED___"))
         else ret (final_line, current_line_for_parsing)) ;;
      let '(final_line, current_line_for_parsing) := lines in
      lines <-
        (if MASK_NAMES cfg then
           masked <- mask_pib pib ;;
           match masked with
           | Some masked_pib_str =>
             ret (replace_first final_line pib masked_pib_str,
                  replace_first current_line_for_parsing pib (py "___PIB_MASKED___"))
           | None => ret (final_line, current_line_for_parsing)
           end
         else ret (final_line, current_line_for_parsing)) ;;
      let '(final_line, current_line_for_parsing) := lines in
      mask_line_loop budget' current_line_for_parsing final_line
  end.

Definition mask_line (line : str) : M str :=
  if negb (looks_like_pib_line line) then ret line
  else mask_line_loop 10 line line.

Fixpoint mask_lines (lines : list str) : M (list str) :=
  match lines with
  | [] => ret []
  | line :: lines' =>
    masked <- mask_line line ;;
    rest <- mask_lines lines' ;;
    ret (masked :: rest)
  end.

(** [mask_text_context_aware]. *)
Definition mask_text_context_aware (text : str) : M str :=
  let text := normalize_broken_ranks text in
  text <- mask_spans cfg text ;;
  masked_lines <- mask_lines (split_on 10 text) ;;
  ret (join (py (String (ascii_of_nat 10) EmptyString)) masked_lines).

End Pipeline.

(* ================================================================== *)
(** ** The rank pass of the reverse engine and [unmask_text_v2] *)
(* ================================================================== *)

(** An entry of [all_found_ranks]. *)
Record found_rank := Found {
  f_start : nat;
  f_end : nat;
  f_text : str;
  f_simple : bool
}.

(** Distinct members in the order of their first insertion. The script
    keeps [all_masked_ranks] in a [set], whose order of iteration Python
    leaves open. *)
Fixpoint distinct (l : list str) : list str :=
  match l with
  | [] => []
  | x :: l' => x :: filter (fun y => negb (str_eqb y x)) (distinct l')
  end.

Section UnmaskRanks.
Context {U : Unicode} {RD : RankData}.

Definition rank_word_pattern (rank : str) : regex := seqs [RWordB; lit rank; RWordB].

(** Step 1.A: every form of the table, wherever it occurs as a word. *)
Definition table_ranks_found (text : str) : list found_rank :=
  flat_map (fun rank_form =>
              map (fun m => Found (m_start m) (m_end m) (group0 text m) false)
                  (finditer true (rank_word_pattern rank_form) text))
           ALL_RANK_FORMS.

(** Step 1.B: the recorded masks, where they overlap nothing found so far. *)
Definition add_simple_rank (text : str) (all_found_ranks : list found_rank) (m : rematch)
  : list found_rank :=
  if existsb (fun f => overlaps (m_start m) (m_end m) (f_start f) (f_end f))
             all_found_ranks
  then all_found_ranks
  else all_found_ranks ++ [Found (m_start m) (m_end m) (group0 text m) true].

Definition masked_ranks_found (text : str) (all_masked_ranks : list str)
    (all_found_ranks : list found_rank) : list found_rank :=
  fold_left (fun acc masked_rank =>
               fold_left (add_simple_rank text)
                         (finditer true (rank_word_pattern masked_rank) text) acc)
            all_masked_ranks all_found_ranks.

(** [instance_counters.setdefault(key, 0)]; [instance_counters[key] += 1]. *)
Definition next_occurrence (instance_counters : pydict N) (key : str) : N * pydict N :=
  let n := from_option 0 (dict_get instance_counters key) + 1 in
  (n, dict_set instance_counters key n).

Definition recorded_original (rank_instance_map : pydict (idict str)) (key : str)
    (instance_num : N) : option str :=
  match dict_get rank_instance_map key with
  | Some instance_to_original => idict_get instance_to_original instance_num
  | None => None
  end.

Definition with_additional_words (rank additional_words : str) : str :=
  if is_empty additional_words then rank else rank ++ py " " ++ additional_words.

(** The form of the original in the case and gender of the mask. *)
Definition reconstruct_form (original_base_form case gender : str) : str :=
  if str_eqb gender (py "female") then
    match dict_get RANK_FEMININE_MAP original_base_form with
    | Some base_female =>
      match dict_get RANK_DECLENSIONS_FEMALE base_female with
      | Some forms => from_option base_female (dict_get forms case)
      | None => original_base_form
      end
    | None => original_base_form
    end
  else
    match dict_get RANK_DECLENSIONS original_base_form with
    | Some forms => from_option original_base_form (dict_get forms case)
    | None => original_base_form
    end.

(** The state of step 2: counters, replacements, statistics. *)
Record rank_pass_state := RankPass {
  rp_counters : pydict N;
  rp_replacements : list (nat * nat * str);
  rp_stats : unmask_stats
}.

Definition count_restored (s : unmask_stats) : unmask_stats :=
  Stats (restored_count s + 1) (skipped_count s).
Definition count_skipped (s : unmask_stats) : unmask_stats :=
  Stats (restored_count s) (skipped_count s + 1).

(** One round of step 2 for a found rank: by the recorded mask itself
    (logic A) or through the table of forms (logic B). *)
Definition restore_found_rank (rank_instance_map : pydict (idict str))
    (all_masked_ranks : list str) (st : rank_pass_state) (f : found_rank)
  : rank_pass_state :=
  let '(base_rank, additional_words) := extract_base_rank (f_text f) in
  let finish (key : str) (restored_of : str -> str) : rank_pass_state :=
    let '(instance_num, counters) := next_occurrence (rp_counters st) key in
    match recorded_original rank_instance_map key instance_num with
    | Some original =>
      if negb (mem_str (lower key) all_masked_ranks)
      then RankPass counters (rp_replacements st) (count_skipped (rp_stats st))
      else
        RankPass counters
                 (rp_replacements st
                  ++ [(f_start f, f_end f,
                       with_additional_words (restored_of original) additional_words)])
                 (count_restored (rp_stats st))
    | None => RankPass counters (rp_replacements st) (count_skipped (rp_stats st))
    end in
  if f_simple f then
    finish (lower base_rank) (fun original_rank => _apply_original_case base_rank original_rank)
  else
    match get_rank_info base_rank with
    | Some (base_masked_form, case, gender) =>
      if is_empty base_masked_form then st
      else
        finish base_masked_form
               (fun original_base_form =>
                  _apply_original_case base_rank
                    (reconstruct_form original_base_form case gender))
    | None => st
    end.

Definition apply_rank_replacement (restored_text : str) (r : nat * nat * str) : str :=
  let '(start, stop, original) := r in splice restored_text start stop original.

(** [masking_map["mappings"].get("rank", {})]. *)
Definition rank_records (masking_map : masking_dict) : pydict mask_info :=
  from_option [] (dict_get (mappings masking_map) (py "rank")).

(** [unmask_ranks_gender_aware]. *)
Definition unmask_ranks_gender_aware (masked_text : str) (masking_map : masking_dict)
  : str * unmask_stats :=
  let rank_instance_map := build_instance_map [(py "rank", rank_records masking_map)] in
  let all_masked_ranks :=
    distinct (map (fun entry => lower (masked_as (snd entry))) (rank_records masking_map)) in
  let all_found_ranks :=
    sort_ascending f_start
      (masked_ranks_found masked_text all_masked_ranks (table_ranks_found masked_text)) in
  let st :=
    fold_left (restore_found_rank rank_instance_map all_masked_ranks) all_found_ranks
              (RankPass [] [] (Stats 0 0)) in
  (fold_left apply_rank_replacement
             (sort_descending (fun r => fst (fst r)) (rp_replacements st)) masked_text,
   rp_stats st).

(** [unmask_text_v2]. *)
Definition unmask_text_v2 (masked_text : str) (masking_map : masking_dict)
    (map_version : str) : str * unmask_stats :=
  if str_eqb map_version (py "v2.1") then
    let '(text_after_ranks, rank_stats) :=
      unmask_ranks_gender_aware masked_text masking_map in
    let '(final_text, other_stats) := unmask_other_data text_after_ranks masking_map in
    (final_text,
     Stats (restored_count rank_stats + restored_count other_stats)
           (skipped_count rank_stats + skipped_count other_stats))
  else unmask_other_data masked_text masking_map.

End UnmaskRanks.

(** The masked form of the military identifier ["аб 123456"]: prefix in
    upper case, the first and the last two digits kept, the two in the
    middle drawn. *)
Definition masked_id (c1 c2 : N) : str := py "АБ 12" ++ [c1; c2] ++ py "56".

(* ================================================================== *)
(** ** Relations the properties are stated with *)
(* ================================================================== *)

(** A dictionary holds each key once. *)
Definition keys_unique {V} (d : pydict V) : Prop := NoDup (map fst d).

Section Relations.
Context {U : Unicode} {E : Externals}.

(** Two worlds with the same store and counters. *)
Definition same_store (w1 w2 : world) : Prop :=
  w_md w1 = w_md w2 /\ w_ic w1 = w_ic w2.

(** ... and the same state of the global [random] generator. *)
Definition same_store_rng (w1 w2 : world) : Prop :=
  same_store w1 w2 /\ w_rng w1 = w_rng w2.

(** [m] run from two [R]-related worlds gives the same answer (or raises
    the same exception) and ends in [R']-related worlds. *)
Definition related {A} (R R' : world -> world -> Prop) (m : M A) : Prop :=
  forall w1 w2, R w1 w2 ->
    match m w1, m w2 with
    | Ok (a1, w1'), Ok (a2, w2') => a1 = a2 /\ R' w1' w2'
    | Raise e1, Raise e2 => e1 = e2
    | _, _ => False
    end.

(** [m] leaves store and counters as they were. *)
Definition frames {A} (m : M A) : Prop :=
  forall w a w', m w = Ok (a, w') -> w_md w' = w_md w /\ w_ic w' = w_ic w.

End Relations.

(* ================================================================== *)
(** ** The instances a store records *)
(* ================================================================== *)

(** Every instance number the store holds, with the masked value it
    counts, the original it stands for and the category of the record:
    [(masked_as, instance_num, original, category)]. *)
Definition record_instances (category : str) (entry : str * mask_info)
  : list (str * N * str * str) :=
  map (fun i => (masked_as (snd entry), i, fst entry, category)) (instances (snd entry)).

Definition category_instances (c : str * pydict mask_info) : list (str * N * str * str) :=
  flat_map (record_instances (fst c)) (snd c).

Definition store_instances (m : pydict (pydict mask_info)) : list (str * N * str * str) :=
  flat_map category_instances m.

Definition instance_key (t : str * N * str * str) : str * N := fst (fst t).

(** What instance tracking relies on: no two recorded instances carry the
    same masked value and number, and the numbers recorded for a masked
    value are exactly those from 1 to its counter. *)
Definition instance_tracking (md : masking_dict) (ic : counters) : Prop :=
  NoDup (map instance_key (store_instances (mappings md)))
  /\ forall m i,
       (exists o c, In (m, i, o, c) (store_instances (mappings md)))
       <-> 1 <= i <= counter_of ic m.

(** [instance_map[masked_value][instance_num]], when both keys are there. *)
Definition instance_lookup (instance_map : pydict (idict str)) (m : str) (i : N)
  : option str :=
  match dict_get instance_map m with
  | Some instance_to_original => idict_get instance_to_original i
  | None => None
  end.

Section Keeps.
Context {E : Externals}.

(** [m] keeps a property of store and counters. *)
Definition keeps (P : masking_dict -> counters -> Prop) {A} (m : M A) : Prop :=
  forall w a w', P (w_md w) (w_ic w) -> m w = Ok (a, w') -> P (w_md w') (w_ic w').

End Keeps.

(** Sound instance tracking in a store that holds every category once. *)
Definition well_tracked (md : masking_dict) (ic : counters) : Prop :=
  keys_unique (mappings md) /\ instance_tracking md ic.

(** [masking_dict["mappings"].get(category, {})]. *)
Definition category_records (md : masking_dict) (c : str) : pydict mask_info :=
  from_option [] (dict_get (mappings md) c).

(** The uniqueness statistic of every category is the number of its records. *)
Definition statistics_count (md : masking_dict) : Prop :=
  forall c, stat_of md c = N.of_nat (length (category_records md c)).

(** From [(md0, ic0)] to [(md, ic)] records were only added or counted
    again, and counters only went up. *)
Definition grows_from (md0 : masking_dict) (ic0 : counters)
    (md : masking_dict) (ic : counters) : Prop :=
  (forall c o info0, get_record md0 c o = Some info0 ->
     exists info more,
       get_record md c o = Some info
       /\ masked_as info = masked_as info0
       /\ instances info = instances info0 ++ more)
  /\ forall m, counter_of ic0 m <= counter_of ic m.

(** The record [e] holds instance [i] of the masked value [m]. *)
Definition entry_holds (m : str) (i : N) (e : str * mask_info) : bool :=
  str_eqb m (masked_as (snd e)) && existsb (N.eqb i) (instances (snd e)).

(* ================================================================== *)
(** ** What the properties of the reverse engine are stated with *)
(* ================================================================== *)

(** A masked value some record of the mappings carries. *)
Definition key_of_record (ms : pydict (pydict mask_info)) (k : str) : Prop :=
  exists c records o info,
    In (c, records) ms /\ In (o, info) records /\ k = masked_as info.

Section Replacements.
Context {U : Unicode}.

(** What the replacement loop puts in the place of a span. *)
Definition restored_segment (text : str) (r : replacement) : str :=
  _apply_original_case (slice text (r_start r) (r_end r)) (r_original r).

(** The text from [from] up to [upto] with the spans of [rs], given from
    left to right, replaced at once: what lies between the spans is
    copied. *)
Fixpoint substitute_between (text : str) (from upto : nat) (rs : list replacement)
  : str :=
  match rs with
  | [] => slice text from upto
  | r :: rs' =>
    slice text from (r_start r) ++ restored_segment text r
      ++ substitute_between text (r_end r) upto rs'
  end.


(** A replacement whose span is not empty, lies in the text and holds its
    mask, up to case. *)
Definition in_place (text : str) (r : replacement) : Prop :=
  (r_start r < r_end r)%nat /\ (r_end r <= length text)%nat
  /\ lower (slice text (r_start r) (r_end r)) = lower (r_masked r).

(** Two replacements whose spans do not overlap. *)
Definition apart (a b : replacement) : Prop :=
  (r_end a <= r_start b)%nat \/ (r_end b <= r_start a)%nat.

(** Replacements ordered from right to left, each ending where the one
    before it starts or earlier. *)
Fixpoint chain (text : str) (bound : nat) (rs : list replacement) : Prop :=
  match rs with
  | [] => True
  | r :: rs' => in_place text r /\ (r_end r <= bound)%nat /\ chain text (r_start r) rs'
  end.

(** The text below [bound] with the spans of [rs], given from right to
    left, replaced. *)
Fixpoint substituted_below (text : str) (bound : nat) (rs : list replacement) : str :=
  match rs with
  | [] => firstn bound text
  | r :: rs' =>
    substituted_below text (r_start r) rs' ++ restored_segment text r
      ++ slice text (r_end r) bound
  end.

(** The number of places where the masks of an instance map occur in a
    text. *)
Definition occurrences_found (text : str) (instance_map : pydict (idict str)) : nat :=
  list_sum (map (fun entry => length (find_all_occurrences text (fst entry))) instance_map).

End Replacements.

(** Digits have no case: the characters [str.isdigit] accepts are not
    upper case, and [str.lower] leaves them as they are. *)
Class UncasedDigits (U : Unicode) : Prop := {
  digit_not_upper : forall c, ch_isdigit c = true -> ch_isupper c = false;
  digit_lower : forall c, ch_isdigit c = true -> ch_lower c = [c]
}.

(* ================================================================== *)
(** ** What the properties of the masked formats are stated with *)
(* ================================================================== *)

(** A masked value of the same format as its original: of the same
    length, with an ASCII digit wherever the original has a decimal digit
    and the original's character everywhere else. *)
Definition same_format {U : Unicode} (original masked : str) : Prop :=
  Forall2 (fun c c' => if ch_isdecimal c then 48 <= c' <= 57 else c' = c) original masked.

(** [mask_br_number_complex]: the body of [mask_order_number] with its
    own category. *)
Definition mask_br_number_complex {U : Unicode} {E : Externals} (cfg : config)
  : str -> M str :=
  mask_order_number_in cfg (py "br_number_complex").

(** The first and the last day [is_valid_date] accepts, as day counts. *)
Definition first_day : N := ymd2ord 2015 1 1.
Definition last_day : N := ymd2ord 2035 12 31.

(** A string [DD.MM.YYYY] of ASCII digits, read as year, month and day. *)
Definition ascii_digit (c : N) : bool := (48 <=? c) && (c <=? 57).

Definition parse_dmy (s : str) : option (N * N * N) :=
  match s with
  | [d1; d2; p1; m1; m2; p2; y1; y2; y3; y4] =>
    if forallb ascii_digit [d1; d2; m1; m2; y1; y2; y3; y4] && (p1 =? 46) && (p2 =? 46)
    then Some ((y1 - 48) * 1000 + (y2 - 48) * 100 + (y3 - 48) * 10 + (y4 - 48),
               (m1 - 48) * 10 + (m2 - 48),
               (d1 - 48) * 10 + (d2 - 48))
    else None
  | _ => None
  end.

(** What the calendar conversions do between thirty days before the
    first day and thirty days after the last one. *)
Definition day_count_ok (n : N) : bool :=
  let '(y, m, d) := ord2ymd n in
  (ymd2ord y m d =? n)
  && Bool.eqb (y <? 2015) (n <? first_day)
  && Bool.eqb (2035 <? y) (last_day <? n)
  && (if (first_day <=? n) && (n <=? last_day)
      then is_valid_date d m y
           && match parse_dmy (strftime_dmy (y, m, d)) with
              | Some (y', m', d') => (y' =? y) && (m' =? m) && (d' =? d)
              | None => false
              end
      else true).

Definition valid_date_ok (y m d : N) : bool :=
  implb (is_valid_date d m y)
        ((first_day <=? ymd2ord y m d) && (ymd2ord y m d <=? last_day)).

(** The pattern [mask_date] matches its argument with. *)
Definition dmy_pattern : regex :=
  seqs [RGroup 1 (times 2 digit); lit (py "."); RGroup 2 (times 2 digit);
        lit (py "."); RGroup 3 (times 4 digit)].

(** Where the shifted day count may lie: within thirty days of the
    original's, or, when that left the years 2015 to 2035, within a year
    of the end it left by. *)
Definition shift_window (original shifted : N) : Prop :=
  original - 30 <= shifted <= original + 30
  \/ (original < first_day + 30 /\ first_day <= shifted <= first_day + 365)
  \/ (last_day - 30 < original /\ last_day - 365 <= shifted <= last_day).


(* ================================================================== *)
(** ** JSON documents and the version dispatch *)
(* ================================================================== *)

(** What [json.load] returns: objects, arrays, strings, and the values
    neither script looks into (numbers by their literal, booleans,
    [None]). An object keeps the order of its members. *)
#[warnings="-register-all"] Inductive json :=
| JNull
| JBool (b : bool)
| JNumber (literal : str)
| JStr (s : str)
| JList (items : list json)
| JDict (members : list (str * json)).

(** The string leaves of a document, in the order of the document. *)
Fixpoint strings_of (data : json) : list str :=
  match data with
  | JStr s => [s]
  | JList items => flat_map strings_of items
  | JDict members => flat_map (fun kv => strings_of (snd kv)) members
  | _ => []
  end.

(** Two documents that differ in their string leaves only. *)
Fixpoint same_shape (a b : json) : Prop :=
  match a, b with
  | JNull, JNull => True
  | JBool x, JBool y => x = y
  | JNumber x, JNumber y => x = y
  | JStr _, JStr _ => True
  | JList xs, JList ys =>
    (fix all2 (xs ys : list json) : Prop :=
       match xs, ys with
       | [], [] => True
       | x :: xs', y :: ys' => same_shape x y /\ all2 xs' ys'
       | _, _ => False
       end) xs ys
  | JDict xs, JDict ys =>
    (fix all2 (xs ys : list (str * json)) : Prop :=
       match xs, ys with
       | [], [] => True
       | (k, x) :: xs', (k', y) :: ys' => k = k' /\ same_shape x y /\ all2 xs' ys'
       | _, _ => False
       end) xs ys
  | _, _ => False
  end.

Section JsonMasking.
Context {U : Unicode} {E : Externals} {RD : RankData}.
Variable cfg : config.

(** [mask_text_wrapper]. *)
Definition mask_text_wrapper (text : str) : M str := mask_text_context_aware cfg text.

(** [mask_json_recursive]: the comprehensions visit the members and the
    items in order, with the one store. *)
Fixpoint mask_json_recursive (data : json) : M json :=
  match data with
  | JDict members =>
    masked <-
      (fix over (members : list (str * json)) : M (list (str * json)) :=
         match members with
         | [] => ret []
         | (key, value) :: rest =>
           value' <- mask_json_recursive value ;;
           rest' <- over rest ;;
           ret ((key, value') :: rest')
         end) members ;;
    ret (JDict masked)
  | JList items =>
    masked <-
      (fix over (items : list json) : M (list json) :=
         match items with
         | [] => ret []
         | item :: rest =>
           item' <- mask_json_recursive item ;;
           rest' <- over rest ;;
           ret (item' :: rest')
         end) items ;;
    ret (JList masked)
  | JStr s => masked <- mask_text_wrapper s ;; ret (JStr masked)
  | other => ret other
  end.

(** The texts of a list masked one after the other with the one store. *)
Fixpoint mask_texts (texts : list str) : M (list str) :=
  match texts with
  | [] => ret []
  | text :: rest =>
    masked <- mask_text_context_aware cfg text ;;
    rest' <- mask_texts rest ;;
    ret (masked :: rest')
  end.

(** What [mask_json_recursive] does to a document: it keeps the shape,
    and masks the string leaves as [mask_texts] masks their list. *)
Definition masks_leaves (data : json) : Prop :=
  forall w data' w',
    mask_json_recursive data w = Ok (data', w') ->
    same_shape data data'
    /\ mask_texts (strings_of data) w = Ok (strings_of data', w').

End JsonMasking.

(** Induction on documents, with the hypothesis for every item of an array
    and every member of an object. *)
Section JsonInduction.
Variable P : json -> Prop.
Hypothesis P_null : P JNull.
Hypothesis P_bool : forall b, P (JBool b).
Hypothesis P_number : forall n, P (JNumber n).
Hypothesis P_str : forall s, P (JStr s).
Hypothesis P_list : forall items, Forall P items -> P (JList items).
Hypothesis P_dict : forall members, Forall (fun kv => P (snd kv)) members -> P (JDict members).

Fixpoint json_induction (data : json) : P data :=
  match data with
  | JNull => P_null
  | JBool b => P_bool b
  | JNumber n => P_number n
  | JStr s => P_str s
  | JList items =>
    P_list items
      ((fix all (l : list json) : Forall P l :=
          match l with
          | [] => Forall_nil _
          | x :: l' => Forall_cons x (json_induction x) (all l')
          end) items)
  | JDict members =>
    P_dict members
      ((fix all (l : list (str * json)) : Forall (fun kv => P (snd kv)) l :=
          match l with
          | [] => Forall_nil _
          | kv :: l' => Forall_cons kv (json_induction (snd kv)) (all l')
          end) members)
  end.

End JsonInduction.

(** [s.count(sub)] and [s.replace(old, new)]: occurrences are taken from
    the left and do not overlap; the empty string occurs before every
    character and at the end. *)
Fixpoint count_from (fuel : nat) (s sub : str) : nat :=
  match fuel with
  | O => 0
  | S fuel' =>
    if starts_with s sub then S (count_from fuel' (skipn (length sub) s) sub)
    else match s with
         | [] => 0
         | _ :: s' => count_from fuel' s' sub
         end
  end.

Definition str_count (s sub : str) : nat :=
  match sub with
  | [] => S (length s)
  | _ => count_from (S (length s)) s sub
  end.

Fixpoint replace_from (fuel : nat) (s old new : str) : str :=
  match fuel with
  | O => s
  | S fuel' =>
    if starts_with s old then new ++ replace_from fuel' (skipn (length old) s) old new
    else match s with
         | [] => []
         | c :: s' => c :: replace_from fuel' s' old new
         end
  end.

Definition str_replace (s old new : str) : str :=
  match old with
  | [] => new ++ flat_map (fun c => c :: new) s
  | _ => replace_from (S (length s)) s old new
  end.

(** A value of a category of an artifact: the masked string of the 1.x
    format or the record of the 2.x format. *)
Inductive map_value :=
| VString (masked : str)
| VRecord (info : mask_info).

Definition records_as_values (m : pydict (pydict mask_info)) : pydict (pydict map_value) :=
  map (fun category => (fst category,
                        map (fun entry => (fst entry, VRecord (snd entry))) (snd category)))
      m.

(** [check_mapping_version] on the artifact's ["version"], if it has one. *)
Definition check_mapping_version (version : option str) : str :=
  let version := from_option (py "1.0.0") version in
  if starts_with version (py "2.2") || starts_with version (py "2.1") then py "v2.1"
  else if starts_with version (py "2.0") then py "v2.0"
  else py "v1".

(** [unmask_text_v1]: the pairs whose value is a string, longest mask
    first, each replaced wherever it occurs. *)
Definition v1_pairs (mappings : pydict (pydict map_value)) : list (str * str) :=
  flat_map (fun category =>
              flat_map (fun entry =>
                          match snd entry with
                          | VString masked => [(masked, fst entry)]
                          | VRecord _ => []
                          end) (snd category))
           mappings.

Definition replace_pair (acc : str * unmask_stats) (pair : str * str)
  : str * unmask_stats :=
  let '(restored_text, stats) := acc in
  let '(masked, original) := pair in
  if str_contains restored_text masked then
    (str_replace restored_text masked original,
     Stats (restored_count stats + N.of_nat (str_count restored_text masked))
           (skipped_count stats))
  else (restored_text, stats).

Definition unmask_text_v1 (masked_text : str) (mappings : pydict (pydict map_value))
  : str * unmask_stats :=
  fold_left replace_pair
            (sort_descending (fun pair => length (fst pair)) (v1_pairs mappings))
            (masked_text, Stats 0 0).

Section Dispatch.
Context {U : Unicode} {RD : RankData}.

(** The branch of [main] for a text file, for an artifact in the format
    of the 2.x records. *)
Definition main_text_branch (version : option str) (masking_map : masking_dict)
    (masked_data : str) : str * unmask_stats :=
  let map_version := check_mapping_version version in
  if starts_with map_version (py "v2")
  then unmask_text_v2 masked_data masking_map map_version
  else unmask_text_v1 masked_data (records_as_values (mappings masking_map)).

(** [unmask_json_recursive]. *)
Fixpoint unmask_json_recursive (masking_map : masking_dict) (map_version : str)
    (masked_data : json) : json :=
  match masked_data with
  | JDict members =>
    JDict (map (fun kv => (fst kv, unmask_json_recursive masking_map map_version (snd kv)))
               members)
  | JList items => JList (map (unmask_json_recursive masking_map map_version) items)
  | JStr s =>
    JStr (fst (if starts_with map_version (py "v2")
               then unmask_text_v2 s masking_map map_version
               else unmask_text_v1 s (records_as_values (mappings masking_map))))
  | other => other
  end.

End Dispatch.
(* ================================================================== *)
(** * Properties *)
(* ================================================================== *)

#[local] Arguments N.add : simpl never.
#[local] Arguments N.sub : simpl never.
#[local] Arguments N.mul : simpl never.
#[local] Arguments N.div : simpl never.
#[local] Arguments N.modulo : simpl never.
#[local] Arguments N.pow : simpl never.

(** [evaluate t as H] records the value of the closed term [t]. *)
Tactic Notation "evaluate" constr(t) "as" ident(H) :=
  let v := eval vm_compute in t in
  assert (H : t = v) by (vm_compute; reflexivity).

Lemma str_eqb_refl (a : str) : str_eqb a a = true.
Proof. induction a; simpl; [reflexivity|]. now rewrite N.eqb_refl. Qed.

Lemma str_eqb_eq (a b : str) : str_eqb a b = true <-> a = b.
Proof.
  split.
  - revert b. induction a as [|x a IH]; destruct b as [|y b]; simpl; try discriminate; auto.
    intros H. apply andb_true_iff in H as [H1 H2].
    apply N.eqb_eq in H1. f_equal; auto.
  - intros ->. apply str_eqb_refl.
Qed.

Lemma str_eqb_neq (a b : str) : str_eqb a b = false <-> a <> b.
Proof.
  rewrite <- str_eqb_eq. destruct (str_eqb a b); split; congruence.
Qed.

(** *** Dictionaries *)

Lemma dict_get_set_same {V} (d : pydict V) k v : dict_get (dict_set d k v) k = Some v.
Proof.
  induction d as [|[k' v'] d IH]; simpl.
  - now rewrite str_eqb_refl.
  - destruct (str_eqb k k') eqn:E; simpl; rewrite E; auto.
Qed.

Lemma dict_get_set_other {V} (d : pydict V) k k' v :
  k <> k' -> dict_get (dict_set d k v) k' = dict_get d k'.
Proof.
  intros Hne. induction d as [|[k0 v0] d IH]; simpl.
  - destruct (str_eqb k' k) eqn:E; auto. apply str_eqb_eq in E. congruence.
  - destruct (str_eqb k k0) eqn:E; simpl.
    + apply str_eqb_eq in E. subst k0.
      destruct (str_eqb k' k) eqn:E'; auto. apply str_eqb_eq in E'. congruence.
    + destruct (str_eqb k' k0); auto.
Qed.

Lemma dict_mem_get {V} (d : pydict V) k :
  dict_mem d k = true <-> exists v, dict_get d k = Some v.
Proof.
  unfold dict_mem. destruct (dict_get d k); split; eauto; try discriminate.
  intros [v Hv]. discriminate.
Qed.

(** *** The instance counter *)

Lemma get_next_instance_spec m ic :
  let '(n, ic') := get_next_instance m ic in
  n = counter_of ic m + 1
  /\ counter_of ic' m = n
  /\ forall m', m' <> m -> dict_get ic' m' = dict_get ic m'.
Proof.
  unfold get_next_instance, counter_of.
  destruct (dict_mem ic m) eqn:E.
  - repeat split.
    + now rewrite dict_get_set_same.
    + intros m' Hne. apply dict_get_set_other. congruence.
  - assert (dict_get ic m = None) as Hn.
    { unfold dict_mem in E. destruct (dict_get ic m); [discriminate|reflexivity]. }
    rewrite dict_get_set_same, Hn. simpl. repeat split.
    + now rewrite dict_get_set_same.
    + intros m' Hne. rewrite !dict_get_set_other by congruence. reflexivity.
Qed.

Lemma get_next_instance_counter m ic n ic' :
  get_next_instance m ic = (n, ic') ->
  n = counter_of ic m + 1 /\ counter_of ic' m = counter_of ic m + 1
  /\ (forall m', m' <> m -> counter_of ic' m' = counter_of ic m')
  /\ (forall m', counter_of ic m' <= counter_of ic' m').
Proof.
  intros H. pose proof (get_next_instance_spec m ic) as S. rewrite H in S.
  destruct S as (Hn & Hc & Ho).
  assert (forall m', m' <> m -> counter_of ic' m' = counter_of ic m') as Ho'.
  { intros m' Hne. unfold counter_of. now rewrite Ho. }
  repeat split; auto; try congruence.
  intros m'. destruct (str_eqb m' m) eqn:E.
  - apply str_eqb_eq in E. subst. lia.
  - apply str_eqb_neq in E. rewrite Ho' by auto. lia.
Qed.

(** What one [add_to_mapping] call does, read off its definition. *)
Lemma add_to_mapping_inv md ic category original masked r md' ic' :
  add_to_mapping md ic category original masked = Ok (r, md', ic') ->
  exists cat,
    dict_get (mappings md) category = Some cat
    /\ r = match dict_get cat original with Some i => masked_as i | None => masked end
    /\ statistics md' =
         match dict_get cat original with
         | Some _ => statistics md
         | None => dict_set (statistics md) category (stat_of md category + 1)
         end
    /\ get_next_instance r ic = (counter_of ic r + 1, ic')
    /\ get_record md' category original =
         Some (MaskInfo r (match dict_get cat original with
                           | Some i => instances i | None => [] end
                           ++ [counter_of ic r + 1]))
    /\ (forall o, o <> original ->
          get_record md' category o = get_record md category o)
    /\ (forall c o, c <> category -> get_record md' c o = get_record md c o).
Proof.
  unfold add_to_mapping. destruct (dict_get (mappings md) category) as [cat|] eqn:Hc;
    [|discriminate].
  intros H. exists cat. split; [reflexivity|].
  destruct (dict_get cat original) as [info|] eqn:Ho.
  - destruct (get_next_instance (masked_as info) ic) as [n ic1] eqn:Hg.
    rewrite Ho in H. inversion H; subst; clear H.
    pose proof (get_next_instance_counter _ _ _ _ Hg) as (Hn & _).
    subst n. repeat split; auto.
    + unfold get_record; simpl. now rewrite !dict_get_set_same.
    + intros o Hne. unfold get_record; simpl. rewrite dict_get_set_same, Hc.
      apply dict_get_set_other. congruence.
    + intros c o Hne. unfold get_record; simpl.
      rewrite dict_get_set_other by congruence. reflexivity.
  - destruct (get_next_instance masked ic) as [n ic1] eqn:Hg.
    rewrite dict_get_set_same in H. inversion H; subst; clear H.
    pose proof (get_next_instance_counter _ _ _ _ Hg) as (Hn & _).
    subst n. repeat split; auto.
    + unfold get_record; simpl. now rewrite !dict_get_set_same.
    + intros o Hne. unfold get_record; simpl. rewrite dict_get_set_same, Hc.
      rewrite !dict_get_set_other by congruence. reflexivity.
    + intros c o Hne. unfold get_record; simpl.
      rewrite dict_get_set_other by congruence. reflexivity.
Qed.

Lemma add_to_mapping_counters md ic category original masked r md' ic' :
  add_to_mapping md ic category original masked = Ok (r, md', ic') ->
  counter_of ic' r = counter_of ic r + 1
  /\ (forall m, m <> r -> counter_of ic' m = counter_of ic m)
  /\ (forall m, counter_of ic m <= counter_of ic' m).
Proof.
  intros H. apply add_to_mapping_inv in H as (cat & _ & _ & _ & Hg & _).
  apply get_next_instance_counter in Hg. tauto.
Qed.

Lemma run_calls_monotone cs : forall md ic md' ic',
  run_calls cs md ic = Ok (md', ic') ->
  forall m, counter_of ic m <= counter_of ic' m.
Proof.
  induction cs as [|[category original masked] cs IH]; simpl; intros md ic md' ic' H m.
  - inversion H; subst. lia.
  - destruct (add_to_mapping md ic category original masked) as [[[r md1] ic1]|] eqn:E;
      [|discriminate].
    apply add_to_mapping_counters in E as (_ & _ & Hm).
    specialize (IH _ _ _ _ H m). specialize (Hm m). lia.
Qed.

(** C4. Along any run of [add_to_mapping] calls no counter ever decreases;
    each call, whatever its category and original, raises the counter of the
    masked value it returns by exactly one, leaves every other counter alone
    and appends the new count to the record's instance list; the counter is
    keyed by the masked value only, so a later call for any other original
    that yields the same masked value continues the same count. *)
Theorem C4_instance_counter_shared_and_monotone
    cs md0 ic0 md ic category original masked r md' ic' :
  run_calls cs md0 ic0 = Ok (md, ic) ->
  add_to_mapping md ic category original masked = Ok (r, md', ic') ->
  (forall m, counter_of ic0 m <= counter_of ic m)
  /\ counter_of ic' r = counter_of ic r + 1
  /\ (forall m, m <> r -> counter_of ic' m = counter_of ic m)
  /\ (exists info,
        get_record md' category original = Some info
        /\ masked_as info = r
        /\ instances info =
             match get_record md category original with
             | Some i => instances i
             | None => []
             end ++ [counter_of ic' r])
  /\ (forall category2 original2 masked2 md2 ic2,
        add_to_mapping md' ic' category2 original2 masked2 = Ok (r, md2, ic2) ->
        counter_of ic2 r = counter_of ic r + 2
        /\ exists info2,
             get_record md2 category2 original2 = Some info2
             /\ last (instances info2) 0 = counter_of ic r + 2).
Proof.
  intros Hrun Hadd.
  pose proof (add_to_mapping_counters _ _ _ _ _ _ _ _ Hadd) as (H1 & H2 & _).
  split; [exact (run_calls_monotone _ _ _ _ _ Hrun)|].
  split; [exact H1|]. split; [exact H2|]. split.
  - apply add_to_mapping_inv in Hadd as (cat & Hc & Hr & _ & _ & Hrec & _).
    eexists. split; [exact Hrec|]. simpl. split; [reflexivity|].
    unfold get_record. rewrite Hc, H1. reflexivity.
  - intros category2 original2 masked2 md2 ic2 Hadd2.
    pose proof (add_to_mapping_counters _ _ _ _ _ _ _ _ Hadd2) as (H3 & _).
    split; [lia|].
    apply add_to_mapping_inv in Hadd2 as (cat & _ & _ & _ & _ & Hrec & _).
    eexists. split; [exact Hrec|]. simpl. rewrite last_last. lia.
Qed.

Lemma C4_witness :
  exists md ic md' ic',
    run_calls [Call (py "surname") (py "Петренко") (py "Іваненко")]
              fresh_masking_dict empty_counters = Ok (md, ic)
    /\ add_to_mapping md ic (py "surname") (py "Сидоренко") (py "Іваненко")
         = Ok (py "Іваненко", md', ic')
    /\ counter_of ic (py "Іваненко") = 1
    /\ counter_of ic' (py "Іваненко") = 2
    /\ get_record md' (py "surname") (py "Сидоренко")
         = Some (MaskInfo (py "Іваненко") [2]).
Proof.
  evaluate (run_calls [Call (py "surname") (py "Петренко") (py "Іваненко")]
                      fresh_masking_dict empty_counters) as H1.
  match type of H1 with
  | _ = Ok (?md, ?ic) =>
    evaluate (add_to_mapping md ic (py "surname") (py "Сидоренко") (py "Іваненко")) as H2
  end.
  destruct (C4_instance_counter_shared_and_monotone _ _ _ _ _ _ _ _ _ _ _ H1 H2)
    as (_ & Hc & _ & (info & Hi & _ & Hl) & _).
  do 4 eexists. split; [exact H1|]. split; [exact H2|].
  split; [vm_compute; reflexivity|]. split; [exact Hc|].
  vm_compute. reflexivity.
Defined.

(** [add_to_mapping] is total on a store that has the category. *)
Lemma add_to_mapping_total md ic category original masked cat :
  dict_get (mappings md) category = Some cat ->
  exists r md' ic',
    add_to_mapping md ic category original masked = Ok (r, md', ic')
    /\ (exists info', get_record md' category original = Some info'
                      /\ masked_as info' = r)
    /\ match dict_get cat original with
       | Some info =>
         r = masked_as info /\ statistics md' = statistics md
       | None =>
         r = masked /\ stat_of md' category = stat_of md category + 1
         /\ forall c, c <> category -> stat_of md' c = stat_of md c
       end.
Proof.
  intros Hc.
  assert (exists x, add_to_mapping md ic category original masked = Ok x) as [[[r md'] ic'] H].
  { unfold add_to_mapping. rewrite Hc.
    destruct (dict_get cat original) as [info|] eqn:Ho.
    - destruct (get_next_instance (masked_as info) ic). rewrite Ho. eauto.
    - destruct (get_next_instance masked ic). rewrite dict_get_set_same. eauto. }
  exists r, md', ic'. split; [exact H|].
  apply add_to_mapping_inv in H as (cat' & Hc' & Hr & Hs & _ & Hrec & _).
  rewrite Hc in Hc'. inversion Hc'; subst cat'; clear Hc'.
  split; [eexists; split; [exact Hrec|reflexivity]|].
  destruct (dict_get cat original) as [info|].
  - split; assumption.
  - split; [assumption|]. unfold stat_of at 1 3. rewrite Hs. split.
    + now rewrite dict_get_set_same.
    + intros c Hne. rewrite dict_get_set_other by congruence. reflexivity.
Qed.

(** C5. With the category present in the store, [add_to_mapping] returns
    normally; for an original already recorded the supplied masked value is
    ignored, the stored one is returned and the statistics are untouched; for
    a new original a record holding the supplied value is created and the
    category's statistic grows by one; either way the value returned is the
    record's [masked_as]. *)
Theorem C5_add_to_mapping_reuses_or_creates md ic category original masked cat :
  dict_get (mappings md) category = Some cat ->
  exists r md' ic',
    add_to_mapping md ic category original masked = Ok (r, md', ic')
    /\ (exists info', get_record md' category original = Some info'
                      /\ masked_as info' = r)
    /\ match dict_get cat original with
       | Some info =>
         r = masked_as info /\ statistics md' = statistics md
       | None =>
         r = masked /\ stat_of md' category = stat_of md category + 1
         /\ forall c, c <> category -> stat_of md' c = stat_of md c
       end.
Proof. apply add_to_mapping_total. Qed.

Lemma C5_witness :
  exists r md' ic',
    add_to_mapping fresh_masking_dict empty_counters
                   (py "ipn") (py "1234567890") (py "1239876540") = Ok (r, md', ic')
    /\ r = py "1239876540"
    /\ stat_of md' (py "ipn") = 1.
Proof.
  destruct (C5_add_to_mapping_reuses_or_creates fresh_masking_dict empty_counters
              (py "ipn") (py "1234567890") (py "1239876540") [] eq_refl)
    as (r & md' & ic' & H & _ & Hr & Hs & _).
  exists r, md', ic'. split; [exact H|]. split; [exact Hr|]. exact Hs.
Defined.

(** *** The monad *)

Section MonadFacts.
Context {U : Unicode} {E : Externals}.

Lemma bind_ok {A B} (m : M A) (f : A -> M B) w a w1 :
  m w = Ok (a, w1) -> bind m f w = f a w1.
Proof. unfold bind. now intros ->. Qed.

Lemma bind_inv {A B} (m : M A) (f : A -> M B) w b w2 :
  bind m f w = Ok (b, w2) -> exists a w1, m w = Ok (a, w1) /\ f a w1 = Ok (b, w2).
Proof.
  unfold bind. destruct (m w) as [[a w1]|]; [eauto|discriminate].
Qed.

Lemma str_of_digit d : d < 10 -> str_of_N d = [48 + d].
Proof.
  intros H. unfold str_of_N.
  destruct (N.to_nat (N.log2 d)); simpl;
    (rewrite (proj2 (N.ltb_lt d 10) H); now rewrite N.mod_small).
Qed.

Lemma randint_spec a b w :
  a <= b ->
  exists x w', randint a b w = Ok (x, w')
    /\ a <= x <= b
    /\ w_md w' = w_md w /\ w_ic w' = w_ic w /\ w_fk w' = w_fk w.
Proof.
  intros Hab. unfold randint, randbelow, bind, ret.
  destruct (rng_draw (w_rng w) (b + 1 - a)) as [x g].
  assert (x mod (b + 1 - a) < b + 1 - a) by (apply N.mod_upper_bound; lia).
  set (y := x mod (b + 1 - a)) in *. clearbody y.
  eexists _, _. split; [reflexivity|]. cbn [w_md w_ic w_fk]. repeat split; auto; lia.
Qed.

(** The random digit string: always produced, of the requested length,
    made of ASCII digits, and drawn without touching store or counters. *)
Lemma random_digits_spec n : forall w,
  exists d w', random_digits n w = Ok (d, w')
    /\ length d = n
    /\ Forall (fun c => 48 <= c <= 57) d
    /\ w_md w' = w_md w /\ w_ic w' = w_ic w /\ w_fk w' = w_fk w.
Proof.
  induction n as [|n IH]; intros w; simpl.
  - exists [], w. repeat split; auto.
  - destruct (randint_spec 0 9 w) as (x & w1 & Hx & Hr & A1 & A2 & A3); [lia|].
    destruct (IH w1) as (d & w' & Hd & Hl & Hf & B1 & B2 & B3).
    rewrite (bind_ok _ _ _ _ _ Hx), (bind_ok _ _ _ _ _ Hd). unfold ret.
    rewrite str_of_digit by lia.
    eexists _, w'. split; [reflexivity|]. simpl. repeat split; try congruence.
    constructor; [lia|assumption].
Qed.

End MonadFacts.

(** *** IPN *)

Section Ipn.
Context {U : Unicode} {UL : UnicodeLaws U} {E : Externals}.
Variable cfg : config.

Lemma utf8_encode_digits s :
  forallb ch_isdigit s = true -> exists b, utf8_encode s = Some b.
Proof.
  induction s as [|c s IH]; simpl; intros H; [eauto|].
  apply andb_true_iff in H as [Hc Hs].
  destruct (IH Hs) as [b ->].
  pose proof (isdigit_encodable c Hc) as He.
  destruct (utf8_encode_char c); [eauto|congruence].
Qed.

Lemma isdigit_forallb s : isdigit s = true -> forallb ch_isdigit s = true.
Proof. destruct s; simpl; [discriminate|auto]. Qed.

Lemma record_mapping_ok category original masked w cat :
  dict_get (mappings (w_md w)) category = Some cat ->
  exists r w',
    record_mapping category original masked w = Ok (r, w')
    /\ add_to_mapping (w_md w) (w_ic w) category original masked
       = Ok (r, w_md w', w_ic w')
    /\ w_rng w' = w_rng w /\ w_fk w' = w_fk w.
Proof.
  intros Hc.
  destruct (add_to_mapping_total (w_md w) (w_ic w)
              category original masked cat Hc) as (r & md' & ic' & H & _).
  unfold record_mapping. rewrite H. eexists _, _. split; [reflexivity|].
  simpl. auto.
Qed.

Lemma forallb_digits d :
  Forall (fun c => 48 <= c <= 57) d -> forallb ch_isdigit d = true.
Proof.
  induction 1 as [|c d Hc _ IH]; simpl; [reflexivity|].
  now rewrite (ascii_digit_isdigit c Hc).
Qed.

(** What [mask_ipn] builds from a ten-digit original and six drawn digits
    has the promised shape. *)
Lemma ipn_splice_shape original middle :
  ipn_shape original -> length middle = 6%nat ->
  Forall (fun c => 48 <= c <= 57) middle ->
  ipn_masked_from original (str_head original 3 ++ middle ++ str_tail original 1).
Proof.
  intros [Hl Hd] Hm Hf.
  do 10 (destruct original as [|? original]; try discriminate Hl).
  destruct original; [|discriminate Hl].
  do 6 (destruct middle as [|? middle]; try discriminate Hm).
  destruct middle; [|discriminate Hm].
  pose proof Hf as Hascii. apply forallb_digits in Hf.
  unfold ipn_masked_from, ipn_shape, str_head, str_tail, slice, isdigit in *.
  cbn [length firstn skipn app Nat.sub forallb] in *.
  repeat (apply andb_true_iff in Hd as [? Hd]).
  repeat (apply andb_true_iff in Hf as [? Hf]).
  repeat split; auto.
  repeat (apply andb_true_iff; split); auto.
Qed.

Lemma mask_ipn_shape_ok original w cat alg :
  hash_alg_of (HASH_ALGORITHM cfg) = Some alg ->
  dict_get (mappings (w_md w)) (py "ipn") = Some cat ->
  ipn_store_ok (w_md w) ->
  ipn_shape original ->
  exists r w',
    mask_ipn cfg original w = Ok (r, w')
    /\ ipn_masked_from original r
    /\ ipn_store_ok (w_md w').
Proof.
  intros Halg Hcat Hok Hshape.
  assert (forall masked w0,
             w_md w0 = w_md w ->
             ipn_masked_from original masked ->
             (forall info, dict_get cat original = Some info -> masked_as info = masked) ->
             exists r w',
               record_mapping (py "ipn") original masked w0 = Ok (r, w')
               /\ ipn_masked_from original r /\ ipn_store_ok (w_md w')) as Hrec.
  { intros masked w0 Hw0 Hm Hsame.
    destruct (record_mapping_ok (py "ipn") original masked w0 cat) as (r & w' & Hr & Ha & _).
    { now rewrite Hw0. }
    exists r, w'. split; [exact Hr|].
    apply add_to_mapping_inv in Ha as (cat' & Hc' & Hrv & _ & _ & Hnew & Hother & _).
    rewrite Hw0, Hcat in Hc'. inversion Hc'; subst cat'; clear Hc'.
    assert (r = masked) as ->.
    { rewrite Hrv. destruct (dict_get cat original) as [info|] eqn:Ho; auto. }
    split; [exact Hm|].
    intros o info Hget.
    destruct (str_eqb o original) eqn:Eo.
    - apply str_eqb_eq in Eo. subst o. rewrite Hnew in Hget.
      inversion Hget; subst info. exact Hm.
    - apply str_eqb_neq in Eo. rewrite Hother in Hget by exact Eo.
      rewrite Hw0 in Hget. now apply Hok. }
  unfold mask_ipn.
  assert (store_category (py "ipn") w = Ok (cat, w)) as Hsc.
  { unfold store_category. now rewrite Hcat. }
  rewrite (bind_ok _ _ _ _ _ Hsc).
  destruct (dict_get cat original) as [info|] eqn:Ho.
  - apply Hrec; auto.
    + apply (Hok original info). unfold get_record. now rewrite Hcat.
    + intros info' H. now inversion H.
  - destruct Hshape as [Hl Hd].
    rewrite Hl, Hd. cbn [Nat.eqb negb orb].
    destruct (utf8_encode_digits original (isdigit_forallb _ Hd)) as [bytes Hb].
    unfold get_deterministic_seed. rewrite Halg, Hb.
    unfold lift_result, random_seed. cbn [bind].
    match goal with
    | |- context [bind (random_digits 6) _ ?w1] =>
      destruct (random_digits_spec 6 w1) as (middle & w2 & Hrd & Hml & Hmf & M1 & _)
    end.
    rewrite (bind_ok _ _ _ _ _ Hrd).
    apply Hrec.
    + rewrite M1. reflexivity.
    + apply ipn_splice_shape; [split|..]; auto.
    + intros info H. discriminate H.
Qed.

(** Ten decimal digits have the shape [mask_ipn] tests for. *)
Lemma decimal_ipn_shape {DL : DecimalLaws U} original :
  length original = 10%nat -> forallb ch_isdecimal original = true ->
  ipn_shape original.
Proof.
  intros Hl Hd. split; [exact Hl|].
  destruct original as [|c s]; [discriminate Hl|].
  unfold isdigit. apply forallb_forall. intros x Hx.
  apply decimal_isdigit. rewrite forallb_forall in Hd. now apply Hd.
Qed.

(** A mask of ten decimal digits consists of ten decimal digits. *)
Lemma ipn_masked_decimal {DL : DecimalLaws U} original r :
  length original = 10%nat -> forallb ch_isdecimal original = true ->
  ipn_masked_from original r -> forallb ch_isdecimal r = true.
Proof.
  intros Hl Hd ((Hlr & _) & Hh & Ht & Hm).
  do 10 (destruct original as [|? original]; try discriminate Hl).
  destruct original; [|discriminate Hl].
  do 10 (destruct r as [|? r]; try discriminate Hlr).
  destruct r; [|discriminate Hlr].
  unfold str_head, str_tail, slice in *.
  cbn [length firstn skipn app Nat.sub forallb] in *.
  inversion Hh; subst. inversion Ht; subst.
  repeat match goal with
         | H : Forall _ (_ :: _) |- _ => inversion H; subst; clear H
         end.
  repeat (apply andb_true_iff in Hd as [? Hd]).
  repeat (apply andb_true_iff; split);
    try assumption; try reflexivity; now apply ascii_digit_isdecimal.
Qed.

(** C6. Let the store have its ["ipn"] category, every record in it being
    one [mask_ipn] wrote, and let the configured hash algorithm be one of
    the five known ones. For an original of exactly ten decimal digits
    [mask_ipn] returns a string of exactly ten decimal digits with the
    original's first three characters and its last one, and the store keeps
    its shape. For an original that fails the test of the code (ten
    characters, all accepted by [str.isdigit]) and is not recorded,
    [mask_ipn] returns it unchanged, raises nothing and leaves store,
    counters and generators as they were. *)
Theorem C6_mask_ipn_format {DL : DecimalLaws U} original w cat alg :
  hash_alg_of (HASH_ALGORITHM cfg) = Some alg ->
  dict_get (mappings (w_md w)) (py "ipn") = Some cat ->
  ipn_store_ok (w_md w) ->
  (length original = 10%nat ->
   forallb ch_isdecimal original = true ->
   exists r w',
     mask_ipn cfg original w = Ok (r, w')
     /\ length r = 10%nat /\ forallb ch_isdecimal r = true
     /\ str_head r 3 = str_head original 3
     /\ str_tail r 1 = str_tail original 1
     /\ ipn_store_ok (w_md w'))
  /\ (~ ipn_shape original ->
      dict_get cat original = None ->
      mask_ipn cfg original w = Ok (original, w)).
Proof.
  intros Halg Hcat Hok. split.
  - intros Hl Hd.
    destruct (mask_ipn_shape_ok original w cat alg Halg Hcat Hok
                (decimal_ipn_shape original Hl Hd))
      as (r & w' & Hr & Hm & Hok').
    exists r, w'. split; [exact Hr|].
    split; [exact (proj1 (proj1 Hm))|].
    split; [exact (ipn_masked_decimal original r Hl Hd Hm)|].
    split; [exact (proj1 (proj2 Hm))|].
    split; [exact (proj1 (proj2 (proj2 Hm)))|exact Hok'].
  - intros Hns Hnone. unfold mask_ipn, store_category, bind.
    rewrite Hcat, Hnone.
    destruct (Nat.eqb (length original) 10) eqn:El; [|reflexivity].
    destruct (isdigit original) eqn:Ed; [|reflexivity].
    exfalso. apply Hns. split; [now apply Nat.eqb_eq|exact Ed].
Qed.

End Ipn.

(** The example table satisfies the laws. *)
#[export] Instance ucd_laws : UnicodeLaws ucd.
Proof.
  split.
  - intros c [H1 H2]. cbn. unfold ucd_isdigit, in_range.
    apply N.leb_le in H1, H2. now rewrite H1, H2.
  - intros c H. cbn in H. unfold ucd_isdigit, in_range in H.
    repeat (apply orb_true_iff in H as [H|H]).
    + apply andb_true_iff in H as [_ H]. apply N.leb_le in H.
      unfold utf8_encode_char.
      assert ((c <? 128) = true) as -> by (apply N.ltb_lt; lia). discriminate.
    + apply N.eqb_eq in H. subst c. discriminate.
    + apply N.eqb_eq in H. subst c. discriminate.
    + apply N.eqb_eq in H. subst c. discriminate.
Qed.

(** The decimal digits of the example table are digits. *)
#[export] Instance ucd_decimal_laws : DecimalLaws ucd.
Proof.
  split.
  - intros c H. cbn in *. unfold ucd_isdigit, ucd_isdecimal in *.
    now rewrite H.
  - intros c [H1 H2]. cbn. unfold ucd_isdecimal, in_range.
    apply N.leb_le in H1, H2. now rewrite H1, H2.
Qed.

Lemma C6_witness :
  (exists r w',
      mask_ipn default_config (py "1234567890") (demo_world) = Ok (r, w')
      /\ length r = 10%nat /\ forallb ch_isdecimal r = true
      /\ str_head r 3 = py "123" /\ str_tail r 1 = py "0")
  /\ mask_ipn default_config (py "12345") (demo_world)
     = Ok (py "12345", demo_world).
Proof.
  assert (ipn_store_ok (w_md (demo_world))) as Hok.
  { intros o info H. vm_compute in H. discriminate H. }
  split.
  - destruct (C6_mask_ipn_format (E := demo_externals) default_config (py "1234567890") (demo_world)
                [] BLAKE2B eq_refl eq_refl Hok)
      as [H _].
    destruct H as (r & w' & Hr & Hl & Hd & Hh & Ht & _).
    { vm_compute; reflexivity. }
    { vm_compute; reflexivity. }
    exists r, w'. repeat split; assumption.
  - apply (C6_mask_ipn_format (E := demo_externals) default_config (py "12345") (demo_world)
             [] BLAKE2B eq_refl eq_refl Hok).
    + intros [H _]. vm_compute in H. discriminate H.
    + reflexivity.
Defined.

(** *** Surnames: the abbreviation whitelist *)

(** C10. A string whose lower-case form is in [ABBREVIATION_WHITELIST] is
    returned by [mask_surname] as it is, before the store is even looked at:
    store, counters and generators are unchanged. *)
Theorem C10_whitelisted_abbreviation_untouched
    {U : Unicode} {E : Externals} (cfg : config) (original : str) (w : world) :
  mem_str (lower original) ABBREVIATION_WHITELIST = true ->
  mask_surname cfg original w = Ok (original, w).
Proof.
  intros H. unfold mask_surname. rewrite H. reflexivity.
Qed.

Lemma C10_witness :
  mem_str (lower (py "ЗСУ")) ABBREVIATION_WHITELIST = true
  /\ isupper (py "ЗСУ") = true
  /\ mask_surname default_config (py "ЗСУ") demo_world = Ok (py "ЗСУ", demo_world)
  /\ mask_surname default_config (py "СБУ") demo_world = Ok (py "СБУ", demo_world).
Proof.
  split; [vm_compute; reflexivity|]. split; [vm_compute; reflexivity|]. split.
  - apply (C10_whitelisted_abbreviation_untouched (E := demo_externals)).
    vm_compute. reflexivity.
  - apply (C10_whitelisted_abbreviation_untouched (E := demo_externals)).
    vm_compute. reflexivity.
Defined.

(** *** Determinism: which state a generator reads *)

Section Determinism.
Context {U : Unicode} {E : Externals}.

Lemma related_ret {A} R (a : A) : related R R (ret a).
Proof. intros w1 w2 H. simpl. auto. Qed.

Lemma related_raise {A} R R' e : related R R' (raise (A := A) e).
Proof. intros w1 w2 H. reflexivity. Qed.

Lemma related_bind {A B} R R' R'' (m : M A) (f : A -> M B) :
  related R R' m -> (forall a, related R' R'' (f a)) -> related R R'' (bind m f).
Proof.
  intros Hm Hf w1 w2 H. specialize (Hm w1 w2 H). unfold bind.
  destruct (m w1) as [[a1 w1']|e1], (m w2) as [[a2 w2']|e2]; try contradiction; auto.
  destruct Hm as [<- Hw]. apply Hf. exact Hw.
Qed.

Lemma related_weaken {A} (R1 R1' R2 R2' : world -> world -> Prop) (m : M A) :
  (forall a b, R2 a b -> R1 a b) -> (forall a b, R1' a b -> R2' a b) ->
  related R1 R1' m -> related R2 R2' m.
Proof.
  intros H1 H2 Hm w1 w2 H. specialize (Hm w1 w2 (H1 _ _ H)).
  destruct (m w1) as [[a1 w1']|e1], (m w2) as [[a2 w2']|e2]; auto.
  destruct Hm; auto.
Qed.

Lemma related_lift_result {A} R (r : result A) : related R R (lift_result r).
Proof. intros w1 w2 H. unfold lift_result. destruct r; auto. Qed.

Lemma same_store_rng_store a b : same_store_rng a b -> same_store a b.
Proof. now intros [H _]. Qed.

(** Re-seeding makes the generator states agree whatever they were. *)
Lemma related_random_seed seed : related same_store same_store_rng (random_seed seed).
Proof. intros w1 w2 [H1 H2]. simpl. repeat split; auto. Qed.

Lemma related_faker_seed_eq seed : related same_store_rng eq (faker_seed seed).
Proof.
  intros [md1 ic1 g1 f1] [md2 ic2 g2 f2] [[H1 H2] H3]. simpl in *. subst.
  split; reflexivity.
Qed.

Lemma related_randbelow n : related same_store_rng same_store_rng (randbelow n).
Proof.
  intros w1 w2 [[H1 H2] H3]. unfold randbelow. rewrite H3.
  destruct (rng_draw (w_rng w2) n) as [x g]. simpl. repeat split; auto.
Qed.

Lemma related_randint a b : related same_store_rng same_store_rng (randint a b).
Proof.
  unfold randint. eapply related_bind; [apply related_randbelow|].
  intros x. apply related_ret.
Qed.

Lemma related_choice {A} (l : list A) : related same_store_rng same_store_rng (choice l).
Proof.
  destruct l as [|d l]; simpl; [apply related_raise|].
  eapply related_bind; [apply related_randbelow|]. intros i. apply related_ret.
Qed.

Lemma related_random_digits n : related same_store_rng same_store_rng (random_digits n).
Proof.
  induction n as [|n IH]; simpl; [apply related_ret|].
  eapply related_bind; [apply related_randint|]. intros d.
  eapply related_bind; [apply IH|]. intros r. apply related_ret.
Qed.

Lemma related_store_category R category :
  (forall a b, R a b -> same_store a b) -> related R R (store_category category).
Proof.
  intros HR w1 w2 H. destruct (HR _ _ H) as [H1 _]. unfold store_category.
  rewrite H1. destruct (dict_get (mappings (w_md w2)) category); auto.
Qed.

Lemma related_record_mapping category original masked :
  related same_store_rng same_store_rng (record_mapping category original masked).
Proof.
  intros w1 w2 [[H1 H2] H3]. unfold record_mapping. rewrite H1, H2.
  destruct (add_to_mapping (w_md w2) (w_ic w2) category original masked)
    as [[[r md] ic]|e]; auto.
  repeat split; auto.
Qed.

Lemma related_record_mapping_store category original masked :
  related same_store same_store (record_mapping category original masked).
Proof.
  intros w1 w2 [H1 H2]. unfold record_mapping. rewrite H1, H2.
  destruct (add_to_mapping (w_md w2) (w_ic w2) category original masked)
    as [[[r md] ic]|e]; auto.
  repeat split; auto.
Qed.

Lemma related_eq {A} (m : M A) : related eq eq m.
Proof.
  intros w1 w2 <-. destruct (m w1) as [[a w']|e]; auto.
Qed.

Variable cfg : config.

(** X1. What [mask_ipn] returns, and the store and counters it leaves,
    depend on the original, the store and the counters alone: not on the
    state of either generator. *)
Lemma mask_ipn_deterministic original :
  related same_store same_store (mask_ipn cfg original).
Proof.
  unfold mask_ipn.
  eapply related_bind; [apply related_store_category; auto|]. intros cat.
  destruct (dict_get cat original).
  - apply related_record_mapping_store.
  - destruct (_ || _); [apply related_ret|].
    eapply related_bind; [apply related_lift_result|]. intros seed.
    eapply related_bind; [apply related_random_seed|]. intros _.
    eapply related_weaken with (R1 := same_store_rng) (R1' := same_store_rng);
      [auto|apply same_store_rng_store|].
    eapply related_bind; [apply related_random_digits|]. intros middle.
    apply related_record_mapping.
Qed.

(** X2. What [mask_passport_id] returns, and the store and counters it leaves,
    depend on the original, the store and the counters it is given alone:
    not on the state in which earlier calls left either generator. *)
Lemma mask_passport_id_deterministic original :
  related same_store same_store (mask_passport_id cfg original).
Proof.
  unfold mask_passport_id.
  eapply related_bind; [apply related_store_category; auto|]. intros cat.
  destruct (dict_get cat original).
  - apply related_record_mapping_store.
  - destruct (_ || _); [apply related_ret|].
    eapply related_bind; [apply related_lift_result|]. intros seed.
    eapply related_bind; [apply related_random_seed|]. intros _.
    eapply related_weaken with (R1 := same_store_rng) (R1' := same_store_rng);
      [auto|apply same_store_rng_store|].
    eapply related_bind; [apply related_random_digits|]. intros middle.
    apply related_record_mapping.
Qed.

(** X5. What [mask_surname] returns, and the store and counters it leaves,
    depend on the original, the store and the counters it is given alone:
    not on the state in which earlier calls left either generator (it
    re-seeds both before it draws). *)
Lemma mask_surname_deterministic original :
  related same_store same_store (mask_surname cfg original).
Proof.
  unfold mask_surname. destruct (mem_str _ _); [apply related_ret|].
  eapply related_bind; [apply related_store_category; auto|]. intros cat.
  destruct (dict_get cat original); [apply related_record_mapping_store|].
  eapply related_weaken with (R1 := same_store) (R1' := eq);
    [auto| intros a b ->; split; reflexivity |].
  eapply related_bind with (R' := eq); [|intros masked; apply related_eq].
  unfold generate_surname. destruct (is_empty original); [apply related_raise|].
  eapply related_bind; [apply related_lift_result|]. intros seed.
  eapply related_bind; [apply related_random_seed|]. intros _.
  eapply related_bind; [apply related_faker_seed_eq|]. intros _.
  apply related_eq.
Qed.

End Determinism.

(** C3. At the given name [mask_name] is not a function of the original
    alone: no whitelisted male name starts with the letter of "Назар", so
    [generate_easy_name] draws from [fake_uk], which only [mask_surname] and
    [mask_patronymic] re-seed. With the same fresh store, the same counters
    and the same hash algorithm, two states of the Faker instance give two
    different masks. *)
Theorem C3_mask_name_depends_on_faker_state :
  filter (fun n => str_eqb (lower (str_head n 1)) (lower (str_head (py "Назар") 1)))
         GOOD_UKRAINIAN_NAMES_MALE = []
  /\ answer (mask_name default_config (py "Назар") None None
               (fresh_world (E := demo_externals) 0 0)) = Some (py "Нестор")
  /\ answer (mask_name default_config (py "Назар") None None
               (fresh_world (E := demo_externals) 0 2)) = Some (py "Наум").
Proof. repeat split; vm_compute; reflexivity. Qed.

(** *** Frames: computations that leave store and counters alone *)

Section Frames.
Context {U : Unicode} {E : Externals}.

Lemma frames_ret {A} (a : A) : frames (ret a).
Proof. intros w a' w' H. inversion H; subst. auto. Qed.

Lemma frames_raise {A} e : frames (raise (A := A) e).
Proof. intros w a w' H. discriminate H. Qed.

Lemma frames_bind {A B} (m : M A) (f : A -> M B) :
  frames m -> (forall a, frames (f a)) -> frames (bind m f).
Proof.
  intros Hm Hf w b w2 H. apply bind_inv in H as (a & w1 & H1 & H2).
  destruct (Hm _ _ _ H1) as [A1 A2]. destruct (Hf _ _ _ _ H2) as [B1 B2].
  split; congruence.
Qed.

Lemma frames_lift_result {A} (r : result A) : frames (lift_result r).
Proof. intros w a w' H. unfold lift_result in H. destruct r; inversion H; subst; auto. Qed.

Lemma frames_random_seed seed : frames (random_seed seed).
Proof. intros w a w' H. inversion H; subst. auto. Qed.

Lemma frames_faker_seed seed : frames (faker_seed seed).
Proof. intros w a w' H. inversion H; subst. auto. Qed.

Lemma frames_faker_call f : frames (faker_call f).
Proof.
  intros w a w' H. unfold faker_call in H. destruct (f (w_fk w)).
  inversion H; subst. auto.
Qed.

Lemma frames_randbelow n : frames (randbelow n).
Proof.
  intros w a w' H. unfold randbelow in H. destruct (rng_draw (w_rng w) n).
  inversion H; subst. auto.
Qed.

Lemma frames_randint a b : frames (randint a b).
Proof.
  unfold randint. apply frames_bind; [apply frames_randbelow|]. intros x. apply frames_ret.
Qed.

Lemma frames_choice {A} (l : list A) : frames (choice l).
Proof.
  destruct l; simpl; [apply frames_raise|].
  apply frames_bind; [apply frames_randbelow|]. intros i. apply frames_ret.
Qed.

Variable cfg : config.

Lemma frames_faker_name_loop n gender first_letter :
  frames (faker_name_loop n gender first_letter).
Proof.
  induction n as [|n IH]; simpl; [apply frames_ret|].
  apply frames_bind; [apply frames_faker_call|]. intros name.
  destruct (is_empty name); [apply frames_raise|].
  destruct (negb _); [exact IH|].
  destruct (is_easy_to_decline name gender); [apply frames_ret|exact IH].
Qed.

Lemma frames_generate_easy_name gender first_letter seed n :
  frames (generate_easy_name gender first_letter seed n).
Proof.
  unfold generate_easy_name.
  apply frames_bind; [apply frames_random_seed|]. intros _.
  destruct (negb _).
  - apply frames_bind; [apply frames_choice|]. intros x. apply frames_ret.
  - apply frames_bind; [apply frames_faker_name_loop|]. intros [name|].
    + apply frames_ret.
    + apply frames_bind; [apply frames_choice|]. intros x. apply frames_ret.
Qed.

Lemma frames_name_attempt seed_text gender first_letter case :
  frames (name_attempt cfg seed_text gender first_letter case).
Proof.
  unfold name_attempt.
  apply frames_bind; [apply frames_lift_result|]. intros seed.
  apply frames_bind; [apply frames_generate_easy_name|]. intros x. apply frames_ret.
Qed.

Lemma frames_name_retry_loop budget original gender first_letter case :
  forall masked attempts,
    frames (name_retry_loop cfg budget original gender first_letter case masked attempts).
Proof.
  induction budget as [|b IH]; intros masked attempts; simpl; [apply frames_ret|].
  destruct (str_eqb _ _); [|apply frames_ret].
  apply frames_bind; [apply frames_name_attempt|]. intros m. apply IH.
Qed.

Lemma frames_generate_name original gender_hint patronymic_hint :
  frames (generate_name cfg original gender_hint patronymic_hint).
Proof.
  unfold generate_name. destruct (detect_name_case_and_gender original) as [case g].
  apply frames_bind; [apply frames_name_attempt|]. intros m.
  apply frames_name_retry_loop.
Qed.

Lemma frames_draw_rank hierarchy idx : frames (draw_rank hierarchy idx).
Proof.
  unfold draw_rank. apply frames_bind; [apply frames_choice|]. intros s. apply frames_ret.
Qed.

Lemma frames_rank_retry_loop budget hierarchy idx original_key :
  forall masked shift attempts,
    frames (rank_retry_loop budget hierarchy idx original_key masked shift attempts).
Proof.
  induction budget as [|b IH]; intros masked shift attempts; simpl; [apply frames_ret|].
  destruct (str_eqb _ _); [|apply frames_ret].
  apply frames_bind; [apply frames_draw_rank|]. intros d. apply IH.
Qed.

Lemma frames_generate_rank hierarchy idx original_key :
  frames (generate_rank cfg hierarchy idx original_key).
Proof.
  unfold generate_rank.
  apply frames_bind; [apply frames_lift_result|]. intros seed.
  apply frames_bind; [apply frames_random_seed|]. intros _.
  apply frames_bind; [apply frames_draw_rank|]. intros d.
  apply frames_rank_retry_loop.
Qed.

(** *** The retry loops *)

Lemma name_retry_loop_spec budget original gender first_letter case :
  forall masked attempts w m' a' w',
    name_retry_loop cfg budget original gender first_letter case masked attempts w
      = Ok ((m', a'), w') ->
    a' <= attempts + N.of_nat budget
    /\ (lower m' <> lower original \/ a' = attempts + N.of_nat budget).
Proof.
  induction budget as [|b IH]; intros masked attempts w m' a' w' H; simpl in H.
  - inversion H; subst. split; [lia|right; lia].
  - destruct (str_eqb (lower masked) (lower original)) eqn:Eq.
    + apply bind_inv in H as (m1 & w1 & _ & H).
      apply IH in H as [H1 H2]. split; [lia|].
      destruct H2 as [H2|H2]; [left; exact H2|right; lia].
    + inversion H; subst. apply str_eqb_neq in Eq. split; [lia|left; exact Eq].
Qed.

Lemma choice_cons {A} (d : A) (l : list A) :
  choice (d :: l)
  = bind (randbelow (N.of_nat (length (d :: l))))
         (fun i => ret (nth (N.to_nat i) (d :: l) d)).
Proof. reflexivity. Qed.

Lemma pick_in {A} (l : list A) (d : A) w x w' :
  l <> [] ->
  bind (randbelow (N.of_nat (length l))) (fun i => ret (nth (N.to_nat i) l d)) w
    = Ok (x, w') ->
  In x l.
Proof.
  intros Hne H. apply bind_inv in H as (i & w1 & H1 & H2).
  unfold ret in H2. injection H2 as Hx Hw. subst x.
  unfold randbelow in H1. destruct (rng_draw (w_rng w) (N.of_nat (length l))) as [y g].
  injection H1 as Hi Hw1. subst i.
  apply nth_In.
  assert (0 < N.of_nat (length l)) as Hpos.
  { destruct l; [congruence|]. cbn [length]. lia. }
  assert (y mod N.of_nat (length l) < N.of_nat (length l)) as Hlt.
  { apply N.mod_upper_bound. lia. }
  set (z := y mod _) in *. clearbody z. lia.
Qed.

Lemma choice_in {A} (l : list A) w x w' : choice l w = Ok (x, w') -> In x l.
Proof.
  destruct l as [|d l]; [discriminate|]. rewrite choice_cons.
  apply pick_in. discriminate.
Qed.

Lemma choice_total {A} (l : list A) w : l <> [] -> exists x w', choice l w = Ok (x, w').
Proof.
  destruct l as [|d l]; [congruence|]. intros _. unfold choice, bind, randbelow.
  destruct (rng_draw (w_rng w) (N.of_nat (length (d :: l)))) as [y g].
  unfold ret. eauto.
Qed.

Lemma draw_rank_spec hierarchy idx w d w' :
  draw_rank hierarchy idx w = Ok (d, w') ->
  In (snd d) rank_shifts /\ fst d = nth (clamp_index hierarchy idx (snd d)) hierarchy [].
Proof.
  unfold draw_rank. intros H. apply bind_inv in H as (s & w1 & H1 & H2).
  unfold ret in H2. injection H2 as Hd Hw. subst d. cbn [fst snd].
  split; [eapply choice_in; eauto|reflexivity].
Qed.

Lemma draw_rank_total hierarchy idx w : exists d w', draw_rank hierarchy idx w = Ok (d, w').
Proof.
  unfold draw_rank. destruct (choice_total rank_shifts w) as (s & w1 & H); [discriminate|].
  rewrite (bind_ok _ _ _ _ _ H). unfold ret. eauto.
Qed.

Lemma rank_retry_loop_spec budget hierarchy idx original_key :
  forall masked shift attempts w m' s' a' w',
    rank_retry_loop budget hierarchy idx original_key masked shift attempts w
      = Ok ((m', s', a'), w') ->
    In shift rank_shifts ->
    masked = nth (clamp_index hierarchy idx shift) hierarchy [] ->
    In s' rank_shifts
    /\ m' = nth (clamp_index hierarchy idx s') hierarchy []
    /\ a' <= attempts + N.of_nat budget
    /\ (lower m' <> original_key \/ a' = attempts + N.of_nat budget).
Proof.
  induction budget as [|b IH]; intros masked shift attempts w m' s' a' w' H Hs Hm;
    simpl in H.
  - unfold ret in H. injection H as -> -> -> _.
    split; [exact Hs|]. split; [exact Hm|]. split; [lia|right; lia].
  - destruct (str_eqb (lower masked) original_key) eqn:Eq.
    + apply bind_inv in H as (d & w1 & Hd & H).
      apply draw_rank_spec in Hd as [D1 D2].
      apply IH in H as (H1 & H2 & H3 & H4); auto.
      split; [exact H1|]. split; [exact H2|]. split; [lia|].
      destruct H4 as [H4|H4]; [left; exact H4|right; lia].
    + unfold ret in H. injection H as -> -> -> _. apply str_eqb_neq in Eq.
      split; [exact Hs|]. split; [exact Hm|]. split; [lia|left; exact Eq].
Qed.

Lemma rank_retry_loop_total budget hierarchy idx original_key :
  forall masked shift attempts w,
    exists x w', rank_retry_loop budget hierarchy idx original_key masked shift attempts w
                 = Ok (x, w').
Proof.
  induction budget as [|b IH]; intros masked shift attempts w; simpl.
  - unfold ret. eauto.
  - destruct (str_eqb _ _); [|unfold ret; eauto].
    destruct (draw_rank_total hierarchy idx w) as (d & w1 & Hd).
    rewrite (bind_ok _ _ _ _ _ Hd). apply IH.
Qed.

Lemma generate_rank_spec hierarchy idx original_key w m s a w' :
  generate_rank cfg hierarchy idx original_key w = Ok ((m, s, a), w') ->
  In s rank_shifts
  /\ m = nth (clamp_index hierarchy idx s) hierarchy []
  /\ a <= 10
  /\ (lower m <> original_key \/ a = 10).
Proof.
  unfold generate_rank. intros H.
  apply bind_inv in H as (seed & w1 & _ & H).
  apply bind_inv in H as (u & w2 & _ & H).
  apply bind_inv in H as (d & w3 & Hd & H).
  apply draw_rank_spec in Hd as [D1 D2].
  apply rank_retry_loop_spec in H as (H1 & H2 & H3 & H4); auto.
Qed.

Lemma generate_rank_total hierarchy idx original_key w alg bytes :
  hash_alg_of (HASH_ALGORITHM cfg) = Some alg ->
  utf8_encode original_key = Some bytes ->
  exists x w', generate_rank cfg hierarchy idx original_key w = Ok (x, w').
Proof.
  intros Ha Hb. unfold generate_rank, get_deterministic_seed. rewrite Ha, Hb.
  unfold lift_result, random_seed. cbn [bind].
  match goal with
  | |- context [bind (draw_rank hierarchy idx) _ ?w1] =>
    destruct (draw_rank_total hierarchy idx w1) as (d & w2 & Hd)
  end.
  rewrite (bind_ok _ _ _ _ _ Hd). apply rank_retry_loop_total.
Qed.

Lemma generate_name_spec original gender_hint patronymic_hint w m a w' :
  generate_name cfg original gender_hint patronymic_hint w = Ok ((m, a), w') ->
  a <= 10 /\ (lower m <> lower original \/ a = 10).
Proof.
  unfold generate_name. destruct (detect_name_case_and_gender original) as [case g].
  intros H. apply bind_inv in H as (m0 & w1 & _ & H).
  apply name_retry_loop_spec in H. exact H.
Qed.

(** Recording an original the category has not seen stores the supplied
    value with the next instance number. *)
Lemma record_mapping_fresh category original masked w cat r w' :
  dict_get (mappings (w_md w)) category = Some cat ->
  dict_get cat original = None ->
  record_mapping category original masked w = Ok (r, w') ->
  r = masked
  /\ get_record (w_md w') category original
     = Some (MaskInfo masked [counter_of (w_ic w) masked + 1])
  /\ w_rng w' = w_rng w /\ w_fk w' = w_fk w.
Proof.
  intros Hc Ho H. unfold record_mapping in H.
  destruct (add_to_mapping (w_md w) (w_ic w) category original masked)
    as [[[r0 md] ic]|] eqn:Ha; [|discriminate].
  inversion H; subst; clear H. simpl.
  apply add_to_mapping_inv in Ha as (cat' & Hc' & Hr & _ & _ & Hrec & _).
  rewrite Hc in Hc'. inversion Hc'; subst cat'. rewrite Ho in Hr, Hrec.
  subst r. auto.
Qed.

End Frames.

(** *** Ranks *)

Section RankFacts.
Context {U : Unicode} {E : Externals} {RD : RankData}.
Variable cfg : config.

Lemma index_of_lt x l : forall i, index_of x l = Some i -> (i < length l)%nat.
Proof.
  induction l as [|y l IH]; simpl; intros i H; [discriminate|].
  destruct (str_eqb x y).
  - inversion H. lia.
  - destruct (index_of x l) as [j|]; [|discriminate].
    inversion H. specialize (IH j eq_refl). lia.
Qed.

Lemma index_of_nth x l : forall i, index_of x l = Some i -> nth i l [] = x.
Proof.
  induction l as [|y l IH]; simpl; intros i H; [discriminate|].
  destruct (str_eqb x y) eqn:Exy.
  - inversion H. apply str_eqb_eq in Exy. now subst.
  - destruct (index_of x l) as [j|]; [|discriminate].
    inversion H. now apply IH.
Qed.

Lemma clamp_index_lt hierarchy idx shift :
  (idx < length hierarchy)%nat -> (clamp_index hierarchy idx shift < length hierarchy)%nat.
Proof. unfold clamp_index. lia. Qed.

(** Away from both ends of the hierarchy the clamp does nothing. *)
Lemma clamp_index_interior hierarchy idx shift :
  In shift rank_shifts ->
  (2 <= idx)%nat -> (idx + 2 < length hierarchy)%nat ->
  Z.of_nat (clamp_index hierarchy idx shift) = (Z.of_nat idx + shift)%Z
  /\ clamp_index hierarchy idx shift <> idx.
Proof.
  unfold clamp_index, rank_shifts. cbn [In].
  intros [<-|[<-|[<-|[<-|[]]]]] H1 H2; lia.
Qed.

(** First masking of a rank form in which a base form is recognised. *)
Lemma mask_rank_fresh original w ranks alg bytes category matched hierarchy idx :
  dict_get (mappings (w_md w)) (py "rank") = Some ranks ->
  dict_get ranks (lower original) = None ->
  hash_alg_of (HASH_ALGORITHM cfg) = Some alg ->
  utf8_encode (lower original) = Some bytes ->
  get_rank_category_and_match (lower original) = Some (category, matched) ->
  hierarchy_of category = Some hierarchy ->
  index_of (lower matched) (map lower hierarchy) = Some idx ->
  exists r w' masked shift attempts w1,
    generate_rank cfg hierarchy idx (lower original) w = Ok ((masked, shift, attempts), w1)
    /\ mask_rank cfg original w = Ok (r, w')
    /\ r = rank_result_case cfg original
             (rank_inflected (get_rank_info (lower original)) masked)
    /\ get_record (w_md w') (py "rank") (lower original)
       = Some (MaskInfo (rank_inflected (get_rank_info (lower original)) masked)
                        [counter_of (w_ic w)
                           (rank_inflected (get_rank_info (lower original)) masked) + 1]).
Proof.
  intros Hranks Hfresh Halg Hbytes Hmatch Hh Hidx.
  destruct (generate_rank_total cfg hierarchy idx (lower original) w alg bytes Halg Hbytes)
    as ([[masked shift] attempts] & w1 & Hg).
  destruct (frames_generate_rank cfg hierarchy idx (lower original) _ _ _ Hg) as [F1 F2].
  set (m := rank_inflected (get_rank_info (lower original)) masked).
  destruct (record_mapping_ok (py "rank") (lower original) m w1 ranks)
    as (r0 & w' & Hrec & _); [now rewrite F1|].
  destruct (record_mapping_fresh (py "rank") (lower original) m w1 ranks r0 w')
    as (Hr0 & Hget & _); [now rewrite F1|assumption|assumption|].
  exists (rank_result_case cfg original m), w', masked, shift, attempts, w1.
  split; [exact Hg|]. split; [|split; [reflexivity|now rewrite <- F2]].
  unfold mask_rank.
  assert (store_category (py "rank") w = Ok (ranks, w)) as Hsc.
  { unfold store_category. now rewrite Hranks. }
  rewrite (bind_ok _ _ _ _ _ Hsc). rewrite Hfresh, Hmatch, Hh, Hidx.
  rewrite (bind_ok _ _ _ _ _ Hg). cbn [fst snd]. fold m.
  rewrite (bind_ok _ _ _ _ _ Hrec). subst r0. reflexivity.
Qed.

(** Whatever [mask_rank] does with a form it has not recorded: it either
    returns it untouched or records a generated rank. *)
Lemma mask_rank_fresh_inv original w ranks r w' :
  dict_get (mappings (w_md w)) (py "rank") = Some ranks ->
  dict_get ranks (lower original) = None ->
  mask_rank cfg original w = Ok (r, w') ->
  (r = original /\ w' = w)
  \/ exists hierarchy idx masked shift attempts w1,
       generate_rank cfg hierarchy idx (lower original) w
         = Ok ((masked, shift, attempts), w1)
       /\ r = rank_result_case cfg original
                (rank_inflected (get_rank_info (lower original)) masked)
       /\ get_record (w_md w') (py "rank") (lower original)
          = Some (MaskInfo (rank_inflected (get_rank_info (lower original)) masked)
                           [counter_of (w_ic w)
                              (rank_inflected (get_rank_info (lower original)) masked) + 1]).
Proof.
  intros Hranks Hfresh H. unfold mask_rank in H.
  assert (store_category (py "rank") w = Ok (ranks, w)) as Hsc.
  { unfold store_category. now rewrite Hranks. }
  rewrite (bind_ok _ _ _ _ _ Hsc) in H. rewrite Hfresh in H.
  destruct (get_rank_category_and_match (lower original)) as [[category matched]|];
    [|left; inversion H; auto].
  destruct (hierarchy_of category) as [hierarchy|]; [|left; inversion H; auto].
  destruct (index_of (lower matched) (map lower hierarchy)) as [idx|];
    [|left; inversion H; auto].
  right.
  apply bind_inv in H as ([[masked shift] attempts] & w1 & Hg & H).
  cbn [fst snd] in H.
  apply bind_inv in H as (r0 & w2 & Hrec & H).
  unfold ret in H. injection H as Hr Hw. subst w2.
  destruct (frames_generate_rank cfg hierarchy idx (lower original) _ _ _ Hg) as [F1 F2].
  assert (dict_get (mappings (w_md w1)) (py "rank") = Some ranks) as Hranks1
      by now rewrite F1.
  destruct (record_mapping_fresh _ _ _ w1 ranks r0 w' Hranks1 Hfresh Hrec)
    as (Hr0 & Hget & _).
  exists hierarchy, idx, masked, shift, attempts, w1.
  split; [exact Hg|]. split; [now subst|]. now rewrite <- F2.
Qed.

(** First masking of a given name. *)
Lemma mask_name_fresh_inv original gender_hint patronymic_hint w cat r w' :
  dict_get (mappings (w_md w)) (py "name") = Some cat ->
  dict_get cat original = None ->
  mask_name cfg original gender_hint patronymic_hint w = Ok (r, w') ->
  exists masked attempts w1,
    generate_name cfg original gender_hint patronymic_hint w
      = Ok ((masked, attempts), w1)
    /\ r = name_casing original masked
    /\ get_record (w_md w') (py "name") original
       = Some (MaskInfo r [counter_of (w_ic w) r + 1]).
Proof.
  intros Hcat Hfresh H. unfold mask_name in H.
  destruct (is_empty original); [discriminate|].
  assert (store_category (py "name") w = Ok (cat, w)) as Hsc.
  { unfold store_category. now rewrite Hcat. }
  rewrite (bind_ok _ _ _ _ _ Hsc) in H. rewrite Hfresh in H.
  apply bind_inv in H as (masked & w1 & Hg & Hrec).
  apply bind_inv in Hg as ([m a] & w0 & Hg & Hret).
  unfold ret in Hret. injection Hret as Hm Hw. cbn [fst] in Hm. subst masked w0.
  destruct (frames_generate_name cfg original gender_hint patronymic_hint _ _ _ Hg)
    as [F1 F2].
  assert (dict_get (mappings (w_md w1)) (py "name") = Some cat) as Hcat1
      by now rewrite F1.
  destruct (record_mapping_fresh _ _ _ w1 cat r w' Hcat1 Hfresh Hrec)
    as (Hr & Hget & _).
  exists m, a, w1. split; [exact Hg|]. split; [exact Hr|].
  rewrite Hget, Hr, F2. reflexivity.
Qed.

End RankFacts.

Section SurnameFacts.
Context {U : Unicode} {E : Externals}.
Variable cfg : config.

(** First masking of a surname of five characters or more: the first three
    and the last two characters of the original around a middle cut out of
    the surname Faker draws, in the original's letter case; drawn once and
    recorded, whatever it is. *)
Lemma mask_surname_long original w cat seed :
  mem_str (lower original) ABBREVIATION_WHITELIST = false ->
  dict_get (mappings (w_md w)) (py "surname") = Some cat ->
  dict_get cat original = None ->
  (5 <= length original)%nat ->
  get_deterministic_seed cfg original = Ok seed ->
  let fake_surname := fst (fk_last_name (fk_seed_instance seed)) in
  let r := 2 + fst (rng_draw (rng_seed seed) 6) mod 6 in
  let masked := str_head original 3 ++ surname_middle fake_surname r
                ++ str_tail original 2 in
  let cased := if isupper original then upper masked
               else if first_isupper original && rest_islower original
                    then capitalize masked else masked in
  exists w',
    mask_surname cfg original w = Ok (cased, w')
    /\ get_record (w_md w') (py "surname") original
       = Some (MaskInfo cased [counter_of (w_ic w) cased + 1]).
Proof.
  intros Hwl Hcat Hfresh Hlen Hseed fake_surname r masked cased.
  unfold mask_surname. rewrite Hwl.
  assert (store_category (py "surname") w = Ok (cat, w)) as Hsc.
  { unfold store_category. now rewrite Hcat. }
  rewrite (bind_ok _ _ _ _ _ Hsc). rewrite Hfresh.
  assert (exists w1, generate_surname cfg original w = Ok (cased, w1)
                     /\ w_md w1 = w_md w /\ w_ic w1 = w_ic w) as (w1 & Hg & F1 & F2).
  { unfold generate_surname.
    destruct original as [|c0 rest]; [simpl in Hlen; lia|]. cbn [is_empty].
    rewrite Hseed.
    assert ((length (c0 :: rest) <? 5)%nat = false) as -> by (apply Nat.ltb_ge; exact Hlen).
    unfold lift_result, random_seed, faker_seed, faker_call, randint, randbelow, bind, ret.
    cbn [w_fk w_rng w_md w_ic].
    change (7 + 1 - 2) with 6.
    subst cased masked r fake_surname. unfold surname_middle.
    destruct (fk_last_name (fk_seed_instance seed)) as [fs fk'].
    cbv beta iota zeta delta [w_fk w_rng w_md w_ic fst].
    destruct (rng_draw (rng_seed seed) 6) as [x g'].
    cbv beta iota zeta delta [w_fk w_rng w_md w_ic fst].
    eexists. split; [reflexivity|split; reflexivity]. }
  rewrite (bind_ok _ _ _ _ _ Hg).
  destruct (record_mapping_ok (py "surname") original cased w1 cat) as (r0 & w' & Hrec & _).
  { now rewrite F1. }
  destruct (record_mapping_fresh (py "surname") original cased w1 cat r0 w')
    as (Hr0 & Hget & _); [now rewrite F1|assumption|assumption|].
  subst r0. exists w'. split; [exact Hrec|]. now rewrite <- F2.
Qed.

End SurnameFacts.

Lemma keeps_base_form_inflected {U : Unicode} {RD : RankData} detected masked :
  keeps_base_form detected = true -> rank_inflected detected masked = masked.
Proof.
  unfold keeps_base_form, rank_inflected. destruct detected as [[[b c] g]|]; [|reflexivity].
  intros H. apply orb_true_iff in H as [->| ->]; [reflexivity|].
  now rewrite andb_false_r.
Qed.

(** C7 (as amended). A given name masked for the first time: the value
    generation ends with, to which the original's letter case is then
    applied, differs case-insensitively from the original unless the retry
    loop has run all of its ten attempts. A rank recorded for the first
    time whose form has no case ending to re-apply (no case detected, or
    the nominative): the value recorded for it differs case-insensitively
    from the original unless the retry loop has run all of its ten
    attempts. Surnames are not covered: [mask_surname] has no such loop. *)
Theorem C7_retry_loop_guards_names_and_ranks
    {U : Unicode} {E : Externals} {RD : RankData} (cfg : config) :
  (forall original gender_hint patronymic_hint w cat r w',
      dict_get (mappings (w_md w)) (py "name") = Some cat ->
      dict_get cat original = None ->
      mask_name cfg original gender_hint patronymic_hint w = Ok (r, w') ->
      exists masked attempts w1,
        generate_name cfg original gender_hint patronymic_hint w
          = Ok ((masked, attempts), w1)
        /\ attempts <= 10
        /\ (lower masked <> lower original \/ attempts = 10)
        /\ r = name_casing original masked
        /\ get_record (w_md w') (py "name") original
           = Some (MaskInfo r [counter_of (w_ic w) r + 1]))
  /\ (forall original w ranks r w',
      dict_get (mappings (w_md w)) (py "rank") = Some ranks ->
      dict_get ranks (lower original) = None ->
      keeps_base_form (get_rank_info (lower original)) = true ->
      mask_rank cfg original w = Ok (r, w') ->
      get_record (w_md w') (py "rank") (lower original) <> None ->
      exists hierarchy idx masked shift attempts w1,
        generate_rank cfg hierarchy idx (lower original) w
          = Ok ((masked, shift, attempts), w1)
        /\ attempts <= 10
        /\ (lower masked <> lower original \/ attempts = 10)
        /\ get_record (w_md w') (py "rank") (lower original)
           = Some (MaskInfo masked [counter_of (w_ic w) masked + 1])
        /\ r = rank_result_case cfg original masked).
Proof.
  split.
  - intros original gender_hint patronymic_hint w cat r w' Hcat Hfresh H.
    destruct (mask_name_fresh_inv cfg _ _ _ _ _ _ _ Hcat Hfresh H)
      as (masked & attempts & w1 & Hg & Hr & Hrec).
    destruct (generate_name_spec cfg _ _ _ _ _ _ _ Hg) as [Ha Hne].
    exists masked, attempts, w1. auto.
  - intros original w ranks r w' Hranks Hfresh Hbase H Hmasked.
    destruct (mask_rank_fresh_inv cfg _ _ _ _ _ Hranks Hfresh H)
      as [[_ ->]|(hierarchy & idx & masked & shift & attempts & w1 & Hg & Hr & Hrec)].
    + exfalso. apply Hmasked. unfold get_record. now rewrite Hranks.
    + rewrite (keeps_base_form_inflected _ masked Hbase) in Hr, Hrec.
      destruct (generate_rank_spec cfg _ _ _ _ _ _ _ _ Hg) as (_ & _ & Ha & Hne).
      exists hierarchy, idx, masked, shift, attempts, w1. auto.
Qed.

Lemma C7_witness :
  (exists masked attempts w1,
      generate_name default_config (py "Петро") None None demo_world
        = Ok ((masked, attempts), w1)
      /\ attempts <= 10
      /\ (lower masked <> lower (py "Петро") \/ attempts = 10))
  /\ (exists hierarchy idx masked shift attempts w1,
         generate_rank default_config hierarchy idx (lower (py "Капітан")) demo_world
           = Ok ((masked, shift, attempts), w1)
         /\ attempts <= 10
         /\ (lower masked <> lower (py "Капітан") \/ attempts = 10)).
Proof.
  split.
  - evaluate (mask_name default_config (py "Петро") None None demo_world) as H.
    destruct (proj1 (C7_retry_loop_guards_names_and_ranks
                       (E := demo_externals) (RD := demo_ranks) default_config)
                (py "Петро") None None demo_world [] _ _ eq_refl eq_refl H)
      as (m & a & w1 & Hg & Ha & Hne & _).
    exists m, a, w1. auto.
  - evaluate (mask_rank default_config (py "Капітан") demo_world) as H.
    assert (keeps_base_form (get_rank_info (RD := demo_ranks) (lower (py "Капітан"))) = true)
      as Hbase by (vm_compute; reflexivity).
    match type of H with
    | _ = Ok (_, ?w) =>
      assert (get_record (w_md w) (py "rank") (lower (py "Капітан")) <> None) as Hrec
          by (vm_compute; discriminate)
    end.
    destruct (proj2 (C7_retry_loop_guards_names_and_ranks
                       (E := demo_externals) (RD := demo_ranks) default_config)
                (py "Капітан") demo_world [] _ _ eq_refl eq_refl Hbase H Hrec)
      as (h & i & m & s & a & w1 & Hg & Ha & Hne & _).
    exists h, i, m, s, a, w1. auto.
Defined.

(** The claim as stated fails for surnames. A surname of five characters
    or more keeps its first three and last two characters around a middle
    cut out of the surname Faker draws, with no retry. So whatever the hash,
    the generator and Faker are, "Іваевко" is recorded as its own mask as
    soon as the middle drawn is "ев", which is the case when Faker draws
    "Шевченко" and the generator draws 2 for the length of the middle, as
    the stand-in of the second part does. *)
Lemma C7_counterexample_surname_maps_to_itself :
  (forall (E : Externals) (g : rng_state) (f : fk_state) seed,
      get_deterministic_seed default_config (py "Іваевко") = Ok seed ->
      surname_middle (fst (fk_last_name (fk_seed_instance seed)))
                     (2 + fst (rng_draw (rng_seed seed) 6) mod 6) = py "ев" ->
      exists w',
        mask_surname default_config (py "Іваевко") (fresh_world g f)
        = Ok (py "Іваевко", w')
        /\ get_record (w_md w') (py "surname") (py "Іваевко")
           = Some (MaskInfo (py "Іваевко") [1]))
  /\ (exists w',
        mask_surname (E := least_externals) default_config (py "Іваевко")
                     (fresh_world (E := least_externals) tt tt)
        = Ok (py "Іваевко", w')
        /\ get_record (w_md w') (py "surname") (py "Іваевко")
           = Some (MaskInfo (py "Іваевко") [1])).
Proof.
  assert (forall (E : Externals) (g : rng_state) (f : fk_state) seed,
      get_deterministic_seed default_config (py "Іваевко") = Ok seed ->
      surname_middle (fst (fk_last_name (fk_seed_instance seed)))
                     (2 + fst (rng_draw (rng_seed seed) 6) mod 6) = py "ев" ->
      exists w',
        mask_surname default_config (py "Іваевко") (fresh_world g f)
        = Ok (py "Іваевко", w')
        /\ get_record (w_md w') (py "surname") (py "Іваевко")
           = Some (MaskInfo (py "Іваевко") [1])) as Hgen.
  { intros E g f seed Hseed Hmid.
    destruct (mask_surname_long (U := ucd) default_config (py "Іваевко") (fresh_world g f)
                [] seed) as (w' & Hm & Hrec);
      try (vm_compute; reflexivity); [vm_compute; lia|exact Hseed|].
    cbv zeta in Hm, Hrec. rewrite Hmid in Hm, Hrec.
    evaluate (isupper (py "Іваевко")) as H1. rewrite H1 in Hm, Hrec.
    evaluate (first_isupper (py "Іваевко") && rest_islower (py "Іваевко")) as H2.
    rewrite H2 in Hm, Hrec.
    evaluate (capitalize (str_head (py "Іваевко") 3 ++ py "ев" ++ str_tail (py "Іваевко") 2)) as H3.
    rewrite H3 in Hm, Hrec.
    exists w'. split; [exact Hm|]. rewrite Hrec. reflexivity. }
  split; [exact Hgen|].
  apply (Hgen least_externals tt tt
              (digest (Externals := least_externals) BLAKE2B
                      (from_option [] (utf8_encode (py "Іваевко"))) mod 2 ^ 32)).
  - vm_compute. reflexivity.
  - vm_compute. reflexivity.
Qed.

(** What [mask_rank] does once [get_rank_category_and_match] has found a
    base form. First part: let a base form be matched in the lower-cased
    input, let it stand at index [idx] of the hierarchy [mask_rank] selects
    for the matched category, and let the form be new to the store. Then
    [mask_rank] returns; the rank it generates is the hierarchy's entry at
    [idx + shift] clamped to the hierarchy, for a drawn [shift] in
    [-2, -1, 1, 2]; the draw is repeated at most ten times; the entry, put
    into the input's grammatical case, is what is recorded, and re-cased it
    is what is returned. Second part: with the army hierarchy in the order
    of [RANK_PATTERNS], whatever the hash and the generator,
    [mask_rank("Капітан")] is the capitalised army rank one or two places
    from "капітан", and is not "Капітан". *)
Lemma mask_rank_shifts_within_matched_hierarchy :
  (forall (U : Unicode) (E : Externals) (RD : RankData) (cfg : config)
          original w ranks alg bytes category matched hierarchy idx,
      dict_get (mappings (w_md w)) (py "rank") = Some ranks ->
      dict_get ranks (lower original) = None ->
      hash_alg_of (HASH_ALGORITHM cfg) = Some alg ->
      utf8_encode (lower original) = Some bytes ->
      get_rank_category_and_match (lower original) = Some (category, matched) ->
      hierarchy_of category = Some hierarchy ->
      index_of (lower matched) (map lower hierarchy) = Some idx ->
      exists r w' masked shift attempts w1,
        mask_rank cfg original w = Ok (r, w')
        /\ generate_rank cfg hierarchy idx (lower original) w
           = Ok ((masked, shift, attempts), w1)
        /\ In shift rank_shifts
        /\ masked = nth (clamp_index hierarchy idx shift) hierarchy []
        /\ In masked hierarchy
        /\ attempts <= 10
        /\ (lower masked <> lower original \/ attempts = 10)
        /\ get_record (w_md w') (py "rank") (lower original)
           = Some (MaskInfo
                     (rank_inflected (get_rank_info (lower original)) masked)
                     [counter_of (w_ic w)
                        (rank_inflected (get_rank_info (lower original)) masked) + 1])
        /\ r = rank_result_case cfg original
                 (rank_inflected (get_rank_info (lower original)) masked))
  /\ (forall (E : Externals) (g : rng_state) (fk : fk_state),
        exists r w' shift,
          mask_rank (U := ucd) (RD := demo_ranks) default_config (py "Капітан")
                    (fresh_world g fk) = Ok (r, w')
          /\ In shift rank_shifts
          /\ r = capitalize (nth (Z.to_nat (18 + shift)) army_pattern_ranks [])
          /\ In (lower r) army_pattern_ranks
          /\ r <> py "Капітан").
Proof.
  split.
  - intros U E RD cfg original w ranks alg bytes category matched hierarchy idx
           Hranks Hfresh Halg Hbytes Hmatch Hh Hidx.
    destruct (mask_rank_fresh cfg original w ranks alg bytes category matched hierarchy idx
                Hranks Hfresh Halg Hbytes Hmatch Hh Hidx)
      as (r & w' & masked & shift & attempts & w1 & Hg & Hm & Hr & Hrec).
    destruct (generate_rank_spec cfg _ _ _ _ _ _ _ _ Hg) as (Hs & Hnth & Ha & Hne).
    exists r, w', masked, shift, attempts, w1.
    repeat (split; [assumption|]). split; [|auto].
    subst masked. apply nth_In. apply clamp_index_lt.
    apply index_of_lt in Hidx. now rewrite length_map in Hidx.
  - intros E g fk.
    destruct (mask_rank_fresh (U := ucd) (RD := demo_ranks) default_config
                (py "Капітан") (fresh_world g fk) [] BLAKE2B
                (from_option [] (utf8_encode (lower (py "Капітан"))))
                (py "army") (py "капітан") army_pattern_ranks 18%nat)
      as (r & w' & masked & shift & attempts & w1 & Hg & Hm & Hr & _);
      try (vm_compute; reflexivity).
    destruct (generate_rank_spec _ _ _ _ _ _ _ _ _ Hg) as (Hs & Hnth & _).
    exists r, w', shift. split; [exact Hm|]. split; [exact Hs|].
    subst r masked. unfold rank_shifts in Hs. cbn [In] in Hs.
    destruct Hs as [<-|[<-|[<-|[<-|[]]]]];
      (split; [vm_compute; reflexivity|]);
      (split; [vm_compute; tauto|]); vm_compute; discriminate.
Qed.

Example mask_rank_shifts_within_matched_hierarchy_example :
  exists r w' masked shift attempts w1,
    mask_rank default_config (py "Майор") demo_world = Ok (r, w')
    /\ generate_rank default_config army_pattern_ranks 19%nat (lower (py "Майор")) demo_world
       = Ok ((masked, shift, attempts), w1)
    /\ In shift rank_shifts
    /\ In masked army_pattern_ranks.
Proof.
  destruct (proj1 mask_rank_shifts_within_matched_hierarchy
              ucd demo_externals demo_ranks default_config
              (py "Майор") demo_world [] BLAKE2B
              (from_option [] (utf8_encode (lower (py "Майор"))))
              (py "army") (py "майор") army_pattern_ranks 19%nat)
    as (r & w' & masked & shift & attempts & w1 & Hm & Hg & Hs & _ & Hin & _);
    try (vm_compute; reflexivity).
  exists r, w', masked, shift, attempts, w1. auto.
Qed.

(** C8 (failing input). Let the rank tables say that "капітана" is the
    genitive of "капітан" and that "капітан" stands in the army hierarchy,
    and let the form be new to the store. No pattern of [RANK_PATTERNS]
    matches "капітана" as a whole word, so [mask_rank] hands the form back
    as it is, and leaves the store, the counters and the generators
    untouched: it returns no rank of the hierarchy at a shifted index. *)
Theorem C8_inflected_rank_form_is_returned_unmasked
    {E : Externals} {RD : RankData} (cfg : config) (w : world) ranks idx :
  get_rank_info (py "капітана") = Some (py "капітан", py "genitive", py "male") ->
  index_of (py "капітан") (map lower ARMY_RANKS) = Some idx ->
  dict_get (mappings (w_md w)) (py "rank") = Some ranks ->
  dict_get ranks (py "капітана") = None ->
  get_rank_category_and_match (py "капітана") = None
  /\ mask_rank cfg (py "капітана") w = Ok (py "капітана", w).
Proof.
  intros _ _ Hranks Hfresh.
  assert (get_rank_category_and_match (py "капітана") = None) as Hm
    by (vm_compute; reflexivity).
  split; [exact Hm|].
  unfold mask_rank.
  assert (store_category (py "rank") w = Ok (ranks, w)) as Hsc.
  { unfold store_category. now rewrite Hranks. }
  rewrite (bind_ok _ _ _ _ _ Hsc).
  assert (lower (py "капітана") = py "капітана") as -> by (vm_compute; reflexivity).
  rewrite Hfresh, Hm. reflexivity.
Qed.

Lemma C8_witness :
  get_rank_category_and_match (py "капітана") = None
  /\ mask_rank (E := demo_externals) (RD := demo_ranks) default_config
       (py "капітана") demo_world
     = Ok (py "капітана", demo_world).
Proof.
  apply (C8_inflected_rank_form_is_returned_unmasked
           (E := demo_externals) (RD := demo_ranks) default_config demo_world [] 18%nat).
  - vm_compute. reflexivity.
  - vm_compute. reflexivity.
  - reflexivity.
  - reflexivity.
Defined.

(** *** The generic pass of the reverse engine *)

Section UnmaskFacts.
Context {U : Unicode} {RD : RankData}.

Lemma dict_set_keys {V} (d : pydict V) k v :
  map fst (dict_set d k v) = if dict_mem d k then map fst d else map fst d ++ [k].
Proof.
  unfold dict_mem. induction d as [|[k' v'] d IH]; simpl; [reflexivity|].
  destruct (str_eqb k k') eqn:Ek; simpl; [reflexivity|].
  rewrite IH. destruct (dict_get d k); reflexivity.
Qed.

Lemma dict_get_none_not_in {V} (d : pydict V) k :
  dict_get d k = None -> ~ In k (map fst d).
Proof.
  induction d as [|[k' v'] d IH]; simpl; intros H; [tauto|].
  destruct (str_eqb k k') eqn:Ek; [discriminate|].
  apply str_eqb_neq in Ek. intros [Hk|Hk]; [congruence|]. now apply IH.
Qed.

Lemma dict_set_keys_unique {V} (d : pydict V) k v :
  keys_unique d -> keys_unique (dict_set d k v).
Proof.
  unfold keys_unique. intros H. rewrite dict_set_keys. unfold dict_mem.
  destruct (dict_get d k) eqn:Hg; [exact H|].
  apply NoDup_app; [exact H|repeat constructor; simpl; tauto|].
  intros x Hx [<-|[]]. revert Hx. now apply dict_get_none_not_in.
Qed.

Lemma add_instances_keys_unique im original info :
  keys_unique im -> keys_unique (add_instances im original info).
Proof.
  unfold add_instances. intros H.
  set (im0 := if dict_mem im (masked_as info) then im
              else dict_set im (masked_as info) []).
  assert (keys_unique im0) as H0.
  { unfold im0. destruct (dict_mem im (masked_as info)); [exact H|].
    now apply dict_set_keys_unique. }
  clearbody im0. revert im0 H0.
  induction (instances info) as [|n l IH]; intros im0 H0; simpl; [exact H0|].
  apply IH. now apply dict_set_keys_unique.
Qed.

Lemma build_instance_map_keys_unique ms : keys_unique (build_instance_map ms).
Proof.
  unfold build_instance_map.
  assert (keys_unique (V := idict str) []) as H0 by constructor.
  revert H0. generalize (@nil (str * idict str)) as im.
  induction ms as [|[c records] ms IH]; intros im H0; simpl; [exact H0|].
  apply IH. clear IH. revert im H0.
  induction records as [|[o info] records IH]; intros im H0; simpl; [exact H0|].
  apply IH. now apply add_instances_keys_unique.
Qed.

Lemma dict_get_split {V} (d : pydict V) k v :
  dict_get d k = Some v ->
  exists d1 d2, d = d1 ++ (k, v) :: d2 /\ ~ In k (map fst d1).
Proof.
  induction d as [|[k' v'] d IH]; simpl; intros H; [discriminate|].
  destruct (str_eqb k k') eqn:Ek.
  - apply str_eqb_eq in Ek. subst k'. inversion H; subst.
    exists [], d. simpl. tauto.
  - apply str_eqb_neq in Ek. destruct (IH H) as (d1 & d2 & -> & Hn).
    exists ((k', v') :: d1), d2. split; [reflexivity|].
    simpl. intros [Hk|Hk]; [congruence|tauto].
Qed.

(** Scheduling over entries none of whose masks occurs in the text. *)
Lemma schedule_absent text entries acc :
  (forall e, In e entries -> find_all_occurrences text (fst e) = []) ->
  fold_left (fun acc entry =>
               schedule_occurrences (find_all_occurrences text (fst entry)) 1
                                    (snd entry) (fst entry) acc) entries acc = acc.
Proof.
  revert acc. induction entries as [|e entries IH]; intros acc H; simpl; [reflexivity|].
  rewrite (H e) by (left; reflexivity). simpl. apply IH.
  intros e' He'. apply H. now right.
Qed.

(** The occurrences of a mask are paired with its recorded instances in
    order: the first occurrence with instance 1, the second with 2. *)
Lemma schedule_two text instance_map M i2o A B occ1 occ2 :
  keys_unique instance_map ->
  dict_get instance_map M = Some i2o ->
  idict_get i2o 1 = Some A ->
  idict_get i2o 2 = Some B ->
  find_all_occurrences text M = [occ1; occ2] ->
  (forall M' v, In (M', v) instance_map -> M' <> M ->
                find_all_occurrences text M' = []) ->
  schedule_all text instance_map
  = ([Replacement (fst occ1) (snd occ1) A M; Replacement (fst occ2) (snd occ2) B M],
     Stats 2 0).
Proof.
  intros Hu Hget H1 H2 Hocc Hothers.
  destruct (dict_get_split _ _ _ Hget) as (d1 & d2 & Heq & Hn1).
  unfold schedule_all. rewrite Heq, fold_left_app.
  rewrite (schedule_absent text d1).
  2:{ intros [M' v] He. apply (Hothers M' v).
      - rewrite Heq. apply in_or_app. now left.
      - intros ->. apply Hn1. apply (in_map fst) in He. exact He. }
  cbn [fold_left fst snd]. rewrite Hocc.
  destruct occ1 as [s1 e1], occ2 as [s2 e2]. cbn [schedule_occurrences].
  rewrite H1. change (1 + 1) with 2. rewrite H2. cbn [app fst snd].
  rewrite schedule_absent; [reflexivity|].
  intros [M' v] He. apply (Hothers M' v).
  - rewrite Heq. apply in_or_app. right. now right.
  - intros ->. unfold keys_unique in Hu. rewrite Heq, map_app in Hu.
    apply NoDup_remove_2 in Hu. apply Hu. apply in_or_app. right.
    apply (in_map fst) in He. exact He.
Qed.

Lemma slice_middle (pre seg post : str) :
  slice (pre ++ seg ++ post) (length pre) (length pre + length seg) = seg.
Proof.
  unfold slice. rewrite skipn_app, skipn_all, Nat.sub_diag. simpl.
  replace (length pre + length seg - length pre)%nat with (length seg) by lia.
  rewrite firstn_app, firstn_all, Nat.sub_diag. simpl. now rewrite app_nil_r.
Qed.

Lemma splice_middle (pre seg post new : str) :
  splice (pre ++ seg ++ post) (length pre) (length pre + length seg) new
  = pre ++ new ++ post.
Proof.
  unfold splice. rewrite firstn_app, firstn_all, Nat.sub_diag. simpl.
  rewrite app_nil_r. f_equal. f_equal.
  rewrite skipn_app, skipn_all2 by lia. simpl.
  replace (length pre + length seg - length pre)%nat with (length seg) by lia.
  rewrite skipn_app, skipn_all, Nat.sub_diag. reflexivity.
Qed.

(** A replacement whose span holds an occurrence of its mask. *)
Lemma apply_replacement_at (pre seg post original masked : str) :
  lower seg = lower masked ->
  apply_replacement (pre ++ seg ++ post)
    (Replacement (length pre) (length pre + length seg) original masked)
  = pre ++ _apply_original_case seg original ++ post.
Proof.
  intros H. unfold apply_replacement. cbn [r_start r_end r_masked r_original].
  rewrite slice_middle, H, str_eqb_refl. apply splice_middle.
Qed.

Lemma unmask_two_occurrences md p0 seg1 p1 seg2 p2 M A B i2o :
  let text := p0 ++ seg1 ++ p1 ++ seg2 ++ p2 in
  let instance_map := build_instance_map (without_rank (mappings md)) in
  dict_get instance_map M = Some i2o ->
  idict_get i2o 1 = Some A ->
  idict_get i2o 2 = Some B ->
  seg1 <> [] ->
  lower seg1 = lower M ->
  lower seg2 = lower M ->
  find_all_occurrences text M
  = [(length p0, length p0 + length seg1);
     (length (p0 ++ seg1 ++ p1), length (p0 ++ seg1 ++ p1) + length seg2)]%nat ->
  (forall M' v, In (M', v) instance_map -> M' <> M ->
                find_all_occurrences text M' = []) ->
  unmask_other_data text md
  = (p0 ++ _apply_original_case seg1 A ++ p1 ++ _apply_original_case seg2 B ++ p2,
     Stats 2 0).
Proof.
  intros text instance_map Hget H1 H2 Hne Hl1 Hl2 Hocc Hothers.
  unfold unmask_other_data. fold instance_map.
  rewrite (schedule_two text instance_map M i2o A B _ _
             (build_instance_map_keys_unique _) Hget H1 H2 Hocc Hothers).
  cbn [fst snd]. f_equal.
  unfold sort_descending, stable_sort. cbn [fold_left insert_sorted r_start].
  assert ((length (p0 ++ seg1 ++ p1) <=? length p0)%nat = false) as ->.
  { apply Nat.leb_gt. rewrite !length_app. destruct seg1; [congruence|simpl; lia]. }
  cbn [fold_left].
  unfold text.
  replace (p0 ++ seg1 ++ p1 ++ seg2 ++ p2)
    with ((p0 ++ seg1 ++ p1) ++ seg2 ++ p2) by now rewrite <- !app_assoc.
  rewrite apply_replacement_at by exact Hl2.
  rewrite <- !app_assoc.
  apply apply_replacement_at. exact Hl1.
Qed.

End UnmaskFacts.

(** *** From the order of recording to the instance map *)

Section RecordingOrder.
Context {U : Unicode} {RD : RankData}.

Lemma dict_set_set {V} (d : pydict V) k v v' :
  dict_set (dict_set d k v) k v' = dict_set d k v'.
Proof.
  induction d as [|[k0 v0] d IH]; simpl.
  - now rewrite str_eqb_refl.
  - destruct (str_eqb k k0) eqn:Ek; simpl; rewrite Ek; [reflexivity|now rewrite IH].
Qed.

(** Two originals recorded one after the other under the same mask, in a
    category that was empty, with counters that have not seen the mask. *)
Lemma record_two md0 ic0 c A B M md2 ic2 :
  dict_get (mappings md0) c = Some [] ->
  dict_get ic0 M = None ->
  A <> B ->
  run_calls [Call c A M; Call c B M] md0 ic0 = Ok (md2, ic2) ->
  mappings md2
  = dict_set (mappings md0) c [(A, MaskInfo M [1]); (B, MaskInfo M [2])].
Proof.
  intros Hc Hic Hab H. cbn [run_calls] in H.
  unfold add_to_mapping at 1 in H. rewrite Hc in H. cbn [dict_get dict_set] in H.
  rewrite str_eqb_refl in H. cbn [masked_as instances app] in H.
  unfold get_next_instance at 1 in H. unfold dict_mem in H. rewrite Hic in H.
  unfold counter_of at 1 in H. rewrite dict_get_set_same in H.
  cbn [from_option mappings] in H.
  unfold add_to_mapping in H. cbn [mappings statistics] in H.
  rewrite dict_get_set_same in H. cbn [dict_get] in H.
  assert (str_eqb B A = false) as Eba by (apply str_eqb_neq; congruence).
  rewrite Eba in H. cbn [dict_set] in H. rewrite Eba in H.
  cbn [dict_get] in H. rewrite Eba, str_eqb_refl in H.
  unfold get_next_instance in H. unfold dict_mem in H.
  rewrite !dict_get_set_same in H.
  unfold counter_of in H. rewrite !dict_get_set_same in H.
  cbn [from_option masked_as instances app dict_set] in H.
  rewrite Eba, str_eqb_refl in H.
  injection H as <- _. cbn [mappings]. rewrite dict_set_set. reflexivity.
Qed.

Lemma build_instance_map_entries ms :
  build_instance_map ms
  = fold_left (fun im entry => add_instances im (fst entry) (snd entry))
              (flat_map snd ms) [].
Proof.
  unfold build_instance_map. generalize (@nil (str * idict str)) as im.
  induction ms as [|[c records] ms IH]; intros im; simpl; [reflexivity|].
  rewrite fold_left_app. apply IH.
Qed.

(** In a store whose categories are all empty but one, the records of
    the categories other than ["rank"] are the records of that one. *)
Lemma entries_of_empty_categories (ks : list str) :
  flat_map snd (without_rank (map (fun k => (k, @nil (str * mask_info))) ks)) = [].
Proof.
  unfold without_rank. induction ks as [|k ks IH]; [reflexivity|].
  cbn [map filter fst]. destruct (negb _); [cbn [flat_map snd app]|]; exact IH.
Qed.

Lemma without_rank_cons kv m :
  without_rank (kv :: m)
  = if str_eqb (fst kv) (py "rank") then without_rank m else kv :: without_rank m.
Proof. unfold without_rank. cbn [filter]. now destruct (str_eqb _ _). Qed.

Lemma entries_of_single_category (ks : list str) c (records : pydict mask_info) :
  In c ks -> c <> py "rank" ->
  flat_map snd (without_rank (dict_set (map (fun k => (k, [])) ks) c records))
  = records.
Proof.
  intros Hin Hc. induction ks as [|k ks IH]; [destruct Hin|].
  cbn [map dict_set]. destruct (str_eqb c k) eqn:Ek.
  - apply str_eqb_eq in Ek. subst k. rewrite without_rank_cons. cbn [fst].
    assert (str_eqb c (py "rank") = false) as -> by now apply str_eqb_neq.
    cbn [flat_map snd]. rewrite entries_of_empty_categories. apply app_nil_r.
  - destruct Hin as [->|Hin]; [now rewrite str_eqb_refl in Ek|].
    rewrite without_rank_cons. cbn [fst snd].
    destruct (str_eqb k _); cbn [flat_map snd app]; now apply IH.
Qed.

Lemma instance_map_of_two (A B M : str) :
  fold_left (fun im entry => add_instances im (fst entry) (snd entry))
            [(A, MaskInfo M [1]); (B, MaskInfo M [2])] []
  = [(M, [(1, A); (2, B)])].
Proof.
  cbn [fold_left fst snd]. unfold add_instances at 2. cbn [masked_as instances dict_mem dict_get].
  cbn [dict_set fold_left]. rewrite str_eqb_refl. cbn [from_option idict_set].
  unfold add_instances. cbn [masked_as instances]. unfold dict_mem.
  cbn [dict_get]. rewrite str_eqb_refl. cbn [fold_left dict_set dict_get].
  rewrite str_eqb_refl. reflexivity.
Qed.

(** The instance map of a run that records [A], then [B], both under [M],
    in one of the store's categories other than ["rank"]. *)
Lemma instance_map_after_two_calls c A B M md ic :
  In c store_categories -> c <> py "rank" -> A <> B ->
  run_calls [Call c A M; Call c B M] fresh_masking_dict empty_counters = Ok (md, ic) ->
  build_instance_map (without_rank (mappings md)) = [(M, [(1, A); (2, B)])].
Proof.
  intros Hin Hc Hab Hrun.
  assert (dict_get (mappings fresh_masking_dict) c = Some []) as Hget.
  { unfold fresh_masking_dict. cbn [mappings].
    clear - Hin. induction store_categories as [|k ks IH]; [destruct Hin|].
    cbn [map dict_get]. destruct (str_eqb c k) eqn:Ek; [reflexivity|].
    destruct Hin as [->|Hin]; [now rewrite str_eqb_refl in Ek|now apply IH]. }
  rewrite (record_two fresh_masking_dict empty_counters c A B M md ic Hget eq_refl Hab Hrun).
  rewrite build_instance_map_entries. unfold fresh_masking_dict. cbn [mappings].
  rewrite entries_of_single_category by assumption.
  apply instance_map_of_two.
Qed.

End RecordingOrder.

Section CollisionOrder.
Context {U : Unicode} {RD : RankData}.

Lemma record_two_total md0 ic0 c A B M :
  dict_get (mappings md0) c = Some [] ->
  dict_get ic0 M = None ->
  A <> B ->
  exists md2 ic2, run_calls [Call c A M; Call c B M] md0 ic0 = Ok (md2, ic2).
Proof.
  intros Hc Hic Hab.
  destruct (add_to_mapping_total md0 ic0 c A M [] Hc)
    as (r1 & md1 & ic1 & H1 & (info1 & Hrec1 & _) & _).
  unfold get_record in Hrec1.
  destruct (dict_get (mappings md1) c) as [cat1|] eqn:Hc1; [|discriminate Hrec1].
  destruct (add_to_mapping_total md1 ic1 c B M cat1 Hc1)
    as (r2 & md2 & ic2 & H2 & _).
  exists md2, ic2. cbn [run_calls]. rewrite H1, H2. reflexivity.
Qed.

Lemma fresh_category_empty c :
  In c store_categories -> dict_get (mappings fresh_masking_dict) c = Some [].
Proof.
  unfold fresh_masking_dict. cbn [mappings].
  induction store_categories as [|k ks IH]; intros Hin; [destruct Hin|].
  cbn [map dict_get]. destruct (str_eqb c k) eqn:Ek; [reflexivity|].
  destruct Hin as [->|Hin]; [now rewrite str_eqb_refl in Ek|now apply IH].
Qed.

End CollisionOrder.

(** The case of a fresh store and two occurrences. Two distinct originals
    [A] and [B] of one category other than ["rank"] are recorded in a fresh
    store, [A] first, both under the masked value [M]; the masked text
    contains [M] as a whole word exactly twice, at [seg1] and then at
    [seg2] (in any letter case). Then the run succeeds and the generic pass
    of the unmasking script writes [A] at the first occurrence and [B] at
    the second, each one re-cased after the occurrence it replaces by
    [_apply_original_case], leaves the rest of the text as it is and counts
    two restorations and no skip. *)
Lemma two_occurrences_in_a_fresh_store
    {U : Unicode} (c A B M p0 seg1 p1 seg2 p2 : str) :
  let text := p0 ++ seg1 ++ p1 ++ seg2 ++ p2 in
  In c store_categories -> c <> py "rank" -> A <> B ->
  seg1 <> [] -> lower seg1 = lower M -> lower seg2 = lower M ->
  find_all_occurrences text M
  = [(length p0, length p0 + length seg1);
     (length (p0 ++ seg1 ++ p1), length (p0 ++ seg1 ++ p1) + length seg2)]%nat ->
  exists md ic,
    run_calls [Call c A M; Call c B M] fresh_masking_dict empty_counters = Ok (md, ic)
    /\ (exists a b, get_record md c A = Some (MaskInfo M [a])
                    /\ get_record md c B = Some (MaskInfo M [b]) /\ a < b)
    /\ unmask_other_data text md
       = (p0 ++ _apply_original_case seg1 A ++ p1 ++ _apply_original_case seg2 B ++ p2,
          Stats 2 0).
Proof.
  intros text Hin Hc Hab Hne Hs1 Hs2 Hocc.
  destruct (record_two_total fresh_masking_dict empty_counters c A B M
              (fresh_category_empty c Hin) eq_refl Hab) as (md & ic & Hrun).
  exists md, ic. split; [exact Hrun|].
  pose proof (record_two fresh_masking_dict empty_counters c A B M md ic
                (fresh_category_empty c Hin) eq_refl Hab Hrun) as Hmap.
  pose proof (instance_map_after_two_calls c A B M md ic Hin Hc Hab Hrun) as Him.
  split.
  - exists 1, 2. unfold get_record. rewrite Hmap, dict_get_set_same.
    cbn [dict_get]. rewrite str_eqb_refl.
    assert (str_eqb B A = false) as -> by (apply str_eqb_neq; congruence).
    rewrite str_eqb_refl. repeat split; reflexivity.
  - apply (unmask_two_occurrences md p0 seg1 p1 seg2 p2 M A B [(1, A); (2, B)]);
      try assumption.
    + rewrite Him. cbn [dict_get]. now rewrite str_eqb_refl.
    + reflexivity.
    + reflexivity.
    + rewrite Him. intros M' v [Heq|[]] Hneq. injection Heq as Hm _.
      now elim Hneq.
Qed.

Example two_occurrences_in_a_fresh_store_example :
  exists md ic,
    run_calls [Call (py "surname") (py "Іваненко") (py "Шевченко");
               Call (py "surname") (py "Петренко") (py "Шевченко")]
              fresh_masking_dict empty_counters = Ok (md, ic)
    /\ unmask_other_data (U := ucd) (py "Шевченко та ШЕВЧЕНКО.") md
       = (py "Іваненко та ПЕТРЕНКО.", Stats 2 0).
Proof.
  destruct (two_occurrences_in_a_fresh_store (U := ucd)
              (py "surname") (py "Іваненко") (py "Петренко") (py "Шевченко")
              (py "") (py "Шевченко") (py " та ") (py "ШЕВЧЕНКО") (py "."))
    as (md & ic & Hrun & _ & Hun).
  - repeat (first [left; reflexivity | right]).
  - intros H. vm_compute in H. discriminate H.
  - intros H. vm_compute in H. discriminate H.
  - intros H. vm_compute in H. discriminate H.
  - vm_compute. reflexivity.
  - vm_compute. reflexivity.
  - vm_compute. reflexivity.
  - exists md, ic. split; [exact Hrun|exact Hun].
Qed.

(** *** Registration of candidate spans *)

Section SpanFacts.
Context {U : Unicode}.
Variable cfg : config.

Lemma app_eq_app_cons {A} (l1 l2 pre : list A) x post :
  l1 ++ l2 = pre ++ x :: post ->
  (exists post1, l1 = pre ++ x :: post1 /\ post = post1 ++ l2)
  \/ (exists pre2, pre = l1 ++ pre2 /\ l2 = pre2 ++ x :: post).
Proof.
  revert pre. induction l1 as [|a l1 IH]; intros pre H.
  - right. exists pre. auto.
  - destruct pre as [|b pre]; simpl in H.
    + injection H as -> H. left. exists l1. auto.
    + injection H as -> H. destruct (IH pre H) as [(p1 & -> & ->)|(p2 & -> & ->)].
      * left. exists p1. auto.
      * right. exists p2. auto.
Qed.

Lemma register_cases test skips items c :
  (register test skips items c = items
   /\ (existsb (test (i_start c) (i_end c)) skips = true
       \/ overlaps_an_item items c = true))
  \/ (register test skips items c = items ++ [c]
      /\ existsb (test (i_start c) (i_end c)) skips = false
      /\ overlaps_an_item items c = false).
Proof.
  unfold register, overlaps_an_item.
  destruct (existsb (test _ _) skips); [left; auto|].
  destruct (existsb (overlaps_item _ _) items); [left; auto|right; auto].
Qed.

(** A pass keeps a sublist of its candidates: each one kept passed both
    tests against what had been registered before it. *)
Lemma fold_register_kept test skips cands :
  forall items0,
  exists kept,
    fold_left (register test skips) cands items0 = items0 ++ kept
    /\ forall pre c post, kept = pre ++ c :: post ->
         In c cands
         /\ existsb (test (i_start c) (i_end c)) skips = false
         /\ overlaps_an_item (items0 ++ pre) c = false.
Proof.
  induction cands as [|c0 cands IH]; intros items0.
  - exists []. split; [now rewrite app_nil_r|]. intros [|? ?] ? ? H; discriminate H.
  - cbn [fold_left].
    destruct (register_cases test skips items0 c0) as [[-> _]|(-> & Ht & Ho)].
    + destruct (IH items0) as (kept & -> & Hk). exists kept. split; [reflexivity|].
      intros pre c post H. destruct (Hk pre c post H) as (Hin & H1 & H2).
      split; [now right|auto].
    + destruct (IH (items0 ++ [c0])) as (kept & -> & Hk). exists (c0 :: kept).
      split; [now rewrite <- app_assoc|].
      intros [|b pre] c post H; simpl in H; injection H as -> H.
      * rewrite app_nil_r. split; [now left|auto].
      * destruct (Hk pre c post H) as (Hin & H1 & H2).
        split; [now right|]. split; [exact H1|].
        now rewrite <- app_assoc in H2.
Qed.

Lemma overlaps_an_item_app items more c :
  overlaps_an_item items c = true -> overlaps_an_item (items ++ more) c = true.
Proof.
  unfold overlaps_an_item. rewrite existsb_app. now intros ->.
Qed.

(** A candidate a pass does not keep failed one of the two tests. *)
Lemma fold_register_dropped test skips cands :
  forall items0 c,
    In c cands ->
    let items := fold_left (register test skips) cands items0 in
    In c items
    \/ existsb (test (i_start c) (i_end c)) skips = true
    \/ overlaps_an_item items c = true.
Proof.
  induction cands as [|c0 cands IH]; intros items0 c Hin; [destruct Hin|].
  cbn [fold_left]. destruct Hin as [->|Hin]; [|now apply IH].
  destruct (fold_register_kept test skips cands (register test skips items0 c))
    as (kept & -> & _).
  destruct (register_cases test skips items0 c) as [[-> [Ht|Ho]]|(-> & _)].
  - right. now left.
  - right. right. now apply overlaps_an_item_app.
  - left. rewrite in_app_iff. left. rewrite in_app_iff. right. now left.
Qed.

Lemma fold_register_app test skips (l1 l2 : list item) items :
  fold_left (register test skips) (l1 ++ l2) items
  = fold_left (register test skips) l2 (fold_left (register test skips) l1 items).
Proof. apply fold_left_app. Qed.

Lemma identifier_pass_fold text skips items :
  identifier_pass cfg text skips items
  = fold_left (register inside_skip skips)
              (flat_map (identifier_candidates text) (identifier_kinds cfg)) items.
Proof.
  unfold identifier_pass. generalize (identifier_kinds cfg). intros kinds.
  revert items. induction kinds as [|k kinds IH]; intros items; [reflexivity|].
  cbn [fold_left flat_map]. rewrite fold_left_app. apply IH.
Qed.

(** Detection as two runs of [register] after the [№] pass. *)
Lemma detect_items_passes text :
  detect_items cfg text
  = fold_left (register inside_skip (detect_skips cfg text))
      (later_pass_candidates cfg text)
      (fold_left (register overlaps_skip (detect_skips cfg text))
         (br_pass_candidates cfg text)
         (number_sign_registered cfg text)).
Proof.
  unfold detect_items, later_pass_candidates, br_pass_candidates, number_sign_registered.
  unfold date_pass, brigade_pass, br_keyword_pass, number_sign_pass.
  rewrite identifier_pass_fold, !fold_left_app.
  destruct (MASK_DATES cfg), (MASK_BRIGADES cfg), (MASK_BR_NUMBERS cfg),
    (MASK_ORDERS cfg); reflexivity.
Qed.

End SpanFacts.

(** How detection registers candidates, read off the passes. Every
    candidate of the [№] pass is registered without any test. A candidate
    of the [БР] pass is registered only if its range overlaps no skip span
    and no item registered before it, and a candidate of the identifier,
    brigade and date passes only if its range does not lie wholly inside a
    skip span and overlaps no item registered before it. A registered item
    is one of the candidates, unchanged; a candidate of these later passes
    that is not registered failed one of its two tests. *)
Lemma registration_of_candidate_spans {U : Unicode} (cfg : config) (text : str) :
  let skips := detect_skips cfg text in
  let items := detect_items cfg text in
  (forall earlier it later,
      items = earlier ++ it :: later ->
      In it (number_sign_registered cfg text)
      \/ (In it (br_pass_candidates cfg text)
          /\ overlaps_a_skip skips it = false
          /\ overlaps_an_item earlier it = false)
      \/ (In it (later_pass_candidates cfg text)
          /\ inside_a_skip skips it = false
          /\ overlaps_an_item earlier it = false))
  /\ (forall c, In c (number_sign_registered cfg text) -> In c items)
  /\ (forall c, In c (br_pass_candidates cfg text) ->
        In c items \/ overlaps_a_skip skips c = true \/ overlaps_an_item items c = true)
  /\ (forall c, In c (later_pass_candidates cfg text) ->
        In c items \/ inside_a_skip skips c = true \/ overlaps_an_item items c = true).
Proof.
  intros skips items. subst items. rewrite detect_items_passes. fold skips.
  set (numbered := number_sign_registered cfg text).
  set (br := br_pass_candidates cfg text).
  set (late := later_pass_candidates cfg text).
  destruct (fold_register_kept overlaps_skip skips br numbered) as (keptB & HB & HkB).
  destruct (fold_register_kept inside_skip skips late (numbered ++ keptB))
    as (keptL & HL & HkL).
  rewrite HB, HL. repeat split.
  - intros earlier it later H.
    apply app_eq_app_cons in H as [(post1 & H & _)|(pre2 & -> & H)].
    + apply app_eq_app_cons in H as [(post2 & H & _)|(pre3 & -> & H)].
      * left. rewrite H. apply in_elt.
      * right. left. destruct (HkB pre3 it post1 H) as (Hin & H1 & H2). auto.
    + right. right. destruct (HkL pre2 it later H) as (Hin & H1 & H2). auto.
  - intros c Hin. rewrite !in_app_iff. auto.
  - intros c Hin.
    pose proof (fold_register_dropped overlaps_skip skips br numbered c Hin) as H.
    cbn zeta in H. rewrite HB in H. destruct H as [H|[H|H]].
    + left. rewrite in_app_iff. now left.
    + right. now left.
    + right. right. now apply overlaps_an_item_app.
  - intros c Hin.
    pose proof (fold_register_dropped inside_skip skips late (numbered ++ keptB) c Hin) as H.
    cbn zeta in H. rewrite HL in H. exact H.
Qed.

Example registration_of_candidate_spans_example :
  let text := py "пункту 5, № 12 БР-45 1234567890" in
  let order := Item (py "order_simple") (py "№ 12") (py "12") 10 14 in
  let br := Item (py "br_standalone") (py "БР-45") (py "45") 15 20 in
  let ipn := Item (py "ipn") (py "1234567890") (py "1234567890") 21 31 in
  detect_items (U := ucd) default_config text = [order; br; ipn]
  /\ (In br (number_sign_registered default_config text)
      \/ (In br (br_pass_candidates default_config text)
          /\ overlaps_a_skip (detect_skips default_config text) br = false
          /\ overlaps_an_item [order] br = false)
      \/ (In br (later_pass_candidates default_config text)
          /\ inside_a_skip (detect_skips default_config text) br = false
          /\ overlaps_an_item [order] br = false)).
Proof.
  intros text order br ipn.
  assert (detect_items (U := ucd) default_config text = [order] ++ br :: [ipn]) as H
    by (vm_compute; reflexivity).
  split; [exact H|].
  exact (proj1 (registration_of_candidate_spans (U := ucd) default_config text)
               [order] br [ipn] H).
Qed.

(** *** Masking and unmasking in sequence *)

Lemma record_first md ic c A M :
  dict_get (mappings md) c = Some [] ->
  dict_get ic M = None ->
  add_to_mapping md ic c A M
  = Ok (M,
        MaskingDict (dict_set (mappings md) c [(A, MaskInfo M [1])])
                    (dict_set (statistics md) c (stat_of md c + 1)),
        dict_set (dict_set ic M 0) M 1).
Proof.
  intros Hc Hic. unfold add_to_mapping. rewrite Hc. cbn [dict_get dict_set].
  rewrite str_eqb_refl. cbn [masked_as instances app].
  unfold get_next_instance, dict_mem. rewrite Hic.
  unfold counter_of. rewrite dict_get_set_same. reflexivity.
Qed.

Ltac digit_cases c H :=
  let K := fresh in
  assert (c = 48 \/ c = 49 \/ c = 50 \/ c = 51 \/ c = 52 \/ c = 53 \/ c = 54
          \/ c = 55 \/ c = 56 \/ c = 57) as K by lia;
  clear H;
  destruct K as [->|[->|[->|[->|[->|[->|[->|[->|[->| ->]]]]]]]]].

Ltac decide_closed_tests :=
  repeat match goal with
         | |- context [if ?b then _ else _] =>
           let H := fresh in evaluate b as H; rewrite H; clear H
         end.

Section RoundTrip.
Context {E : Externals} {RD : RankData}.

(** Whatever the hash and the generator, a lower-case military
    identifier is masked with its prefix in upper case. *)
Lemma mask_military_id_lower_case (g : rng_state) (f : fk_state) :
  exists c1 c2 w',
    48 <= c1 <= 57 /\ 48 <= c2 <= 57
    /\ mask_military_id default_config (py "аб 123456") (fresh_world g f)
       = Ok (masked_id c1 c2, w')
    /\ w_md w'
       = MaskingDict
           (dict_set (mappings fresh_masking_dict) (py "military_id")
                     [(py "аб 123456", MaskInfo (masked_id c1 c2) [1])])
           [(py "military_id", 1)].
Proof.
  unfold mask_military_id.
  assert (store_category (py "military_id") (fresh_world g f) = Ok ([], fresh_world g f)) as Hsc
    by (vm_compute; reflexivity).
  rewrite (bind_ok _ _ _ _ _ Hsc). cbn [dict_get]. cbv zeta.
  match goal with
  | |- context [re_match ?a ?b ?c] => evaluate (re_match a b c) as Hm; rewrite Hm
  end.
  unfold get_deterministic_seed.
  evaluate (hash_alg_of (HASH_ALGORITHM default_config)) as Ha. rewrite Ha.
  evaluate (utf8_encode (py "аб 123456")) as Hb. rewrite Hb.
  unfold lift_result, random_seed. cbn [bind].
  match goal with
  | |- context [bind (random_digits 2) _ ?w1] =>
    destruct (random_digits_spec 2 w1) as (middle & w2 & Hrd & Hml & Hmf & M1 & M2 & _)
  end.
  rewrite (bind_ok _ _ _ _ _ Hrd).
  destruct middle as [|c1 [|c2 [|? ?]]]; try discriminate Hml.
  inversion Hmf as [|? ? Hc1 Hmf']; subst. inversion Hmf' as [|? ? Hc2 _]; subst.
  exists c1, c2.
  match goal with
  | |- context [record_mapping _ _ ?m _] =>
    replace m with (masked_id c1 c2) by (vm_compute; reflexivity)
  end.
  unfold record_mapping. rewrite M1, M2. cbn [w_md w_ic].
  rewrite (record_first fresh_masking_dict empty_counters (py "military_id"))
    by (vm_compute; reflexivity).
  eexists. split; [exact Hc1|]. split; [exact Hc2|]. split; [reflexivity|].
  cbn [w_md]. reflexivity.
Qed.

End RoundTrip.

(** C9 (failing input). In ["пункту 5 бригади"] the numeral ["5"] of the
    legal citation is a skip span (7 to 8), and the brigade pass finds the
    candidate ["5 бригади"] (7 to 16), whose range overlaps that skip
    span. The candidate is not dropped: it is registered, and whatever the
    hash and the generator are, the span stage of
    [mask_text_context_aware] substitutes a drawn brigade number for the
    numeral and records the candidate. *)
Theorem C9_legal_citation_numeral_is_masked {E : Externals} (g : rng_state) (f : fk_state) :
  detect_skips (U := ucd) default_config (py "пункту 5 бригади")
  = [SkipItem 7 8 (py "5") (py "legal") (py "legal_number")]
  /\ detect_items (U := ucd) default_config (py "пункту 5 бригади")
     = [Item (py "brigade_number") (py "5 бригади") (py "5") 7 16]
  /\ overlaps 7 16 7 8 = true
  /\ exists n w',
      1 <= n <= 160
      /\ mask_spans default_config (py "пункту 5 бригади") (fresh_world g f)
         = Ok (py "пункту " ++ str_of_N n ++ py " бригади", w')
      /\ get_record (w_md w') (py "brigade_number") (py "5 бригади")
         = Some (MaskInfo (str_of_N n ++ py " бригади") [1]).
Proof.
  split; [vm_compute; reflexivity|]. split; [vm_compute; reflexivity|].
  split; [reflexivity|].
  unfold mask_spans.
  assert (sort_descending i_start (detect_items default_config (py "пункту 5 бригади"))
          = [Item (py "brigade_number") (py "5 бригади") (py "5") 7 16]) as Hd
    by (vm_compute; reflexivity).
  rewrite Hd. cbn [mask_items]. unfold mask_item. cbv zeta.
  cbn [i_type full_text number_part i_start i_end].
  decide_closed_tests.
  unfold mask_brigade_number.
  assert (store_category (py "brigade_number") (fresh_world g f) = Ok ([], fresh_world g f)) as Hsc
    by (vm_compute; reflexivity).
  unfold bind at 1 2. rewrite (bind_ok _ _ _ _ _ Hsc). cbn [dict_get]. cbv zeta.
  match goal with
  | |- context [re_match ?a ?b ?c] => evaluate (re_match a b c) as Hm; rewrite Hm
  end.
  unfold get_deterministic_seed.
  evaluate (hash_alg_of (HASH_ALGORITHM default_config)) as Ha. rewrite Ha.
  evaluate (utf8_encode (py "5 бригади")) as Hb. rewrite Hb.
  unfold lift_result, random_seed. cbn [bind].
  match goal with
  | |- context [bind (randint 1 160) _ ?w1] =>
    destruct (randint_spec 1 160 w1) as (n & w2 & Hrd & Hn & M1 & M2 & _); [lia|]
  end.
  rewrite (bind_ok _ _ _ _ _ Hrd).
  match goal with
  | |- context [group ?a ?b ?c] => evaluate (group a b c) as Hg; rewrite Hg
  end.
  unfold record_mapping. rewrite M1, M2. cbn [w_md w_ic fresh_world].
  rewrite (record_first fresh_masking_dict empty_counters (py "brigade_number"))
    by (vm_compute; reflexivity).
  exists n. eexists. split; [exact Hn|].
  assert (str_of_N n ++ py " " ++ [1073; 1088; 1080; 1075; 1072; 1076; 1080]
          = str_of_N n ++ py " бригади") as -> by reflexivity.
  split.
  - unfold ret, replace_span, splice. cbn [i_start i_end].
    replace (firstn 7 (py "пункту 5 бригади")) with (py "пункту ") by (vm_compute; reflexivity).
    replace (skipn 16 (py "пункту 5 бригади")) with (@nil N) by (vm_compute; reflexivity).
    rewrite app_nil_r. reflexivity.
  - cbn [w_md]. unfold get_record. cbn [mappings]. rewrite dict_get_set_same.
    cbn [dict_get]. rewrite str_eqb_refl. reflexivity.
Qed.

(** C1 (failing input). The text ["аб 123456"] is one military
    identifier written in lower case. Take any hash, any generator and
    any rank tables none of whose forms occurs in the texts involved.
    Masking it from the fresh store succeeds and records this one
    original, so no two originals share a masked value; the masked value
    occurs in the masked text once, where it was substituted. Yet
    [unmask_text_v2] returns ["АБ 123456"], which is not the text that
    was masked. *)
Theorem C1_round_trip_changes_case_of_military_id
    {E : Externals} {RD : RankData} (g : rng_state) (f : fk_state) :
  normalize_broken_ranks (py "аб 123456") = py "аб 123456" ->
  (forall c1 c2, 48 <= c1 <= 57 -> 48 <= c2 <= 57 ->
                 table_ranks_found (masked_id c1 c2) = []) ->
  exists masked w,
    mask_text_context_aware default_config (py "аб 123456") (fresh_world g f)
    = Ok (masked, w)
    /\ flat_map snd (mappings (w_md w)) = [(py "аб 123456", MaskInfo masked [1])]
    /\ find_all_occurrences masked masked = [(0, 9)]%nat
    /\ unmask_text_v2 masked (w_md w) (py "v2.1") = (py "АБ 123456", Stats 1 0)
    /\ py "АБ 123456" <> py "аб 123456".
Proof.
  intros H1 H2.
  destruct (mask_military_id_lower_case g f) as (c1 & c2 & w' & Hc1 & Hc2 & Hm & Hmd).
  exists (masked_id c1 c2), w'.
  pose proof (H2 c1 c2 Hc1 Hc2) as Hranks.
  split.
  - unfold mask_text_context_aware. cbv zeta. rewrite H1. unfold mask_spans.
    assert (sort_descending i_start (detect_items default_config (py "аб 123456"))
            = [Item (py "military_id") (py "аб 123456") (py "аб 123456") 0 9]) as Hd
      by (vm_compute; reflexivity).
    rewrite Hd. cbn [mask_items]. unfold mask_item. cbv zeta.
    cbn [i_type full_text number_part i_start i_end].
    decide_closed_tests.
    unfold bind at 1 2 3. rewrite Hm.
    digit_cases c1 Hc1; digit_cases c2 Hc2; vm_compute; reflexivity.
  - split; [rewrite Hmd; vm_compute; reflexivity|].
    split; [digit_cases c1 Hc1; digit_cases c2 Hc2; vm_compute; reflexivity|].
    split; [|intros H; vm_compute in H; discriminate H].
    unfold unmask_text_v2. decide_closed_tests.
    unfold unmask_ranks_gender_aware. rewrite Hranks, Hmd.
    digit_cases c1 Hc1; digit_cases c2 Hc2; vm_compute; reflexivity.
Qed.

Lemma C1_witness :
  exists masked w,
    mask_text_context_aware (E := demo_externals) (RD := demo_ranks) default_config
      (py "аб 123456") demo_world = Ok (masked, w)
    /\ unmask_text_v2 (RD := demo_ranks) masked (w_md w) (py "v2.1")
       = (py "АБ 123456", Stats 1 0).
Proof.
  destruct (C1_round_trip_changes_case_of_military_id
              (E := demo_externals) (RD := demo_ranks) 0 0)
    as (masked & w & Hm & _ & _ & Hu & _).
  - vm_compute. reflexivity.
  - intros c1 c2 Hc1 Hc2.
    digit_cases c1 Hc1; digit_cases c2 Hc2; vm_compute; reflexivity.
  - exists masked, w. split; [exact Hm|exact Hu].
Defined.

(** With the excerpt of the rank tables: a rank form broken across two
    lines is joined by [normalize_broken_ranks], nothing is recorded, and
    the reverse engine hands the joined text back. *)
Example joined_rank_is_not_split_again :
  exists w,
    mask_text_context_aware (E := demo_externals) (RD := demo_ranks) default_config
      (py "старший" ++ [10] ++ py "солдат") demo_world
    = Ok (py "старший солдат", w)
    /\ flat_map snd (mappings (w_md w)) = []
    /\ fst (unmask_text_v2 (RD := demo_ranks) (py "старший солдат") (w_md w) (py "v2.1"))
       = py "старший солдат".
Proof.
  evaluate (mask_text_context_aware (E := demo_externals) (RD := demo_ranks)
              default_config (py "старший" ++ [10] ++ py "солдат") demo_world) as H.
  match type of H with _ = Ok (_, ?w) => exists w end.
  split; [exact H|]. split; vm_compute; reflexivity.
Qed.

(** *** Determinism of the other categories *)

Section MoreDeterminism.
Context {U : Unicode} {E : Externals} {RD : RankData}.
Variable cfg : config.

(** A category's mask function that looks the original up, and, when it
    is new, seeds the generator from the original and draws from it alone. *)
Lemma related_seeded {A} (original : str) (draw_and_record : M A) :
  related same_store_rng same_store_rng draw_and_record ->
  related same_store same_store
    (seed <- lift_result (get_deterministic_seed cfg original) ;;
     random_seed seed ;;; draw_and_record).
Proof.
  intros H.
  eapply related_bind; [apply related_lift_result|]. intros seed.
  eapply related_bind; [apply related_random_seed|]. intros _.
  eapply related_weaken with (R1 := same_store_rng) (R1' := same_store_rng);
    [auto|apply same_store_rng_store|exact H].
Qed.

Lemma related_then_record {A} (draw : M A) category original (f : A -> str) :
  related same_store_rng same_store_rng draw ->
  related same_store_rng same_store_rng
    (x <- draw ;; record_mapping category original (f x)).
Proof.
  intros H. eapply related_bind; [exact H|]. intros x. apply related_record_mapping.
Qed.

(** X3. What [mask_military_id] returns, and the store and counters it
    leaves, depend on the original, the store and the counters alone: not
    on the state of either generator. *)
Lemma mask_military_id_deterministic original :
  related same_store same_store (mask_military_id cfg original).
Proof.
  unfold mask_military_id.
  eapply related_bind; [apply related_store_category; auto|]. intros cat.
  destruct (dict_get cat original); [apply related_record_mapping_store|].
  cbv zeta. destruct (re_match _ _ _); [|apply related_ret].
  apply related_seeded. apply related_then_record with (f := fun middle => _).
  apply related_random_digits.
Qed.

(** X4. What [mask_military_unit] returns, and the store and counters it leaves,
    depend on the original, the store and the counters it is given alone:
    not on the state in which earlier calls left either generator. *)
Lemma mask_military_unit_deterministic original :
  related same_store same_store (mask_military_unit cfg original).
Proof.
  unfold mask_military_unit.
  eapply related_bind; [apply related_store_category; auto|]. intros cat.
  destruct (dict_get cat original); [apply related_record_mapping_store|].
  destruct (re_match _ _ _); [|apply related_ret].
  cbv zeta. apply related_seeded. apply related_then_record with (f := fun digits => _).
  apply related_random_digits.
Qed.

Lemma related_sub_matches_random text ms : forall from,
  related same_store_rng same_store_rng (sub_matches_random text ms from).
Proof.
  induction ms as [|m ms IH]; intros from; cbn [sub_matches_random].
  - apply related_ret.
  - eapply related_bind; [apply related_randint|]. intros d.
    eapply related_bind; [apply IH|]. intros rest. apply related_ret.
Qed.

(** X7. What [mask_order_number] and [mask_order_number_with_letters] returns, and the store and counters it leaves,
    depend on the original, the store and the counters it is given alone:
    not on the state in which earlier calls left either generator. *)
Lemma mask_order_number_in_deterministic category original :
  related same_store same_store (mask_order_number_in cfg category original).
Proof.
  unfold mask_order_number_in.
  eapply related_bind; [apply related_store_category; auto|]. intros cat.
  destruct (dict_get cat original); [apply related_record_mapping_store|].
  apply related_seeded. apply related_then_record with (f := fun masked => masked).
  apply related_sub_matches_random.
Qed.

Lemma related_mask_br_parts parts :
  related same_store_rng same_store_rng (mask_br_parts parts).
Proof.
  induction parts as [|part parts IH]; cbn [mask_br_parts]; [apply related_ret|].
  eapply related_bind.
  - unfold mask_br_part. destruct (str_eqb _ _); [apply related_ret|].
    destruct (_ && _); [|apply related_ret].
    destruct (re_match _ _ _); [|apply related_ret].
    cbv zeta. eapply related_bind; [apply related_random_digits|]. intros d.
    apply related_ret.
  - intros p. eapply related_bind; [apply IH|]. intros ps. apply related_ret.
Qed.

(** X8. What [mask_br_number] returns, and the store and counters it leaves,
    depend on the original, the store and the counters it is given alone:
    not on the state in which earlier calls left either generator. *)
Lemma mask_br_number_deterministic original :
  related same_store same_store (mask_br_number cfg original).
Proof.
  unfold mask_br_number.
  eapply related_bind; [apply related_store_category; auto|]. intros cat.
  destruct (dict_get cat original); [apply related_record_mapping_store|].
  apply related_seeded. cbv zeta.
  destruct (if starts_with _ _ then _ else _) as [prefix number_part].
  apply related_then_record with (f := fun masked_parts => _).
  apply related_mask_br_parts.
Qed.

(** X9. What [mask_brigade_number] returns, and the store and counters it leaves,
    depend on the original, the store and the counters it is given alone:
    not on the state in which earlier calls left either generator. *)
Lemma mask_brigade_number_deterministic original :
  related same_store same_store (mask_brigade_number cfg original).
Proof.
  unfold mask_brigade_number.
  eapply related_bind; [apply related_store_category; auto|]. intros cat.
  destruct (dict_get cat original); [apply related_record_mapping_store|].
  destruct (re_match _ _ _); [|apply related_ret].
  cbv zeta. apply related_seeded. apply related_then_record with (f := fun n => _).
  apply related_randint.
Qed.

Lemma related_shifted_date year month day :
  related same_store_rng same_store_rng (shifted_date year month day).
Proof.
  unfold shifted_date. cbv zeta.
  eapply related_bind.
  - unfold randint_signed. eapply related_bind; [apply related_randbelow|].
    intros x. apply related_ret.
  - intros [negative days]. destruct (ord2ymd _) as [[new_year ?] ?].
    destruct (new_year <? 2015).
    + eapply related_bind; [apply related_randint|]. intros d. apply related_ret.
    + destruct (2035 <? new_year); [|apply related_ret].
      eapply related_bind; [apply related_randint|]. intros d. apply related_ret.
Qed.

(** X10. What [mask_date] returns, and the store and counters it leaves,
    depend on the original, the store and the counters it is given alone:
    not on the state in which earlier calls left either generator. *)
Lemma mask_date_deterministic original :
  related same_store same_store (mask_date cfg original).
Proof.
  unfold mask_date.
  eapply related_bind; [apply related_store_category; auto|]. intros cat.
  destruct (dict_get cat original); [apply related_record_mapping_store|].
  destruct (re_match _ _ _); [|apply related_ret].
  cbv zeta. destruct (negb _); [apply related_ret|].
  destruct (get_deterministic_seed cfg original) as [seed|e]; [|apply related_ret].
  eapply related_bind; [apply related_random_seed|]. intros _.
  eapply related_weaken with (R1 := same_store_rng) (R1' := same_store_rng);
    [auto|apply same_store_rng_store|].
  apply related_then_record with (f := fun new_date => _).
  apply related_shifted_date.
Qed.

Lemma related_ensure_category category :
  related same_store same_store (ensure_category category).
Proof.
  intros w1 w2 [Hmd Hic]. unfold ensure_category. rewrite Hmd.
  destruct (dict_mem _ _); (split; [reflexivity|split; [cbn [w_md]; congruence|exact Hic]]).
Qed.

Lemma related_count_patronymic patronymic_lower info :
  related same_store same_store (count_patronymic patronymic_lower info).
Proof.
  intros w1 w2 [Hmd Hic]. unfold count_patronymic. rewrite Hmd, Hic.
  destruct (get_next_instance _ _) as [n ic'].
  destruct (dict_get _ _); [|reflexivity].
  split; [reflexivity|split; reflexivity].
Qed.

(** X6. What [mask_patronymic] returns, and the store and counters it leaves,
    depend on the original, the store and the counters it is given alone:
    not on the state in which earlier calls left either generator (it
    re-seeds the Faker instance before it draws from it). *)
Lemma mask_patronymic_deterministic patronymic gender :
  related same_store same_store (mask_patronymic cfg patronymic gender).
Proof.
  unfold mask_patronymic. destruct (_ || _); [apply related_ret|]. cbv zeta.
  eapply related_bind; [apply related_ensure_category|]. intros _.
  eapply related_bind; [apply related_store_category; auto|]. intros cat.
  destruct (dict_get cat _).
  - eapply related_bind; [apply related_count_patronymic|]. intros _. apply related_ret.
  - eapply related_weaken with (R1 := same_store) (R1' := eq);
      [auto| intros a b ->; split; reflexivity |].
    eapply related_bind; [apply related_lift_result|]. intros seed.
    eapply related_bind; [apply related_random_seed|]. intros _.
    eapply related_bind; [apply related_faker_seed_eq|]. intros _.
    apply related_eq.
Qed.

Lemma related_draw_rank hierarchy idx :
  related same_store_rng same_store_rng (draw_rank hierarchy idx).
Proof.
  unfold draw_rank. eapply related_bind; [apply related_choice|]. intros shift.
  apply related_ret.
Qed.

Lemma related_rank_retry_loop budget hierarchy idx original_key :
  forall masked shift attempts,
  related same_store_rng same_store_rng
    (rank_retry_loop budget hierarchy idx original_key masked shift attempts).
Proof.
  induction budget as [|budget IH]; intros masked shift attempts;
    cbn [rank_retry_loop]; [apply related_ret|].
  destruct (str_eqb _ _); [|apply related_ret].
  eapply related_bind; [apply related_draw_rank|]. intros d. apply IH.
Qed.

(** X11. What [mask_rank] returns, and the store and counters it leaves,
    depend on the original, the store and the counters it is given alone:
    not on the state in which earlier calls left either generator. *)
Lemma mask_rank_deterministic original :
  related same_store same_store (mask_rank cfg original).
Proof.
  unfold mask_rank. cbv zeta.
  eapply related_bind; [apply related_store_category; auto|]. intros ranks.
  assert (related same_store same_store
            match get_rank_category_and_match (lower original) with
            | None => ret original
            | Some (category_name, matched) =>
              match hierarchy_of category_name with
              | None => ret original
              | Some hierarchy =>
                match index_of (lower matched) (map lower hierarchy) with
                | None => ret original
                | Some idx =>
                  g <- generate_rank cfg hierarchy idx (lower original) ;;
                  final_masked <-
                    record_mapping (py "rank") (lower original)
                      (rank_inflected (get_rank_info (lower original)) (fst (fst g))) ;;
                  ret (rank_result_case cfg original final_masked)
                end
              end
            end) as Hgen.
  { destruct (get_rank_category_and_match _) as [[category_name matched]|];
      [|apply related_ret].
    destruct (hierarchy_of _) as [hierarchy|]; [|apply related_ret].
    destruct (index_of _ _) as [idx|]; [|apply related_ret].
    unfold generate_rank.
    eapply related_weaken with (R1 := same_store) (R1' := same_store_rng);
      [auto|apply same_store_rng_store|].
    eapply related_bind with (R' := same_store_rng).
    - eapply related_bind; [apply related_lift_result|]. intros seed.
      eapply related_bind; [apply related_random_seed|]. intros _.
      eapply related_bind; [apply related_draw_rank|]. intros d.
      apply related_rank_retry_loop.
    - intros g. eapply related_bind; [apply related_record_mapping|]. intros fm.
      apply related_ret. }
  destruct (dict_get ranks _); [|exact Hgen].
  destruct (is_someone_else_mask _ _); [exact Hgen|].
  eapply related_bind; [apply related_record_mapping_store|]. intros fm.
  apply related_ret.
Qed.

End MoreDeterminism.

(** *** Instance tracking *)

Lemma idict_get_set_same {V} (d : idict V) k v : idict_get (idict_set d k v) k = Some v.
Proof.
  induction d as [|[k' v'] d IH]; simpl; [now rewrite N.eqb_refl|].
  destruct (k =? k') eqn:Ek; simpl; rewrite Ek; [reflexivity|exact IH].
Qed.

Lemma idict_get_set_other {V} (d : idict V) k k' v :
  k' <> k -> idict_get (idict_set d k v) k' = idict_get d k'.
Proof.
  intros Hne. induction d as [|[k0 v0] d IH]; simpl.
  - destruct (k' =? k) eqn:Ek; [apply N.eqb_eq in Ek; congruence|reflexivity].
  - destruct (k =? k0) eqn:Ek; simpl.
    + apply N.eqb_eq in Ek. subst k0.
      destruct (k' =? k) eqn:Ek'; [apply N.eqb_eq in Ek'; congruence|reflexivity].
    + destruct (k' =? k0); [reflexivity|exact IH].
Qed.

Lemma flat_map_dict_set_none {V B} (f : str * V -> list B) d k v :
  dict_get d k = None -> flat_map f (dict_set d k v) = flat_map f d ++ f (k, v).
Proof.
  induction d as [|[k' v'] d IH]; simpl; intros H; [now rewrite app_nil_r|].
  destruct (str_eqb k k') eqn:Ek; [discriminate|]. simpl.
  now rewrite IH, app_assoc.
Qed.

Lemma flat_map_dict_set_some {V B} (f : str * V -> list B) d k v v0 x :
  dict_get d k = Some v0 ->
  Permutation (f (k, v)) (x :: f (k, v0)) ->
  Permutation (flat_map f (dict_set d k v)) (x :: flat_map f d).
Proof.
  intros Hget Hp. induction d as [|[k' v'] d IH]; simpl in *; [discriminate|].
  destruct (str_eqb k k') eqn:Ek.
  - apply str_eqb_eq in Ek. subst k'. inversion Hget; subst v'. simpl.
    change (x :: f (k, v0) ++ flat_map f d) with ((x :: f (k, v0)) ++ flat_map f d).
    now apply Permutation_app_tail.
  - simpl. rewrite (IH Hget). apply Permutation_sym, Permutation_middle.
Qed.

(** One more instance of [original] under [r]: what [add_to_mapping] and
    the repeat branch of [mask_patronymic] do to the store. *)
Lemma store_instances_add ms c cat o info r n :
  dict_get ms c = Some cat ->
  dict_get cat o = Some info ->
  masked_as info = r ->
  Permutation
    (store_instances (dict_set ms c (dict_set cat o (MaskInfo r (instances info ++ [n])))))
    ((r, n, o, c) :: store_instances ms).
Proof.
  intros Hc Ho Hr. unfold store_instances.
  apply flat_map_dict_set_some with (v0 := cat); [exact Hc|].
  unfold category_instances. cbn [fst snd].
  apply flat_map_dict_set_some with (v0 := info); [exact Ho|].
  unfold record_instances. cbn [fst snd masked_as instances]. rewrite Hr.
  rewrite map_app. cbn [map]. apply Permutation_sym, Permutation_cons_append.
Qed.

Lemma get_next_instance_value r ic :
  get_next_instance r ic
  = (counter_of ic r + 1,
     dict_set (if dict_mem ic r then ic else dict_set ic r 0) r (counter_of ic r + 1)).
Proof.
  unfold get_next_instance.
  assert (counter_of (if dict_mem ic r then ic else dict_set ic r 0) r = counter_of ic r)
    as ->; [|reflexivity].
  unfold counter_of, dict_mem. destruct (dict_get ic r) eqn:H; [now rewrite H|].
  now rewrite dict_get_set_same.
Qed.

Lemma counter_after_next r ic m :
  counter_of (snd (get_next_instance r ic)) m
  = if str_eqb m r then counter_of ic r + 1 else counter_of ic m.
Proof.
  rewrite get_next_instance_value. cbn [snd]. unfold counter_of.
  destruct (str_eqb m r) eqn:Em.
  - apply str_eqb_eq in Em. subst m. now rewrite dict_get_set_same.
  - apply str_eqb_neq in Em. rewrite dict_get_set_other by congruence.
    unfold dict_mem. destruct (dict_get ic r); [reflexivity|].
    now rewrite dict_get_set_other by congruence.
Qed.

(** Recording the next instance of a masked value keeps the tracking. *)
Lemma instance_tracking_step md ic stats' ms' r o c :
  instance_tracking md ic ->
  Permutation (store_instances ms')
              ((r, counter_of ic r + 1, o, c) :: store_instances (mappings md)) ->
  instance_tracking (MaskingDict ms' stats') (snd (get_next_instance r ic)).
Proof.
  intros [Hnd Hrange] Hp. cbn [mappings]. split.
  - apply (Permutation_NoDup (l := map instance_key
                                      ((r, counter_of ic r + 1, o, c)
                                         :: store_instances (mappings md)))).
    + apply Permutation_sym, Permutation_map, Hp.
    + cbn [map]. constructor; [|exact Hnd].
      intros Hin. apply in_map_iff in Hin as ([[[m i] o'] c'] & Hk & Hin).
      unfold instance_key in Hk. cbn in Hk. inversion Hk; subst.
      assert (1 <= counter_of ic r + 1 <= counter_of ic r) as Hb
          by (apply Hrange; eauto).
      lia.
  - intros m i. rewrite counter_after_next. split.
    + intros (o' & c' & Hin). apply (Permutation_in _ Hp) in Hin.
      destruct Hin as [Heq|Hin].
      * inversion Heq; subst. rewrite str_eqb_refl. lia.
      * assert (1 <= i <= counter_of ic m) as Hb by (apply Hrange; eauto).
        destruct (str_eqb m r) eqn:Em; [|exact Hb].
        apply str_eqb_eq in Em. subst m. lia.
    + intros Hb. destruct (str_eqb m r) eqn:Em.
      * apply str_eqb_eq in Em. subst m.
        destruct (N.eq_dec i (counter_of ic r + 1)) as [->|Hne].
        -- exists o, c. apply (Permutation_in _ (Permutation_sym Hp)). now left.
        -- destruct (proj2 (Hrange r i)) as (o' & c' & Hin); [lia|].
           exists o', c'. apply (Permutation_in _ (Permutation_sym Hp)). now right.
      * destruct (proj2 (Hrange m i) Hb) as (o' & c' & Hin).
        exists o', c'. apply (Permutation_in _ (Permutation_sym Hp)). now right.
Qed.

Lemma store_instances_new_record ms c cat o r :
  dict_get ms c = Some cat ->
  dict_get cat o = None ->
  Permutation (store_instances (dict_set ms c (dict_set cat o (MaskInfo r []))))
              (store_instances ms).
Proof.
  intros Hc Ho. unfold store_instances.
  assert (category_instances (c, dict_set cat o (MaskInfo r []))
          = category_instances (c, cat)) as Heq.
  { unfold category_instances. cbn [fst snd].
    rewrite flat_map_dict_set_none by exact Ho.
    unfold record_instances. cbn. now rewrite app_nil_r. }
  clear Ho. induction ms as [|[c' cat'] ms IH]; simpl in *; [discriminate|].
  destruct (str_eqb c c') eqn:Ec.
  - apply str_eqb_eq in Ec. subst c'. inversion Hc; subst cat'. simpl.
    now rewrite Heq.
  - simpl. apply Permutation_app_head. now apply IH.
Qed.

Lemma add_to_mapping_tracking md ic c o masked r md' ic' :
  instance_tracking md ic ->
  add_to_mapping md ic c o masked = Ok (r, md', ic') ->
  instance_tracking md' ic'.
Proof.
  intros Hinv H. unfold add_to_mapping in H.
  destruct (dict_get (mappings md) c) as [cat|] eqn:Hc; [|discriminate].
  destruct (dict_get cat o) as [info|] eqn:Ho.
  - pose proof (get_next_instance_value (masked_as info) ic) as Hn.
    destruct (get_next_instance (masked_as info) ic) as [n ic1] eqn:Hg.
    rewrite Ho in H. inversion H; subst r md' ic'. clear H.
    inversion Hn; subst n.
    replace (dict_set _ (masked_as info) _) with (snd (get_next_instance (masked_as info) ic))
      by now rewrite Hg.
    destruct info as [m insts]. cbn [masked_as instances] in *.
    eapply instance_tracking_step; [exact Hinv|].
    apply store_instances_add with (info := MaskInfo m insts); auto.
  - pose proof (get_next_instance_value masked ic) as Hn.
    destruct (get_next_instance masked ic) as [n ic1] eqn:Hg.
    rewrite dict_get_set_same in H. cbn [masked_as instances] in H.
    inversion H; subst r md' ic'. clear H. inversion Hn; subst n.
    replace (dict_set _ masked _) with (snd (get_next_instance masked ic))
      by now rewrite Hg.
    eapply instance_tracking_step with (o := o) (c := c); [exact Hinv|].
    rewrite dict_set_set.
    assert (Permutation
              (store_instances
                 (dict_set (dict_set (mappings md) c (dict_set cat o (MaskInfo masked [])))
                           c
                           (dict_set (dict_set cat o (MaskInfo masked [])) o
                                     (MaskInfo masked ([] ++ [counter_of ic masked + 1])))))
              ((masked, counter_of ic masked + 1, o, c)
                 :: store_instances
                      (dict_set (mappings md) c (dict_set cat o (MaskInfo masked [])))))
      as Hp.
    { apply store_instances_add with (info := MaskInfo masked []).
      - apply dict_get_set_same.
      - apply dict_get_set_same.
      - reflexivity. }
    rewrite !dict_set_set in Hp. cbn [app] in Hp. rewrite Hp.
    constructor. now apply store_instances_new_record.
Qed.

Section KeepsFacts.
Context {U : Unicode} {E : Externals} {RD : RankData}.

Lemma keeps_frames P {A} (m : M A) : frames m -> keeps P m.
Proof.
  intros Hf w a w' HP H. destruct (Hf w a w' H) as [-> ->]. exact HP.
Qed.

Lemma keeps_ret P {A} (a : A) : keeps P (ret a).
Proof. apply keeps_frames, frames_ret. Qed.

Lemma keeps_bind P {A B} (m : M A) (f : A -> M B) :
  keeps P m -> (forall a, keeps P (f a)) -> keeps P (bind m f).
Proof.
  intros Hm Hf w b w2 HP H. apply bind_inv in H as (a & w1 & H1 & H2).
  eapply Hf; [|exact H2]. eapply Hm; [exact HP|exact H1].
Qed.

Lemma frames_store_category category : frames (store_category category).
Proof.
  intros w a w' H. unfold store_category in H.
  destruct (dict_get _ _); inversion H; subst; auto.
Qed.

Lemma frames_random_digits n : frames (random_digits n).
Proof.
  induction n as [|n IH]; cbn [random_digits]; [apply frames_ret|].
  apply frames_bind; [apply frames_randint|]. intros d.
  apply frames_bind; [exact IH|]. intros r. apply frames_ret.
Qed.

Lemma keeps_raise P {A} e : keeps P (raise (A := A) e).
Proof. apply keeps_frames, frames_raise. Qed.

Lemma frames_sub_matches_random text ms : forall from,
  frames (sub_matches_random text ms from).
Proof.
  induction ms as [|m ms IH]; intros from; cbn [sub_matches_random].
  - apply frames_ret.
  - apply frames_bind; [apply frames_randint|]. intros d.
    apply frames_bind; [apply IH|]. intros rest. apply frames_ret.
Qed.

Lemma frames_mask_br_parts parts : frames (mask_br_parts parts).
Proof.
  induction parts as [|part parts IH]; cbn [mask_br_parts]; [apply frames_ret|].
  apply frames_bind.
  - unfold mask_br_part. destruct (str_eqb _ _); [apply frames_ret|].
    destruct (_ && _); [|apply frames_ret].
    destruct (re_match _ _ _); [|apply frames_ret].
    cbv zeta. apply frames_bind; [apply frames_random_digits|]. intros d.
    apply frames_ret.
  - intros p. apply frames_bind; [exact IH|]. intros ps. apply frames_ret.
Qed.

Lemma frames_shifted_date year month day : frames (shifted_date year month day).
Proof.
  unfold shifted_date. cbv zeta. apply frames_bind.
  - unfold randint_signed. apply frames_bind; [apply frames_randbelow|].
    intros x. apply frames_ret.
  - intros [negative days]. destruct (ord2ymd _) as [[new_year ?] ?].
    destruct (new_year <? 2015).
    + apply frames_bind; [apply frames_randint|]. intros d. apply frames_ret.
    + destruct (2035 <? new_year); [|apply frames_ret].
      apply frames_bind; [apply frames_randint|]. intros d. apply frames_ret.
Qed.

(** Seeding from the original and drawing leave the store alone. *)
Lemma frames_seeded cfg {A} original (draw : M A) :
  frames draw ->
  frames (seed <- lift_result (get_deterministic_seed cfg original) ;;
          random_seed seed ;;; draw).
Proof.
  intros H. apply frames_bind; [apply frames_lift_result|]. intros seed.
  apply frames_bind; [apply frames_random_seed|]. intros _. exact H.
Qed.

Lemma frames_generate_surname cfg original : frames (generate_surname cfg original).
Proof.
  unfold generate_surname. cbv zeta. destruct (is_empty original); [apply frames_raise|].
  apply frames_bind; [apply frames_lift_result|]. intros seed.
  apply frames_bind; [apply frames_random_seed|]. intros _.
  apply frames_bind; [apply frames_faker_seed|]. intros _.
  apply frames_bind; [apply frames_faker_call|]. intros fake.
  apply frames_bind; [|intros masked; apply frames_ret].
  destruct (_ <? _)%nat.
  - apply frames_bind; [apply frames_randint|]. intros t. apply frames_ret.
  - apply frames_bind; [apply frames_randint|]. intros r. apply frames_ret.
Qed.

Variable cfg : config.

(** A property of store and counters that the three ways in which the
    scripts change them preserve: [add_to_mapping], the repeat branch of
    [mask_patronymic], and the creation of a missing category. *)
Variable P : masking_dict -> counters -> Prop.
Hypothesis P_add : forall md ic c o masked r md' ic',
  P md ic -> add_to_mapping md ic c o masked = Ok (r, md', ic') -> P md' ic'.
Hypothesis P_repeat : forall md ic cat o info,
  P md ic ->
  dict_get (mappings md) (py "patronymic") = Some cat ->
  dict_get cat o = Some info ->
  P (MaskingDict
       (dict_set (mappings md) (py "patronymic")
          (dict_set cat o
             (MaskInfo (masked_as info)
                (instances info ++ [fst (get_next_instance (masked_as info) ic)]))))
       (statistics md))
    (snd (get_next_instance (masked_as info) ic)).
Hypothesis P_create : forall md ic c,
  P md ic -> dict_get (mappings md) c = None ->
  P (MaskingDict (dict_set (mappings md) c []) (statistics md)) ic.

Lemma keeps_record_mapping category original masked :
  keeps P (record_mapping category original masked).
Proof.
  intros w a w' HP H. unfold record_mapping in H.
  destruct (add_to_mapping _ _ _ _ _) as [[[r md] ic]|] eqn:Ha; [|discriminate].
  inversion H; subst. cbn [w_md w_ic]. eapply P_add; eauto.
Qed.

(** The shape every mask function but [mask_patronymic] has: generate
    without touching the store, then record. *)
Lemma keeps_then_record {A} (generate : M A) category original (f : A -> str) :
  frames generate ->
  keeps P (x <- generate ;; record_mapping category original (f x)).
Proof.
  intros H. apply keeps_bind; [now apply keeps_frames|].
  intros x. apply keeps_record_mapping.
Qed.



(** A mask function of the common shape: look the original up and record
    the stored mask again, or generate a mask and record it. *)
Lemma keeps_lookup_or_generate category original (fallback : M str) :
  keeps P fallback ->
  keeps P
    (cat <- store_category category ;;
     match dict_get cat original with
     | Some info => record_mapping category original (masked_as info)
     | None => fallback
     end).
Proof.
  intros H. apply keeps_bind; [apply keeps_frames, frames_store_category|].
  intros cat. destruct (dict_get cat original); [apply keeps_record_mapping|exact H].
Qed.

Lemma keeps_seeded_record {A} category original (draw : M A) (f : A -> str) :
  frames draw ->
  keeps P
    (seed <- lift_result (get_deterministic_seed cfg original) ;;
     random_seed seed ;;;
     x <- draw ;; record_mapping category original (f x)).
Proof.
  intros H. apply keeps_bind; [apply keeps_frames, frames_lift_result|]. intros seed.
  apply keeps_bind; [apply keeps_frames, frames_random_seed|]. intros _.
  now apply keeps_then_record.
Qed.

Lemma mask_ipn_keeps original :
  keeps P (mask_ipn cfg original).
Proof.
  unfold mask_ipn. apply keeps_lookup_or_generate.
  destruct (_ || _); [apply keeps_ret|].
  apply keeps_seeded_record with (f := fun middle => _). apply frames_random_digits.
Qed.

Lemma mask_passport_id_keeps original :
  keeps P (mask_passport_id cfg original).
Proof.
  unfold mask_passport_id. apply keeps_lookup_or_generate.
  destruct (_ || _); [apply keeps_ret|].
  apply keeps_seeded_record with (f := fun middle => _). apply frames_random_digits.
Qed.

Lemma mask_military_id_keeps original :
  keeps P (mask_military_id cfg original).
Proof.
  unfold mask_military_id. apply keeps_lookup_or_generate. cbv zeta.
  destruct (re_match _ _ _); [|apply keeps_ret].
  apply keeps_seeded_record with (f := fun middle => _). apply frames_random_digits.
Qed.

Lemma mask_military_unit_keeps original :
  keeps P (mask_military_unit cfg original).
Proof.
  unfold mask_military_unit. apply keeps_lookup_or_generate.
  destruct (re_match _ _ _); [|apply keeps_ret]. cbv zeta.
  apply keeps_seeded_record with (f := fun digits => _). apply frames_random_digits.
Qed.

Lemma mask_order_number_in_keeps category original :
  keeps P (mask_order_number_in cfg category original).
Proof.
  unfold mask_order_number_in. apply keeps_lookup_or_generate.
  apply keeps_seeded_record with (f := fun masked => masked).
  apply frames_sub_matches_random.
Qed.

Lemma mask_br_number_keeps original :
  keeps P (mask_br_number cfg original).
Proof.
  unfold mask_br_number. apply keeps_lookup_or_generate. cbv zeta.
  destruct (if starts_with _ _ then _ else _) as [prefix number_part].
  apply keeps_seeded_record with (f := fun masked_parts => _).
  apply frames_mask_br_parts.
Qed.

Lemma mask_brigade_number_keeps original :
  keeps P (mask_brigade_number cfg original).
Proof.
  unfold mask_brigade_number. apply keeps_lookup_or_generate.
  destruct (re_match _ _ _); [|apply keeps_ret]. cbv zeta.
  apply keeps_seeded_record with (f := fun n => _). apply frames_randint.
Qed.

Lemma mask_date_keeps original :
  keeps P (mask_date cfg original).
Proof.
  unfold mask_date. apply keeps_lookup_or_generate.
  destruct (re_match _ _ _); [|apply keeps_ret]. cbv zeta.
  destruct (negb _); [apply keeps_ret|].
  destruct (get_deterministic_seed cfg original) as [seed|e]; [|apply keeps_ret].
  apply keeps_bind; [apply keeps_frames, frames_random_seed|]. intros _.
  apply keeps_then_record with (f := fun new_date => _). apply frames_shifted_date.
Qed.

Lemma mask_surname_keeps original :
  keeps P (mask_surname cfg original).
Proof.
  unfold mask_surname. destruct (mem_str _ _); [apply keeps_ret|].
  apply keeps_lookup_or_generate.
  apply keeps_then_record with (f := fun masked => masked).
  apply frames_generate_surname.
Qed.


Lemma mask_name_keeps original gender_hint patronymic_hint :
  keeps P (mask_name cfg original gender_hint patronymic_hint).
Proof.
  unfold mask_name. destruct (is_empty original); [apply keeps_raise|].
  apply keeps_bind; [apply keeps_frames, frames_store_category|]. intros cat.
  apply keeps_bind; [|intros masked; apply keeps_record_mapping].
  destruct (dict_get cat original); [apply keeps_ret|].
  apply keeps_frames. apply frames_bind; [apply frames_generate_name|].
  intros r. apply frames_ret.
Qed.

Lemma ensure_category_keeps category :
  keeps P (ensure_category category).
Proof.
  intros w a w' HP H. unfold ensure_category in H.
  destruct (dict_mem _ category) eqn:Hm; inversion H; subst; [exact HP|].
  cbn [w_md w_ic]. apply P_create; [exact HP|].
  unfold dict_mem in Hm. now destruct (dict_get _ _).
Qed.

Lemma mask_patronymic_keeps patronymic gender :
  keeps P (mask_patronymic cfg patronymic gender).
Proof.
  unfold mask_patronymic. destruct (_ || _); [apply keeps_ret|]. cbv zeta.
  apply keeps_bind; [apply ensure_category_keeps|]. intros _.
  intros w a w' HP H. apply bind_inv in H as (cat & w1 & Hc & H).
  unfold store_category in Hc.
  destruct (dict_get (mappings (w_md w)) (py "patronymic")) as [cat'|] eqn:Hcat;
    [|discriminate].
  inversion Hc; subst cat' w1. clear Hc.
  destruct (dict_get cat (lower patronymic)) as [info|] eqn:Hinfo.
  - apply bind_inv in H as ([] & w1 & Hcount & H). unfold ret in H.
    inversion H; subst a w'. clear H. unfold count_patronymic in Hcount.
    pose proof (P_repeat (w_md w) (w_ic w) cat (lower patronymic) info HP Hcat Hinfo)
      as Hstep.
    destruct (get_next_instance (masked_as info) (w_ic w)) as [n ic1] eqn:Hg.
    rewrite Hcat in Hcount. inversion Hcount; subst w1. clear Hcount.
    cbn [w_md w_ic fst snd] in *. exact Hstep.
  - revert w a w' HP H Hcat.
    assert (keeps P
              (seed <- lift_result (get_deterministic_seed cfg (lower patronymic)) ;;
               random_seed seed ;;;
               faker_seed seed ;;;
               fake_patronymic <-
                 faker_call (if str_eqb gender (py "male")
                             then fk_middle_name_male else fk_middle_name_female) ;;
               record_mapping (py "patronymic") (lower patronymic)
                 (if isupper patronymic then upper fake_patronymic
                  else if (if (1 <? length patronymic)%nat
                           then first_isupper patronymic && rest_islower patronymic
                           else false)
                       then capitalize fake_patronymic
                       else lower fake_patronymic))) as Hk.
    { apply keeps_bind; [apply keeps_frames, frames_lift_result|]. intros seed.
      apply keeps_bind; [apply keeps_frames, frames_random_seed|]. intros _.
      apply keeps_bind; [apply keeps_frames, frames_faker_seed|]. intros _.
      apply keeps_then_record with (f := fun fake_patronymic => _).
      apply frames_faker_call. }
    intros w a w' HP H _. exact (Hk w a w' HP H).
Qed.

Lemma mask_rank_keeps original :
  keeps P (mask_rank cfg original).
Proof.
  unfold mask_rank. cbv zeta.
  apply keeps_bind; [apply keeps_frames, frames_store_category|]. intros ranks.
  assert (keeps P
            match get_rank_category_and_match (lower original) with
            | None => ret original
            | Some (category_name, matched) =>
              match hierarchy_of category_name with
              | None => ret original
              | Some hierarchy =>
                match index_of (lower matched) (map lower hierarchy) with
                | None => ret original
                | Some idx =>
                  g <- generate_rank cfg hierarchy idx (lower original) ;;
                  final_masked <-
                    record_mapping (py "rank") (lower original)
                      (rank_inflected (get_rank_info (lower original)) (fst (fst g))) ;;
                  ret (rank_result_case cfg original final_masked)
                end
              end
            end) as Hgen.
  { destruct (get_rank_category_and_match _) as [[category_name matched]|];
      [|apply keeps_ret].
    destruct (hierarchy_of _) as [hierarchy|]; [|apply keeps_ret].
    destruct (index_of _ _) as [idx|]; [|apply keeps_ret].
    apply keeps_bind; [apply keeps_frames, frames_generate_rank|]. intros g.
    apply keeps_bind; [apply keeps_record_mapping|]. intros fm. apply keeps_ret. }
  destruct (dict_get ranks _); [|exact Hgen].
  destruct (is_someone_else_mask _ _); [exact Hgen|].
  apply keeps_bind; [apply keeps_record_mapping|]. intros fm. apply keeps_ret.
Qed.

Lemma mask_rank_preserve_case_keeps original_text :
  keeps P (mask_rank_preserve_case cfg original_text).
Proof.
  unfold mask_rank_preserve_case.
  destruct (extract_base_rank original_text) as [base_rank_text additional_words].
  destruct (get_rank_info base_rank_text) as [[[base_male_form detected_case] gender]|].
  - destruct (is_empty base_male_form).
    + apply keeps_bind; [apply mask_rank_keeps|]. intros r. apply keeps_ret.
    + apply keeps_bind; [apply mask_rank_keeps|]. intros r. apply keeps_ret.
  - apply keeps_bind; [apply mask_rank_keeps|]. intros r. apply keeps_ret.
Qed.

Lemma mask_item_keeps text it :
  keeps P (mask_item cfg text it).
Proof.
  unfold mask_item. destruct (negb _); [apply keeps_ret|]. cbv zeta.
  repeat match goal with
         | |- keeps _ (if ?b then _ else _) => destruct b
         end;
    try apply keeps_ret;
    (apply keeps_bind; [|intros masked; apply keeps_ret]).
  - apply mask_ipn_keeps.
  - apply mask_passport_id_keeps.
  - apply mask_military_id_keeps.
  - apply mask_military_unit_keeps.
  - apply mask_brigade_number_keeps.
  - apply mask_date_keeps.
  - apply mask_order_number_in_keeps.
  - apply mask_order_number_in_keeps.
  - apply mask_br_number_keeps.
Qed.

Lemma mask_items_keeps items : forall text,
  keeps P (mask_items cfg text items).
Proof.
  induction items as [|it items IH]; intros text; cbn [mask_items]; [apply keeps_ret|].
  apply keeps_bind; [apply mask_item_keeps|]. intros text'. apply IH.
Qed.

Lemma mask_pib_keeps pib : keeps P (mask_pib cfg pib).
Proof.
  unfold mask_pib. destruct (split_ws pib) as [|p0 [|p1 rest]]; try apply keeps_ret.
  cbv zeta.
  apply keeps_bind; [apply mask_surname_keeps|]. intros ms.
  apply keeps_bind; [apply mask_name_keeps|]. intros mn.
  destruct (is_empty _); [apply keeps_ret|].
  apply keeps_bind; [apply mask_patronymic_keeps|]. intros mp. apply keeps_ret.
Qed.

Lemma mask_line_loop_keeps budget : forall current final,
  keeps P (mask_line_loop cfg budget current final).
Proof.
  induction budget as [|budget IH]; intros current final; cbn [mask_line_loop];
    [apply keeps_ret|].
  destruct (parse_hybrid_line current) as [[rank pib] identifier].
  destruct (negb (truthy pib)); [apply keeps_ret|]. cbv zeta.
  apply keeps_bind.
  - destruct (_ && _); [|apply keeps_ret].
    apply keeps_bind; [apply mask_rank_preserve_case_keeps|].
    intros r. apply keeps_ret.
  - intros [final1 current1]. apply keeps_bind.
    + destruct (MASK_NAMES cfg); [|apply keeps_ret].
      apply keeps_bind; [apply mask_pib_keeps|].
      intros [masked|]; apply keeps_ret.
    + intros [final2 current2]. apply IH.
Qed.

Lemma mask_lines_keeps lines : keeps P (mask_lines cfg lines).
Proof.
  induction lines as [|line lines IH]; cbn [mask_lines]; [apply keeps_ret|].
  apply keeps_bind.
  - unfold mask_line. destruct (negb _); [apply keeps_ret|].
    apply mask_line_loop_keeps.
  - intros masked. apply keeps_bind; [exact IH|]. intros rest. apply keeps_ret.
Qed.

Lemma mask_text_context_aware_keeps text :
  keeps P (mask_text_context_aware cfg text).
Proof.
  unfold mask_text_context_aware. cbv zeta.
  apply keeps_bind; [unfold mask_spans; apply mask_items_keeps|].
  intros text'. apply keeps_bind; [apply mask_lines_keeps|].
  intros lines. apply keeps_ret.
Qed.

End KeepsFacts.

Lemma store_instances_fresh : store_instances (mappings fresh_masking_dict) = [].
Proof. vm_compute. reflexivity. Qed.

Lemma instance_tracking_fresh : instance_tracking fresh_masking_dict empty_counters.
Proof.
  split.
  - rewrite store_instances_fresh. constructor.
  - intros m i. rewrite store_instances_fresh. unfold counter_of. cbn. split.
    + intros (o & c & []).
    + lia.
Qed.


Section StoreInvariants.
Context {U : Unicode} {E : Externals} {RD : RankData}.

Lemma add_to_mapping_mappings md ic c o masked r md' ic' :
  add_to_mapping md ic c o masked = Ok (r, md', ic') ->
  exists cat', mappings md' = dict_set (mappings md) c cat'.
Proof.
  unfold add_to_mapping. destruct (dict_get (mappings md) c) as [cat|]; [|discriminate].
  destruct (dict_get cat o) as [info|] eqn:Ho.
  - destruct (get_next_instance _ _). rewrite Ho. intros H. inversion H; subst.
    cbn [mappings]. eauto.
  - destruct (get_next_instance _ _). rewrite dict_get_set_same.
    intros H. inversion H; subst. cbn [mappings]. eauto.
Qed.

Lemma well_tracked_add md ic c o masked r md' ic' :
  well_tracked md ic -> add_to_mapping md ic c o masked = Ok (r, md', ic') ->
  well_tracked md' ic'.
Proof.
  intros [Hk Ht] H. split; [|eapply add_to_mapping_tracking; eauto].
  destruct (add_to_mapping_mappings _ _ _ _ _ _ _ _ H) as [cat' ->].
  now apply dict_set_keys_unique.
Qed.

Lemma well_tracked_repeat md ic cat o info :
  well_tracked md ic ->
  dict_get (mappings md) (py "patronymic") = Some cat ->
  dict_get cat o = Some info ->
  well_tracked
    (MaskingDict
       (dict_set (mappings md) (py "patronymic")
          (dict_set cat o
             (MaskInfo (masked_as info)
                (instances info ++ [fst (get_next_instance (masked_as info) ic)]))))
       (statistics md))
    (snd (get_next_instance (masked_as info) ic)).
Proof.
  intros [Hk Ht] Hc Ho. split; [now apply dict_set_keys_unique|].
  eapply instance_tracking_step; [exact Ht|].
  rewrite get_next_instance_value. cbn [fst].
  now apply store_instances_add with (info := info).
Qed.

Lemma well_tracked_create md ic c :
  well_tracked md ic -> dict_get (mappings md) c = None ->
  well_tracked (MaskingDict (dict_set (mappings md) c []) (statistics md)) ic.
Proof.
  intros [Hk [Hnd Hr]] Hc. split; [now apply dict_set_keys_unique|].
  unfold instance_tracking. cbn [mappings].
  assert (store_instances (dict_set (mappings md) c []) = store_instances (mappings md))
    as ->; [|split; assumption].
  unfold store_instances. rewrite flat_map_dict_set_none by exact Hc. apply app_nil_r.
Qed.

Lemma well_tracked_fresh : well_tracked fresh_masking_dict empty_counters.
Proof.
  split; [|apply instance_tracking_fresh].
  unfold keys_unique. vm_compute.
  repeat (constructor; [cbn; intuition discriminate|]). constructor.
Qed.


Lemma dict_set_length_some {V} (d : pydict V) k v v0 :
  dict_get d k = Some v0 -> length (dict_set d k v) = length d.
Proof.
  induction d as [|[k' v'] d IH]; simpl; [discriminate|].
  destruct (str_eqb k k'); simpl; [reflexivity|]. intros H. now rewrite IH.
Qed.

Lemma dict_set_length_none {V} (d : pydict V) k v :
  dict_get d k = None -> length (dict_set d k v) = S (length d).
Proof.
  induction d as [|[k' v'] d IH]; simpl; [reflexivity|].
  destruct (str_eqb k k'); simpl; [discriminate|]. intros H. now rewrite IH.
Qed.

Lemma statistics_count_add md ic c o masked r md' ic' :
  statistics_count md -> add_to_mapping md ic c o masked = Ok (r, md', ic') ->
  statistics_count md'.
Proof.
  intros Hs H c'. specialize (Hs c'). unfold add_to_mapping in H.
  unfold category_records, stat_of in *.
  destruct (dict_get (mappings md) c) as [cat|] eqn:Hc; [|discriminate].
  destruct (dict_get cat o) as [info|] eqn:Ho.
  - destruct (get_next_instance _ _). rewrite Ho in H. inversion H; subst.
    cbn [mappings statistics]. destruct (str_eqb c' c) eqn:Ec.
    + apply str_eqb_eq in Ec. subst c'. rewrite dict_get_set_same. cbn [from_option].
      rewrite Hc in Hs. cbn [from_option] in Hs.
      now rewrite (dict_set_length_some _ _ _ _ Ho).
    + apply str_eqb_neq in Ec. now rewrite dict_get_set_other by congruence.
  - destruct (get_next_instance _ _). rewrite dict_get_set_same in H.
    inversion H; subst. cbn [mappings statistics]. destruct (str_eqb c' c) eqn:Ec.
    + apply str_eqb_eq in Ec. subst c'. rewrite !dict_get_set_same. cbn [from_option].
      rewrite Hc in Hs. cbn [from_option] in Hs.
      rewrite (dict_set_length_some _ _ _ _ (dict_get_set_same _ _ _)).
      rewrite (dict_set_length_none _ _ _ Ho). unfold stat_of. lia.
    + apply str_eqb_neq in Ec. now rewrite !dict_get_set_other by congruence.
Qed.

Lemma statistics_count_repeat md cat o info info' :
  statistics_count md ->
  dict_get (mappings md) (py "patronymic") = Some cat ->
  dict_get cat o = Some info ->
  statistics_count
    (MaskingDict (dict_set (mappings md) (py "patronymic") (dict_set cat o info'))
                 (statistics md)).
Proof.
  intros Hs Hc Ho c'. specialize (Hs c'). unfold category_records, stat_of in *.
  cbn [mappings statistics]. destruct (str_eqb c' (py "patronymic")) eqn:Ec.
  - apply str_eqb_eq in Ec. subst c'. rewrite dict_get_set_same. cbn [from_option].
    rewrite Hc in Hs. cbn [from_option] in Hs.
    now rewrite (dict_set_length_some _ _ _ _ Ho).
  - apply str_eqb_neq in Ec. now rewrite dict_get_set_other by congruence.
Qed.

Lemma statistics_count_create md c :
  statistics_count md -> dict_get (mappings md) c = None ->
  statistics_count (MaskingDict (dict_set (mappings md) c []) (statistics md)).
Proof.
  intros Hs Hc c'. specialize (Hs c'). unfold category_records, stat_of in *.
  cbn [mappings statistics]. destruct (str_eqb c' c) eqn:Ec.
  - apply str_eqb_eq in Ec. subst c'. rewrite dict_get_set_same.
    now rewrite Hc in Hs.
  - apply str_eqb_neq in Ec. now rewrite dict_get_set_other by congruence.
Qed.

Lemma grows_from_refl md ic : grows_from md ic md ic.
Proof.
  split; [|intros m; lia]. intros c o info0 H. exists info0, [].
  now rewrite app_nil_r.
Qed.

Lemma grows_from_step md0 ic0 md ic md' ic' :
  grows_from md0 ic0 md ic -> grows_from md ic md' ic' -> grows_from md0 ic0 md' ic'.
Proof.
  intros [H1 C1] [H2 C2]. split.
  - intros c o info0 H0. destruct (H1 c o info0 H0) as (info1 & more1 & G1 & M1 & I1).
    destruct (H2 c o info1 G1) as (info2 & more2 & G2 & M2 & I2).
    exists info2, (more1 ++ more2). split; [exact G2|]. split; [congruence|].
    now rewrite I2, I1, app_assoc.
  - intros m. specialize (C1 m). specialize (C2 m). lia.
Qed.

Lemma grows_from_add md ic c o masked r md' ic' :
  add_to_mapping md ic c o masked = Ok (r, md', ic') -> grows_from md ic md' ic'.
Proof.
  intros H. pose proof (add_to_mapping_counters _ _ _ _ _ _ _ _ H) as (_ & _ & Hc).
  apply add_to_mapping_inv in H as (cat & Hcat & Hr & _ & _ & Hnew & Ho & Hoc).
  split; [|exact Hc]. intros c1 o1 info0 H0.
  destruct (str_eqb c1 c) eqn:Ec.
  - apply str_eqb_eq in Ec. subst c1. destruct (str_eqb o1 o) eqn:Eo.
    + apply str_eqb_eq in Eo. subst o1. unfold get_record in H0. rewrite Hcat in H0.
      rewrite H0 in Hnew, Hr. eexists _, _. split; [exact Hnew|]. cbn. auto.
    + apply str_eqb_neq in Eo. exists info0, []. rewrite Ho by exact Eo.
      now rewrite app_nil_r.
  - apply str_eqb_neq in Ec. exists info0, []. rewrite Hoc by exact Ec.
    now rewrite app_nil_r.
Qed.

Lemma grows_from_repeat md ic cat o info :
  dict_get (mappings md) (py "patronymic") = Some cat ->
  dict_get cat o = Some info ->
  grows_from md ic
    (MaskingDict
       (dict_set (mappings md) (py "patronymic")
          (dict_set cat o
             (MaskInfo (masked_as info)
                (instances info ++ [fst (get_next_instance (masked_as info) ic)]))))
       (statistics md))
    (snd (get_next_instance (masked_as info) ic)).
Proof.
  intros Hc Ho. split.
  - intros c1 o1 info0 H0. unfold get_record in *. cbn [mappings].
    destruct (str_eqb c1 (py "patronymic")) eqn:Ec.
    + apply str_eqb_eq in Ec. subst c1. rewrite dict_get_set_same. rewrite Hc in H0.
      destruct (str_eqb o1 o) eqn:Eo.
      * apply str_eqb_eq in Eo. subst o1. rewrite dict_get_set_same.
        rewrite Ho in H0. inversion H0; subst info0.
        eexists _, _. split; [reflexivity|]. cbn. auto.
      * apply str_eqb_neq in Eo. rewrite dict_get_set_other by congruence.
        exists info0, []. now rewrite app_nil_r.
    + apply str_eqb_neq in Ec. rewrite dict_get_set_other by congruence.
      exists info0, []. now rewrite app_nil_r.
  - intros m. rewrite counter_after_next. destruct (str_eqb m _) eqn:Em; [|lia].
    apply str_eqb_eq in Em. subst m. lia.
Qed.

Lemma grows_from_create md ic c :
  dict_get (mappings md) c = None ->
  grows_from md ic (MaskingDict (dict_set (mappings md) c []) (statistics md)) ic.
Proof.
  intros Hc. split; [|intros m; lia]. intros c1 o1 info0 H0.
  unfold get_record in *. cbn [mappings]. destruct (str_eqb c1 c) eqn:Ec.
  - apply str_eqb_eq in Ec. subst c1. now rewrite Hc in H0.
  - apply str_eqb_neq in Ec. rewrite dict_get_set_other by congruence.
    exists info0, []. now rewrite app_nil_r.
Qed.

(** Lookup in the instance map after one more record has been entered. *)
Lemma instance_lookup_set im mv n o m i :
  instance_lookup
    (dict_set im mv (idict_set (from_option [] (dict_get im mv)) n o)) m i
  = if str_eqb m mv && (i =? n) then Some o else instance_lookup im m i.
Proof.
  unfold instance_lookup. destruct (str_eqb m mv) eqn:Em; cbn [andb].
  - apply str_eqb_eq in Em. subst m. rewrite dict_get_set_same.
    destruct (i =? n) eqn:Ei.
    + apply N.eqb_eq in Ei. subst i. apply idict_get_set_same.
    + apply N.eqb_neq in Ei. rewrite idict_get_set_other by exact Ei.
      assert (forall g : option (idict str),
                 idict_get (from_option [] g) i
                 = match g with Some d => idict_get d i | None => None end) as Hg
          by (intros [d|]; reflexivity).
      apply Hg.
  - apply str_eqb_neq in Em. now rewrite dict_get_set_other by congruence.
Qed.

Lemma add_instances_lookup im o info m i :
  instance_lookup (add_instances im o info) m i
  = if str_eqb m (masked_as info) && existsb (N.eqb i) (instances info)
    then Some o else instance_lookup im m i.
Proof.
  unfold add_instances. cbv zeta.
  set (im0 := if dict_mem im (masked_as info) then im
              else dict_set im (masked_as info) []).
  assert (instance_lookup im0 m i = instance_lookup im m i) as <-.
  { unfold im0, dict_mem. destruct (dict_get im (masked_as info)) eqn:Hg; [reflexivity|].
    unfold instance_lookup. destruct (str_eqb m (masked_as info)) eqn:Em.
    - apply str_eqb_eq in Em. subst m. now rewrite dict_get_set_same, Hg.
    - apply str_eqb_neq in Em. now rewrite dict_get_set_other by congruence. }
  clearbody im0. revert im0.
  induction (instances info) as [|n l IH]; intros im0; cbn [fold_left existsb].
  - now rewrite andb_false_r.
  - rewrite IH, instance_lookup_set.
    destruct (str_eqb m (masked_as info)); cbn [andb]; [|reflexivity].
    destruct (existsb (N.eqb i) l); [now rewrite orb_true_r|].
    now rewrite orb_false_r.
Qed.

Lemma fold_add_instances_lookup entries : forall im m i o,
  (exists e, In e entries /\ entry_holds m i e = true /\ fst e = o) ->
  (forall e, In e entries -> entry_holds m i e = true -> fst e = o) ->
  instance_lookup
    (fold_left (fun im entry => add_instances im (fst entry) (snd entry)) entries im) m i
  = Some o.
Proof.
  induction entries as [|e entries IH] using rev_ind; intros im m i o (e0 & Hin & Hh & Ho) Hf.
  - destruct Hin.
  - rewrite fold_left_app. cbn [fold_left]. rewrite add_instances_lookup.
    fold (entry_holds m i e). destruct (entry_holds m i e) eqn:He.
    + f_equal. apply Hf; [apply in_or_app; right; now left|exact He].
    + apply IH.
      * exists e0. apply in_app_or in Hin as [Hin|[<-|[]]]; [auto|congruence].
      * intros e1 Hin1. apply Hf. apply in_or_app. now left.
Qed.

Lemma in_store_instances ms m i o c :
  In (m, i, o, c) (store_instances ms)
  <-> exists cat info, In (c, cat) ms /\ In (o, info) cat
                       /\ masked_as info = m /\ In i (instances info).
Proof.
  unfold store_instances, category_instances, record_instances. split.
  - intros H. apply in_flat_map in H as ([c' cat] & Hc & H).
    apply in_flat_map in H as ([o' info] & Ho & H).
    apply in_map_iff in H as (i' & Heq & Hi). cbn in Heq. inversion Heq; subst.
    exists cat, info. auto.
  - intros (cat & info & Hc & Ho & Hm & Hi).
    apply in_flat_map. exists (c, cat). split; [exact Hc|].
    apply in_flat_map. exists (o, info). split; [exact Ho|].
    apply in_map_iff. exists i. cbn. rewrite Hm. auto.
Qed.

Lemma existsb_eqb_in i l : existsb (N.eqb i) l = true <-> In i l.
Proof.
  rewrite existsb_exists. split.
  - intros (x & Hx & He). apply N.eqb_eq in He. now subst.
  - intros H. exists i. split; [exact H|apply N.eqb_refl].
Qed.

Lemma NoDup_map_inj {A B} (f : A -> B) l x y :
  NoDup (map f l) -> In x l -> In y l -> f x = f y -> x = y.
Proof.
  induction l as [|a l IH]; intros Hnd Hx Hy Hf; [destruct Hx|].
  cbn [map] in Hnd. inversion Hnd as [|? ? Hn Hnd']; subst.
  destruct Hx as [->|Hx], Hy as [->|Hy]; auto.
  - exfalso. apply Hn. rewrite Hf. now apply in_map.
  - exfalso. apply Hn. rewrite <- Hf. now apply in_map.
Qed.

(** The instance map of any part of the store's categories gives, for a
    recorded instance of that part, the original it was recorded for. *)
Lemma build_instance_map_lookup ms part m i o c :
  NoDup (map instance_key (store_instances ms)) ->
  (forall x, In x part -> In x ms) ->
  In (m, i, o, c) (store_instances part) ->
  instance_lookup (build_instance_map part) m i = Some o.
Proof.
  intros Hnd Hsub Hin. rewrite build_instance_map_entries.
  apply in_store_instances in Hin as (cat & info & Hc & Ho & Hm & Hi).
  apply fold_add_instances_lookup.
  - exists (o, info). split; [|split; [|reflexivity]].
    + apply in_flat_map. exists (c, cat). auto.
    + unfold entry_holds. cbn [snd]. rewrite Hm, str_eqb_refl. cbn [andb].
      now apply existsb_eqb_in.
  - intros [o' info'] Hin' Hh. cbn [fst].
    apply in_flat_map in Hin' as ([c' cat'] & Hc' & Ho'). cbn [snd] in Ho'.
    unfold entry_holds in Hh. cbn [snd] in Hh. apply andb_true_iff in Hh as [Hm' Hi'].
    apply str_eqb_eq in Hm'. apply existsb_eqb_in in Hi'.
    assert (In (m, i, o', c') (store_instances ms)) as H1.
    { apply in_store_instances. exists cat', info'. auto. }
    assert (In (m, i, o, c) (store_instances ms)) as H2.
    { apply in_store_instances. exists cat, info. auto. }
    pose proof (NoDup_map_inj instance_key _ _ _ Hnd H1 H2 eq_refl) as Heq.
    now inversion Heq.
Qed.

End StoreInvariants.

Lemma dict_get_of_in {V} (d : pydict V) k v :
  keys_unique d -> In (k, v) d -> dict_get d k = Some v.
Proof.
  unfold keys_unique. induction d as [|[k' v'] d IH]; intros Hnd Hin; [destruct Hin|].
  cbn [map fst] in Hnd. inversion Hnd as [|? ? Hn Hnd']; subst. cbn [dict_get].
  destruct Hin as [Heq|Hin].
  - inversion Heq; subst. now rewrite str_eqb_refl.
  - destruct (str_eqb k k') eqn:Ek; [|now apply IH].
    apply str_eqb_eq in Ek. subst k'. exfalso. apply Hn.
    change k with (fst (k, v)). now apply in_map.
Qed.

(** X12. [mask_text_context_aware] changes the store and the counters in three
    ways only: through [add_to_mapping], through the repeat branch of
    [mask_patronymic], and by creating a missing category, empty. A
    property of store and counters that these three preserve holds after
    masking a text whenever it held before. *)
Theorem masking_changes_the_store_in_three_ways
    {U : Unicode} {E : Externals} {RD : RankData} (cfg : config)
    (P : masking_dict -> counters -> Prop) :
  (forall md ic c o masked r md' ic',
      P md ic -> add_to_mapping md ic c o masked = Ok (r, md', ic') -> P md' ic') ->
  (forall md ic cat o info,
      P md ic ->
      dict_get (mappings md) (py "patronymic") = Some cat ->
      dict_get cat o = Some info ->
      P (MaskingDict
           (dict_set (mappings md) (py "patronymic")
              (dict_set cat o
                 (MaskInfo (masked_as info)
                    (instances info ++ [fst (get_next_instance (masked_as info) ic)]))))
           (statistics md))
        (snd (get_next_instance (masked_as info) ic))) ->
  (forall md ic c,
      P md ic -> dict_get (mappings md) c = None ->
      P (MaskingDict (dict_set (mappings md) c []) (statistics md)) ic) ->
  forall text w masked w',
    P (w_md w) (w_ic w) ->
    mask_text_context_aware cfg text w = Ok (masked, w') ->
    P (w_md w') (w_ic w').
Proof.
  intros P_add P_repeat P_create text w masked w' HP H.
  exact (mask_text_context_aware_keeps cfg P P_add P_repeat P_create text w masked w' HP H).
Qed.

(** X13. Masking a text keeps instance tracking sound: if the store
    holds every category once, no two recorded instances carry the same
    masked value and number, and the numbers recorded for each masked
    value are exactly 1 up to its counter, then all of this holds again
    after [mask_text_context_aware]. *)
Theorem masking_keeps_instance_tracking
    {U : Unicode} {E : Externals} {RD : RankData} (cfg : config) text w masked w' :
  well_tracked (w_md w) (w_ic w) ->
  mask_text_context_aware cfg text w = Ok (masked, w') ->
  well_tracked (w_md w') (w_ic w').
Proof.
  apply (mask_text_context_aware_keeps cfg well_tracked).
  - exact well_tracked_add.
  - exact well_tracked_repeat.
  - exact well_tracked_create.
Qed.

(** X14. In a store with sound instance tracking, the instance map that each
    pass of the reverse engine builds gives back, for every recorded
    instance, the original it was recorded for: the map without the
    ["rank"] category for the instances of the other categories, the map
    of the ["rank"] category alone for the instances of ranks. *)
Theorem instance_maps_recover_recorded_originals
    {U : Unicode} {RD : RankData} md ic m i o c :
  well_tracked md ic ->
  In (m, i, o, c) (store_instances (mappings md)) ->
  (c <> py "rank" ->
   instance_lookup (build_instance_map (without_rank (mappings md))) m i = Some o)
  /\ (c = py "rank" ->
      instance_lookup (build_instance_map [(py "rank", rank_records md)]) m i = Some o).
Proof.
  intros [Hk [Hnd _]] Hin. split; intros Hc.
  - apply build_instance_map_lookup with (ms := mappings md) (c := c); [exact Hnd| |].
    + intros x Hx. unfold without_rank in Hx. now apply filter_In in Hx.
    + apply in_store_instances in Hin as (cat & info & H1 & H2 & H3 & H4).
      apply in_store_instances. exists cat, info. split; [|auto].
      unfold without_rank. apply filter_In. split; [exact H1|]. cbn [fst].
      apply negb_true_iff. now apply str_eqb_neq.
  - subst c. apply in_store_instances in Hin as (cat & info & H1 & H2 & H3 & H4).
    assert (rank_records md = cat) as Hr.
    { unfold rank_records. now rewrite (dict_get_of_in _ _ _ Hk H1). }
    apply build_instance_map_lookup with (ms := mappings md) (c := py "rank");
      [exact Hnd| |].
    + intros x [<-|[]]. now rewrite Hr.
    + apply in_store_instances. exists cat, info. rewrite Hr. split; [now left|auto].
Qed.

(** X15. Masking a text keeps the statistics of the artifact in step with
    its records: if for every category the uniqueness statistic equals the
    number of originals recorded, it does so again afterwards. *)
Theorem masking_keeps_statistics_in_step
    {U : Unicode} {E : Externals} {RD : RankData} (cfg : config) text w masked w' :
  statistics_count (w_md w) ->
  mask_text_context_aware cfg text w = Ok (masked, w') ->
  statistics_count (w_md w').
Proof.
  apply (mask_text_context_aware_keeps cfg (fun md _ => statistics_count md)).
  - intros md ic c o m r md' ic'. apply statistics_count_add.
  - intros md ic cat o info Hs Hc Ho. eapply statistics_count_repeat; eauto.
  - intros md ic c. apply statistics_count_create.
Qed.

(** X16. Masking a text only adds to the store: every record it held is
    still there with the same masked value and with its instance list
    extended at the end, and no counter has gone down. *)
Theorem masking_only_adds_to_the_store
    {U : Unicode} {E : Externals} {RD : RankData} (cfg : config) text w masked w' :
  mask_text_context_aware cfg text w = Ok (masked, w') ->
  grows_from (w_md w) (w_ic w) (w_md w') (w_ic w').
Proof.
  apply (mask_text_context_aware_keeps cfg (grows_from (w_md w) (w_ic w))).
  - intros md ic c o m r md' ic' H Ha. eapply grows_from_step; [exact H|].
    eapply grows_from_add; eauto.
  - intros md ic cat o info H Hc Ho. eapply grows_from_step; [exact H|].
    now apply grows_from_repeat.
  - intros md ic c H Hc. eapply grows_from_step; [exact H|]. now apply grows_from_create.
  - apply grows_from_refl.
Qed.

Lemma masking_changes_the_store_in_three_ways_witness :
  exists masked w,
    mask_text_context_aware (E := demo_externals) (RD := demo_ranks) default_config
      (py "солдат Петренко Іван Миколайович, ІПН 1234567890") demo_world
    = Ok (masked, w)
    /\ keys_unique (mappings (w_md w)).
Proof.
  evaluate (mask_text_context_aware (E := demo_externals) (RD := demo_ranks)
              default_config (py "солдат Петренко Іван Миколайович, ІПН 1234567890")
              demo_world) as H.
  match type of H with _ = Ok (?masked, ?w) => exists masked, w end.
  split; [exact H|].
  refine (masking_changes_the_store_in_three_ways
            (E := demo_externals) (RD := demo_ranks) default_config
            (fun md _ => keys_unique (mappings md)) _ _ _ _ demo_world _ _ _ H).
  - intros md ic c o m r md' ic' Hk Ha.
    destruct (add_to_mapping_mappings _ _ _ _ _ _ _ _ Ha) as [cat' ->].
    now apply dict_set_keys_unique.
  - intros md ic cat o info Hk _ _. now apply dict_set_keys_unique.
  - intros md ic c Hk _. now apply dict_set_keys_unique.
  - exact (proj1 well_tracked_fresh).
Defined.

Lemma masking_keeps_instance_tracking_witness :
  exists masked w,
    mask_text_context_aware (E := demo_externals) (RD := demo_ranks) default_config
      (py "солдат Петренко Іван Миколайович, ІПН 1234567890") demo_world
    = Ok (masked, w)
    /\ well_tracked (w_md w) (w_ic w).
Proof.
  evaluate (mask_text_context_aware (E := demo_externals) (RD := demo_ranks)
              default_config (py "солдат Петренко Іван Миколайович, ІПН 1234567890")
              demo_world) as H.
  match type of H with _ = Ok (?masked, ?w) => exists masked, w end.
  split; [exact H|].
  exact (masking_keeps_instance_tracking
           (E := demo_externals) (RD := demo_ranks) default_config _ demo_world _ _
           well_tracked_fresh H).
Defined.

Lemma masking_keeps_statistics_in_step_witness :
  exists masked w,
    mask_text_context_aware (E := demo_externals) (RD := demo_ranks) default_config
      (py "солдат Петренко Іван Миколайович, ІПН 1234567890") demo_world
    = Ok (masked, w)
    /\ statistics_count (w_md w).
Proof.
  evaluate (mask_text_context_aware (E := demo_externals) (RD := demo_ranks)
              default_config (py "солдат Петренко Іван Миколайович, ІПН 1234567890")
              demo_world) as H.
  match type of H with _ = Ok (?masked, ?w) => exists masked, w end.
  split; [exact H|].
  refine (masking_keeps_statistics_in_step
            (E := demo_externals) (RD := demo_ranks) default_config _ demo_world _ _ _ H).
  intros c. unfold stat_of, category_records. cbn [demo_world fresh_world w_md].
  unfold fresh_masking_dict. cbn [statistics mappings dict_get from_option].
  induction store_categories as [|k ks IH]; [reflexivity|].
  cbn [map dict_get]. destruct (str_eqb c k); [reflexivity|exact IH].
Defined.

Lemma masking_only_adds_to_the_store_witness :
  exists masked w,
    mask_text_context_aware (E := demo_externals) (RD := demo_ranks) default_config
      (py "солдат Петренко Іван Миколайович, ІПН 1234567890") demo_world
    = Ok (masked, w)
    /\ grows_from (w_md demo_world) (w_ic demo_world) (w_md w) (w_ic w).
Proof.
  evaluate (mask_text_context_aware (E := demo_externals) (RD := demo_ranks)
              default_config (py "солдат Петренко Іван Миколайович, ІПН 1234567890")
              demo_world) as H.
  match type of H with _ = Ok (?masked, ?w) => exists masked, w end.
  split; [exact H|].
  exact (masking_only_adds_to_the_store
           (E := demo_externals) (RD := demo_ranks) default_config _ demo_world _ _ H).
Defined.

Lemma run_calls_well_tracked cs :
  forall md ic md' ic',
    well_tracked md ic -> run_calls cs md ic = Ok (md', ic') -> well_tracked md' ic'.
Proof.
  induction cs as [|[c o m] cs IH]; intros md ic md' ic' Hw H; cbn [run_calls] in H.
  - now inversion H; subst.
  - destruct (add_to_mapping md ic c o m) as [[[r md1] ic1]|e] eqn:H1; [|discriminate].
    eapply IH; [|exact H]. eapply well_tracked_add; [exact Hw|exact H1].
Qed.

Lemma instance_maps_recover_recorded_originals_witness :
  exists md ic,
    run_calls [Call (py "surname") (py "Іваненко") (py "Шевченко");
               Call (py "rank") (py "майор") (py "капітан");
               Call (py "surname") (py "Петренко") (py "Шевченко")]
              fresh_masking_dict empty_counters = Ok (md, ic)
    /\ instance_lookup (build_instance_map (without_rank (mappings md)))
                       (py "Шевченко") 2 = Some (py "Петренко")
    /\ instance_lookup (build_instance_map [(py "rank", rank_records md)])
                       (py "капітан") 1 = Some (py "майор").
Proof.
  evaluate (run_calls [Call (py "surname") (py "Іваненко") (py "Шевченко");
                       Call (py "rank") (py "майор") (py "капітан");
                       Call (py "surname") (py "Петренко") (py "Шевченко")]
                      fresh_masking_dict empty_counters) as H.
  pose proof (run_calls_well_tracked _ _ _ _ _ well_tracked_fresh H) as Hw.
  match type of H with _ = Ok (?md, ?ic) => exists md, ic end.
  split; [exact H|].
  split.
  - refine (proj1 (instance_maps_recover_recorded_originals (U := ucd) (RD := demo_ranks)
                     _ _ (py "Шевченко") 2 (py "Петренко") (py "surname") Hw _) _).
    + vm_compute. repeat (first [left; reflexivity | right]).
    + intros Hc. vm_compute in Hc. discriminate Hc.
  - refine (proj2 (instance_maps_recover_recorded_originals (U := ucd) (RD := demo_ranks)
                     _ _ (py "капітан") 1 (py "майор") (py "rank") Hw _) _).
    + vm_compute. repeat (first [left; reflexivity | right]).
    + reflexivity.
Defined.

(* ================================================================== *)
(** ** The reverse engine: texts without masks, counting, replacing *)
(* ================================================================== *)

Section UnmaskIdentity.
Context {U : Unicode} {RD : RankData}.

(** Every key of an instance map is the masked value of a record. *)
Lemma add_instances_keys im original info k :
  In k (map fst (add_instances im original info)) ->
  In k (map fst im) \/ k = masked_as info.
Proof.
  unfold add_instances.
  set (im0 := if dict_mem im (masked_as info) then im
              else dict_set im (masked_as info) []).
  assert (forall k, In k (map fst im0) -> In k (map fst im) \/ k = masked_as info) as H0.
  { intros k0. unfold im0. destruct (dict_mem im (masked_as info)) eqn:Hm; [tauto|].
    rewrite dict_set_keys, Hm, in_app_iff. simpl. intuition. }
  clearbody im0. revert im0 H0 k.
  induction (instances info) as [|n l IH]; intros im0 H0 k; simpl; [apply H0|].
  apply IH. intros k0. rewrite dict_set_keys.
  destruct (dict_mem im0 (masked_as info)); [apply H0|].
  rewrite in_app_iff. simpl. intros [H|[H|[]]]; [now apply H0|now right].
Qed.

Lemma fold_add_instances_keys ms c records rs im :
  In (c, records) ms ->
  (forall o info, In (o, info) rs -> In (o, info) records) ->
  (forall k, In k (map fst im) -> key_of_record ms k) ->
  forall k,
    In k (map fst (fold_left (fun im entry => add_instances im (fst entry) (snd entry))
                             rs im)) ->
    key_of_record ms k.
Proof.
  intros Hc. revert im.
  induction rs as [|[o info] rs IH]; intros im Hr H0 k; simpl; [apply H0|].
  apply IH; [intros; apply Hr; now right|].
  intros k1 Hk1. apply add_instances_keys in Hk1. destruct Hk1 as [Hk1| ->].
  - now apply H0.
  - exists c, records, o, info. repeat split; [exact Hc|apply Hr; now left].
Qed.

Lemma fold_categories_keys ms todo im :
  (forall c records, In (c, records) todo -> In (c, records) ms) ->
  (forall k, In k (map fst im) -> key_of_record ms k) ->
  forall k,
    In k (map fst (fold_left
                     (fun im category =>
                        fold_left (fun im entry => add_instances im (fst entry) (snd entry))
                                  (snd category) im) todo im)) ->
    key_of_record ms k.
Proof.
  revert im. induction todo as [|[c records] todo IH]; intros im Hsub H0 k; simpl;
    [apply H0|].
  apply IH; [intros; apply Hsub; now right|].
  apply (fold_add_instances_keys ms c records); [apply Hsub; now left|auto|exact H0].
Qed.

Lemma build_instance_map_keys ms k :
  In k (map fst (build_instance_map ms)) -> key_of_record ms k.
Proof.
  apply fold_categories_keys; [auto|simpl; tauto].
Qed.

Lemma in_without_rank c records ms :
  In (c, records) (without_rank ms) <-> In (c, records) ms /\ c <> py "rank".
Proof.
  unfold without_rank. rewrite filter_In. cbn [fst].
  split; intros [H1 H2]; split; try exact H1.
  - intros ->. now rewrite str_eqb_refl in H2.
  - destruct (str_eqb c (py "rank")) eqn:E; [|reflexivity].
    apply str_eqb_eq in E. contradiction.
Qed.

(** The generic pass on a text in which no recorded mask occurs. *)
Lemma unmask_other_data_absent text md :
  (forall c records o info,
      In (c, records) (mappings md) -> c <> py "rank" -> In (o, info) records ->
      find_all_occurrences text (masked_as info) = []) ->
  unmask_other_data text md = (text, Stats 0 0).
Proof.
  intros H. unfold unmask_other_data, schedule_all.
  rewrite schedule_absent; [reflexivity|].
  intros [k v] He. cbn [fst].
  destruct (build_instance_map_keys _ k (in_map fst _ _ He))
    as (c & records & o & info & Hc & Ho & ->).
  apply in_without_rank in Hc. destruct Hc as [Hc Hn].
  now apply (H c records o info).
Qed.

(** The rank pass with no rank recorded. *)
Lemma restore_found_rank_empty masked st f :
  rp_replacements st = [] -> restored_count (rp_stats st) = 0 ->
  let st' := restore_found_rank [] masked st f in
  rp_replacements st' = [] /\ restored_count (rp_stats st') = 0.
Proof.
  intros Hr Hs. unfold restore_found_rank.
  destruct (extract_base_rank (f_text f)) as [base_rank additional_words].
  unfold recorded_original, next_occurrence. cbn [dict_get].
  destruct (f_simple f); [cbn; tauto|].
  destruct (get_rank_info base_rank) as [[[b c] g]|]; [|cbn; tauto].
  destruct (is_empty b); cbn; tauto.
Qed.

Lemma unmask_ranks_without_records text md :
  rank_records md = [] ->
  exists skipped, unmask_ranks_gender_aware text md = (text, Stats 0 skipped).
Proof.
  intros Hr. unfold unmask_ranks_gender_aware. rewrite Hr.
  cbn [build_instance_map fold_left snd map distinct].
  set (found := sort_ascending f_start _).
  assert (forall st, rp_replacements st = [] -> restored_count (rp_stats st) = 0 ->
                     let st' := fold_left (restore_found_rank [] []) found st in
                     rp_replacements st' = [] /\ restored_count (rp_stats st') = 0) as H.
  { induction found as [|f l IH]; intros st H1 H2; simpl; [tauto|].
    destruct (restore_found_rank_empty [] st f H1 H2) as [H3 H4]. now apply IH. }
  destruct (H (RankPass [] [] (Stats 0 0)) eq_refl eq_refl) as [H1 H2].
  rewrite H1. cbn [sort_descending stable_sort fold_left].
  destruct (rp_stats _) as [r s]. cbn in H2. subst r. now exists s.
Qed.

End UnmaskIdentity.

Section SortFacts.
Context {A : Type} (le : A -> A -> bool).

Lemma insert_sorted_perm x l : Permutation (insert_sorted le x l) (x :: l).
Proof.
  induction l as [|y l IH]; simpl; [reflexivity|].
  destruct (le y x); [|reflexivity].
  rewrite IH. apply perm_swap.
Qed.

Lemma stable_sort_perm l : Permutation (stable_sort le l) l.
Proof.
  unfold stable_sort.
  assert (forall acc, Permutation (fold_left (fun acc x => insert_sorted le x acc) l acc)
                                  (acc ++ l)) as H.
  { induction l as [|x l IH]; intros acc; simpl; [now rewrite app_nil_r|].
    rewrite IH, insert_sorted_perm. now rewrite <- Permutation_middle. }
  apply (H []).
Qed.

Hypothesis le_total : forall x y, le x y = true \/ le y x = true.
Hypothesis le_trans : forall x y z, le x y = true -> le y z = true -> le x z = true.

Lemma insert_sorted_sorted x l :
  StronglySorted (fun a b => le a b = true) l ->
  StronglySorted (fun a b => le a b = true) (insert_sorted le x l).
Proof.
  induction 1 as [|y l Hs IH Hy]; simpl; [repeat constructor|].
  destruct (le y x) eqn:E.
  - constructor; [exact IH|].
    rewrite Forall_forall in *. intros z Hz.
    apply (Permutation_in _ (insert_sorted_perm x l)) in Hz.
    destruct Hz as [<-|Hz]; [exact E|now apply Hy].
  - constructor; [now constructor|].
    assert (le x y = true) as Hxy by (destruct (le_total x y); congruence).
    constructor; [exact Hxy|].
    rewrite Forall_forall in *. intros z Hz. eapply le_trans; [exact Hxy|now apply Hy].
Qed.

Lemma stable_sort_sorted l : StronglySorted (fun a b => le a b = true) (stable_sort le l).
Proof.
  unfold stable_sort.
  assert (forall acc, StronglySorted (fun a b => le a b = true) acc ->
                      StronglySorted (fun a b => le a b = true)
                        (fold_left (fun acc x => insert_sorted le x acc) l acc)) as H.
  { induction l as [|x l IH]; intros acc Ha; simpl; [exact Ha|].
    apply IH. now apply insert_sorted_sorted. }
  apply H. constructor.
Qed.

End SortFacts.

Lemma StronglySorted_weaken {A} (R R' : A -> A -> Prop) l :
  (forall a b, R a b -> R' a b) -> StronglySorted R l -> StronglySorted R' l.
Proof.
  intros H. induction 1 as [|x l Hs IH Hx]; constructor; [exact IH|].
  eapply Forall_impl; [|exact Hx]. intros; now apply H.
Qed.

Lemma sort_descending_perm {A} (key : A -> nat) l : Permutation (sort_descending key l) l.
Proof. apply stable_sort_perm. Qed.

Lemma sort_descending_sorted {A} (key : A -> nat) l :
  StronglySorted (fun a b => (key b <= key a)%nat) (sort_descending key l).
Proof.
  unfold sort_descending.
  eapply StronglySorted_weaken; [|apply stable_sort_sorted].
  - intros a b H. now apply Nat.leb_le in H.
  - intros x y. rewrite !Nat.leb_le. lia.
  - intros x y z. rewrite !Nat.leb_le. lia.
Qed.

Section ReplacementLoop.
Context {U : Unicode}.

Lemma firstn_slice (text : str) (a b : nat) :
  (a <= b)%nat -> firstn b text = firstn a text ++ slice text a b.
Proof.
  intros H. unfold slice.
  rewrite <- (firstn_skipn a (firstn b text)) at 1.
  rewrite firstn_firstn, Nat.min_l by lia. f_equal.
  now rewrite skipn_firstn_comm.
Qed.

Lemma replace_below (text : str) rs :
  forall bound suffix,
    (bound <= length text)%nat -> chain text bound rs ->
    fold_left apply_replacement rs (firstn bound text ++ suffix)
    = substituted_below text bound rs ++ suffix.
Proof.
  induction rs as [|r rs IH]; intros bound suffix Hb Hc; [reflexivity|].
  destruct Hc as ((Hlt & Hlen & Hlow) & He & Hc). cbn [fold_left substituted_below].
  rewrite (firstn_slice text (r_end r) bound) by lia.
  rewrite (firstn_slice text (r_start r) (r_end r)) by lia.
  rewrite <- ?app_assoc.
  assert (length (firstn (r_start r) text) = r_start r) as Hl1
      by (rewrite length_firstn; lia).
  assert (length (slice text (r_start r) (r_end r)) = (r_end r - r_start r)%nat) as Hl2.
  { unfold slice. rewrite length_firstn, length_skipn. lia. }
  destruct r as [s e o m]. cbn [r_start r_end r_original r_masked] in *.
  pose proof (apply_replacement_at (firstn s text) (slice text s e)
                (slice text e bound ++ suffix) o m Hlow) as Ha.
  rewrite Hl1, Hl2 in Ha. replace (s + (e - s))%nat with e in Ha by lia.
  rewrite Ha. rewrite IH by (assumption || lia).
  unfold restored_segment. cbn [r_start r_end r_original]. now rewrite <- ?app_assoc.
Qed.

Lemma substitute_between_last text asc r :
  forall from upto,
    substitute_between text from upto (asc ++ [r])
    = substitute_between text from (r_start r) asc ++ restored_segment text r
        ++ slice text (r_end r) upto.
Proof.
  induction asc as [|a asc IH]; intros from upto; cbn [app substitute_between];
    [reflexivity|].
  now rewrite IH, <- !app_assoc.
Qed.

Lemma substituted_below_ascending text rs :
  forall bound, substituted_below text bound rs = substitute_between text 0 bound (rev rs).
Proof.
  induction rs as [|r rs IH]; intros bound; cbn [substituted_below rev].
  - cbn [substitute_between]. unfold slice. cbn [skipn]. now rewrite Nat.sub_0_r.
  - now rewrite substitute_between_last, IH.
Qed.

Lemma replace_from_the_end text rs :
  chain text (length text) rs ->
  fold_left apply_replacement rs text
  = substitute_between text 0 (length text) (rev rs).
Proof.
  intros Hc.
  pose proof (replace_below text rs (length text) [] (le_n _) Hc) as H.
  rewrite firstn_all, !app_nil_r in H. rewrite H. apply substituted_below_ascending.
Qed.

Lemma chain_of_sorted text rs bound :
  Forall (in_place text) rs ->
  Forall (fun r => (r_end r <= bound)%nat) rs ->
  NoDup rs ->
  (forall a b, In a rs -> In b rs -> a <> b -> apart a b) ->
  StronglySorted (fun a b => (r_start b <= r_start a)%nat) rs ->
  chain text bound rs.
Proof.
  revert bound. induction rs as [|r rs IH]; intros bound Hp Hb Hn Ha Hs; [exact I|].
  inversion Hp as [|? ? Hr Hp']; subst. inversion Hb as [|? ? Hrb Hb']; subst.
  inversion Hn as [|? ? Hnr Hn']; subst. inversion Hs as [|? ? Hs' Hall]; subst.
  cbn [chain]. repeat split; try apply Hr; [exact Hrb|].
  apply IH; try assumption.
  - rewrite Forall_forall in *. intros r' Hr'.
    assert (r <> r') as Hne by (intros ->; contradiction).
    destruct (Ha r r' (or_introl eq_refl) (or_intror Hr') Hne) as [H|H]; [|exact H].
    pose proof (Hall r' Hr') as Hle. destruct Hr as (Hlt & _).
    destruct (Hp' r' Hr') as (Hlt' & _). lia.
  - intros a b Ha' Hb''. apply Ha; now right.
Qed.

End ReplacementLoop.

Lemma replacing_from_the_end
    {U : Unicode} (text : str) (rs : list replacement) :
  Forall (in_place text) rs ->
  ForallOrdPairs apart rs ->
  fold_left apply_replacement (sort_descending r_start rs) text
  = substitute_between text 0 (length text) (rev (sort_descending r_start rs)).
Proof.
  intros Hp Ha. apply replace_from_the_end.
  pose proof (sort_descending_perm r_start rs) as Hperm.
  assert (NoDup rs) as Hn.
  { clear Hperm. induction Ha as [|r rs Hr Ha IH]; constructor.
    - intros Hin. rewrite Forall_forall in Hr. specialize (Hr r Hin).
      inversion Hp as [|? ? (Hlt & _) _]; subst. destruct Hr; lia.
    - apply IH. now inversion Hp. }
  apply chain_of_sorted.
  - rewrite Forall_forall in *. intros r Hr. apply Hp.
    now apply (Permutation_in _ Hperm).
  - rewrite Forall_forall in *. intros r Hr.
    apply (Permutation_in _ Hperm) in Hr. now destruct (Hp r Hr) as (_ & H & _).
  - now apply (Permutation_NoDup (Permutation_sym Hperm)).
  - intros a b Hina Hinb Hne.
    apply (Permutation_in _ Hperm) in Hina, Hinb.
    destruct (ForallOrdPairs_In Ha a b Hina Hinb) as [H|[H|H]];
      [contradiction|exact H|destruct H; [now right|now left]].
  - apply sort_descending_sorted.
Qed.

(** *** Colliding originals in any store *)

Section Scheduling.
Context {U : Unicode}.









End Scheduling.




Section Accounting.
Context {U : Unicode}.

Lemma schedule_occurrences_counts occurrences :
  forall n i2o m todo stats todo' stats',
    schedule_occurrences occurrences n i2o m (todo, stats) = (todo', stats') ->
    restored_count stats' + skipped_count stats'
    = restored_count stats + skipped_count stats + N.of_nat (length occurrences)
    /\ N.of_nat (length todo') + restored_count stats
       = N.of_nat (length todo) + restored_count stats'.
Proof.
  induction occurrences as [|[s e] occurrences IH]; intros n i2o m todo stats todo' stats' H.
  - cbn [schedule_occurrences length] in *. inversion H; subst. lia.
  - cbn [schedule_occurrences] in H.
    destruct (idict_get i2o n) as [o|]; apply IH in H;
      cbn [restored_count skipped_count length] in *;
      rewrite ?length_app in H; cbn [length] in H; lia.
Qed.

Lemma schedule_fold_counts text instance_map :
  forall todo stats todo' stats',
    fold_left (fun acc entry =>
                 schedule_occurrences (find_all_occurrences text (fst entry)) 1
                                      (snd entry) (fst entry) acc)
              instance_map (todo, stats) = (todo', stats') ->
    restored_count stats' + skipped_count stats'
    = restored_count stats + skipped_count stats
      + N.of_nat (occurrences_found text instance_map)
    /\ N.of_nat (length todo') + restored_count stats
       = N.of_nat (length todo) + restored_count stats'.
Proof.
  unfold occurrences_found.
  induction instance_map as [|[m i2o] im IH]; intros todo stats todo' stats' H.
  - cbn [fold_left map list_sum fold_right] in *. inversion H; subst. lia.
  - cbn [fold_left map list_sum fold_right fst snd] in *.
    destruct (schedule_occurrences (find_all_occurrences text m) 1 i2o m (todo, stats))
      as [todo1 stats1] eqn:H1.
    apply schedule_occurrences_counts in H1. apply IH in H.
    unfold list_sum in *. rewrite Nat2N.inj_add. lia.
Qed.

Lemma schedule_all_counts text instance_map todo stats :
  schedule_all text instance_map = (todo, stats) ->
  restored_count stats + skipped_count stats
  = N.of_nat (occurrences_found text instance_map)
  /\ restored_count stats = N.of_nat (length todo).
Proof.
  intros H. apply schedule_fold_counts in H.
  cbn [restored_count skipped_count length] in H. lia.
Qed.

End Accounting.

#[export] Instance ucd_uncased_digits : UncasedDigits ucd.
Proof.
  assert (forall c, ucd_isdigit c = true ->
                    (48 <= c <= 57) \/ c = 178 \/ c = 179 \/ c = 185) as Hd.
  { intros c H. unfold ucd_isdigit, in_range in H.
    repeat (apply orb_true_iff in H as [H|H]).
    - apply andb_true_iff in H as [H1 H2]. apply N.leb_le in H1, H2. left. lia.
    - apply N.eqb_eq in H. tauto.
    - apply N.eqb_eq in H. tauto.
    - apply N.eqb_eq in H. tauto. }
  split; intros c H; apply Hd in H; cbn.
  - unfold ucd_isupper, in_range.
    destruct H as [H|[ -> |[ -> | -> ]]]; [|reflexivity..].
    repeat (apply orb_false_iff; split).
    + apply andb_false_iff. left. apply N.leb_gt. lia.
    + apply andb_false_iff. left. apply N.leb_gt. lia.
    + apply N.eqb_neq. lia.
  - unfold ucd_lower, in_range.
    destruct H as [H|[ -> |[ -> | -> ]]]; [|reflexivity..].
    assert ((65 <=? c) = false) as -> by (apply N.leb_gt; lia).
    assert ((1040 <=? c) = false) as -> by (apply N.leb_gt; lia).
    assert ((1024 <=? c) = false) as -> by (apply N.leb_gt; lia).
    assert ((c =? 1168) = false) as -> by (apply N.eqb_neq; lia).
    reflexivity.
Qed.

Lemma In_firstn {A} (n : nat) (l : list A) x : In x (firstn n l) -> In x l.
Proof. intros H. rewrite <- (firstn_skipn n l). apply in_or_app. now left. Qed.

Lemma In_skipn {A} (n : nat) (l : list A) x : In x (skipn n l) -> In x l.
Proof. intros H. rewrite <- (firstn_skipn n l). apply in_or_app. now right. Qed.

Section DigitRoundTrip.
Context {U : Unicode} {E : Externals} {UL : UnicodeLaws U} {UD : UncasedDigits U}.

Lemma isupper_digits s : forallb ch_isdigit s = true -> isupper s = false.
Proof.
  intros H. unfold isupper. apply andb_false_iff. right.
  induction s as [|c s IH]; [reflexivity|].
  cbn [forallb existsb] in *. apply andb_true_iff in H as [Hc Hs].
  now rewrite (digit_not_upper c Hc), IH.
Qed.

Lemma lower_digits s : forallb ch_isdigit s = true -> lower s = s.
Proof.
  unfold lower. induction s as [|c s IH]; [reflexivity|].
  cbn [forallb flat_map]. intros H. apply andb_true_iff in H as [Hc Hs].
  now rewrite (digit_lower c Hc), IH.
Qed.

(** [_apply_original_case] with a mask made of digits hands the original
    back when that is made of digits too. *)
Lemma apply_original_case_digits seg original :
  forallb ch_isdigit seg = true -> forallb ch_isdigit original = true ->
  _apply_original_case seg original = original.
Proof.
  intros Hs Ho. unfold _apply_original_case.
  destruct (is_empty seg || is_empty original) eqn:Ee; [reflexivity|].
  rewrite (isupper_digits seg Hs).
  assert (first_isupper seg = false) as ->.
  { unfold first_isupper. apply isupper_digits.
    destruct seg as [|c seg]; [reflexivity|].
    cbn in *. apply andb_true_iff in Hs as [-> _]. reflexivity. }
  rewrite andb_false_r. cbn [andb]. now apply lower_digits.
Qed.

(** The generic pass on a store with one record, in a category other than
    ["rank"], whose mask occurs once in the text. *)
Lemma unmask_single_record c original masked stats pre seg post :
  In c store_categories -> c <> py "rank" ->
  lower seg = lower masked ->
  find_all_occurrences (pre ++ seg ++ post) masked
  = [(length pre, length pre + length seg)%nat] ->
  unmask_other_data (pre ++ seg ++ post)
    (MaskingDict (dict_set (mappings fresh_masking_dict) c
                           [(original, MaskInfo masked [1])]) stats)
  = (pre ++ _apply_original_case seg original ++ post, Stats 1 0).
Proof.
  intros Hin Hc Hl Hocc. unfold unmask_other_data. cbn [mappings].
  rewrite build_instance_map_entries. unfold fresh_masking_dict. cbn [mappings].
  rewrite entries_of_single_category by assumption.
  cbn [fold_left fst snd]. unfold add_instances. cbn [masked_as instances dict_mem dict_get].
  cbn [dict_set fold_left]. rewrite str_eqb_refl. cbn [from_option idict_set].
  unfold schedule_all. cbn [fold_left fst snd]. rewrite Hocc.
  cbn [schedule_occurrences idict_get]. cbn [N.eqb Pos.eqb app].
  cbn [sort_descending stable_sort fold_left insert_sorted restored_count skipped_count].
  unfold sort_descending, stable_sort. cbn [fold_left insert_sorted].
  cbn [dict_get]. rewrite str_eqb_refl. cbn [from_option idict_set idict_get N.eqb Pos.eqb].
  cbn [fold_left insert_sorted]. now rewrite apply_replacement_at.
Qed.

(** What [mask_ipn] and [mask_passport_id] leave in a fresh store. *)
Lemma first_digit_record cfg c n k original g f masked w' :
  In c store_categories ->
  length original = n -> isdigit original = true ->
  (cat <- store_category c ;;
   match dict_get cat original with
   | Some info => record_mapping c original (masked_as info)
   | None =>
     if negb (Nat.eqb (length original) n) || negb (isdigit original) then ret original
     else
       seed <- lift_result (get_deterministic_seed cfg original) ;;
       random_seed seed ;;;
       middle <- random_digits k ;;
       record_mapping c original
         (str_head original 3 ++ middle ++ str_tail original 1)
   end) (fresh_world g f) = Ok (masked, w') ->
  forallb ch_isdigit masked = true
  /\ exists stats,
      w_md w' = MaskingDict (dict_set (mappings fresh_masking_dict) c
                                      [(original, MaskInfo masked [1])]) stats.
Proof.
  intros Hin Hn Hd H.
  assert (store_category c (fresh_world g f) = Ok ([], fresh_world g f)) as Hsc.
  { unfold store_category. cbn [fresh_world w_md].
    now rewrite (fresh_category_empty c Hin). }
  rewrite (bind_ok _ _ _ _ _ Hsc) in H. cbn [dict_get] in H.
  rewrite Hn, Nat.eqb_refl, Hd in H. cbn [negb orb] in H.
  apply bind_inv in H as (seed & w1 & Hseed & H).
  unfold lift_result in Hseed.
  destruct (get_deterministic_seed cfg original) as [s|]; [|discriminate].
  inversion Hseed; subst seed w1; clear Hseed.
  unfold random_seed in H. cbn [bind] in H.
  match type of H with
  | bind (random_digits k) _ ?w1 = _ =>
    destruct (random_digits_spec k w1) as (middle & w2 & Hrd & Hml & Hmf & M1 & M2 & _)
  end.
  rewrite (bind_ok _ _ _ _ _ Hrd) in H.
  unfold record_mapping in H. rewrite M1, M2 in H. cbn [w_md w_ic fresh_world] in H.
  rewrite (record_first fresh_masking_dict empty_counters c) in H
    by (try reflexivity; now apply fresh_category_empty).
  inversion H; subst masked w'; clear H. cbn [w_md]. split; [|eauto].
  apply isdigit_forallb in Hd.
  rewrite !forallb_app. unfold str_head, str_tail.
  rewrite (forallb_digits middle Hmf). cbn [andb].
  apply andb_true_iff. split; apply forallb_forall; intros x Hx;
    apply (proj1 (forallb_forall _ _) Hd).
  - exact (In_firstn 3 original x Hx).
  - exact (In_skipn (length original - 1) original x Hx).
Qed.

End DigitRoundTrip.


(** X17. [unmask_text_v2] leaves alone a text that holds no recorded mask:
    when the store has no rank recorded and none of the masked values
    recorded in the other categories occurs in the text as a whole word,
    the text comes back as it is and nothing is counted as restored,
    whatever the version of the map and whatever the tables of ranks. *)
Theorem unmask_changes_nothing_without_recorded_masks
    {U : Unicode} {RD : RankData} text md map_version :
  rank_records md = [] ->
  (forall c records o info,
      In (c, records) (mappings md) -> c <> py "rank" -> In (o, info) records ->
      find_all_occurrences text (masked_as info) = []) ->
  exists skipped, unmask_text_v2 text md map_version = (text, Stats 0 skipped).
Proof.
  intros Hr H. unfold unmask_text_v2.
  destruct (str_eqb map_version (py "v2.1")).
  - destruct (unmask_ranks_without_records text md Hr) as [s ->].
    rewrite (unmask_other_data_absent text md H). exists (s + 0). reflexivity.
  - rewrite (unmask_other_data_absent text md H). now exists 0.
Qed.

Lemma unmask_changes_nothing_without_recorded_masks_witness :
  exists skipped,
    unmask_text_v2 (RD := demo_ranks) (py "майор Петренко, наказ 123")
      (MaskingDict [(py "surname", [(py "Іваненко", MaskInfo (py "Шевченко") [1])]);
                    (py "ipn", []); (py "rank", [])] [])
      (py "v2.1")
    = (py "майор Петренко, наказ 123", Stats 0 skipped).
Proof.
  apply unmask_changes_nothing_without_recorded_masks.
  - reflexivity.
  - intros c records o info Hc _ Ho. cbn [mappings In] in Hc.
    destruct Hc as [Hc|[Hc|[Hc|[]]]]; inversion Hc; subst; cbn [In] in Ho;
      try contradiction.
    destruct Ho as [Ho|[]]. inversion Ho; subst. vm_compute. reflexivity.
Defined.

(** X18. The statistics of the generic pass account for every occurrence
    it finds: the restored and the skipped count of [unmask_other_data]
    add up to the number of places where the masked values of its
    instance map occur in the text as whole words. *)
Theorem unmask_other_data_counts_every_occurrence {U : Unicode} text md :
  let stats := snd (unmask_other_data text md) in
  restored_count stats + skipped_count stats
  = N.of_nat (occurrences_found text (build_instance_map (without_rank (mappings md)))).
Proof.
  unfold unmask_other_data.
  destruct (schedule_all _ _) as [todo stats] eqn:H. cbn [snd].
  now apply schedule_all_counts in H.
Qed.

(** X19. Replacing from the end keeps the positions valid. Let the
    replacements that [unmask_other_data] schedules have spans that are
    not empty, lie in the text, hold their mask up to case, and do not
    overlap one another. Then the text it returns is the masked text with
    every scheduled span replaced at once by its original, re-cased after
    the span by [_apply_original_case], and with everything between the
    spans copied; and the restored count is the number of replacements
    made. *)
Theorem unmask_other_data_replaces_at_once {U : Unicode} text md rs stats :
  schedule_all text (build_instance_map (without_rank (mappings md))) = (rs, stats) ->
  Forall (in_place text) rs ->
  ForallOrdPairs apart rs ->
  unmask_other_data text md
  = (substitute_between text 0 (length text) (rev (sort_descending r_start rs)), stats)
  /\ restored_count stats = N.of_nat (length rs).
Proof.
  intros Hs Hp Ha. unfold unmask_other_data.
  rewrite Hs. split; [|now apply schedule_all_counts in Hs].
  f_equal. now apply replacing_from_the_end.
Qed.

Lemma unmask_other_data_replaces_at_once_witness :
  unmask_other_data (py "Шевченко, ІПН 1239999990, та ШЕВЧЕНКО")
    (MaskingDict [(py "ipn", [(py "1234567890", MaskInfo (py "1239999990") [1])]);
                  (py "surname", [(py "петренко", MaskInfo (py "шевченко") [1]);
                                  (py "іваненко", MaskInfo (py "шевченко") [2])])] [])
  = (py "Петренко, ІПН 1234567890, та ІВАНЕНКО", Stats 3 0).
Proof.
  set (text := py "Шевченко, ІПН 1239999990, та ШЕВЧЕНКО").
  set (md := MaskingDict _ _).
  evaluate (schedule_all text (build_instance_map (without_rank (mappings md)))) as Hs.
  match type of Hs with
  | _ = (?rs, ?stats) =>
    assert (Forall (in_place text) rs) as Hp;
      [|assert (ForallOrdPairs apart rs) as Ha;
        [|rewrite (proj1 (unmask_other_data_replaces_at_once text md rs stats Hs Hp Ha))]]
  end.
  - repeat (constructor; [unfold in_place; cbn [r_start r_end r_masked];
                          split; [lia|split; [vm_compute; lia|vm_compute; reflexivity]]|]).
    constructor.
  - repeat (constructor; [repeat (constructor; [unfold apart; cbn [r_start r_end]; lia|]);
                          constructor|]).
    constructor.
  - vm_compute. reflexivity.
Defined.

(** X20. Identifiers made of digits survive the round trip. An IPN of ten
    digits, or a passport number of nine, is masked from the fresh store;
    the mask is then put into any text in which it occurs as a whole word
    at that one place. Whatever the hash, the generators, the rank tables
    and the version of the map, [unmask_text_v2] with the store the
    masking left returns the text with the original in the place of the
    mask, and counts one restoration. *)
Theorem digit_identifiers_round_trip
    {U : Unicode} {E : Externals} {RD : RankData}
    {UL : UnicodeLaws U} {UD : UncasedDigits U}
    (cfg : config) (g : rng_state) (f : fk_state)
    original masked w' pre post map_version :
  (ipn_shape original /\ mask_ipn cfg original (fresh_world g f) = Ok (masked, w'))
  \/ (length original = 9%nat /\ isdigit original = true
      /\ mask_passport_id cfg original (fresh_world g f) = Ok (masked, w')) ->
  find_all_occurrences (pre ++ masked ++ post) masked
  = [(length pre, length pre + length masked)%nat] ->
  exists skipped,
    unmask_text_v2 (pre ++ masked ++ post) (w_md w') map_version
    = (pre ++ original ++ post, Stats 1 skipped).
Proof.
  intros Hmask Hocc.
  assert (exists c, In c store_categories /\ c <> py "rank"
                    /\ forallb ch_isdigit masked = true
                    /\ forallb ch_isdigit original = true
                    /\ exists stats,
                        w_md w' = MaskingDict (dict_set (mappings fresh_masking_dict) c
                                                 [(original, MaskInfo masked [1])]) stats)
    as (c & Hin & Hc & Hdm & Hdo & stats & Hmd).
  { destruct Hmask as [[[Hl Hd] H]|(Hl & Hd & H)].
    - exists (py "ipn").
      destruct (first_digit_record cfg (py "ipn") 10 6 original g f masked w')
        as (Hdm & Hst); auto; [vm_compute; tauto|].
      repeat split; auto; [vm_compute; tauto|intros Hx; vm_compute in Hx; discriminate Hx|].
      now apply isdigit_forallb.
    - exists (py "passport_id").
      destruct (first_digit_record cfg (py "passport_id") 9 5 original g f masked w')
        as (Hdm & Hst); auto; [vm_compute; tauto|].
      repeat split; auto; [vm_compute; tauto|intros Hx; vm_compute in Hx; discriminate Hx|].
      now apply isdigit_forallb. }
  pose proof (unmask_single_record c original masked stats pre masked post
                Hin Hc eq_refl Hocc) as Hother.
  rewrite apply_original_case_digits in Hother by assumption.
  assert (rank_records (w_md w') = []) as Hr.
  { unfold rank_records. rewrite Hmd. cbn [mappings].
    rewrite dict_get_set_other by congruence.
    rewrite fresh_category_empty by (vm_compute; tauto). reflexivity. }
  unfold unmask_text_v2. destruct (str_eqb map_version (py "v2.1")).
  - destruct (unmask_ranks_without_records (pre ++ masked ++ post) (w_md w') Hr)
      as [s ->].
    rewrite Hmd, Hother. exists (s + 0). reflexivity.
  - rewrite Hmd, Hother. now exists 0.
Qed.

Lemma digit_identifiers_round_trip_witness :
  exists masked w' skipped,
    mask_ipn default_config (py "1234567890") demo_world = Ok (masked, w')
    /\ unmask_text_v2 (RD := demo_ranks)
         (py "ІПН " ++ masked ++ py ", видано") (w_md w') (py "v2.1")
       = (py "ІПН " ++ py "1234567890" ++ py ", видано", Stats 1 skipped).
Proof.
  evaluate (mask_ipn default_config (py "1234567890") demo_world) as H.
  match type of H with _ = Ok (?m, ?w) => exists m, w end.
  assert (ipn_shape (py "1234567890")) as Hshape by (split; vm_compute; reflexivity).
  match type of H with
  | _ = Ok (?m, ?w) =>
    assert (find_all_occurrences (py "ІПН " ++ m ++ py ", видано") m
            = [(length (py "ІПН "), length (py "ІПН ") + length m)%nat]) as Hocc
        by (vm_compute; reflexivity)
  end.
  destruct (digit_identifiers_round_trip (E := demo_externals) (RD := demo_ranks)
              default_config 0 0 (py "1234567890") _ _ (py "ІПН ") (py ", видано")
              (py "v2.1") (or_introl (conj Hshape H)) Hocc) as [skipped Hu].
  exists skipped. split; [exact H|exact Hu].
Defined.

(** C6, counterexample. The input ["123456789²"] does not consist of ten
    decimal digits (its last character is the superscript two, which
    [str.isdigit] accepts and which is no decimal digit), and it is not
    recorded in a fresh store; whatever the hash and the generator are,
    [mask_ipn] does not pass it through: it records a mask for it. *)
Lemma C6_counterexample_superscript_digit_is_recorded :
  length (py "123456789²") = 10%nat
  /\ forallb ch_isdecimal (py "123456789²") = false
  /\ forall (E : Externals) g f,
      get_record (w_md (fresh_world g f)) (py "ipn") (py "123456789²") = None
      /\ exists r w',
          mask_ipn default_config (py "123456789²") (fresh_world g f) = Ok (r, w')
          /\ get_record (w_md w') (py "ipn") (py "123456789²")
             = Some (MaskInfo r [1])
          /\ w_md w' <> w_md (fresh_world g f).
Proof.
  split; [vm_compute; reflexivity|]. split; [vm_compute; reflexivity|].
  intros E g f. split; [vm_compute; reflexivity|].
  assert (ipn_shape (py "123456789²")) as Hshape by (split; vm_compute; reflexivity).
  destruct (mask_ipn_shape_ok default_config (py "123456789²") (fresh_world g f)
              [] BLAKE2B eq_refl eq_refl) as (r & w' & Hr & _ & _); [|exact Hshape|].
  { intros o info H. vm_compute in H. discriminate H. }
  exists r, w'. split; [exact Hr|].
  destruct (first_digit_record default_config (py "ipn") 10 6 (py "123456789²")
              g f r w') as (_ & stats & Hmd);
    [vm_compute; tauto|vm_compute; reflexivity|vm_compute; reflexivity|exact Hr|].
  rewrite Hmd. split.
  - unfold get_record. cbn [mappings]. rewrite dict_get_set_same.
    cbn [dict_get]. now rewrite str_eqb_refl.
  - intros Heq. apply (f_equal (fun md => get_record md (py "ipn") (py "123456789²"))) in Heq.
    unfold get_record in Heq at 1. cbn [mappings] in Heq.
    rewrite dict_get_set_same in Heq. cbn [dict_get] in Heq.
    rewrite str_eqb_refl in Heq. vm_compute in Heq. discriminate Heq.
Qed.

(* ================================================================== *)
(** ** Masked formats: digit substitution and dates *)
(* ================================================================== *)

Section DigitSubstitution.
Context {U : Unicode} {E : Externals}.

Lemma finditer_digit_skip fuel pre c rest pos :
  ch_isdecimal c = false ->
  finditer_from fuel false digit (Cursor pre (c :: rest) pos) false
  = finditer_from fuel false digit (Cursor (c :: pre) rest (S pos)) false.
Proof.
  intros Hc. destruct fuel as [|fuel]; [reflexivity|].
  cbn [finditer_from c_pre c_post c_pos]. 
  destruct rest as [|c' rest];
    cbn [search_at rmatch digit advance c_post c_pre c_pos cset_mem]; now rewrite Hc.
Qed.

Lemma finditer_digit_hit fuel pre c rest pos :
  ch_isdecimal c = true ->
  finditer_from (S fuel) false digit (Cursor pre (c :: rest) pos) false
  = ReMatch pos (S pos) []
    :: finditer_from fuel false digit (Cursor (c :: pre) rest (S pos)) false.
Proof.
  intros Hc. cbn [finditer_from c_pre c_post c_pos].
  cbn [search_at rmatch digit advance c_post c_pre c_pos cset_mem]. rewrite Hc.
  unfold accept. cbn [andb c_pos m_start m_end].
  assert (Nat.eqb pos (S pos) = false) as -> by (apply Nat.eqb_neq; lia).
  reflexivity.
Qed.

Lemma slice_step (text : str) from pos c :
  (from <= pos)%nat -> nth_error text pos = Some c ->
  slice text from (S pos) = slice text from pos ++ [c].
Proof.
  intros Hle Hn. unfold slice.
  replace (S pos - from)%nat with (S (pos - from)) by lia.
  assert (nth_error (skipn from text) (pos - from) = Some c) as Hn'.
  { rewrite nth_error_skipn. now replace (from + (pos - from))%nat with pos by lia. }
  revert Hn'. generalize (skipn from text) as l. generalize (pos - from)%nat as n.
  induction n as [|n IH]; intros [|x l] H; try discriminate.
  - now inversion H.
  - cbn [firstn app]. f_equal. now apply IH.
Qed.

Lemma sub_matches_random_digits post :
  forall fuel pre from w r w',
    (length post < fuel)%nat -> (from <= length pre)%nat ->
    sub_matches_random (rev pre ++ post)
      (finditer_from fuel false digit (Cursor pre post (length pre)) false) from w
    = Ok (r, w') ->
    exists r', r = slice (rev pre ++ post) from (length pre) ++ r'
               /\ same_format post r'.
Proof.
  induction post as [|c rest IH]; intros fuel pre from w r w' Hfuel Hfrom H.
  - destruct fuel as [|fuel]; [cbn in Hfuel; lia|].
    cbn in H. inversion H; subst. exists []. split; [|constructor].
    rewrite !app_nil_r. unfold slice.
    rewrite firstn_all2; [reflexivity|].
    rewrite length_skipn, length_rev. lia.
  - assert (nth_error (rev pre ++ c :: rest) (length pre) = Some c) as Hnth.
    { rewrite nth_error_app2 by (rewrite length_rev; lia).
      now rewrite length_rev, Nat.sub_diag. }
    assert (rev pre ++ c :: rest = rev (c :: pre) ++ rest) as Htext
        by (cbn [rev]; now rewrite <- app_assoc).
    destruct (ch_isdecimal c) eqn:Hc.
    + destruct fuel as [|fuel]; [lia|].
      rewrite finditer_digit_hit in H by exact Hc.
      cbn [sub_matches_random m_start m_end] in H.
      apply bind_inv in H as (d & w1 & Hd & H).
      apply bind_inv in H as (rest' & w2 & Hrest & H).
      inversion H; subst r w'; clear H.
      destruct (randint_spec 0 9 w) as (d0 & w0 & Hd0 & Hrange & _); [lia|].
      rewrite Hd in Hd0. inversion Hd0; subst d0 w0; clear Hd0.
      rewrite Htext in Hrest.
      change (S (length pre)) with (length (c :: pre)) in Hrest.
      apply IH in Hrest as (r' & -> & Hfmt); [|cbn [length] in *; lia|lia].
      rewrite <- Htext.
      exists (str_of_N d ++ r'). split.
      * f_equal. f_equal. unfold slice at 1. now rewrite Nat.sub_diag.
      * rewrite str_of_digit by lia. cbn [app]. constructor; [|exact Hfmt].
        rewrite Hc. lia.
    + rewrite finditer_digit_skip in H by exact Hc.
      rewrite Htext in H. change (S (length pre)) with (length (c :: pre)) in H.
      apply IH in H as (r' & -> & Hfmt); [|cbn [length] in *; lia|cbn [length]; lia].
      rewrite <- Htext. exists (c :: r'). split.
      * cbn [length]. rewrite (slice_step _ from (length pre) c Hfrom Hnth).
        now rewrite <- app_assoc.
      * constructor; [now rewrite Hc|exact Hfmt].
Qed.

Lemma mask_digits_format text w r w' :
  mask_digits text w = Ok (r, w') -> same_format text r.
Proof.
  unfold mask_digits, finditer. intros H.
  apply (sub_matches_random_digits text (2 * length text + 2) [] 0%nat) in H;
    [|lia|cbn; lia].
  destruct H as (r' & -> & Hfmt). exact Hfmt.
Qed.

End DigitSubstitution.

(** X21. Substituting the digits keeps the format. For an original not
    yet recorded in its category, [mask_order_number] and
    [mask_order_number_with_letters] (and [mask_br_number_complex], the
    same body with another category) return a masked value of the
    original's length that has an ASCII digit wherever the original has a
    decimal digit and the original's own character everywhere else, and
    record it for the original. *)
Theorem digit_substitution_keeps_the_format
    {U : Unicode} {E : Externals} (cfg : config) category original w masked w' :
  get_record (w_md w) category original = None ->
  mask_order_number_in cfg category original w = Ok (masked, w') ->
  same_format original masked
  /\ exists info, get_record (w_md w') category original = Some info
                  /\ masked_as info = masked.
Proof.
  intros Hnew H. unfold mask_order_number_in in H.
  apply bind_inv in H as (cat & w0 & Hcat & H).
  unfold store_category in Hcat.
  destruct (dict_get (mappings (w_md w)) category) as [cat0|] eqn:Hc; [|discriminate].
  inversion Hcat; subst cat0 w0; clear Hcat.
  unfold get_record in Hnew. rewrite Hc in Hnew. rewrite Hnew in H.
  apply bind_inv in H as (seed & w1 & Hseed & H).
  unfold lift_result in Hseed.
  destruct (get_deterministic_seed cfg original) as [s|]; [|discriminate].
  inversion Hseed; subst seed w1; clear Hseed.
  apply bind_inv in H as ([] & w2 & Hrs & H).
  unfold random_seed in Hrs. inversion Hrs; subst w2; clear Hrs.
  apply bind_inv in H as (m & w3 & Hm & H).
  pose proof (mask_digits_format _ _ _ _ Hm) as Hfmt.
  unfold record_mapping in H.
  destruct (add_to_mapping (w_md w3) (w_ic w3) category original m)
    as [[[r md'] ic']|] eqn:Ha; [|discriminate].
  inversion H; subst masked w'; clear H. cbn [w_md].
  apply add_to_mapping_inv in Ha as (cat3 & Hc3 & Hr & _ & _ & Hrec & _).
  assert (w_md w3 = w_md w) as Hmd.
  { assert (frames (mask_digits original)) as Hf by apply frames_sub_matches_random.
    destruct (Hf _ _ _ Hm) as (Hmd & _). exact Hmd. }
  rewrite Hmd, Hc in Hc3. inversion Hc3; subst cat3. rewrite Hnew in Hr, Hrec. subst r.
  split; [exact Hfmt|]. eexists. split; [exact Hrec|reflexivity].
Qed.

Lemma digit_substitution_keeps_the_format_witness :
  exists masked w',
    mask_order_number_in default_config (py "order_number") (py "№ 123/45-к") demo_world
    = Ok (masked, w')
    /\ same_format (py "№ 123/45-к") masked.
Proof.
  evaluate (mask_order_number_in default_config (py "order_number") (py "№ 123/45-к")
              demo_world) as H.
  match type of H with _ = Ok (?m, ?w) => exists m, w end.
  split; [exact H|].
  assert (get_record (w_md demo_world) (py "order_number") (py "№ 123/45-к") = None)
    as Hnew by (vm_compute; reflexivity).
  exact (proj1 (digit_substitution_keeps_the_format (E := demo_externals) default_config
                  (py "order_number") (py "№ 123/45-к") demo_world _ _ Hnew H)).
Defined.

Lemma in_N_range lo hi x : lo <= x <= hi -> In x (N_range lo hi).
Proof.
  intros H. unfold N_range. rewrite <- (N2Nat.id x). apply in_map.
  apply in_seq. lia.
Qed.

Lemma day_counts_checked :
  forallb (fun k => day_count_ok (first_day - 30 + k))
          (N_range 0 (last_day + 60 - first_day)) = true.
Proof. vm_compute. reflexivity. Qed.

Lemma valid_dates_checked :
  forallb (fun y => forallb (fun m => forallb (valid_date_ok y m) (N_range 1 31))
                            (N_range 1 12))
          (N_range 2015 2035) = true.
Proof. vm_compute. reflexivity. Qed.

Lemma day_count_facts n y m d :
  first_day - 30 <= n <= last_day + 30 ->
  ord2ymd n = (y, m, d) ->
  ymd2ord y m d = n
  /\ (y <? 2015) = (n <? first_day)
  /\ (2035 <? y) = (last_day <? n)
  /\ (first_day <= n <= last_day ->
      is_valid_date d m y = true /\ parse_dmy (strftime_dmy (y, m, d)) = Some (y, m, d)).
Proof.
  intros H Hymd.
  assert (first_day = 735599 /\ last_day = 743268) as [Hf Hl]
      by (split; vm_compute; reflexivity).
  pose proof (proj1 (forallb_forall _ _) day_counts_checked (n - (first_day - 30))) as Hk.
  cbv beta in Hk.
  replace (first_day - 30 + (n - (first_day - 30))) with n in Hk by lia.
  assert (0 <= n - (first_day - 30) <= last_day + 60 - first_day) as Hrange by lia.
  specialize (Hk (in_N_range _ _ _ Hrange)).
  unfold day_count_ok in Hk. rewrite Hymd in Hk.
  apply andb_true_iff in Hk as [Hk H4]. apply andb_true_iff in Hk as [Hk H3].
  apply andb_true_iff in Hk as [H1 H2].
  apply N.eqb_eq in H1. apply eqb_prop in H2, H3.
  split; [exact H1|]. split; [exact H2|]. split; [exact H3|].
  intros Hin.
  assert ((first_day <=? n) && (n <=? last_day) = true) as Hb
      by (apply andb_true_iff; split; apply N.leb_le; lia).
  rewrite Hb in H4. apply andb_true_iff in H4 as [Hvalid Hparse].
  split; [exact Hvalid|].
  destruct (parse_dmy _) as [[[y' m'] d']|]; [|discriminate].
  apply andb_true_iff in Hparse as [Hparse Hd]. apply andb_true_iff in Hparse as [Hy Hm].
  apply N.eqb_eq in Hy, Hm, Hd. now subst.
Qed.

Lemma days_in_month_le year month : days_in_month year month <= 31.
Proof.
  unfold days_in_month, DAYS_IN_MONTH.
  destruct ((month =? 2) && is_leap year); [lia|].
  destruct (month =? 2); [lia|].
  destruct ((month =? 4) || (month =? 6) || (month =? 9) || (month =? 11)); lia.
Qed.

Lemma valid_date_day_count y m d :
  is_valid_date d m y = true -> first_day <= ymd2ord y m d <= last_day.
Proof.
  intros H. pose proof H as H0. unfold is_valid_date in H.
  destruct ((y <? 2015) || (2035 <? y)) eqn:Hy; [discriminate|].
  apply orb_false_iff in Hy as [Hy1 Hy2]. apply N.ltb_ge in Hy1, Hy2.
  unfold valid_ymd in H. repeat (apply andb_true_iff in H as [H ?]).
  repeat match goal with H : (_ <=? _) = true |- _ => apply N.leb_le in H end.
  pose proof (days_in_month_le y m).
  pose proof valid_dates_checked as Hall.
  rewrite forallb_forall in Hall. specialize (Hall y (in_N_range _ _ _ (conj Hy1 Hy2))).
  rewrite forallb_forall in Hall.
  specialize (Hall m (in_N_range 1 12 m ltac:(lia))).
  rewrite forallb_forall in Hall.
  specialize (Hall d (in_N_range 1 31 d ltac:(lia))).
  unfold valid_date_ok in Hall. rewrite H0 in Hall. cbn [implb] in Hall.
  apply andb_true_iff in Hall as [Ha Hb]. apply N.leb_le in Ha, Hb. lia.
Qed.

Section DateMasking.
Context {U : Unicode} {E : Externals}.

Lemma randint_signed_spec below b w :
  exists negative days w',
    randint_signed below b w = Ok ((negative, days), w')
    /\ (if negative then 1 <= days <= below else days <= b)
    /\ w_md w' = w_md w /\ w_ic w' = w_ic w.
Proof.
  unfold randint_signed, randbelow, bind, ret.
  destruct (rng_draw (w_rng w) (b + below + 1)) as [x g].
  assert (x mod (b + below + 1) < b + below + 1) by (apply N.mod_upper_bound; lia).
  set (y := x mod (b + below + 1)) in *. clearbody y.
  destruct (y <? below) eqn:Hy.
  - apply N.ltb_lt in Hy. eexists _, _, _. split; [reflexivity|]. cbn. split; [lia|auto].
  - apply N.ltb_ge in Hy. eexists _, _, _. split; [reflexivity|]. cbn. split; [lia|auto].
Qed.

Lemma shifted_date_spec year month day w d w' :
  is_valid_date day month year = true ->
  shifted_date year month day w = Ok (d, w') ->
  let '(y', m', d') := d in
  is_valid_date d' m' y' = true
  /\ parse_dmy (strftime_dmy d) = Some d
  /\ (ymd2ord year month day - 30 <= ymd2ord y' m' d' <= ymd2ord year month day + 30
      \/ (ymd2ord year month day < first_day + 30
          /\ first_day <= ymd2ord y' m' d' <= first_day + 365)
      \/ (last_day - 30 < ymd2ord year month day
          /\ last_day - 365 <= ymd2ord y' m' d' <= last_day)).
Proof.
  intros Hv H.
  assert (first_day = 735599 /\ last_day = 743268) as [Hf Hl]
      by (split; vm_compute; reflexivity).
  pose proof (valid_date_day_count _ _ _ Hv) as Hord.
  unfold shifted_date in H.
  destruct (randint_signed_spec 30 30 w) as (neg & days & w1 & Hs & Hdays & _).
  rewrite (bind_ok _ _ _ _ _ Hs) in H. cbv zeta in H.
  set (n := if neg then ymd2ord year month day - days else ymd2ord year month day + days)
    in *.
  assert (first_day - 30 <= n <= last_day + 30
          /\ ymd2ord year month day - 30 <= n <= ymd2ord year month day + 30) as [Hn Hnear]
      by (unfold n; destruct neg; lia).
  destruct (ord2ymd n) as [[y1 m1] d1] eqn:Hymd.
  destruct (day_count_facts n y1 m1 d1 Hn Hymd) as (Ho & Hlow & Hhigh & Hin).
  rewrite Hlow, Hhigh in H.
  destruct (n <? first_day) eqn:Hlo.
  - apply N.ltb_lt in Hlo.
    destruct (randint_spec 0 365 w1) as (k & w2 & Hk & Hrange & _); [lia|].
    rewrite (bind_ok _ _ _ _ _ Hk) in H. unfold ret in H.
    change (ymd2ord 2015 1 1) with first_day in H.
    destruct (ord2ymd (first_day + k)) as [[y m] dd] eqn:Hymd'.
    injection H as Hd Hw. subst d w'.
    assert (first_day - 30 <= first_day + k <= last_day + 30) as Hr by lia.
    destruct (day_count_facts _ y m dd Hr Hymd') as (Ho' & _ & _ & Hin').
    destruct (Hin' ltac:(lia)) as [Hv' Hp].
    split; [exact Hv'|]. split; [exact Hp|]. right. left. lia.
  - apply N.ltb_ge in Hlo. destruct (last_day <? n) eqn:Hhi.
    + apply N.ltb_lt in Hhi.
      destruct (randint_spec 0 365 w1) as (k & w2 & Hk & Hrange & _); [lia|].
      rewrite (bind_ok _ _ _ _ _ Hk) in H. unfold ret in H.
      change (ymd2ord 2035 12 31) with last_day in H.
      destruct (ord2ymd (last_day - k)) as [[y m] dd] eqn:Hymd'.
      injection H as Hd Hw. subst d w'.
      assert (first_day - 30 <= last_day - k <= last_day + 30) as Hr by lia.
      destruct (day_count_facts _ y m dd Hr Hymd') as (Ho' & _ & _ & Hin').
      destruct (Hin' ltac:(lia)) as [Hv' Hp].
      split; [exact Hv'|]. split; [exact Hp|]. right. right. lia.
    + apply N.ltb_ge in Hhi. unfold ret in H. injection H as Hd Hw. subst d w'.
      destruct (Hin ltac:(lia)) as [Hv' Hp].
      split; [exact Hv'|]. split; [exact Hp|]. left. lia.
Qed.

End DateMasking.

Section DateTotal.
Context {U : Unicode} {E : Externals}.

Lemma shifted_date_total year month day w :
  exists d w', shifted_date year month day w = Ok (d, w').
Proof.
  unfold shifted_date.
  destruct (randint_signed_spec 30 30 w) as (neg & days & w1 & Hs & _).
  rewrite (bind_ok _ _ _ _ _ Hs). cbv zeta.
  destruct (ord2ymd _) as [[y1 m1] d1].
  destruct (y1 <? 2015).
  - destruct (randint_spec 0 365 w1) as (k & w2 & Hk & _); [lia|].
    rewrite (bind_ok _ _ _ _ _ Hk). unfold ret. eauto.
  - destruct (2035 <? y1).
    + destruct (randint_spec 0 365 w1) as (k & w2 & Hk & _); [lia|].
      rewrite (bind_ok _ _ _ _ _ Hk). unfold ret. eauto.
    + unfold ret. eauto.
Qed.

End DateTotal.

(** X22. What [mask_date] makes of a date it has not recorded yet; it
    always returns. When its argument does not start with [DD.MM.YYYY],
    when day, month and year are not a valid date of the years 2015 to
    2035, or when the seed cannot be derived, the argument comes back
    unchanged and nothing is changed. In every other case a string
    [DD.MM.YYYY] of ASCII digits is returned and recorded that is again a
    valid date of the years 2015 to 2035; that date lies within thirty
    days of the original, unless the shift left those years, in which case
    it lies within a year of the end it left by. *)
Theorem mask_date_gives_valid_dates
    {U : Unicode} {E : Externals} (cfg : config) original w cat :
  dict_get (mappings (w_md w)) (py "date") = Some cat ->
  dict_get cat original = None ->
  match re_match false dmy_pattern original with
  | None => mask_date cfg original w = Ok (original, w)
  | Some mt =>
    let day := int_of (group original mt 1) in
    let month := int_of (group original mt 2) in
    let year := int_of (group original mt 3) in
    if is_valid_date day month year then
      match get_deterministic_seed cfg original with
      | Raise _ => mask_date cfg original w = Ok (original, w)
      | Ok _ =>
        exists masked w' y m d,
          mask_date cfg original w = Ok (masked, w')
          /\ parse_dmy masked = Some (y, m, d)
          /\ is_valid_date d m y = true
          /\ shift_window (ymd2ord year month day) (ymd2ord y m d)
          /\ get_record (w_md w') (py "date") original
             = Some (MaskInfo masked [counter_of (w_ic w) masked + 1])
      end
    else mask_date cfg original w = Ok (original, w)
  end.
Proof.
  intros Hc Hnew. unfold mask_date.
  assert (store_category (py "date") w = Ok (cat, w)) as Hsc
      by (unfold store_category; now rewrite Hc).
  rewrite (bind_ok _ _ _ _ _ Hsc), Hnew. fold dmy_pattern.
  destruct (re_match false dmy_pattern original) as [mt|]; [|reflexivity].
  cbv zeta.
  destruct (is_valid_date (int_of (group original mt 1)) (int_of (group original mt 2))
                          (int_of (group original mt 3))) eqn:Hv; [|reflexivity].
  cbn [negb].
  destruct (get_deterministic_seed cfg original) as [seed|]; [|reflexivity].
  unfold random_seed at 1. cbn [bind].
  match goal with
  | |- context [bind (shifted_date ?y ?m ?d) _ ?w1] =>
    destruct (shifted_date_total y m d w1) as ([[y' m'] d'] & w2 & Hsd);
      set (w1' := w1) in *
  end.
  rewrite (bind_ok _ _ _ _ _ Hsd).
  pose proof (shifted_date_spec _ _ _ _ _ _ Hv Hsd) as (Hv' & Hp & Hwin).
  destruct (frames_shifted_date _ _ _ _ _ _ Hsd) as [Hmd Hic].
  destruct (record_mapping_ok (py "date") original (strftime_dmy (y', m', d')) w2 cat)
    as (r & w' & Hr & Ha & _).
  { rewrite Hmd. exact Hc. }
  apply add_to_mapping_inv in Ha as (cat3 & Hc3 & Hrv & _ & _ & Hrec & _).
  rewrite Hmd in Hc3. cbn [w_md w1'] in Hc3. rewrite Hc in Hc3. injection Hc3 as <-.
  rewrite Hnew in Hrv, Hrec. subst r. rewrite Hic in Hrec. cbn [w_ic w1' app] in Hrec.
  exists (strftime_dmy (y', m', d')), w', y', m', d'.
  repeat split; assumption.
Qed.

Lemma mask_date_gives_valid_dates_witness :
  (exists masked w' y m d,
      mask_date default_config (py "15.03.2024") demo_world = Ok (masked, w')
      /\ parse_dmy masked = Some (y, m, d) /\ is_valid_date d m y = true
      /\ shift_window (ymd2ord 2024 3 15) (ymd2ord y m d))
  /\ mask_date default_config (py "31.02.2024") demo_world
     = Ok (py "31.02.2024", demo_world).
Proof.
  assert (dict_get (mappings (w_md demo_world)) (py "date") = Some []) as Hc
      by (vm_compute; reflexivity).
  split.
  - pose proof (mask_date_gives_valid_dates (E := demo_externals) default_config
                  (py "15.03.2024") demo_world [] Hc eq_refl) as H.
    evaluate (re_match false dmy_pattern (py "15.03.2024")) as Hm. rewrite Hm in H.
    cbv zeta in H.
    match type of H with
    | if is_valid_date ?d ?m ?y then _ else _ =>
      assert (d = 15 /\ m = 3 /\ y = 2024) as (Hd & Hmo & Hy)
          by (repeat split; vm_compute; reflexivity);
        rewrite Hd, Hmo, Hy in H
    end.
    assert (is_valid_date 15 3 2024 = true) as Hv by (vm_compute; reflexivity).
    rewrite Hv in H.
    evaluate (get_deterministic_seed (E := demo_externals) default_config (py "15.03.2024"))
      as Hs.
    rewrite Hs in H.
    destruct H as (masked & w' & y & m & d & H1 & H2 & H3 & H4 & _).
    exists masked, w', y, m, d. auto.
  - pose proof (mask_date_gives_valid_dates (E := demo_externals) default_config
                  (py "31.02.2024") demo_world [] Hc eq_refl) as H.
    evaluate (re_match false dmy_pattern (py "31.02.2024")) as Hm. rewrite Hm in H.
    cbv zeta in H.
    match type of H with
    | if is_valid_date ?d ?m ?y then _ else _ =>
      assert (is_valid_date d m y = false) as Hv by (vm_compute; reflexivity);
        rewrite Hv in H
    end.
    exact H.
Defined.

(* ================================================================== *)
(** ** JSON documents and the version dispatch *)
(* ================================================================== *)

Section JsonFacts.
Context {U : Unicode} {E : Externals} {RD : RankData}.
Variable cfg : config.

Lemma mask_texts_app a b w ra w1 rb w' :
  mask_texts cfg a w = Ok (ra, w1) ->
  mask_texts cfg b w1 = Ok (rb, w') ->
  mask_texts cfg (a ++ b) w = Ok (ra ++ rb, w').
Proof.
  revert w ra. induction a as [|t a IH]; intros w ra Ha Hb; cbn [mask_texts app] in *.
  - unfold ret in Ha. injection Ha as <- <-. exact Hb.
  - apply bind_inv in Ha as (m & w2 & Hm & Ha).
    apply bind_inv in Ha as (r & w3 & Hr & Ha).
    unfold ret in Ha. injection Ha as <- <-.
    rewrite (bind_ok _ _ _ _ _ Hm), (bind_ok _ _ _ _ _ (IH _ _ Hr Hb)). reflexivity.
Qed.

Lemma mask_json_recursive_leaves data : masks_leaves cfg data.
Proof.
  induction data as [| | | |items IH|members IH] using json_induction;
    intros w data' w' H; cbn [mask_json_recursive] in H.
  - unfold ret in H. injection H as <- <-. now split.
  - unfold ret in H. injection H as <- <-. now split.
  - unfold ret in H. injection H as <- <-. now split.
  - apply bind_inv in H as (m & w1 & Hm & H). unfold ret in H. injection H as <- <-.
    split; [exact I|]. cbn [strings_of mask_texts]. unfold mask_text_wrapper in Hm.
    rewrite (bind_ok _ _ _ _ _ Hm). reflexivity.
  - apply bind_inv in H as (masked & w1 & Hm & H). unfold ret in H. injection H as <- <-.
    cbn [same_shape strings_of]. revert w masked Hm.
    induction IH as [|item items Hitem _ IHitems]; intros w masked Hm.
    + unfold ret in Hm. injection Hm as <- <-. now split.
    + apply bind_inv in Hm as (item' & w2 & Hi & Hm).
      apply bind_inv in Hm as (rest' & w3 & Hrest & Hm).
      unfold ret in Hm. injection Hm as <- <-.
      destruct (Hitem _ _ _ Hi) as [Hs Ht].
      destruct (IHitems _ _ Hrest) as [Hs' Ht'].
      split; [split; assumption|]. cbn [flat_map].
      now apply (mask_texts_app _ _ _ _ w2).
  - apply bind_inv in H as (masked & w1 & Hm & H). unfold ret in H. injection H as <- <-.
    cbn [same_shape strings_of]. revert w masked Hm.
    induction IH as [|[key value] members Hvalue _ IHmembers]; intros w masked Hm.
    + unfold ret in Hm. injection Hm as <- <-. now split.
    + apply bind_inv in Hm as (value' & w2 & Hi & Hm).
      apply bind_inv in Hm as (rest' & w3 & Hrest & Hm).
      unfold ret in Hm. injection Hm as <- <-.
      destruct (Hvalue _ _ _ Hi) as [Hs Ht].
      destruct (IHmembers _ _ Hrest) as [Hs' Ht'].
      split; [repeat split; assumption|]. cbn [flat_map snd].
      now apply (mask_texts_app _ _ _ _ w2).
Qed.

Lemma mask_texts_keeps (P : masking_dict -> counters -> Prop) texts :
  (forall text, keeps P (mask_text_context_aware cfg text)) ->
  keeps P (mask_texts cfg texts).
Proof.
  intros Hk. induction texts as [|t texts IH]; cbn [mask_texts].
  - apply keeps_ret.
  - apply keeps_bind; [apply Hk|]. intros m.
    apply keeps_bind; [exact IH|]. intros r. apply keeps_ret.
Qed.

End JsonFacts.

(** X23. Masking a JSON document masks its string leaves, and nothing
    else: the document [mask_json_recursive] returns has the shape of the
    one it was given (same keys, same numbers, booleans and nulls, in the
    same places), its string leaves are those of the given document masked
    by [mask_text_context_aware] one after the other, in the order of the
    document and with the one store, and the store keeps its instance
    tracking sound. *)
Theorem mask_json_recursive_masks_the_leaves_in_order
    {U : Unicode} {E : Externals} {RD : RankData} (cfg : config) data w data' w' :
  mask_json_recursive cfg data w = Ok (data', w') ->
  same_shape data data'
  /\ mask_texts cfg (strings_of data) w = Ok (strings_of data', w')
  /\ (well_tracked (w_md w) (w_ic w) -> well_tracked (w_md w') (w_ic w')).
Proof.
  intros H. destruct (mask_json_recursive_leaves cfg data w data' w' H) as [Hs Ht].
  split; [exact Hs|]. split; [exact Ht|].
  intros Hw. refine (mask_texts_keeps cfg well_tracked _ _ w _ w' Hw Ht).
  intros text.
  exact (mask_text_context_aware_keeps cfg well_tracked well_tracked_add
           well_tracked_repeat well_tracked_create text).
Qed.

Lemma v1_pairs_of_records m : v1_pairs (records_as_values m) = [].
Proof.
  unfold v1_pairs, records_as_values.
  induction m as [|[c records] m IH]; cbn [map flat_map fst snd]; [reflexivity|].
  rewrite IH, app_nil_r. clear IH.
  induction records as [|[o info] records IH]; cbn [map flat_map fst snd app];
    [reflexivity|exact IH].
Qed.

Lemma unmask_text_v1_of_records text m :
  unmask_text_v1 text (records_as_values m) = (text, Stats 0 0).
Proof. unfold unmask_text_v1. now rewrite v1_pairs_of_records. Qed.

Lemma starts_with_app (p s : str) : starts_with (p ++ s) p = true.
Proof. induction p as [|c p IH]; [now destruct s|]. cbn. now rewrite N.eqb_refl. Qed.

Section JsonUnmask.
Context {U : Unicode} {RD : RankData}.

(** The generic pass on a text that is one occurrence of a mask under
    which two originals are recorded. *)
Lemma unmask_first_of_two c A B M md ic :
  In c store_categories -> c <> py "rank" -> A <> B ->
  run_calls [Call c A M; Call c B M] fresh_masking_dict empty_counters = Ok (md, ic) ->
  find_all_occurrences M M = [(0, length M)]%nat ->
  unmask_other_data M md = (_apply_original_case M A, Stats 1 0)
  /\ rank_records md = [].
Proof.
  intros Hin Hc Hab Hrun Hocc. split.
  - unfold unmask_other_data.
    rewrite (instance_map_after_two_calls c A B M md ic Hin Hc Hab Hrun).
    unfold schedule_all. cbn [fold_left fst snd]. rewrite Hocc.
    cbn [schedule_occurrences idict_get N.eqb Pos.eqb app restored_count skipped_count].
    unfold sort_descending, stable_sort. cbn [fold_left insert_sorted N.add Pos.add].
    pose proof (apply_replacement_at [] M [] A M eq_refl) as Ha.
    cbn [app length Nat.add] in Ha. rewrite app_nil_r in Ha. rewrite Ha.
    now rewrite app_nil_r.
  - unfold rank_records.
    rewrite (record_two fresh_masking_dict empty_counters c A B M md ic
               (fresh_category_empty c Hin) eq_refl Hab Hrun).
    rewrite dict_get_set_other by congruence.
    now rewrite fresh_category_empty by (vm_compute; tauto).
Qed.

End JsonUnmask.

Lemma mask_json_recursive_masks_the_leaves_in_order_witness :
  exists data' w',
    mask_json_recursive (E := demo_externals) (RD := demo_ranks) default_config
      (JDict [(py "id", JNumber (py "7"));
              (py "notes", JList [JStr (py "ІПН 1234567890"); JNull;
                                  JStr (py "ІПН 1234567890 та 0987654321")])])
      demo_world = Ok (data', w')
    /\ same_shape
         (JDict [(py "id", JNumber (py "7"));
                 (py "notes", JList [JStr (py "ІПН 1234567890"); JNull;
                                     JStr (py "ІПН 1234567890 та 0987654321")])])
         data'
    /\ mask_texts (E := demo_externals) (RD := demo_ranks) default_config
         [py "ІПН 1234567890"; py "ІПН 1234567890 та 0987654321"] demo_world
       = Ok (strings_of data', w')
    /\ well_tracked (w_md w') (w_ic w').
Proof.
  evaluate (mask_json_recursive (E := demo_externals) (RD := demo_ranks) default_config
              (JDict [(py "id", JNumber (py "7"));
                      (py "notes", JList [JStr (py "ІПН 1234567890"); JNull;
                                          JStr (py "ІПН 1234567890 та 0987654321")])])
              demo_world) as H.
  match type of H with _ = Ok (?d, ?w) => exists d, w end.
  split; [exact H|].
  destruct (mask_json_recursive_masks_the_leaves_in_order
              (E := demo_externals) (RD := demo_ranks) default_config _ _ _ _ H)
    as (Hs & Ht & Hw).
  split; [exact Hs|]. split; [exact Ht|].
  apply Hw. exact well_tracked_fresh.
Defined.

(** X24. The reverse engine numbers the occurrences of a masked value
    anew in every string of a JSON document. Two distinct originals [A]
    and [B] are recorded, [A] first, under one masked value [M] that occurs
    once in itself as a whole word; in a document with two strings, each
    holding [M] once, [unmask_json_recursive] writes [A] in both: [B] is
    not restored, while in one text with both occurrences it is. *)
Theorem json_leaves_restart_the_occurrence_numbers
    {U : Unicode} {RD : RankData} c A B M md ic :
  In c store_categories -> c <> py "rank" -> A <> B ->
  run_calls [Call c A M; Call c B M] fresh_masking_dict empty_counters = Ok (md, ic) ->
  find_all_occurrences M M = [(0, length M)]%nat ->
  unmask_json_recursive md (py "v2.1") (JList [JStr M; JStr M])
  = JList [JStr (_apply_original_case M A); JStr (_apply_original_case M A)].
Proof.
  intros Hin Hc Hab Hrun Hocc.
  destruct (unmask_first_of_two c A B M md ic Hin Hc Hab Hrun Hocc) as [Ho Hr].
  assert (fst (unmask_text_v2 M md (py "v2.1")) = _apply_original_case M A) as Hleaf.
  { unfold unmask_text_v2.
    assert (str_eqb (py "v2.1") (py "v2.1") = true) as -> by apply str_eqb_refl.
    destruct (unmask_ranks_without_records M md Hr) as [s ->]. now rewrite Ho. }
  cbn [unmask_json_recursive map].
  assert (starts_with (py "v2.1") (py "v2") = true) as -> by (vm_compute; reflexivity).
  now rewrite Hleaf.
Qed.

Lemma json_leaves_restart_the_occurrence_numbers_witness :
  exists md ic,
    run_calls [Call (py "surname") (py "петренко") (py "шевченко");
               Call (py "surname") (py "іваненко") (py "шевченко")]
              fresh_masking_dict empty_counters = Ok (md, ic)
    /\ unmask_json_recursive (RD := demo_ranks) md (py "v2.1")
         (JList [JStr (py "шевченко"); JStr (py "шевченко")])
       = JList [JStr (py "петренко"); JStr (py "петренко")]
    /\ fst (unmask_text_v2 (RD := demo_ranks) (py "шевченко, шевченко") md (py "v2.1"))
       = py "петренко, іваненко".
Proof.
  evaluate (run_calls [Call (py "surname") (py "петренко") (py "шевченко");
                       Call (py "surname") (py "іваненко") (py "шевченко")]
                      fresh_masking_dict empty_counters) as H.
  match type of H with _ = Ok (?md, ?ic) => exists md, ic end.
  split; [exact H|]. split; [|vm_compute; reflexivity].
  assert (In (py "surname") store_categories) as Hin by (vm_compute; tauto).
  assert (py "surname" <> py "rank") as Hc by (intros Hx; vm_compute in Hx; discriminate Hx).
  assert (py "петренко" <> py "іваненко") as Hab
      by (intros Hx; vm_compute in Hx; discriminate Hx).
  assert (find_all_occurrences (py "шевченко") (py "шевченко")
          = [(0, length (py "шевченко"))]%nat) as Hocc by (vm_compute; reflexivity).
  pose proof (json_leaves_restart_the_occurrence_numbers (RD := demo_ranks)
                (py "surname") (py "петренко") (py "іваненко") (py "шевченко") _ _
                Hin Hc Hab H Hocc) as Hj.
  assert (_apply_original_case (py "шевченко") (py "петренко") = py "петренко") as Hcase
      by (vm_compute; reflexivity).
  rewrite Hcase in Hj. exact Hj.
Defined.

(** X25. How the text branch of [main] of the unmasking script chooses
    the engine, for an artifact whose categories hold records. A version
    that starts with "2.2" or "2.1" runs both passes of [unmask_text_v2]; a
    version that starts with "2.0" runs the generic pass only; any other
    version, or none, runs [unmask_text_v1], which finds no string value to
    replace and hands the text back unchanged, counting nothing. *)
Theorem unmask_text_by_version
    {U : Unicode} {RD : RankData} version md text :
  let v := from_option (py "1.0.0") version in
  (starts_with v (py "2.2") || starts_with v (py "2.1") = true ->
   main_text_branch version md text = unmask_text_v2 text md (py "v2.1"))
  /\ (starts_with v (py "2.2") || starts_with v (py "2.1") = false ->
      starts_with v (py "2.0") = true ->
      main_text_branch version md text = unmask_other_data text md)
  /\ (starts_with v (py "2.2") || starts_with v (py "2.1") = false ->
      starts_with v (py "2.0") = false ->
      main_text_branch version md text = (text, Stats 0 0)).
Proof.
  cbv zeta. unfold main_text_branch, check_mapping_version.
  repeat split.
  - intros ->.
    assert (starts_with (py "v2.1") (py "v2") = true) as -> by (vm_compute; reflexivity).
    reflexivity.
  - intros -> ->.
    assert (starts_with (py "v2.0") (py "v2") = true) as -> by (vm_compute; reflexivity).
    unfold unmask_text_v2.
    assert (str_eqb (py "v2.0") (py "v2.1") = false) as -> by (vm_compute; reflexivity).
    reflexivity.
  - intros -> ->.
    assert (starts_with (py "v1") (py "v2") = false) as -> by (vm_compute; reflexivity).
    apply unmask_text_v1_of_records.
Qed.

Lemma unmask_text_by_version_witness :
  main_text_branch (RD := demo_ranks) (Some (py "2.3.0"))
    (MaskingDict [(py "surname", [(py "петренко", MaskInfo (py "шевченко") [1])])] [])
    (py "шевченко")
  = (py "шевченко", Stats 0 0).
Proof.
  apply (proj2 (proj2 (unmask_text_by_version (RD := demo_ranks) (Some (py "2.3.0"))
                         (MaskingDict [(py "surname",
                                        [(py "петренко", MaskInfo (py "шевченко") [1])])] [])
                         (py "шевченко")))); vm_compute; reflexivity.
Defined.
